(* ===== verification/_CoqProject ===== *)
-Q . S2P
Prelude.v
Tasks.v
Text.v
Externals.v
Message.v
Wildmat.v
Config.v
Settings.v
Listen.v
Limits.v
Auth.v
SqliteAuth.v
Accounts.v
Tracker.v
Storage.v
SqliteStorage.v
PgStorage.v
Catalogue.v
PgAuth.v
Responses.v
Session.v
Wire.v
Control.v
Milter.v
Filters.v
CustomFilters.v
Retention.v
Queue.v
Workers.v
Context.v
ArticleHandlers.v
GroupHandlers.v
PostHandlers.v
Server.v
Served.v
Turns.v
Replies.v
Company.v
Overviews.v
Peers.v
Admin.v
Reload.v
Lifecycle.v
System.v
Interleave.v
Delivery.v
Slots.v
Transfers.v
Network.v
Quota.v
Awaits.v
Waiting.v
