(* ===== verification/Prelude.v ===== *)
(** * renews: a verification development

    renews is an NNTP news server.  A client connects, logs in if it wants to, reads
    articles by Message-ID or by their number in a newsgroup, and posts or transfers new
    ones; received articles are validated, put in a queue, and stored by workers; control
    messages cancel articles and create or remove groups; old articles are expired; articles
    are offered to peer servers; an administrator manages groups and users from the command
    line and changes settings with a reload.  This library models that program from its Rust
    sources (under [src/src/]) as executable functions, and proves what it does.

    ** How the program is modelled

    Text is the list of its Unicode code points; bytes appear where the code works on bytes
    (lengths, the wire, hashes).  Machine integers are [N] or [Z] with the wrap-around, the
    saturation or the checked operation the source uses.  A function that can fail returns a
    [result]; one that works on shared state is a computation [M S A = S -> outcome A * S],
    whose outcome is a value ([Ret]), an error passed up by [?] ([Fail]), a panic ([Panic])
    or waiting for ever ([Stuck]).  An error or a panic keeps the changes already made, as
    the code does.  An [await] is a point where other connections may run; a computation
    describes a run in which nothing else touches the same state.

    The running server is modelled twice.  In [System.v] a step is one command of one
    connection, one article of one worker, one pass of a task: a connection opens, a
    connection runs one command, a worker takes or finishes an article, the clean-up, the
    persistence of usage, a reload - and steps come in any order.  In [Interleave.v] all of
    these are cut at their calls: every command is a task ([Tasks.v], [Turns.v]) whose turns
    are single calls of the store, the accounts, the tracker, the queue or the connection,
    obtained from the definition of the command itself and equal to it when nothing comes in
    between; a move of the server is one turn of one task.  Every state of [System.v] is
    reached there (lemma [unbroken_runs_interleaved]).  The safety of the server is proved
    there ([interleaved_safe]): what a task knows of the stores and of its client is a [World]
    ([Turns.v]), which every turn of its own keeps and the turns of others only add to, so that
    what was true when it was looked up can be said of the moment of the run it was looked up
    at.  What POST, IHAVE and TAKETHIS do when anything happens between their turns is stated
    on the list of their turns, each with the state before and after it ([amid], [ran] of
    [Tasks.v]; [post_among_others], [transfers_among_others] of [Company.v];
    [party_in_company]: a command in the running server is such a task).  The theorems about
    deliveries and connection slots ([acknowledged_article_stored],
    [server_connections_counted], [rename_frees_slot]) are about the runs of [System.v], in
    which a connection takes its leave in one step; [disconnect_race] shows what the three
    critical sections of [disconnect] allow.
    What is still one turn - a method of the tracker, an operation of a store - is taken
    apart where that shows something: the tracker's counters ([disconnect_race],
    [concurrent_transfers]), two stores at once (lemma [concurrent_stores_collide] of
    [SqliteStorage.v]).  What every
    task waits for and holds meanwhile is in [Awaits.v] and [Waiting.v].

    The crates the server calls (regular expressions, dates, hashes, passwords, OpenPGP,
    JSON, HTTP, Base64, random numbers) are the fields of the class [Ext] of
    [Externals.v]; what is relied on is stated there as classes of laws, and the module
    [Toy] is a concrete instance on which the witnesses run.  Code the server only talks to
    is a class too: an external milter ([MilterNet] of [Milter.v]), a peer server ([PeerNet]
    of [Peers.v]), the scheduler ([Cron] of [Reload.v]), the collation and the time stamps of
    PostgreSQL ([Collation] of [PgStorage.v], [PgTime] of [PgAuth.v]), the captures of a
    regular expression and the TOML parser ([Captures], [TomlParser] of [Settings.v]), sockets
    ([Sockets] of [Listen.v]), databases and TLS ([Databases], [Tls] of [Lifecycle.v]), the
    lower case of Unicode ([Lowercase] of [CustomFilters.v]), and whom a lock of tokio lets in
    ([LockPolicy] of [Waiting.v]).

    The storage and authentication traits of the source are the classes [Storage] and
    [AuthProvider]: the handlers and their theorems use only these and the laws
    [StorageLaws].  Both stores, SQLite and PostgreSQL, satisfy the laws, and both refine an
    abstract catalogue of articles ([Catalogue.v]); both authentication back ends implement
    the same abstract accounts ([Accounts.v]).

    ** The files

    - [Prelude]: text, machine integers, [result], the monad [M] and its laws, the relations
      [keeps], [moves] and [agree] (what a computation leaves alone, how it may move its
      state, when two do the same), the hint databases and tactics.
    - [Tasks]: computations cut into turns, and what such a task comes to when others have
      turns in between ([along], [amid]).
    - [Text]: the string functions of Rust's standard library that the source calls.
    - [Externals]: the third-party functions, their laws, the instance [Toy].
    - [Message] ([parse.rs], [storage/common.rs], [overview.rs], [handlers/utils.rs]):
      commands, articles, headers, ranges, dates, Message-ID escaping.
    - [Wildmat] ([wildmat.rs]): from a glob to a regular expression.
    - [Config] ([config.rs]): sizes, durations, group rules, the update on a reload.
      [Settings] ([config.rs]): from the file, with its placeholders, to the settings with
      their defaults; the static and the dynamic part.
    - [Listen] ([server.rs], [ws.rs]): socket addresses as the standard library reads them,
      what a listener binds, the WebSocket bridge.
    - [Limits], [Tracker] ([limits/]): per-user limits, connection and bandwidth counts.
      [Quota]: transfers of one user at once.
    - [Auth] ([auth/mod.rs]), [SqliteAuth] ([auth/sqlite.rs]), [PgAuth] ([auth/postgres.rs]):
      accounts; the SQL tables are finite maps and each SQL statement is a function on them,
      foreign keys included.  [Accounts]: the abstract accounts they implement.
    - [Storage] ([storage/mod.rs]), [SqliteStorage] ([storage/sqlite.rs]), [PgStorage]
      ([storage/postgres.rs]): the article store.  [Catalogue]: the abstract store they refine.
    - [Responses], [Session] ([responses.rs], [error.rs], [session.rs]).
    - [Wire] ([handlers/utils.rs]): reading lines and articles, dot-stuffing.
    - [Control] ([control.rs], [auth/pgp_discovery.rs]): control messages.
    - [Milter], [Filters] ([filters/]): validation of articles.  [CustomFilters]
      ([examples/filters/]): the example of further filters.
    - [Retention] ([retention.rs]), [Queue], [Workers] ([queue.rs]): expiry, the bounded
      queue, the pool of workers as turns of its members and of everybody else.
    - [Context] ([handlers/mod.rs], [handlers/utils.rs]): the state of a handler, the
      relation [served] every handler moves it along (what may happen to the stores, the
      queue, the tracker and the session), and [steady], which all but a login keep to: no
      connection is counted and nobody logs in.
    - [ArticleHandlers], [GroupHandlers], [PostHandlers], [Server] ([handlers/], [lib.rs]):
      one definition per command, dispatch, the connection loop.
    - [Served]: theorems about whole connections.  [Turns]: the commands cut into turns.
      [Replies]: what the commands answer.  [Company]: POST, IHAVE and TAKETHIS among others.
      [Overviews] ([overview.rs], [handlers/article.rs]): what OVER, HDR and XPAT answer, and
      what a client reads in an overview line.
    - [Peers] ([peers.rs]): peer addresses, the dialogue, a synchronisation pass.
    - [Admin] ([main.rs]): the administration commands and what they print.
    - [Reload] ([server.rs]): the jobs of the peers.  [Lifecycle] ([server.rs], [main.rs]):
      opening, starting, reloading and shutting down the server.
    - [System] ([lib.rs], [server.rs]): the connections and tasks together.  [Interleave]: the
      same, one turn at a time.  [Delivery]: the
      system as a run of the pool, from a POST to the store.  [Slots]: the connections
      counted over the whole server.  [Transfers]: what IHAVE and TAKETHIS take, and two
      servers of which one is the other's peer.  [Network] ([peers.rs], [handlers/streaming.rs],
      [lib.rs]): any number of servers that are each other's peers.
    - [Awaits] ([handlers/], [queue.rs], [server.rs], [lib.rs], [limits/tracker.rs]): every
      task as the list of its [await]s, with the guards it holds at each, and the order of
      locks they keep.  [Waiting]: these tasks together, with the locks and the queue.

    ** What the theorems show

    - The whole server: in every state reached by turns in any order the store is well formed,
      the accounts changed in keys and usage only, and the queue is bounded; every article
      queued or in a worker's hands passed its checks against the stores and a configuration of
      moments of the run; a session has the policy it was opened with, and is logged in, or an
      administrator's, only by a name and a password its own client sent and the back end found
      right at a moment of the run ([interleaved_safe]; without a break: lemma [server_safe]).
      An article a POST acknowledged is taken and finished by a worker, if no worker is starved
      ([acknowledged_article_stored]).  With one command, or leave-taking, after the other the
      limit on connections holds as long as nobody who is logged in sends AUTHINFO USER
      ([server_connections_counted]), and that command defeats it ([rename_frees_slot]).
      No circle of tasks waits for locks or the queue ([no_deadlock]), but a client that does
      not read a refusal holds up a reload and everybody behind it ([unread_refusal_stalls]).
    - Connections: the command loop ends ([client_loop_ends]).  Lemmas: a connection by itself
      ([connection_safe]); when the connection slot is given back and when it leaks
      ([connection_given_back]).
    - Commands: whatever others do meanwhile, POST, IHAVE and TAKETHIS validate the article
      their client sent, then (a transfer) store it, then hand it to the queue, once, and only
      then acknowledge it, or refuse it and leave the queue alone ([post_among_others],
      [transfers_among_others]; without a break: lemmas [post_outcome], [transfers_received];
      an article that two clients offer at once is stored twice: example [offered_twice]); the
      exact answer and effect of the retrieval commands, GROUP, NEXT and LAST
      ([retrieval_reply], [group_reply], [navigation_reply]; lemma [limited_retrieval]); on a
      range, OVER answers what HDR does for the announced fields, read back exactly where no
      field has a tab ([overview_reply]), and XPAT the matching lines of HDR ([header_reply]),
      while a closed range of 2^60 and more numbers makes all three panic; lemma: NEWNEWS and
      LIST ACTIVE swap pattern and text ([pattern_lists_nothing]).
    - Article stores: the invariant of the SQL tables under every operation, with every stored
      message read back, and the effect of storing row by row ([storage_integrity],
      [store_article_effect]); both stores refine the abstract catalogue
      ([stores_refine_catalogue]); PostgreSQL does what SQLite does on texts without NUL
      ([postgres_agrees]), and with NUL changes nothing, stops half-way or stores, by the field
      it is in ([postgres_refuses_nul]).  Lemmas: numbers
      are reused after a deletion and collide under concurrent stores.
    - Received articles: an article sent and read comes back ([article_transfer]); reading
      ends exactly on a dot line ([read_message_returns_iff]); what a validated article
      satisfies, the signatures of its moderators included ([validated_article]; lemma
      [milter_verdict]); a worker stores an article once ([process_article_once]); expiry
      removes what is due and only that, rows and messages ([retention_pass]).
    - Control messages: what a control message may do to the store, by which key or signature
      ([control_authorised]), and what a signature does not bind ([signature_transplant]).
    - Accounts and limits: the back ends implement the same accounts
      ([back_ends_refine_accounts]); every number of the usage tracker keeps its type
      ([tracker_typed]); how far a user's connections together can go past the bandwidth
      limit ([concurrent_transfers]; lemmas [check_bandwidth_fits], [connections_counted]) and
      where the counting of connections goes wrong ([disconnect_race]).
    - Peers: what a pass sends and counts ([sync_pass]), what a pass skips for good
      ([job_closes_window]); an article offered to another server of this kind arrives there,
      and is offered in vain the second time ([article_propagates]); in a network of any number
      of servers copies differ in their path, which tells the truth, and a copy makes fewer
      hops than there are servers ([network_copies]).  Lemmas: what an offer comes to
      ([transfer_outcome]), how the path is made and read ([path_stops_loops]).
    - The server: what a reload changes and what it does not ([reload_jobs],
      [reload_effect]); the shutdown ends, without the workers ([shutdown_ends]); lemma: the
      ports the listener binds and the bridge dials ([listener_and_bridge]); placeholders
      ([placeholders_expanded]); groups exported and imported again ([groups_export_import]).
    - Text: globs ([wildmat_glob]); lemmas: the parsers and printers
      ([parse_command_unparse], [unescape_escape_message_id]).

    ** Bounds and fuel

    A loop that is not structural takes fuel: the parsers of commands, headers and globs
    ([more_args], [header_continuations], [parse_headers_loop], [pattern_loop]) the length of
    their input, of which each step consumes a character, so that the loop ends by itself;
    reading an article and the command loop one more than the length of the connection's
    input; the wait of a shutdown 302 looks, a tenth of a second apart and 30 seconds long.
    [parse_headers_fuel], [wildmat_glob], [read_message_returns_iff], [client_loop_ends] and
    [shutdown_ends] show that this is enough.  A computation that waits for ever in the
    source is [Stuck], never a run that happens to lack fuel.

    The queue holds at most its capacity and further submissions wait their turn.  The
    liveness of the queue assumes that no worker is starved and that the processing of each
    article ends (a worker has no turn that does not); a milter that stays silent breaks the
    second.  A command that waits for ever leaves its connection in the system without
    further turns.  A connection whose submission waits for room in the queue is not held up
    in the model: the article waits in line, and the command goes on.

    ** What is not modelled

    Sockets, the TLS and WebSocket protocols, and signals; a write to a connection succeeds.  The
    databases' own limits (bound variables in a statement, the size of an index row) and
    failures of a connection to them.  Memory: a [Vec] whose size would pass [isize::MAX] bytes
    panics, as in the source ([collect_range] of [Storage.v]); every smaller allocation is
    taken to be granted, where one that fails would end the process.  The parsing of TOML and of the command line, and the
    logging settings.  In [System.v] and [Interleave.v]: the synchronisation jobs of the peers, which only
    read the store and have their own state ([Peers.v]), the shutdown ([Lifecycle.v]) and the
    command-line administration ([Admin.v]), each modelled on its own.

    In [Network.v] an offer is one step, as the connections of both sides are run one after the
    other, and articles come in only from the start; posting, cancelling and expiry are not
    steps of the network.

    In [Interleave.v] the persistence of usage is one turn, and the guards on the
    configuration are not held: a reload may come between any two turns of a command, also
    where the lock of [Waiting.v] would make it wait. *)

From stdpp Require Import base numbers list gmap strings sorting.
From Stdlib Require Import NArith ZArith Lia.

(** ** Text

    A Rust [String]/[&str] is a sequence of Unicode scalar values; it is
    modelled as the list of its code points.  Byte lengths ([str::len]) and
    byte contents ([as_bytes]) go through the UTF-8 encoding of [Text.v]. *)
Abbreviation char := N (only parsing).
Abbreviation str := (list N) (only parsing).

(** A string literal of the source. *)
Definition bit_N (b : bool) (n : N) : N := if b then N.succ_double n else N.double n.
Definition ascii_N (a : Ascii.ascii) : N :=
  match a with
  | Ascii.Ascii b0 b1 b2 b3 b4 b5 b6 b7 =>
      bit_N b0 (bit_N b1 (bit_N b2 (bit_N b3 (bit_N b4 (bit_N b5 (bit_N b6 (bit_N b7 0)))))))
  end%N.
Fixpoint lit (s : string) : str :=
  match s with
  | String.EmptyString => []
  | String.String a s => ascii_N a :: lit s
  end.
Arguments lit _%_string_scope.

Definition NUL : char := 0%N.
Definition CR : char := 13%N.
Definition LF : char := 10%N.
Definition TAB : char := 9%N.
Definition SP : char := 32%N.
Definition crlf : str := [CR; LF].

(** A single character of the source, written as a one-letter string. *)
Definition ch (s : string) : char :=
  match s with
  | String.String a _ => ascii_N a
  | String.EmptyString => 0%N
  end.
Arguments ch _%_string_scope.

(** ** Machine integers *)
Definition u64_max : N := (2 ^ 64 - 1)%N.
Definition u64_mod : N := (2 ^ 64)%N.
Definition i64_max : Z := (2 ^ 63 - 1)%Z.

(** [u64::saturating_add]. *)
Definition sat_add (a b : N) : N := N.min (a + b) u64_max.

(** [n as i64] for an unsigned 64-bit [n]. *)
Definition as_i64 (n : N) : Z :=
  let z := Z.of_N (n mod u64_mod) in
  if (z <=? i64_max)%Z then z else (z - 2 ^ 64)%Z.

(** [z as u64] for a signed 64-bit [z]. *)
Definition as_u64 (z : Z) : N := Z.to_N (z mod 2 ^ 64)%Z.

(** [i64::try_from(n).unwrap_or(d)] and [u64::try_from(z).unwrap_or(0)]. *)
Definition i64_try_from (n : N) (d : Z) : Z :=
  if (Z.of_N n <=? i64_max)%Z then Z.of_N n else d.
Definition u64_try_from (z : Z) : N := if (z <? 0)%Z then 0%N else Z.to_N z.

(** ** Fallible and effectful code

    [result] is [anyhow::Result]: an error carries its message.  [outcome]
    adds the two ways a call fails to come back with either: it panics, or it
    never returns ([Stuck]: it loops or waits for ever). *)
Inductive result (A : Type) : Type :=
| Ok (a : A)
| Err (e : str).
Arguments Ok {A} a.
Arguments Err {A} e.

Inductive outcome (A : Type) : Type :=
| Ret (a : A)
| Fail (e : str)
| Panic
| Stuck.
Arguments Ret {A} a.
Arguments Fail {A} e.
Arguments Panic {A}.
Arguments Stuck {A}.

Definition outcome_of {A} (r : result A) : outcome A :=
  match r with Ok a => Ret a | Err e => Fail e end.

Definition is_ok {A} (r : result A) : bool :=
  match r with Ok _ => true | Err _ => false end.

#[export] Instance result_ret : MRet result := fun A a => Ok a.
#[export] Instance result_bind : MBind result := fun A B f r =>
  match r with Ok a => f a | Err e => Err e end.
#[export] Instance result_fmap : FMap result := fun A B f r =>
  match r with Ok a => Ok (f a) | Err e => Err e end.

(** [ok_or_else]. *)
Definition ok_or {A} (o : option A) (e : str) : result A :=
  match o with Some a => Ok a | None => Err e end.

(** [try_collect] on a stream of results: the first error ends it. *)
Fixpoint try_collect {A} (l : list (result A)) : result (list A) :=
  match l with
  | [] => Ok []
  | r :: l => match r with
              | Ok a => match try_collect l with Ok t => Ok (a :: t) | Err e => Err e end
              | Err e => Err e
              end
  end.

(** *** The state and error monad of the server's code

    [M St A]: a computation over the state [St]; the state reached is returned
    whatever the outcome, since [?] leaves with the effects done so far. *)
Definition M (St A : Type) : Type := St -> outcome A * St.

Definition mreturn {St A} (a : A) : M St A := fun s => (Ret a, s).
Definition mbind' {St A B} (m : M St A) (f : A -> M St B) : M St B := fun s =>
  match m s with
  | (Ret a, s') => f a s'
  | (Fail e, s') => (Fail e, s')
  | (Panic, s') => (Panic, s')
  | (Stuck, s') => (Stuck, s')
  end.
Definition mfail {St A} (e : str) : M St A := fun s => (Fail e, s).
Definition mget {St} : M St St := fun s => (Ret s, s).
Definition mgets {St A} (f : St -> A) : M St A := fun s => (Ret (f s), s).
Definition mmodify {St} (f : St -> St) : M St unit := fun s => (Ret tt, f s).
Definition mlift {St A} (r : result A) : M St A := fun s => (outcome_of r, s).
Definition mout {St A} (o : outcome A) : M St A := fun s => (o, s).

(** [if let Err(e) = m {..}] and [match m {Ok.. Err..}]: the error becomes a value. *)
Definition mcatch {St A} (m : M St A) : M St (result A) := fun s =>
  match m s with
  | (Ret a, s') => (Ret (Ok a), s')
  | (Fail e, s') => (Ret (Err e), s')
  | (Panic, s') => (Panic, s')
  | (Stuck, s') => (Stuck, s')
  end.

Declare Scope m_scope.
Delimit Scope m_scope with m.
Notation "x <-- c1 ;;; c2" := (mbind' c1 (fun x => c2))
  (at level 100, c1 at next level, right associativity) : m_scope.
Notation "c1 ;;; c2" := (mbind' c1 (fun _ => c2))
  (at level 100, right associativity) : m_scope.

(** A loop over a list, stopping at the first failure. *)
Fixpoint mfor {St A} (l : list A) (f : A -> M St unit) : M St unit :=
  match l with
  | [] => mreturn tt
  | a :: l => mbind' (f a) (fun _ => mfor l f)
  end.

(** A loop over a stream whose items may be errors ([let x = item?]). *)
Fixpoint mfor_stream {St A} (l : list (result A)) (f : A -> M St unit) : M St unit :=
  match l with
  | [] => mreturn tt
  | Err e :: _ => mfail e
  | Ok a :: l => mbind' (f a) (fun _ => mfor_stream l f)
  end.

(** A computation on a component of the state. *)
Definition mzoom {St T A} (get : St -> T) (put : T -> St -> St) (m : M T A) : M St A := fun s =>
  let '(o, t) := m (get s) in (o, put t s).

(** ** Laws of the monad *)
Section MonadLaws.
Context {St A B C : Type}.

Lemma mbind_ret (a : A) (f : A -> M St B) s : mbind' (mreturn a) f s = f a s.
Proof. reflexivity. Qed.

Lemma mbind_Ret (m : M St A) (f : A -> M St B) s a s' :
  m s = (Ret a, s') -> mbind' m f s = f a s'.
Proof. unfold mbind'. by intros ->. Qed.

Lemma mbind_Fail (m : M St A) (f : A -> M St B) s e s' :
  m s = (Fail e, s') -> mbind' m f s = (Fail e, s').
Proof. unfold mbind'. by intros ->. Qed.

Lemma mbind_assoc (m : M St A) (f : A -> M St B) (g : B -> M St C) s :
  mbind' (mbind' m f) g s = mbind' m (fun a => mbind' (f a) g) s.
Proof. unfold mbind'. by destruct (m s) as [[] ?]. Qed.

Lemma mbind_ext (m : M St A) (f g : A -> M St B) s :
  (forall a s', f a s' = g a s') -> mbind' m f s = mbind' m g s.
Proof. intros Hfg. unfold mbind'. by destruct (m s) as [[] ?]. Qed.

Lemma mbind_inv (m : M St A) (f : A -> M St B) s b s' :
  mbind' m f s = (Ret b, s') -> exists a s1, m s = (Ret a, s1) /\ f a s1 = (Ret b, s').
Proof. unfold mbind'. destruct (m s) as [[] ?]; naive_solver. Qed.
End MonadLaws.

(** A Hoare-style rule for invariants: [m] keeps [I] whatever its outcome. *)
Definition keeps {St A} (I : St -> Prop) (m : M St A) : Prop :=
  forall s o s', I s -> m s = (o, s') -> I s'.

Section Keeps.
Context {St : Type} (I : St -> Prop).

Lemma keeps_ret {A} (a : A) : keeps I (mreturn a).
Proof. intros s o s' H E. injection E as _ E. by subst. Qed.

Lemma keeps_fail {A} e : keeps I (mfail (A:=A) e).
Proof. intros s o s' H E. injection E as _ E. by subst. Qed.

Lemma keeps_lift {A} (r : result A) : keeps I (mlift r).
Proof. intros s o s' H E. injection E as _ E. by subst. Qed.

Lemma keeps_out {A} (r : outcome A) : keeps I (mout r).
Proof. intros s o s' H E. injection E as _ E. by subst. Qed.

Lemma keeps_get : keeps I mget.
Proof. intros s o s' H E. injection E as _ E. by subst. Qed.

Lemma keeps_gets {A} (f : St -> A) : keeps I (mgets f).
Proof. intros s o s' H E. injection E as _ E. by subst. Qed.

Lemma keeps_modify f : (forall s, I s -> I (f s)) -> keeps I (mmodify f).
Proof. intros Hf s o s' H E. injection E as _ E. subst. auto. Qed.

Lemma keeps_bind {A B} (m : M St A) (f : A -> M St B) :
  keeps I m -> (forall a, keeps I (f a)) -> keeps I (mbind' m f).
Proof.
  intros Hm Hf s o s' H. unfold mbind'. destruct (m s) as [om s1] eqn:E.
  specialize (Hm _ _ _ H E). destruct om; intros H1; [by eapply (Hf _ _ _ _ Hm H1)|..]; by simplify_eq.
Qed.

Lemma keeps_and {A} (J : St -> Prop) (m : M St A) :
  keeps I m -> keeps J m -> keeps (fun s => I s /\ J s) m.
Proof. intros Hi Hj s o s' [Hs Ht] E. split; [by eapply Hi|by eapply Hj]. Qed.

Lemma keeps_catch {A} (m : M St A) : keeps I m -> keeps I (mcatch m).
Proof.
  intros Hm s o s' H. unfold mcatch. destruct (m s) as [om s1] eqn:E.
  specialize (Hm _ _ _ H E). destruct om; intros E1; injection E1 as _ E1; by subst.
Qed.

Lemma keeps_for {A} (l : list A) f : (forall a, keeps I (f a)) -> keeps I (mfor l f).
Proof. intros Hf. induction l; simpl; [apply keeps_ret | by apply keeps_bind]. Qed.

Lemma keeps_for_stream {A} (l : list (result A)) f :
  (forall a, keeps I (f a)) -> keeps I (mfor_stream l f).
Proof.
  intros Hf. induction l as [|[a|e] l IH]; simpl;
    [apply keeps_ret | by apply keeps_bind | apply keeps_fail].
Qed.
End Keeps.

Lemma keeps_zoom {St T A} (I : St -> Prop) (get : St -> T) (put : T -> St -> St) (m : M T A) :
  (forall s o t', I s -> m (get s) = (o, t') -> I (put t' s)) -> keeps I (mzoom get put m).
Proof.
  intros Hm s o s' H. unfold mzoom. destruct (m (get s)) as [om t] eqn:E.
  intros E1. injection E1 as _ E1. subst. by eapply (Hm _ _ _ H E).
Qed.

Create HintDb keeps.
#[export] Hint Resolve keeps_ret keeps_fail keeps_lift keeps_out keeps_get keeps_gets
  keeps_bind keeps_catch keeps_for keeps_for_stream : keeps.

(** Two computations agree from the states of [I]: they reach the same state with the same
    outcome, but for the text of an error, and stay in [I]. *)
Definition same_outcome {A} (o o' : outcome A) : Prop :=
  match o, o' with Fail _, Fail _ => True | _, _ => o = o' end.
Definition agree {St A} (I : St -> Prop) (m m' : M St A) : Prop :=
  forall s, I s -> same_outcome (fst (m s)) (fst (m' s)) /\ snd (m s) = snd (m' s) /\ I (snd (m' s)).

Section Agree.
Context {St : Type} (I : St -> Prop).

Lemma same_outcome_refl {A} (o : outcome A) : same_outcome o o.
Proof. by destruct o. Qed.

Lemma agree_refl {A} (m : M St A) : keeps I m -> agree I m m.
Proof.
  intros Hm s Hs. split; [apply same_outcome_refl|]. split; [done|].
  destruct (m s) as [o s'] eqn:E. by apply (Hm s o s').
Qed.

Lemma agree_bind {A B} (m m' : M St A) (f f' : A -> M St B) :
  agree I m m' -> (forall a, agree I (f a) (f' a)) -> agree I (mbind' m f) (mbind' m' f').
Proof.
  intros Hm Hf s Hs. destruct (Hm s Hs) as (Ho & He & Hi). unfold mbind'.
  destruct (m s) as [o s1], (m' s) as [o' s1']. simpl in *. subst s1'.
  destruct o, o'; try discriminate Ho; try done. injection Ho as <-. by apply Hf.
Qed.

Lemma agree_lift {A B} (r : result A) (f f' : A -> M St B) :
  (forall a, r = Ok a -> agree I (f a) (f' a)) -> agree I (mbind' (mlift r) f) (mbind' (mlift r) f').
Proof. destruct r as [a|e]; intros Hf s Hs; [by apply Hf|done]. Qed.

(** What may be assumed of the state a value was read from. *)
Lemma agree_gets {A B} (g : St -> A) (f f' : A -> M St B) :
  (forall s, I s -> agree I (f (g s)) (f' (g s))) -> agree I (mbind' (mgets g) f) (mbind' (mgets g) f').
Proof. intros Hf s Hs. by apply Hf. Qed.

Lemma agree_for {A} (l : list A) (f f' : A -> M St unit) :
  (forall a, a ∈ l -> agree I (f a) (f' a)) -> agree I (mfor l f) (mfor l f').
Proof.
  induction l as [|a l IH]; intros Hf; cbn [mfor]; [apply agree_refl, keeps_ret|].
  apply agree_bind; [apply Hf; left|intros _; apply IH; intros b Hb; apply Hf; by right].
Qed.
End Agree.

(** A rule for transitions: [m] only moves the state along [R]. *)
Definition moves {St A} (R : relation St) (m : M St A) : Prop :=
  forall s o s', m s = (o, s') -> R s s'.

Section Moves.
Context {St : Type} (R : relation St) `{!PreOrder R}.

Lemma moves_same {A} (m : M St A) : (forall s, snd (m s) = s) -> moves R m.
Proof. intros Hm s o s' E. specialize (Hm s). rewrite E in Hm. by subst. Qed.

Lemma moves_ret {A} (a : A) : moves R (mreturn a).
Proof. by apply moves_same. Qed.

Lemma moves_fail {A} e : moves R (mfail (A:=A) e).
Proof. by apply moves_same. Qed.

Lemma moves_lift {A} (r : result A) : moves R (mlift r).
Proof. by apply moves_same. Qed.

Lemma moves_out {A} (r : outcome A) : moves R (mout r).
Proof. by apply moves_same. Qed.

Lemma moves_gets {A} (f : St -> A) : moves R (mgets f).
Proof. by apply moves_same. Qed.

Lemma moves_bind {A B} (m : M St A) (f : A -> M St B) :
  moves R m -> (forall a, moves R (f a)) -> moves R (mbind' m f).
Proof.
  intros Hm Hf s o s'. unfold mbind'. destruct (m s) as [om s1] eqn:E. apply Hm in E.
  destruct om; intros E1; [apply Hf in E1; by etrans|injection E1 as _ E1; by subst..].
Qed.

Lemma moves_catch {A} (m : M St A) : moves R m -> moves R (mcatch m).
Proof.
  intros Hm s o s'. unfold mcatch. destruct (m s) as [om s1] eqn:E. apply Hm in E.
  destruct om; intros E1; injection E1 as _ E1; by subst.
Qed.

Lemma moves_for {A} (l : list A) f : (forall a, moves R (f a)) -> moves R (mfor l f).
Proof. intros Hf. induction l; simpl; [apply moves_ret|by apply moves_bind]. Qed.

(** A loop that comes to its end ran its body on every element. *)
Lemma mfor_inv {A} (l : list A) f s s' : (forall a, moves R (f a)) ->
  mfor l f s = (Ret tt, s') ->
  forall a, In a l -> exists s1 s2, R s s1 /\ f a s1 = (Ret tt, s2).
Proof.
  intros Hf. revert s. induction l as [|b l IH]; intros s E a Ha; [done|].
  apply mbind_inv in E as ([] & s1 & E1 & E2). destruct Ha as [->|Ha].
  - by exists s, s1.
  - destruct (IH s1 E2 a Ha) as (s2 & s3 & HR & E3). exists s2, s3. split; [|exact E3].
    etrans; [by eapply Hf|exact HR].
Qed.
End Moves.

Create HintDb moves.
#[export] Hint Resolve moves_ret moves_fail moves_lift moves_out moves_gets
  moves_bind moves_catch moves_for : moves.

(** ** Streams *)
Lemma ok_or_Ok {A} (o : option A) e a : ok_or o e = Ok a -> o = Some a.
Proof. by destruct o; intros [= <-]. Qed.

Lemma try_collect_Ok {A} (l : list A) : try_collect (Ok <$> l) = Ok l.
Proof. induction l as [|a l IH]; csimpl; [done|]. by rewrite IH. Qed.

Lemma try_collect_inv {A} (l : list (result A)) t : try_collect l = Ok t -> l = Ok <$> t.
Proof.
  revert t. induction l as [|[a|e] l IH]; csimpl; intros t H; [by simplify_eq| |done].
  destruct (try_collect l) as [t'|] eqn:E; [|done]. simplify_eq. csimpl. f_equal. by apply IH.
Qed.

Lemma mfor_stream_Ok {St A} (l : list A) (f : A -> M St unit) s :
  mfor_stream (Ok <$> l) f s = mfor l f s.
Proof.
  revert s. induction l as [|a l IH]; csimpl; [done|]. intros s. unfold mbind'.
  destruct (f a s) as [[] s']; [apply IH|done..].
Qed.

(** A list without repetitions in increasing order is known by its elements. *)
Lemma sorted_ext {A} (R : relation A) `{!StrictOrder R} (l k : list A) :
  StronglySorted R l -> StronglySorted R k -> (forall x, x ∈ l <-> x ∈ k) -> l = k.
Proof.
  intros Hl; revert k; induction Hl as [|a l Hl IH Ha]; intros k Hk Hx.
  { destruct k as [|b k]; [done|]. exfalso. apply (not_elem_of_nil b), Hx. left. }
  rewrite Forall_forall in Ha. destruct Hk as [|b k Hk Hb].
  { exfalso. apply (not_elem_of_nil a), Hx. left. }
  rewrite Forall_forall in Hb. assert (a = b) as <-.
  { destruct (proj1 (elem_of_cons k a b) (proj1 (Hx a) (list_elem_of_here _ _))) as [|Hak]; [done|].
    destruct (proj1 (elem_of_cons l b a) (proj2 (Hx b) (list_elem_of_here _ _))) as [|Hbl]; [done|].
    exfalso. apply (StrictOrder_Irreflexive a). etrans; [by apply Ha|by apply Hb]. }
  f_equal. apply IH; [done|]. intros x. specialize (Hx x). rewrite !elem_of_cons in Hx.
  split; intros Hin.
  - destruct (proj1 Hx (or_intror Hin)) as [->|]; [|done].
    exfalso. apply (StrictOrder_Irreflexive a), Ha, Hin.
  - destruct (proj2 Hx (or_intror Hin)) as [->|]; [|done].
    exfalso. apply (StrictOrder_Irreflexive a), Hb, Hin.
Qed.

(** ** Integers *)
Lemma sat_add_le a b : (sat_add a b <= u64_max)%N.
Proof. unfold sat_add. lia. Qed.

Lemma sat_add_exact a b : (a + b <= u64_max)%N -> sat_add a b = (a + b)%N.
Proof. unfold sat_add. lia. Qed.

Lemma i64_try_from_u64 (n : N) d : (Z.of_N n <= i64_max)%Z -> u64_try_from (i64_try_from n d) = n.
Proof.
  intros H. unfold i64_try_from, u64_try_from.
  destruct (Z.leb_spec (Z.of_N n) i64_max); [|lia]. destruct (Z.ltb_spec (Z.of_N n) 0); lia.
Qed.

(** ** Lists *)
Lemma elem_of_list_In {A} (x : A) l : x ∈ l <-> In x l.
Proof. apply list_elem_of_In. Qed.

(** The first element satisfying a test ([Iterator::find]). *)
Definition find_first {A} (p : A -> bool) (l : list A) : option A := List.find p l.

Lemma find_first_Some {A} (p : A -> bool) l a : find_first p l = Some a -> In a l /\ p a = true.
Proof. apply List.find_some. Qed.

Lemma find_first_None {A} (p : A -> bool) l : find_first p l = None <-> existsb p l = false.
Proof.
  unfold find_first. induction l as [|a l IH]; csimpl; [done|].
  destruct (p a); csimpl; [done|exact IH].
Qed.

(** ** Tactics *)

(** Case analysis on the scrutinee of the first match of the goal. *)
Ltac case_goal :=
  match goal with
  | |- context [match ?x with _ => _ end] => is_var x; destruct x
  | |- context [match ?x with _ => _ end] => let E := fresh "E" in destruct x eqn:E
  end.

(** Case analysis on the scrutinee of the first match of a hypothesis. *)
Ltac case_in H :=
  match type of H with
  | context [match ?x with _ => _ end] => is_var x; destruct x
  | context [match ?x with _ => _ end] => let E := fresh "E" in destruct x eqn:E
  end.

(** Split the conjunctions of the goal and solve the easy parts. *)
Ltac splits := repeat match goal with |- _ /\ _ => split end.
