(* ===== verification/Tasks.v ===== *)
(** * Tasks: computations as tasks that take turns

    A computation [M St A] runs from beginning to end; a [Task] is the same work cut into
    turns, between which the state may be changed by somebody else.  A task is obtained from
    a computation by cutting it at its calls ([Cut]); run without a break it is the
    computation. *)

From stdpp Require Import base list relations.
From S2P Require Import Prelude.

(** Either ended, or a turn: what it makes of the state, and what is left to do. *)
Inductive Task (St A : Type) : Type :=
| Ended (o : outcome A)
| Goes (f : St -> Task St A * St).
Arguments Ended {St A}.
Arguments Goes {St A}.

(** Induction on what is left after a turn. *)
Definition task_rect' {St A} (P : Task St A -> Type)
  (HE : forall o, P (Ended o)) (HT : forall f, (forall s, P (fst (f s))) -> P (Goes f)) : forall t, P t :=
  fix go t := match t with
              | Ended o => HE o
              | Goes f => HT f (fun s => match f s as p return P (fst p) with (t', _) => go t' end)
              end.
Definition task_ind' {St A} (P : Task St A -> Prop) := @task_rect' St A P.

Section Tasks.
Context {St : Type}.

(** Without a break. *)
Fixpoint run_task {A} (t : Task St A) : M St A :=
  match t with
  | Ended o => mout o
  | Goes f => fun s => let '(t', s') := f s in run_task t' s'
  end.

Fixpoint followed {A B} (t : Task St A) (k : A -> Task St B) : Task St B :=
  match t with
  | Ended (Ret a) => k a
  | Ended (Fail e) => Ended (Fail e)
  | Ended Panic => Ended Panic
  | Ended Stuck => Ended Stuck
  | Goes f => Goes (fun s => let '(t', s') := f s in (followed t' k, s'))
  end.

Fixpoint caught {A} (t : Task St A) : Task St (result A) :=
  match t with
  | Ended (Ret a) => Ended (Ret (Ok a))
  | Ended (Fail e) => Ended (Ret (Err e))
  | Ended Panic => Ended Panic
  | Ended Stuck => Ended Stuck
  | Goes f => Goes (fun s => let '(t', s') := f s in (caught t', s'))
  end.

Definition one_turn {A} (m : M St A) : Task St A :=
  Goes (fun s => let '(o, s') := m s in (Ended o, s')).

Lemma run_one_turn {A} (m : M St A) s : run_task (one_turn m) s = m s.
Proof. simpl. by destruct (m s). Qed.

Lemma run_followed {A B} (t : Task St A) (k : A -> Task St B) s :
  run_task (followed t k) s = mbind' (run_task t) (fun a => run_task (k a)) s.
Proof.
  revert s. induction t as [[a|e| |]|f IH] using task_ind'; intros s; try done.
  unfold mbind' in *. simpl. specialize (IH s). destruct (f s) as [t' s']. apply IH.
Qed.

Lemma run_caught {A} (t : Task St A) s : run_task (caught t) s = mcatch (run_task t) s.
Proof.
  revert s. induction t as [[a|e| |]|f IH] using task_ind'; intros s; try done.
  unfold mcatch in *. simpl. specialize (IH s). destruct (f s) as [t' s']. apply IH.
Qed.

(** A task whose turns, from states of which [P] is known, move along [R], and whose value
    is one of [Q]: whatever the states are that the turns find. *)
Inductive along (P : St -> Prop) (R : relation St) {A} (Q : A -> Prop) : Task St A -> Prop :=
| along_ended o : (forall a, o = Ret a -> Q a) -> along P R Q (Ended o)
| along_turn f : (forall s, P s -> R s (snd (f s))) -> (forall s, P s -> along P R Q (fst (f s))) ->
    along P R Q (Goes f).

Lemma along_one_turn (P : St -> Prop) (R : relation St) {A} (Q : A -> Prop) (m : M St A) :
  (forall s o s', P s -> m s = (o, s') -> R s s' /\ forall a, o = Ret a -> Q a) -> along P R Q (one_turn m).
Proof.
  intros Hm. constructor; intros s Hs; destruct (m s) as [o s'] eqn:E; destruct (Hm s o s' Hs E) as [HR HQ].
  - exact HR.
  - by constructor.
Qed.

Lemma along_followed (P : St -> Prop) R {A B} (Q : A -> Prop) (Q' : B -> Prop) t (k : A -> Task St B) :
  along P R Q t -> (forall a, Q a -> along P R Q' (k a)) -> along P R Q' (followed t k).
Proof.
  intros Ht Hk. induction Ht as [o Ho|f HR HF IH].
  - destruct o as [a|e| |]; simpl; [apply Hk; by apply Ho|by constructor..].
  - simpl. constructor; intros s Hs; specialize (HR s Hs); specialize (IH s Hs); by destruct (f s).
Qed.

Lemma along_caught (P : St -> Prop) R {A} (Q : A -> Prop) t :
  along P R Q t -> along P R (fun r => forall a, r = Ok a -> Q a) (caught t).
Proof.
  intros Ht. induction Ht as [o Ho|f HR HF IH].
  - destruct o as [a|e| |]; simpl; constructor; try done; [|by intros ? [= <-]].
    intros r [= <-] a' [= <-]. by apply Ho.
  - simpl. constructor; intros s Hs; specialize (HR s Hs); specialize (IH s Hs); by destruct (f s).
Qed.

Lemma along_weaken (P P' : St -> Prop) (R R' : relation St) {A} (Q Q' : A -> Prop) t :
  (forall s, P' s -> P s) -> (forall s s', P' s -> R s s' -> R' s s') -> (forall a, Q a -> Q' a) ->
  along P R Q t -> along P' R' Q' t.
Proof.
  intros HP HR HQ Ht. induction Ht as [o Ho|f Hf _ IH]; constructor; auto.
Qed.

(** A run of a task whose turns found states of which [P] is known, whatever had become of
    the state since the turn before. *)
Inductive ran (P : St -> Prop) {A} : Task St A -> outcome A -> Prop :=
| ran_ended o : ran P (Ended o) o
| ran_turn f s o : P s -> ran P (fst (f s)) o -> ran P (Goes f) o.

Lemma ran_out (P : St -> Prop) {A} (o o' : outcome A) : ran P (Ended o) o' -> o' = o.
Proof. by inversion 1. Qed.

Lemma ran_one_turn (P : St -> Prop) {A} (m : M St A) o : ran P (one_turn m) o -> exists s, P s /\ fst (m s) = o.
Proof.
  inversion 1 as [|? s ? Hs Hr]; subst. exists s. split; [done|]. destruct (m s) as [o1 s1]. by inversion Hr.
Qed.

Lemma ran_followed (P : St -> Prop) {A B} (t : Task St A) (k : A -> Task St B) b :
  ran P (followed t k) (Ret b) -> exists a, ran P t (Ret a) /\ ran P (k a) (Ret b).
Proof.
  induction t as [[a|e| |]|f IH] using task_ind'; intros Hr; try by inversion Hr.
  - exists a. by split; [constructor|].
  - inversion Hr as [|? s ? Hs Hr']; subst. specialize (IH s).
    pose proof (fun o H => ran_turn P f s o Hs H) as Hgo. destruct (f s) as [t1 s1].
    destruct (IH Hr') as (a & H1 & H2). exists a. by split; [apply Hgo|].
Qed.

Lemma ran_caught (P : St -> Prop) {A} (t : Task St A) a : ran P (caught t) (Ret (Ok a)) -> ran P t (Ret a).
Proof.
  induction t as [[b|e| |]|f IH] using task_ind'; intros Hr; try by inversion Hr.
  - inversion Hr; subst. constructor.
  - inversion Hr as [|? s ? Hs Hr']; subst. specialize (IH s).
    pose proof (fun o H => ran_turn P f s o Hs H) as Hgo. destruct (f s) as [t1 s1]. by apply Hgo, IH.
Qed.

Lemma ran_weaken (P P' : St -> Prop) {A} (t : Task St A) o : (forall s, P s -> P' s) -> ran P t o -> ran P' t o.
Proof. intros HP Hr. induction Hr; econstructor; eauto. Qed.

(** What a task comes to, it comes to by a run of it. *)
Lemma along_ran (P : St -> Prop) (R : relation St) {A} (Q : A -> Prop) (t : Task St A) :
  along P R Q t -> along P R (fun a => ran P t (Ret a)) t.
Proof.
  intros Ht. induction Ht as [o Ho|f HR HF IH]; [constructor; intros a ->; constructor|].
  constructor; [exact HR|]. intros s Hs. eapply along_weaken; [done|done| |exact (IH s Hs)].
  intros a Ha. by apply (ran_turn P f s).
Qed.
End Tasks.

(** The turns of a component, on a larger state. *)
Fixpoint zoomed {St T A} (get : St -> T) (put : T -> St -> St) (t : Task T A) : Task St A :=
  match t with
  | Ended o => Ended o
  | Goes f => Goes (fun s => let '(t', x) := f (get s) in (zoomed get put t', put x s))
  end.

Lemma run_zoomed {St T A} (get : St -> T) put (t : Task T A) :
  (forall s, put (get s) s = s) -> (forall x s, get (put x s) = x) -> (forall x y s, put x (put y s) = put x s) ->
  forall s, run_task (zoomed get put t) s = mzoom get put (run_task t) s.
Proof.
  intros H1 H2 H3. unfold mzoom. induction t as [o|f IH] using task_ind'; intros s.
  - simpl. unfold mout. by rewrite H1.
  - simpl. specialize (IH (get s)). destruct (f (get s)) as [t' x]. simpl in IH. rewrite IH, H2.
    destruct (run_task t' x) as [o y]. by rewrite H3.
Qed.

Lemma ran_zoomed {St T A} (get : St -> T) put (P : St -> Prop) (t : Task T A) o :
  ran P (zoomed get put t) o -> ran (fun x => exists s, P s /\ x = get s) t o.
Proof.
  induction t as [o1|f IH] using task_ind'; intros Hr; [by inversion Hr; subst; constructor|].
  inversion Hr as [|? s ? Hs Hr']; subst. specialize (IH (get s)).
  pose proof (fun o H => ran_turn (fun x => exists s, P s /\ x = get s) f (get s) o (ex_intro _ s (conj Hs eq_refl)) H) as Hgo.
  destruct (f (get s)) as [t1 x]. by apply Hgo, IH.
Qed.

Lemma along_zoomed {St T A} (get : St -> T) put (PT : T -> Prop) (RT : relation T)
    (P : St -> Prop) (R : relation St) (Q : A -> Prop) (t : Task T A) :
  (forall s, P s -> PT (get s)) -> (forall s x, P s -> RT (get s) x -> R s (put x s)) ->
  along PT RT Q t -> along P R Q (zoomed get put t).
Proof.
  intros HP HR Ht. induction Ht as [o Ho|f Hf _ IH]; [by constructor|].
  simpl. constructor; intros s Hs; specialize (Hf _ (HP s Hs)); specialize (IH _ (HP s Hs));
    destruct (f (get s)) as [t' x]; [by apply HR|done].
Qed.

(** ** Cutting a computation into turns

    [P] is what is known of the state a turn finds and [R] how a turn may move it, both in
    a world [w] of facts that hold all along; [K] is what is known of the world when the
    computation begins. *)
Section Cuts.
Context {St W : Type} (P : W -> St -> Prop) (R : W -> relation St).

Record Cut (K : W -> Prop) {A} (m : M St A) := mkCut {
  cut_task : Task St A;
  cut_run s : run_task cut_task s = m s;
  cut_along w : K w -> along (P w) (R w) (fun _ => True) cut_task;
}.
Arguments mkCut {K A m}.
Arguments cut_task {K A m}.
Arguments cut_run {K A m}.
Arguments cut_along {K A m}.

Lemma ended_runs {A} (o : outcome A) s : run_task (Ended o : Task St A) s = mout o s.
Proof. done. Qed.
Lemma ended_along w {A} (o : outcome A) : along (P w) (R w) (fun _ => True) (Ended o).
Proof. by constructor. Qed.

Definition cut_out K {A} (o : outcome A) : Cut K (mout o) :=
  mkCut (Ended o) (ended_runs o) (fun w _ => ended_along w o).
Definition cut_ret K {A} (a : A) : Cut K (mreturn a) := cut_out K (Ret a).
Definition cut_fail K {A} e : Cut K (mfail (A:=A) e) := cut_out K (Fail e).
Definition cut_lift K {A} (r : result A) : Cut K (mlift r) := cut_out K (outcome_of r).

(** A call: one turn. *)
Lemma call_along {K : W -> Prop} {A} (m : M St A) w :
  (forall w s o s', K w -> P w s -> m s = (o, s') -> R w s s') -> K w ->
  along (P w) (R w) (fun _ => True) (one_turn m).
Proof. intros Hm Hw. apply along_one_turn. intros s o s' Hs E. split; [by eapply Hm|done]. Qed.

Definition cut_call {K : W -> Prop} {A} (m : M St A)
    (Hm : forall w s o s', K w -> P w s -> m s = (o, s') -> R w s s') : Cut K m :=
  mkCut (one_turn m) (run_one_turn m) (fun w => call_along m w Hm).

Lemma bind_runs {K A B} {m : M St A} {f : A -> M St B} (cm : Cut K m) (cf : forall a, Cut K (f a)) s :
  run_task (followed (cut_task cm) (fun a => cut_task (cf a))) s = mbind' m f s.
Proof.
  rewrite run_followed. unfold mbind'. rewrite (cut_run cm). destruct (m s) as [[a|e| |] s']; try done.
  apply cut_run.
Qed.
Lemma bind_along {K A B} {m : M St A} {f : A -> M St B} (cm : Cut K m) (cf : forall a, Cut K (f a)) w :
  K w -> along (P w) (R w) (fun _ => True) (followed (cut_task cm) (fun a => cut_task (cf a))).
Proof. intros Hw. eapply along_followed; [by apply (cut_along cm)|]. intros a _. by apply cut_along. Qed.

Definition cut_bind {K A B} {m : M St A} {f : A -> M St B} (cm : Cut K m) (cf : forall a, Cut K (f a)) :
    Cut K (mbind' m f) :=
  mkCut (followed (cut_task cm) (fun a => cut_task (cf a))) (bind_runs cm cf) (bind_along cm cf).

(** A call whose answer tells something of the world to what follows. *)
Lemma learn_runs {K : W -> Prop} {A B} (Q : W -> A -> Prop) (m : M St A) {f : A -> M St B}
    (cf : forall a, Cut (fun w => K w /\ Q w a) (f a)) s :
  run_task (followed (one_turn m) (fun a => cut_task (cf a))) s = mbind' m f s.
Proof.
  rewrite run_followed. unfold mbind'. rewrite run_one_turn. destruct (m s) as [[a|e| |] s']; try done.
  apply cut_run.
Qed.
Lemma learn_along {K : W -> Prop} {A B} (Q : W -> A -> Prop) (m : M St A) {f : A -> M St B}
    (cf : forall a, Cut (fun w => K w /\ Q w a) (f a)) w :
  (forall w s o s', K w -> P w s -> m s = (o, s') -> R w s s' /\ forall a, o = Ret a -> Q w a) -> K w ->
  along (P w) (R w) (fun _ => True) (followed (one_turn m) (fun a => cut_task (cf a))).
Proof.
  intros Hm Hw. eapply along_followed; [apply (along_one_turn _ _ (Q w)); intros s o s'; by apply Hm|].
  intros a Ha. by apply cut_along.
Qed.

Definition cut_learn {K : W -> Prop} {A B} (Q : W -> A -> Prop) {m : M St A} {f : A -> M St B}
    (Hm : forall w s o s', K w -> P w s -> m s = (o, s') -> R w s s' /\ forall a, o = Ret a -> Q w a)
    (cf : forall a, Cut (fun w => K w /\ Q w a) (f a)) : Cut K (mbind' m f) :=
  mkCut (followed (one_turn m) (fun a => cut_task (cf a))) (learn_runs Q m cf) (fun w => learn_along Q m cf w Hm).

(** A part whose result tells something of the world to what follows. *)
Lemma heed_runs {K : W -> Prop} {A B} (Q : W -> A -> Prop) {m : M St A} {f : A -> M St B} (cm : Cut K m)
    (cf : forall a, Cut (fun w => K w /\ Q w a) (f a)) s :
  run_task (followed (cut_task cm) (fun a => cut_task (cf a))) s = mbind' m f s.
Proof.
  rewrite run_followed. unfold mbind'. rewrite (cut_run cm). destruct (m s) as [[a|e| |] s']; try done.
  apply cut_run.
Qed.
Lemma heed_along {K : W -> Prop} {A B} (Q : W -> A -> Prop) {m : M St A} {f : A -> M St B} (cm : Cut K m)
    (cf : forall a, Cut (fun w => K w /\ Q w a) (f a)) w :
  (forall w a, K w -> ran (P w) (cut_task cm) (Ret a) -> Q w a) -> K w ->
  along (P w) (R w) (fun _ => True) (followed (cut_task cm) (fun a => cut_task (cf a))).
Proof.
  intros HQ Hw. eapply along_followed; [by eapply along_ran, (cut_along cm)|].
  intros a Ha. apply (cut_along (cf a)). split; [done|by apply HQ].
Qed.

Definition cut_heed {K : W -> Prop} {A B} (Q : W -> A -> Prop) {m : M St A} {f : A -> M St B} (cm : Cut K m)
    (HQ : forall w a, K w -> ran (P w) (cut_task cm) (Ret a) -> Q w a)
    (cf : forall a, Cut (fun w => K w /\ Q w a) (f a)) : Cut K (mbind' m f) :=
  mkCut (followed (cut_task cm) (fun a => cut_task (cf a))) (heed_runs Q cm cf) (fun w => heed_along Q cm cf w HQ).

Lemma catch_runs {K A} {m : M St A} (cm : Cut K m) s : run_task (caught (cut_task cm)) s = mcatch m s.
Proof. rewrite run_caught. unfold mcatch. by rewrite (cut_run cm). Qed.
Lemma catch_along {K A} {m : M St A} (cm : Cut K m) w : K w ->
  along (P w) (R w) (fun _ => True) (caught (cut_task cm)).
Proof.
  intros Hw. eapply along_weaken; [done|done| |by eapply along_caught, (cut_along cm)]. done.
Qed.
Definition cut_catch {K A} {m : M St A} (cm : Cut K m) : Cut K (mcatch m) :=
  mkCut (caught (cut_task cm)) (catch_runs cm) (catch_along cm).

Fixpoint cut_for {K A} (l : list A) {f : A -> M St unit} (cf : forall a, Cut K (f a)) : Cut K (mfor l f) :=
  match l with
  | [] => cut_ret K tt
  | a :: l => cut_bind (cf a) (fun _ => cut_for l cf)
  end.

Fixpoint cut_for_stream {K A} (l : list (result A)) {f : A -> M St unit} (cf : forall a, Cut K (f a)) :
    Cut K (mfor_stream l f) :=
  match l with
  | [] => cut_ret K tt
  | Err e :: _ => cut_fail K e
  | Ok a :: l => cut_bind (cf a) (fun _ => cut_for_stream l cf)
  end.

(** Known of more. *)
Definition cut_known {K K' : W -> Prop} {A} {m : M St A} (HK : forall w, K' w -> K w) (cm : Cut K m) : Cut K' m :=
  mkCut (cut_task cm) (cut_run cm) (fun w Hw => cut_along cm w (HK w Hw)).
End Cuts.
Arguments mkCut {St W P R K A m}.
Arguments cut_task {St W P R K A m}.
Arguments cut_run {St W P R K A m}.
Arguments cut_along {St W P R K A m}.

(** A component's turns. *)
Section CutZoom.
Context {St T W : Type} (get : St -> T) (put : T -> St -> St).
Hypothesis put_get : forall s, put (get s) s = s.
Hypothesis get_put : forall x s, get (put x s) = x.
Hypothesis put_put : forall x y s, put x (put y s) = put x s.
Context (PT : W -> T -> Prop) (RT : W -> relation T) (P : W -> St -> Prop) (R : W -> relation St).
Hypothesis zoom_known : forall w s, P w s -> PT w (get s).
Hypothesis zoom_moves : forall w s x, P w s -> RT w (get s) x -> R w s (put x s).

Lemma zoom_runs {K A} {m : M T A} (cm : Cut PT RT K m) s :
  run_task (zoomed get put (cut_task cm)) s = mzoom get put m s.
Proof. rewrite run_zoomed by done. unfold mzoom. by rewrite (cut_run cm). Qed.
Lemma zoom_along {K : W -> Prop} {A} {m : M T A} (cm : Cut PT RT K m) w : K w ->
  along (P w) (R w) (fun _ => True) (zoomed get put (cut_task cm)).
Proof.
  intros Hw. eapply along_zoomed; [intros s; apply zoom_known| |by apply (cut_along cm)].
  intros s x. apply zoom_moves.
Qed.
Definition cut_zoom {K : W -> Prop} {A} {m : M T A} (cm : Cut PT RT K m) : Cut P R K (mzoom get put m) :=
  mkCut (zoomed get put (cut_task cm)) (zoom_runs cm) (zoom_along cm).
End CutZoom.

(** One step of cutting a computation at its calls. *)
Create HintDb cuts.
Ltac cut_step :=
  lazymatch goal with
  | |- Cut _ _ _ (let _ := _ in _) => cbv zeta
  | |- Cut _ _ _ (mbind' _ _) => refine (cut_bind _ _ _ _); [|intros ?]
  | |- Cut _ _ _ (mreturn _) => exact (cut_ret _ _ _ _)
  | |- Cut _ _ _ (mfail _) => exact (cut_fail _ _ _ _)
  | |- Cut _ _ _ (mlift _) => exact (cut_lift _ _ _ _)
  | |- Cut _ _ _ (mout _) => exact (cut_out _ _ _ _)
  | |- Cut _ _ _ (mcatch _) => refine (cut_catch _ _ _)
  | |- Cut _ _ _ (mfor _ _) => refine (cut_for _ _ _ _); intros ?
  | |- Cut _ _ _ (mfor_stream _ _) => refine (cut_for_stream _ _ _ _); intros ?
  | |- Cut _ _ _ (match ?x with _ => _ end) => destruct x
  end.
Ltac cut_calls := repeat first [cut_step | solve [eauto with cuts]].

(** ** A task that keeps its place

    [put t c] is a machine in which the task is at [t] and has the state [c]; a step of it is
    a turn of the task.  Undisturbed, the machine comes to the end of the task as it is run
    without a break. *)
Section Undisturbed.
Context {L St A : Type} (step : L -> option L) (put : Task St A -> St -> L) (I : St -> Prop).
Hypothesis step_goes : forall f c, I c -> step (put (Goes f) c) = Some (put (fst (f c)) (snd (f c))).

Fixpoint again (n : nat) (x : L) : option L :=
  match n with
  | O => Some x
  | S n => step x ≫= again n
  end.

Lemma undisturbed {Q} t c o c' : along I (fun _ c => I c) Q t -> I c -> run_task t c = (o, c') ->
  exists n, again n (put t c) = Some (put (Ended o) c').
Proof.
  intros Ht. revert c. induction Ht as [o1 Ho|f HR HF IH]; intros c Hc.
  - intros [= <- <-]. by exists O.
  - simpl. intros E. specialize (HR c Hc). specialize (IH c Hc). pose proof (step_goes f c Hc) as Hs.
    destruct (f c) as [t' c1]. simpl in *. destruct (IH c1 HR E) as [n Hn]. exists (S n). simpl. by rewrite Hs.
Qed.
End Undisturbed.

(** ** A task in company

    Before each turn the others move the state along [E].  What it comes to, with the states
    each of its own turns found and left. *)
Section Company.
Context {St : Type} (E : relation St).

Inductive amid {A} : Task St A -> St -> outcome A -> St -> list (St * St) -> Prop :=
| amid_ended o c : amid (Ended o) c o c []
| amid_goes f c c1 o c' l :
    E c c1 -> amid (fst (f c1)) (snd (f c1)) o c' l -> amid (Goes f) c o c' ((c1, snd (f c1)) :: l).

(** Alone, it is the computation. *)
Lemma amid_alone `{!Reflexive E} {A} (t : Task St A) c o c' : run_task t c = (o, c') -> exists l, amid t c o c' l.
Proof.
  revert c. induction t as [o1|f IH] using task_ind'; intros c Er.
  - injection Er as <- <-. exists []. constructor.
  - simpl in Er. destruct (f c) as [t1 c1] eqn:Ef. destruct (IH c c1) as [l Hl]; [by rewrite Ef|].
    exists ((c, c1) :: l). pose proof (amid_goes f c c o c' l (reflexivity c)) as Hg. rewrite Ef in Hg. apply Hg.
    by rewrite Ef in Hl.
Qed.

Lemma amid_one_turn {A} (m : M St A) c o c' l : amid (one_turn m) c o c' l ->
  exists c1, E c c1 /\ m c1 = (o, c') /\ l = [(c1, c')].
Proof.
  inversion 1 as [|? ? c1 ? ? l' HE Hr]; subst. exists c1. destruct (m c1) as [o1 c2]. simpl in *.
  inversion Hr; subst. done.
Qed.

Lemma amid_followed {A B} (t : Task St A) (k : A -> Task St B) c o c' l : amid (followed t k) c o c' l ->
  (exists a c1 l1 l2, amid t c (Ret a) c1 l1 /\ amid (k a) c1 o c' l2 /\ l = l1 ++ l2)
  \/ exists o1, amid t c o1 c' l /\ (forall a, o1 <> Ret a) /\ forall b, o <> Ret b.
Proof.
  revert c l. induction t as [[a|e| |]|f IH] using task_ind'; intros c l Hr.
  - left. exists a, c, [], l. split_and!; [constructor|exact Hr|done].
  - right. inversion Hr; subst. exists (Fail e). split_and!; [constructor|done..].
  - right. inversion Hr; subst. exists Panic. split_and!; [constructor|done..].
  - right. inversion Hr; subst. exists Stuck. split_and!; [constructor|done..].
  - inversion Hr as [|? ? c1 ? ? l' HE Hr']; subst. specialize (IH c1). destruct (f c1) as [t1 c2] eqn:Ef. simpl in *.
    pose proof (fun o1 l1 H => amid_goes f c c1 o1 c' l1 HE H) as Hg.
    destruct (IH _ _ Hr') as [(a & c3 & l1 & l2 & H1 & H2 & ->)|(o1 & H1 & H2)].
    + left. exists a, c3, ((c1, c2) :: l1), l2. split_and!; [|done|done].
      pose proof (amid_goes f c c1 (Ret a) c3 l1 HE) as Hg1. rewrite Ef in Hg1. by apply Hg1.
    + right. exists o1. split; [|done]. specialize (Hg o1 l'). rewrite Ef in Hg. by apply Hg.
Qed.

Lemma amid_caught {A} (t : Task St A) c o c' l : amid (caught t) c o c' l ->
  exists o1, amid t c o1 c' l
    /\ match o1 with Ret a => o = Ret (Ok a) | Fail e => o = Ret (Err e) | Panic => o = Panic | Stuck => o = Stuck end.
Proof.
  revert c l. induction t as [[a|e| |]|f IH] using task_ind'; intros c l Hr.
  1-4: inversion Hr; subst; eexists; split; [constructor|done].
  inversion Hr as [|? ? c1 ? ? l' HE Hr']; subst. specialize (IH c1). destruct (f c1) as [t1 c2] eqn:Ef. simpl in *.
  destruct (IH _ _ Hr') as (o1 & Ho & Hm). exists o1. split; [|done].
  pose proof (amid_goes f c c1 o1 c' l' HE) as Hg. rewrite Ef in Hg. by apply Hg.
Qed.

(** A task in the company of given functions, one before each turn. *)
Fixpoint in_company {A} (es : list (St -> St)) (t : Task St A) (c : St) : outcome A * St * list (St * St) :=
  match t with
  | Ended o => (o, c, [])
  | Goes f =>
      let c1 := match es with e :: _ => e c | [] => c end in
      let '(t1, c2) := f c1 in
      let '(o, c', l) := in_company (tail es) t1 c2 in (o, c', (c1, c2) :: l)
  end.

Lemma in_company_amid `{!Reflexive E} {A} es (t : Task St A) c o c' l :
  Forall (fun e => forall c, E c (e c)) es -> in_company es t c = (o, c', l) -> amid t c o c' l.
Proof.
  revert es c l. induction t as [o1|f IH] using task_ind'; intros es c l He; simpl.
  - intros [= <- <- <-]. constructor.
  - set (c1 := match es with e :: _ => e c | [] => c end).
    assert (HE : E c c1) by (destruct He; [reflexivity|auto]).
    specialize (IH c1 (tail es)). pose proof (amid_goes f c c1) as Hg. destruct (f c1) as [t1 c2]. simpl in *.
    destruct (in_company (tail es) t1 c2) as [[o1 c3] l1] eqn:Er. intros [= <- <- <-].
    apply Hg; [done|]. apply IH; [by destruct He|done].
Qed.

(** Its turns move along what they are known to move along. *)
Lemma amid_along {A} (R : relation St) (Q : A -> Prop) t c o c' l :
  along (fun _ => True) R Q t -> amid t c o c' l -> Forall (fun xy => R (fst xy) (snd xy)) l.
Proof.
  intros Ht Hr. induction Hr as [|f c c1 o c' l HE Hr IH]; [constructor|].
  inversion Ht as [|? HR HF]; subst. constructor; [by apply HR|]. by apply IH, HF.
Qed.

(** What others and its own turns keep, it keeps. *)
Lemma amid_keeps {A} (P : St -> St -> Prop) `{!PreOrder P} (t : Task St A) c o c' l :
  (forall x y, E x y -> P x y) -> amid t c o c' l -> Forall (fun xy => P (fst xy) (snd xy)) l -> P c c'.
Proof.
  intros HE Hr. induction Hr as [|f c c1 o c' l Hc Hr IH]; intros Hl; [reflexivity|].
  inversion Hl as [|? ? H1 H2]; subst. etrans; [by apply HE|]. etrans; [exact H1|by apply IH].
Qed.
End Company.

Lemma along_any {St A} (t : Task St A) : along (fun _ => True) (fun _ _ => True) (fun _ => True) t.
Proof. induction t as [o|f IH] using task_ind'; constructor; intros; auto. Qed.
