(* ===== verification/Text.v ===== *)
(** * Text: the Rust string operations the server uses

    Character classes, trimming, splitting, line reading, decimal parsing and
    printing, and the UTF-8 byte view, as executable functions on lists of code
    points, with the lemmas the protocol files share. *)

From stdpp Require Import base numbers list gmap strings.
From Stdlib Require Import NArith ZArith Lia DecimalFacts DecimalN DecimalPos.
From S2P Require Import Prelude.
Local Open Scope N_scope.

(** ** Characters *)
Definition in_range (lo hi c : N) : bool := (lo <=? c) && (c <=? hi).
Definition is_ascii_digit (c : char) : bool := in_range 48 57 c.
Definition is_ascii_upper (c : char) : bool := in_range 65 90 c.
Definition is_ascii_lower (c : char) : bool := in_range 97 122 c.
Definition is_ascii_alphabetic (c : char) : bool := is_ascii_upper c || is_ascii_lower c.
Definition is_ascii_alphanumeric (c : char) : bool := is_ascii_alphabetic c || is_ascii_digit c.

(** [char::is_whitespace]: the Unicode property White_Space. *)
Definition is_whitespace (c : char) : bool :=
  in_range 9 13 c || (c =? 32) || (c =? 133) || (c =? 160) || (c =? 5760)
  || in_range 8192 8202 c || (c =? 8232) || (c =? 8233) || (c =? 8239)
  || (c =? 8287) || (c =? 12288).

Definition to_ascii_uppercase_char (c : char) : char := if is_ascii_lower c then c - 32 else c.
Definition to_ascii_lowercase_char (c : char) : char := if is_ascii_upper c then c + 32 else c.
Definition to_ascii_uppercase (s : str) : str := to_ascii_uppercase_char <$> s.
Definition to_ascii_lowercase (s : str) : str := to_ascii_lowercase_char <$> s.

Definition str_eqb (a b : str) : bool := bool_decide (a = b).
Definition eq_ignore_ascii_case (a b : str) : bool :=
  str_eqb (to_ascii_lowercase a) (to_ascii_lowercase b).

(** ** UTF-8 *)
Definition utf8_char (c : char) : list N :=
  if c <? 128 then [c]
  else if c <? 2048 then [192 + c / 64; 128 + c mod 64]
  else if c <? 65536 then [224 + c / 4096; 128 + (c / 64) mod 64; 128 + c mod 64]
  else [240 + c / 262144; 128 + (c / 4096) mod 64; 128 + (c / 64) mod 64; 128 + c mod 64].

Definition utf8_encode (s : str) : list N := s ≫= utf8_char.

(** [str::len]. *)
Definition utf8_len (s : str) : N := N.of_nat (length (utf8_encode s)).

(** ** Prefixes, suffixes, trimming *)
Fixpoint strip_prefix (p s : str) : option str :=
  match p, s with
  | [], _ => Some s
  | a :: p, b :: s => if a =? b then strip_prefix p s else None
  | _ :: _, [] => None
  end.

Definition starts_with (p s : str) : bool :=
  match strip_prefix p s with Some _ => true | None => false end.
Definition ends_with (p s : str) : bool := starts_with (rev p) (rev s).

Fixpoint trim_start_matches (f : char -> bool) (s : str) : str :=
  match s with
  | [] => []
  | c :: t => if f c then trim_start_matches f t else s
  end.
Definition trim_end_matches (f : char -> bool) (s : str) : str :=
  rev (trim_start_matches f (rev s)).
Definition trim_matches (f : char -> bool) (s : str) : str :=
  trim_end_matches f (trim_start_matches f s).
Definition trim : str -> str := trim_matches is_whitespace.
Definition trim_end : str -> str := trim_end_matches is_whitespace.

(** ** Splitting *)

(** The longest prefix of characters satisfying [f], and the rest. *)
Fixpoint span (f : char -> bool) (s : str) : str * str :=
  match s with
  | [] => ([], [])
  | c :: t => if f c then let '(a, b) := span f t in (c :: a, b) else ([], s)
  end.

Fixpoint split_once (c : char) (s : str) : option (str * str) :=
  match s with
  | [] => None
  | d :: t => if d =? c then Some ([], t)
              else match split_once c t with
                   | Some (a, b) => Some (d :: a, b)
                   | None => None
                   end
  end.

Definition rsplit_once (c : char) (s : str) : option (str * str) :=
  match split_once c (rev s) with
  | Some (a, b) => Some (rev b, rev a)
  | None => None
  end.

(** [str::split(c)]: one more piece than there are separators. *)
Fixpoint split_on (c : char) (s : str) : list str :=
  match s with
  | [] => [[]]
  | d :: t => if d =? c then [] :: split_on c t
              else match split_on c t with
                   | p :: ps => (d :: p) :: ps
                   | [] => [[d]]
                   end
  end.

Fixpoint split_whitespace_aux (s cur : str) : list str :=
  match s with
  | [] => match cur with [] => [] | _ => [rev cur] end
  | c :: t => if is_whitespace c
              then match cur with
                   | [] => split_whitespace_aux t []
                   | _ => rev cur :: split_whitespace_aux t []
                   end
              else split_whitespace_aux t (c :: cur)
  end.
Definition split_whitespace (s : str) : list str := split_whitespace_aux s [].

(** One line of a reader, its terminator included ([read_line]), and the rest. *)
Fixpoint read_line (s : str) : str * str :=
  match s with
  | [] => ([], [])
  | c :: t => if c =? LF then ([c], t) else let '(a, b) := read_line t in (c :: a, b)
  end.

(** [split_inclusive('\n')]. *)
Fixpoint split_inclusive_lf (s : str) : list str :=
  match s with
  | [] => []
  | c :: t => if c =? LF then [c] :: split_inclusive_lf t
              else match split_inclusive_lf t with
                   | [] => [[c]]
                   | l :: ls => (c :: l) :: ls
                   end
  end.

(** [str::lines]: each piece loses its LF and, only then, one CR before it. *)
Definition strip_suffix_char (c : char) (s : str) : option str :=
  match rev s with
  | d :: t => if d =? c then Some (rev t) else None
  | [] => None
  end.
Definition strip_line_end (l : str) : str :=
  match strip_suffix_char LF l with
  | None => l
  | Some l' => match strip_suffix_char CR l' with None => l' | Some l'' => l'' end
  end.
Definition lines (s : str) : list str := strip_line_end <$> split_inclusive_lf s.

(** [str::replace] of one character by another. *)
Definition replace_char (a b : char) (s : str) : str :=
  (fun c => if c =? a then b else c) <$> s.

(** [s.replace("\r\n", "\n")]. *)
Fixpoint replace_crlf (s : str) : str :=
  match s with
  | [] => []
  | c :: t => if (c =? CR) && match t with d :: _ => d =? LF | [] => false end
              then replace_crlf t
              else c :: replace_crlf t
  end.

(** [join]. *)
Fixpoint join (sep : str) (l : list str) : str :=
  match l with
  | [] => []
  | [a] => a
  | a :: l => a ++ sep ++ join sep l
  end.

(** ** Decimal numbers *)
Fixpoint parse_digits (max : N) (s : str) (acc : N) : option N :=
  match s with
  | [] => Some acc
  | c :: t => if is_ascii_digit c
              then let a := 10 * acc + (c - 48) in
                   if a <=? max then parse_digits max t a else None
              else None
  end.

(** [str::parse] for an unsigned type of greatest value [max]: an optional
    sign [+], at least one digit, no overflow. *)
Definition parse_uint (max : N) (s : str) : option N :=
  match s with
  | [] => None
  | 43 :: (_ :: _) as t => parse_digits max (tail t) 0
  | _ => parse_digits max s 0
  end.
Definition parse_u64 : str -> option N := parse_uint u64_max.
Definition parse_u16 : str -> option N := parse_uint 65535.

Fixpoint uint_str (u : Decimal.uint) : str :=
  match u with
  | Decimal.Nil => []
  | Decimal.D0 u => 48 :: uint_str u
  | Decimal.D1 u => 49 :: uint_str u
  | Decimal.D2 u => 50 :: uint_str u
  | Decimal.D3 u => 51 :: uint_str u
  | Decimal.D4 u => 52 :: uint_str u
  | Decimal.D5 u => 53 :: uint_str u
  | Decimal.D6 u => 54 :: uint_str u
  | Decimal.D7 u => 55 :: uint_str u
  | Decimal.D8 u => 56 :: uint_str u
  | Decimal.D9 u => 57 :: uint_str u
  end.

(** [{n}] of an unsigned and of a signed integer. *)
Definition show_N (n : N) : str := uint_str (N.to_uint n).
Definition show_Z (z : Z) : str :=
  if (z <? 0)%Z then 45 :: show_N (Z.abs_N z) else show_N (Z.to_N z).

(** [{b:02x}]. *)
Definition hex_digit (n : N) : char := if n <? 10 then 48 + n else 87 + n.
Definition hex_byte (b : N) : str := [hex_digit (b / 16 mod 16); hex_digit (b mod 16)].

(** ** Sorting text: SQLite's BINARY collation compares UTF-8 bytes, which
    orders strings as their code points do. *)
Fixpoint str_leb (a b : str) : bool :=
  match a, b with
  | [], _ => true
  | _ :: _, [] => false
  | x :: a, y :: b => if x =? y then str_leb a b else x <? y
  end.

(** ** Lemmas *)

(** Boolean comparisons of characters, decided by [lia]. *)
Ltac char_lia :=
  unfold is_ascii_alphanumeric, is_ascii_alphabetic, is_ascii_upper, is_ascii_lower,
    is_ascii_digit, is_whitespace, in_range in *;
  rewrite ?negb_true_iff, ?negb_false_iff, ?orb_true_iff, ?andb_true_iff, ?orb_false_iff,
    ?andb_false_iff, ?N.leb_le, ?N.leb_gt, ?N.eqb_eq, ?N.eqb_neq, ?N.ltb_lt, ?N.ltb_ge in *;
  lia.

Lemma str_eqb_eq a b : str_eqb a b = true <-> a = b.
Proof. unfold str_eqb. by rewrite bool_decide_eq_true. Qed.

Lemma str_eqb_refl a : str_eqb a a = true.
Proof. by apply str_eqb_eq. Qed.

Lemma str_eqb_spec a b : reflect (a = b) (str_eqb a b).
Proof. apply iff_reflect. by rewrite str_eqb_eq. Qed.

Lemma eq_ignore_ascii_case_refl a : eq_ignore_ascii_case a a = true.
Proof. apply str_eqb_refl. Qed.

Lemma eq_ignore_ascii_case_sym a b : eq_ignore_ascii_case a b = eq_ignore_ascii_case b a.
Proof. unfold eq_ignore_ascii_case, str_eqb. by apply bool_decide_ext. Qed.

(** A concrete text without a character, by evaluation. *)
Lemma absent_check c (s : str) : existsb (N.eqb c) s = false -> c ∉ s.
Proof.
  intros H Hc. assert (existsb (N.eqb c) s = true); [|congruence].
  apply existsb_exists. exists c. split; [by apply elem_of_list_In|apply N.eqb_refl].
Qed.

Lemma strip_prefix_Some p s t : strip_prefix p s = Some t <-> s = p ++ t.
Proof.
  revert s. induction p as [|a p IH]; intros [|b s]; simpl.
  { split; congruence. }
  { split; congruence. }
  { split; congruence. }
  destruct (N.eqb_spec a b) as [->|Hne].
  - rewrite IH. split; congruence.
  - split; [done|]. by intros [= ->].
Qed.

Lemma strip_prefix_app p s : strip_prefix p (p ++ s) = Some s.
Proof. by apply strip_prefix_Some. Qed.

Lemma starts_with_app p s : starts_with p (p ++ s) = true.
Proof. unfold starts_with. by rewrite strip_prefix_app. Qed.

Lemma starts_with_true p s : starts_with p s = true <-> exists t, s = p ++ t.
Proof.
  unfold starts_with. destruct (strip_prefix p s) as [t|] eqn:E.
  - apply strip_prefix_Some in E. naive_solver.
  - split; [done|]. intros [t Ht]. apply strip_prefix_Some in Ht. congruence.
Qed.

Lemma starts_with_plain (p a b : str) : starts_with p a = false -> (length p <= length a)%nat ->
  starts_with p (a ++ b) = false.
Proof.
  unfold starts_with. revert a. induction p as [|c p IH]; intros [|d a] H Hl; csimpl in *; try done; [lia|].
  destruct (c =? d); [|done]. apply IH; [done|lia].
Qed.

Lemma ends_with_true p s : ends_with p s = true <-> exists t, s = t ++ p.
Proof.
  unfold ends_with. rewrite starts_with_true. split; intros [t Ht].
  - exists (rev t). rewrite <- (rev_involutive s), Ht, rev_app_distr, rev_involutive. done.
  - exists (rev t). by rewrite Ht, rev_app_distr.
Qed.

Lemma span_app f s : (let '(a, b) := span f s in a ++ b) = s.
Proof.
  induction s as [|c s IH]; simpl; [done|]. destruct (f c); [|done].
  destruct (span f s). simpl. by f_equal.
Qed.

(** [span] takes exactly a prefix all of whose characters pass and which is
    followed by one that does not. *)
Lemma span_exact f a b :
  forallb f a = true -> match b with c :: _ => f c = false | [] => True end ->
  span f (a ++ b) = (a, b).
Proof.
  intros Ha Hb. induction a as [|c a IH]; simpl in *.
  - destruct b as [|c b]; [done|]. simpl. by rewrite Hb.
  - apply andb_prop in Ha as [-> Ha]. by rewrite IH.
Qed.

Lemma span_length f s : (length (snd (span f s)) <= length s)%nat.
Proof.
  induction s as [|c s IH]; simpl; [done|]. destruct (f c); [|done].
  destruct (span f s). simpl in *. lia.
Qed.

Lemma split_once_Some c s a b :
  split_once c s = Some (a, b) <-> s = a ++ c :: b /\ c ∉ a.
Proof.
  revert a. induction s as [|d s IH]; intros a; simpl.
  - split; [done|]. intros [H _]. by destruct a.
  - destruct (N.eqb_spec d c) as [->|Hne].
    + split.
      * intros [= <- <-]. split; [done|]. apply not_elem_of_nil.
      * intros [H Hc]. destruct a as [|x a]; simpl in H; [by simplify_eq|].
        simplify_eq. exfalso. apply Hc. left.
    + destruct (split_once c s) as [[x y]|] eqn:E.
      * destruct a as [|z a]; simpl.
        -- split; [done|]. intros [H _]. by simplify_eq.
        -- specialize (IH a). split.
           ++ intros [= -> -> ->]. destruct (proj1 IH) as [-> Hc]; [done|].
              split; [done|]. rewrite not_elem_of_cons. split; congruence.
           ++ intros [H Hc]. simplify_eq. rewrite not_elem_of_cons in Hc.
              destruct Hc as [_ Hc]. assert (Some (x, y) = Some (a, b)) by (by apply IH).
              by simplify_eq.
      * split; [done|]. intros [H Hc]. destruct a as [|z a]; simplify_eq/=.
        rewrite not_elem_of_cons in Hc. destruct Hc as [_ Hc].
        assert (None = Some (a, b)) by (by apply IH). done.
Qed.

Lemma split_once_None c s : split_once c s = None <-> c ∉ s.
Proof.
  split.
  - intros H Hc. apply list_elem_of_split in Hc as (a & b & -> ).
    induction a as [|d a IH]; simpl in H; [by rewrite N.eqb_refl in H|].
    destruct (d =? c); [done|]. destruct (split_once c (a ++ c :: b)) as [[]|]; [done|].
    by apply IH.
  - intros Hc. destruct (split_once c s) as [[a b]|] eqn:E; [|done].
    apply split_once_Some in E as [-> _]. exfalso. apply Hc. set_solver.
Qed.

Lemma rsplit_once_app c (a b : str) : c ∉ b -> rsplit_once c (a ++ c :: b) = Some (a, b).
Proof.
  intros H. unfold rsplit_once.
  assert (E : split_once c (rev (a ++ c :: b)) = Some (rev b, rev a)).
  { apply split_once_Some. split; [|by rewrite elem_of_list_In, <- in_rev, <- elem_of_list_In].
    rewrite rev_app_distr. cbn [rev]. by rewrite <- app_assoc. }
  by rewrite E, !rev_involutive.
Qed.

Lemma rsplit_once_absent c (s : str) : c ∉ s -> rsplit_once c s = None.
Proof.
  intros H. unfold rsplit_once. destruct (split_once c (rev s)) as [[a b]|] eqn:E; [|done].
  apply split_once_Some in E as [E _]. exfalso. apply H.
  rewrite elem_of_list_In, in_rev, E. apply in_or_app. right. by left.
Qed.

Lemma strip_prefix_absent p s : starts_with p s = false -> strip_prefix p s = None.
Proof. unfold starts_with. by destruct (strip_prefix p s). Qed.

Lemma trim_start_id f s : match s with c :: _ => f c = false | [] => True end ->
  trim_start_matches f s = s.
Proof. destruct s as [|c s]; simpl; [done|]. by intros ->. Qed.

Lemma trim_end_snoc f s c : f c = false -> trim_end_matches f (s ++ [c]) = s ++ [c].
Proof.
  intros H. unfold trim_end_matches. rewrite rev_app_distr. simpl. rewrite H.
  simpl. by rewrite rev_involutive.
Qed.

Lemma trim_end_drop f s c : f c = true -> trim_end_matches f (s ++ [c]) = trim_end_matches f s.
Proof.
  intros H. unfold trim_end_matches. rewrite rev_app_distr. cbn [rev app trim_start_matches]. by rewrite H.
Qed.

(** Text that starts and ends with a character that is not trimmed. *)
Lemma trim_matches_id f a s b : f a = false -> f b = false ->
  trim_matches f (a :: s ++ [b]) = a :: s ++ [b].
Proof.
  intros Ha Hb. unfold trim_matches. simpl. rewrite Ha.
  by apply (trim_end_snoc f (a :: s)).
Qed.

(** ** Lines *)
Lemma read_line_app l rest : LF ∉ l -> read_line (l ++ LF :: rest) = (l ++ [LF], rest).
Proof.
  induction l as [|c l IH]; intros H; simpl; [done|].
  rewrite not_elem_of_cons in H. destruct H as [Hne H].
  destruct (N.eqb_spec c LF); [congruence|]. by rewrite IH.
Qed.

Lemma read_line_concat s : fst (read_line s) ++ snd (read_line s) = s.
Proof.
  induction s as [|c s IH]; simpl; [done|]. destruct (c =? LF); [done|].
  destruct (read_line s). simpl in *. by f_equal.
Qed.

Lemma read_line_nonempty c s : fst (read_line (c :: s)) <> [].
Proof. simpl. destruct (c =? LF); [done|]. by destruct (read_line s). Qed.

Lemma read_line_shorter c s : (length (snd (read_line (c :: s))) < length (c :: s))%nat.
Proof.
  pose proof (read_line_concat (c :: s)) as H. pose proof (read_line_nonempty c s) as Hn.
  destruct (read_line (c :: s)) as [a b]. cbn [fst snd] in *.
  apply (f_equal length) in H. rewrite length_app in H.
  destruct a; simpl in *; [done|lia].
Qed.

Lemma split_inclusive_lf_line l s : LF ∉ l ->
  split_inclusive_lf (l ++ LF :: s) = (l ++ [LF]) :: split_inclusive_lf s.
Proof.
  induction l as [|c l IH]; intros H; simpl; [done|].
  rewrite not_elem_of_cons in H. destruct H as [Hne H].
  destruct (N.eqb_spec c LF); [congruence|]. by rewrite IH.
Qed.

Lemma strip_suffix_snoc c l : strip_suffix_char c (l ++ [c]) = Some l.
Proof. unfold strip_suffix_char. rewrite rev_app_distr. cbn. by rewrite N.eqb_refl, rev_involutive. Qed.

Lemma strip_line_end_crlf l : strip_line_end (l ++ crlf) = l.
Proof.
  unfold strip_line_end. change crlf with ([CR] ++ [LF]).
  by rewrite (app_assoc l), !strip_suffix_snoc.
Qed.

Lemma lines_crlf l s : LF ∉ l -> lines (l ++ crlf ++ s) = l :: lines s.
Proof.
  intros H. unfold lines.
  replace (l ++ crlf ++ s) with ((l ++ [CR]) ++ LF :: s) by (by rewrite <- app_assoc).
  rewrite split_inclusive_lf_line by (rewrite elem_of_app; set_solver).
  csimpl. f_equal. rewrite <- app_assoc. apply strip_line_end_crlf.
Qed.

(** *** Pieces between separators, and lines *)
Lemma split_on_head c (a b : str) : c ∉ a -> split_on c (a ++ c :: b) = a :: split_on c b.
Proof.
  induction a as [|d a IH]; intros H; cbn [app split_on]; [by rewrite N.eqb_refl|].
  destruct (N.eqb_spec d c) as [->|]; [set_solver|]. rewrite IH by set_solver. done.
Qed.

Lemma split_on_absent c (a : str) : c ∉ a -> split_on c a = [a].
Proof.
  induction a as [|d a IH]; intros H; cbn [split_on]; [done|].
  destruct (N.eqb_spec d c) as [->|]; [set_solver|]. by rewrite IH by set_solver.
Qed.

Lemma split_on_pieces c s : Forall (fun p => c ∉ p) (split_on c s).
Proof.
  induction s as [|d s IH]; simpl; [by repeat constructor; apply not_elem_of_nil|].
  destruct (N.eqb_spec d c) as [|Hd]; [constructor; [apply not_elem_of_nil|done]|].
  destruct (split_on c s) as [|p ps]; [repeat constructor|].
  - apply not_elem_of_cons. split; [congruence|apply not_elem_of_nil].
  - inversion IH; subst. constructor; [|done]. apply not_elem_of_cons. split; [congruence|done].
Qed.

(** Joined fields are read back exactly when none holds the separator. *)
Lemma split_join c (l : list str) : l <> [] -> split_on c (join [c] l) = l <-> Forall (fun p => c ∉ p) l.
Proof.
  intros Hl. split; [intros <-; apply split_on_pieces|]. intros Hf.
  induction Hf as [|p l Hp Hf IH]; [done|]. destruct l as [|q l]; [by apply split_on_absent|].
  change (join [c] (p :: q :: l)) with (p ++ c :: join [c] (q :: l)).
  by rewrite split_on_head, IH.
Qed.

Lemma join_elem x sep l : x ∈ join sep l -> x ∈ sep \/ exists p, p ∈ l /\ x ∈ p.
Proof.
  induction l as [|p l IH]; [intros Hx; by apply elem_of_nil in Hx|].
  destruct l as [|q l].
  { intros Hx. right. exists p. split; [left|done]. }
  change (join sep (p :: q :: l)) with (p ++ sep ++ join sep (q :: l)).
  rewrite !elem_of_app. intros [Hx|[Hx|Hx]]; [right; exists p; split; [left|done]|by left|].
  apply IH in Hx as [|(r & Hr & Hx)]; [by left|]. right. exists r. split; [by right|done].
Qed.

(** The lines a text is put together from are the lines it is read as. *)
Lemma lines_of_text {B} (f : B -> str) (l : list B) : Forall (fun b => LF ∉ f b) l ->
  lines (l ≫= fun b => f b ++ crlf) = f <$> l.
Proof.
  induction 1 as [|b l Hb Hl IH]; [done|]. csimpl. rewrite <- app_assoc, lines_crlf by done. by rewrite IH.
Qed.

(** ** Decimal parsing and printing *)
Definition dec_value (s : str) (acc : N) : N := fold_left (fun a c => 10 * a + (c - 48)) s acc.

Lemma dec_value_ge s acc : acc <= dec_value s acc.
Proof.
  revert acc. induction s as [|c s IH]; simpl; intros acc; [lia|].
  etransitivity; [|apply IH]. lia.
Qed.

Lemma parse_digits_spec max s acc :
  forallb is_ascii_digit s = true -> acc <= max ->
  parse_digits max s acc = if dec_value s acc <=? max then Some (dec_value s acc) else None.
Proof.
  revert acc. induction s as [|c s IH]; simpl; intros acc Hd Hacc.
  - by apply N.leb_le in Hacc as ->.
  - apply andb_prop in Hd as [-> Hd]. cbv zeta.
    destruct (N.leb_spec (10 * acc + (c - 48)) max).
    + by apply IH.
    + pose proof (dec_value_ge s (10 * acc + (c - 48))).
      destruct (N.leb_spec (dec_value s (10 * acc + (c - 48))) max); [lia|done].
Qed.

Lemma uint_str_digits u : forallb is_ascii_digit (uint_str u) = true.
Proof. by induction u. Qed.

Lemma dec_value_acc u p : dec_value (uint_str u) (Npos p) = Npos (Pos.of_uint_acc u p).
Proof.
  revert p. induction u as [|u IH|u IH|u IH|u IH|u IH|u IH|u IH|u IH|u IH|u IH]; intros p;
    [done|..]; cbn [uint_str Pos.of_uint_acc]; rewrite <- IH; unfold dec_value;
    cbn [fold_left]; f_equal; lia.
Qed.

Lemma dec_value_uint u : dec_value (uint_str u) 0 = N.of_uint u.
Proof.
  induction u; simpl; try done; try (apply dec_value_acc); exact IHu.
Qed.

Lemma dec_value_show n : dec_value (show_N n) 0 = n.
Proof. unfold show_N. rewrite dec_value_uint. apply DecimalN.Unsigned.of_to. Qed.

Lemma show_N_digits n : forallb is_ascii_digit (show_N n) = true.
Proof. apply uint_str_digits. Qed.

(** A character that is no digit is not among digits. *)
Lemma digits_absent c (s : str) : is_ascii_digit c = false -> forallb is_ascii_digit s = true -> c ∉ s.
Proof.
  intros Hc Hd H%elem_of_list_In. rewrite forallb_forall in Hd. apply Hd in H. congruence.
Qed.

Lemma show_N_absent c n : is_ascii_digit c = false -> c ∉ show_N n.
Proof. intros Hc. by apply digits_absent, show_N_digits. Qed.

Lemma show_N_nonempty n : show_N n <> [].
Proof.
  destruct n as [|p]; [done|]. unfold show_N. simpl. intros H.
  assert (Hz : Pos.to_uint p = Decimal.Nil) by (by destruct (Pos.to_uint p)).
  by apply DecimalPos.Unsigned.to_uint_nonnil in Hz.
Qed.

Lemma parse_uint_digits max s : s <> [] -> forallb is_ascii_digit s = true ->
  parse_uint max s = parse_digits max s 0.
Proof.
  destruct s as [|c s]; [done|]. intros _ H. cbn in H. apply andb_prop in H as [H _].
  unfold parse_uint. destruct c as [|p]; [done|].
  destruct (N.eqb_spec (Npos p) 43) as [[= ->]|]; [done|].
  repeat (destruct p; try done).
Qed.

Lemma parse_uint_value max s : s <> [] -> forallb is_ascii_digit s = true -> dec_value s 0 <= max ->
  parse_uint max s = Some (dec_value s 0).
Proof.
  intros Hs Hd H. rewrite parse_uint_digits, parse_digits_spec by (done || lia). by apply N.leb_le in H as ->.
Qed.

(** Printing then parsing an unsigned integer gives it back. *)
Lemma parse_show_uint max n : n <= max -> parse_uint max (show_N n) = Some n.
Proof.
  intros H. rewrite parse_uint_value; rewrite ?dec_value_show; auto using show_N_nonempty, show_N_digits.
Qed.

Lemma parse_digits_bound max s acc n : acc <= max -> parse_digits max s acc = Some n -> n <= max.
Proof.
  revert acc. induction s as [|c s IH]; simpl; intros acc Ha H; [by simplify_eq|].
  destruct (is_ascii_digit c); [|done]. cbv zeta in H.
  destruct (N.leb_spec (10 * acc + (c - 48)) max); [by eapply IH|done].
Qed.

Lemma parse_uint_bound max s n : parse_uint max s = Some n -> n <= max.
Proof.
  unfold parse_uint. intros H. destruct s as [|c s]; [done|].
  assert (exists t, parse_digits max t 0 = Some n) as [t Ht].
  { repeat case_match; eauto. }
  by eapply parse_digits_bound, Ht; lia.
Qed.
