(* ===== verification/Externals.v ===== *)
(** * Externals: the third-party code the server calls

    The crates the source uses and does not contain are the fields of the class
    [Ext]: the definitions of the development take them as an argument.  What
    the server relies on is stated as classes of laws ([RegexLaws],
    [JsonLaws], [ArgonLaws]), each a documented behaviour of its crate.  The
    module [Toy] is one concrete instance, executable, that satisfies them: the
    witnesses run on it. *)

From stdpp Require Import base numbers list gmap strings.
From Stdlib Require Import NArith ZArith Lia.
From S2P Require Import Prelude Text.
Local Open Scope N_scope.

(** ** Time: an instant ([chrono::DateTime<Utc>]) in nanoseconds since the epoch *)
Definition ns_per_sec : Z := 1000000000.
Definition timestamp (t : Z) : Z := (t / ns_per_sec)%Z.

Class Ext := {
  (* regex *)
  Regex : Type;
  regex_new : str -> option Regex;
  regex_is_match : Regex -> str -> bool;
  regex_escape : str -> str;
  (* sha1, sha2, base64 *)
  sha1_digest : list N -> list N;
  sha256_digest : list N -> list N;
  sha512_digest : list N -> list N;
  base64_encode : list N -> str;
  (* chrono: formats, parsers and the local time zone *)
  to_rfc2822 : Z -> str;
  parse_from_rfc2822 : str -> option Z;
  parse_from_rfc3339 : str -> option Z;
  naive_date_parse : str -> str -> option Z;      (* text, format: days *)
  naive_time_parse : str -> str -> option Z;      (* text, format: nanoseconds *)
  naive_datetime_parse : str -> str -> option Z;  (* text, format: nanoseconds *)
  local_single : Z -> option Z;                   (* local wall clock to UTC *)
  format_utc : Z -> str -> str;                   (* instant, format *)
  (* serde_json on the header list *)
  headers_to_json : list (str * str) -> result str;
  headers_of_json : str -> result (list (str * str));
  (* pgp-lib *)
  PgpKey : Type;
  PgpSig : Type;
  pgp_key_from_string : str -> result PgpKey;
  pgp_sig_from_armor : str -> result PgpSig;
  pgp_verify : PgpSig -> PgpKey -> str -> result unit;
  pgp_get_one : str -> list str -> result PgpKey;
  pgp_to_armored : PgpKey -> result str;
  (* argon2 *)
  PwHash : Type;
  argon2_hash : str -> N -> result str;           (* password, salt *)
  pw_hash_new : str -> result PwHash;
  argon2_verify : str -> PwHash -> bool;
}.

(** ** What a regular expression of the fragment [wildmat] uses means *)
Inductive citem : Type :=
| CChar (c : char)
| CRange (lo hi : char).

Inductive ratom : Type :=
| RLit (c : char)
| RAny
| RStar
| RClass (neg : bool) (items : list citem).

Definition citem_match (c : char) (i : citem) : bool :=
  match i with
  | CChar d => c =? d
  | CRange lo hi => in_range lo hi c
  end.
Definition class_match (neg : bool) (items : list citem) (c : char) : bool :=
  xorb neg (existsb (citem_match c) items).

(** Matching the whole of a text; [.] does not match a line feed. *)
Fixpoint atoms_match (l : list ratom) (s : str) : bool :=
  match l with
  | [] => match s with [] => true | _ => false end
  | RLit c :: l => match s with d :: t => (c =? d) && atoms_match l t | [] => false end
  | RAny :: l => match s with d :: t => negb (d =? LF) && atoms_match l t | [] => false end
  | RClass neg items :: l =>
      match s with d :: t => class_match neg items d && atoms_match l t | [] => false end
  | RStar :: l =>
      (fix star (s : str) : bool :=
         atoms_match l s || match s with d :: t => negb (d =? LF) && star t | [] => false end) s
  end.

Definition citem_render (i : citem) : str :=
  match i with CChar c => [c] | CRange lo hi => [lo; ch "-"; hi] end.
Definition citem_wf (i : citem) : bool :=
  match i with
  | CChar c => is_ascii_alphanumeric c
  | CRange lo hi => is_ascii_alphanumeric lo && is_ascii_alphanumeric hi && (lo <=? hi)
  end.

Section Regex.
Context {X : Ext}.

(** How an atom is written in the regex syntax. *)
Definition atom_render (a : ratom) : str :=
  match a with
  | RLit c => regex_escape [c]
  | RAny => lit "."
  | RStar => lit ".*"
  | RClass neg items =>
      lit "[" ++ (if neg then lit "^" else []) ++ (items ≫= citem_render) ++ lit "]"
  end.
Definition atom_wf (a : ratom) : bool :=
  match a with
  | RClass _ items => forallb citem_wf items && negb (bool_decide (items = []))
  | _ => true
  end.

(** The regex crate: an expression anchored at both ends compiles and matches
    exactly the texts its atoms match; [escape] puts a backslash before the
    bracket. *)
Class RegexLaws : Prop := {
  regex_anchored : forall l, forallb atom_wf l = true ->
    exists re, regex_new (lit "^" ++ (l ≫= atom_render) ++ lit "$") = Some re
               /\ forall s, regex_is_match re s = atoms_match l s;
  regex_escape_bracket : regex_escape (lit "[") = lit "\[";
}.
End Regex.

(** serde_json: a header list always serialises, into a text without NUL (control
    characters are escaped), and reads back as it was. *)
Class JsonLaws {X : Ext} : Prop := {
  headers_json_roundtrip : forall h, exists j, headers_to_json h = Ok j /\ headers_of_json j = Ok h;
  headers_json_escaped : forall h j, headers_to_json h = Ok j -> NUL ∉ j;
}.

(** argon2: hashing succeeds, into a text without NUL, and a stored hash verifies its own
    password only. *)
Class ArgonLaws {X : Ext} : Prop := {
  argon2_roundtrip : forall p salt, exists h ph,
    argon2_hash p salt = Ok h /\ pw_hash_new h = Ok ph /\
    (forall q, argon2_verify q ph = true <-> q = p);
  argon2_hash_text : forall p salt h, argon2_hash p salt = Ok h -> NUL ∉ h;
}.

(** ** A concrete instance *)
Module Toy.

(** A matcher for the fragment: it reads the expression back into atoms. *)
Definition is_meta (c : char) : bool :=
  existsb (N.eqb c) (lit "\.+*?()|[]{}^$#&-~").
Definition escape1 (c : char) : str := if is_meta c then [ch "\"; c] else [c].

Fixpoint read_items (s : str) : option (list citem * str) :=
  match s with
  | [] => None
  | c :: t =>
      if c =? ch "]" then Some ([], t)
      else match t with
           | d :: hi :: u =>
               if d =? ch "-"
               then match read_items u with Some (l, r) => Some (CRange c hi :: l, r) | None => None end
               else match read_items t with Some (l, r) => Some (CChar c :: l, r) | None => None end
           | _ => match read_items t with Some (l, r) => Some (CChar c :: l, r) | None => None end
           end
  end.

Fixpoint read_atoms (fuel : nat) (s : str) : option (list ratom) :=
  match fuel with
  | O => None
  | S fuel =>
      match s with
      | [] => None
      | c :: t =>
          if c =? ch "$" then match t with [] => Some [] | _ => None end
          else if c =? ch "\" then
            match t with d :: u => cons (RLit d) <$> read_atoms fuel u | [] => None end
          else if c =? ch "." then
            match t with
            | d :: u => if d =? ch "*" then cons RStar <$> read_atoms fuel u
                        else cons RAny <$> read_atoms fuel t
            | [] => None
            end
          else if c =? ch "[" then
            let neg := starts_with (lit "^") t in
            let t := if neg then tail t else t in
            match read_items t with
            | Some (l, r) => cons (RClass neg l) <$> read_atoms fuel r
            | None => None
            end
          else cons (RLit c) <$> read_atoms fuel t
      end
  end.

Definition compile (s : str) : option (list ratom) :=
  match s with
  | c :: t => if c =? ch "^" then read_atoms (S (length t)) t else None
  | [] => None
  end.

(** Header lists, length-prefixed. *)
Definition enc_str (s : str) : str := N.of_nat (length s) :: s.
Definition enc_headers (h : list (str * str)) : str :=
  h ≫= (fun kv => enc_str (fst kv) ++ enc_str (snd kv)).
Definition dec_str (s : str) : option (str * str) :=
  match s with
  | n :: t => Some (take (N.to_nat n) t, drop (N.to_nat n) t)
  | [] => None
  end.
Definition read_Z (s : str) : option Z :=
  match s with
  | c :: t => if c =? 45 then (fun n => - Z.of_N n)%Z <$> parse_u64 t else Z.of_N <$> parse_u64 s
  | [] => None
  end.
Fixpoint dec_headers (fuel : nat) (s : str) : result (list (str * str)) :=
  match fuel with
  | O => Err []
  | S fuel =>
      match s with
      | [] => Ok []
      | _ => match dec_str s with
             | None => Err []
             | Some (k, s) => match dec_str s with
                              | None => Err []
                              | Some (v, s) => match dec_headers fuel s with
                                               | Ok l => Ok ((k, v) :: l)
                                               | Err e => Err e
                                               end
                              end
             end
      end
  end.

(** Two digits at a time, for dates written in digits only. *)
Definition two (a b : char) : Z := (Z.of_N (10 * (a - 48) + (b - 48)))%Z.
Definition time_of (s f : str) : option Z :=
  match s with
  | [a; b; c; d; e; g] => Some ((two a b * 3600 + two c d * 60 + two e g) * ns_per_sec)%Z
  | _ => None
  end.
Definition date_of (s f : str) : option Z :=
  match parse_uint u64_max s with Some n => Some (Z.of_N n) | None => None end.

Definition ext : Ext := {|
  Regex := list ratom;
  regex_new := compile;
  regex_is_match := atoms_match;
  regex_escape := fun s => s ≫= escape1;
  sha1_digest := fun b => take 20 b;
  sha256_digest := fun b => take 32 b;
  sha512_digest := fun b => take 64 b;
  base64_encode := fun b => b ≫= hex_byte;
  to_rfc2822 := fun t => show_Z (timestamp t);
  parse_from_rfc2822 := fun s => match parse_u64 s with
                                 | Some n => Some (Z.of_N n * ns_per_sec)%Z | None => None end;
  parse_from_rfc3339 := fun s =>
    match rev s with
    | c :: t => if c =? ch "Z" then (fun n => n * ns_per_sec)%Z <$> read_Z (rev t) else None
    | [] => None
    end;
  naive_date_parse := date_of;
  naive_time_parse := time_of;
  naive_datetime_parse := fun s _ => match parse_u64 s with
                                     | Some n => Some (Z.of_N n * ns_per_sec)%Z | None => None end;
  local_single := fun t => Some t;
  format_utc := fun t _ => show_Z (timestamp t);
  headers_to_json := fun h => Ok (N.succ <$> enc_headers h);
  headers_of_json := fun s => dec_headers (S (length s)) (N.pred <$> s);
  PgpKey := str;
  PgpSig := str;
  pgp_key_from_string := fun s => Ok s;
  pgp_sig_from_armor := fun s => Ok s;
  pgp_verify := fun sig key _ =>
    if existsb (fun l => str_eqb l key) (lines sig) then Ok tt else Err (lit "bad");
  pgp_get_one := fun _ _ => Err (lit "no key");
  pgp_to_armored := fun k => Ok k;
  PwHash := str;
  argon2_hash := fun p _ => Ok (N.succ <$> p);
  pw_hash_new := fun h => Ok h;
  argon2_verify := fun p h => str_eqb (N.succ <$> p) h;
|}.

Lemma read_items_render items rest :
  forallb citem_wf items = true ->
  read_items ((items ≫= citem_render) ++ 93 :: rest) = Some (items, rest).
Proof.
  assert (Hb : forall c, is_ascii_alphanumeric c = true ->
    (c =? 93) = false /\ (c =? 45) = false).
  { intros. char_lia. }
  induction items as [|[c|lo hi] items IH]; intros H; [done|..]; csimpl in H.
  - apply andb_prop in H as [Hc H]. csimpl. destruct (Hb c Hc) as [-> _].
    specialize (IH H).
    destruct ((items ≫= citem_render) ++ 93 :: rest) as [|d [|e u]] eqn:E;
      [done|by rewrite IH|].
    assert ((d =? 45) = false) as ->; [|by rewrite IH].
    destruct items as [|[c'|lo' hi'] items]; csimpl in E; simplify_eq; [done|..];
      csimpl in H; apply andb_prop in H as [H _].
    + by apply Hb.
    + apply andb_prop in H as [H _]. apply andb_prop in H as [H _]. by apply Hb.
  - apply andb_prop in H as [Hc H]. apply andb_prop in Hc as [Hc _].
    apply andb_prop in Hc as [Hlo Hhi]. csimpl. destruct (Hb lo Hlo) as [-> _].
    by rewrite (IH H).
Qed.

Lemma not_caret c s : is_ascii_alphanumeric c = true -> starts_with (lit "^") (c :: s) = false.
Proof.
  intros H. unfold starts_with. change (lit "^") with [94]. cbn [strip_prefix].
  destruct (N.eqb_spec 94 c) as [<-|]; done.
Qed.

Lemma class_head_not_caret items rest :
  forallb citem_wf items = true -> items <> [] ->
  starts_with (lit "^") ((items ≫= citem_render) ++ 93 :: rest) = false.
Proof.
  destruct items as [|[c|lo hi] items]; [done|..]; intros H _; csimpl in H.
  - apply andb_prop in H as [H _]. by apply not_caret.
  - apply andb_prop in H as [H _]. apply andb_prop in H as [H _].
    apply andb_prop in H as [H _]. by apply not_caret.
Qed.

Lemma read_atoms_render (l : list ratom) fuel :
  forallb (atom_wf) l = true ->
  (length ((l ≫= @atom_render ext) ++ [36%N]) <= fuel)%nat ->
  read_atoms fuel ((l ≫= @atom_render ext) ++ [36%N]) = Some l.
Proof.
  revert fuel. induction l as [|a l IH]; intros fuel Hwf Hf.
  { destruct fuel; [by csimpl in Hf; lia|done]. }
  csimpl in Hwf. apply andb_prop in Hwf as [Ha Hwf].
  csimpl. rewrite <- app_assoc. csimpl in Hf. rewrite <- app_assoc, length_app in Hf.
  destruct a as [c| | |neg items].
  - csimpl in *. unfold escape1 in *.
    destruct (is_meta c) eqn:Em.
    + destruct fuel; csimpl in Hf; [lia|]. csimpl. rewrite IH; [done|done|lia].
    + destruct fuel; csimpl in Hf; [lia|]. csimpl.
      unfold is_meta in Em. csimpl in Em. unfold ch. csimpl.
      rewrite !orb_false_iff in Em. destruct_and! Em.
      repeat match goal with H : (c =? _) = false |- _ => try rewrite H; clear H end.
      rewrite IH; [done|done|lia].
  - csimpl in *. destruct fuel; [lia|]. csimpl.
    destruct ((l ≫= @atom_render ext) ++ [36%N]) as [|d u] eqn:E.
    { by destruct (l ≫= @atom_render ext). }
    assert ((d =? 42) = false) as ->; [|rewrite IH; [done|done|lia]].
    destruct l as [|[c| | |neg items] l]; csimpl in E; simplify_eq; try done.
    unfold escape1 in E. destruct (is_meta c) eqn:Em; csimpl in E; simplify_eq; [done|].
    unfold is_meta in Em. csimpl in Em. unfold ch. csimpl.
    rewrite !orb_false_iff in Em. by destruct_and! Em.
  - csimpl in *. destruct fuel; [lia|]. csimpl. rewrite IH; [done|done|lia].
  - apply andb_prop in Ha as [Hi Hne]. apply negb_true_iff, bool_decide_eq_false in Hne.
    csimpl in *. rewrite !length_app in Hf. destruct fuel; [lia|]. csimpl.
    destruct neg; csimpl.
    + rewrite <- !app_assoc. cbn [app]. rewrite read_items_render by done. csimpl. csimpl in Hf.
      rewrite IH; [done|done|rewrite length_app; csimpl; lia].
    + rewrite <- !app_assoc. cbn [app]. rewrite class_head_not_caret, read_items_render by done.
      csimpl. csimpl in Hf. rewrite IH; [done|done|rewrite length_app; csimpl; lia].
Qed.

#[export] Instance regex_laws : @RegexLaws ext.
Proof.
  split; [|done]. intros l Hl. exists l. split; [|done].
  apply (read_atoms_render l _ Hl). by apply Nat.le_succ_diag_r.
Qed.

Lemma dec_enc_str s rest : dec_str (enc_str s ++ rest) = Some (s, rest).
Proof.
  unfold dec_str, enc_str. csimpl. rewrite Nat2N.id, take_app_length, drop_app_length. done.
Qed.

Lemma enc_headers_cons k v h :
  enc_headers ((k, v) :: h) = enc_str k ++ enc_str v ++ enc_headers h.
Proof. unfold enc_headers. csimpl. by rewrite <- app_assoc. Qed.

Lemma dec_enc_headers h fuel : (length (enc_headers h) < fuel)%nat ->
  dec_headers fuel (enc_headers h) = Ok h.
Proof.
  revert fuel. induction h as [|[k v] h IH]; intros fuel Hf.
  { destruct fuel; [lia|done]. }
  destruct fuel as [|fuel]; [lia|]. rewrite enc_headers_cons in *.
  cbn [dec_headers]. destruct (enc_str k ++ _) as [|x y] eqn:E; [done|].
  rewrite <- E, dec_enc_str, dec_enc_str. rewrite <- E, !length_app in Hf.
  rewrite IH; [done|]. unfold enc_str in Hf. csimpl in Hf. lia.
Qed.

Lemma read_show_Z z : (Z.abs_N z <= u64_max)%N -> read_Z (show_Z z) = Some z.
Proof.
  intros Hz. unfold read_Z, show_Z. destruct (Z.ltb_spec z 0) as [Hn|Hp].
  - rewrite N.eqb_refl. unfold parse_u64. rewrite parse_show_uint by done. simpl. f_equal. lia.
  - pose proof (show_N_digits (Z.to_N z)) as Hd. pose proof (show_N_nonempty (Z.to_N z)) as Hne.
    destruct (show_N (Z.to_N z)) as [|c t] eqn:E; [done|]. simpl in Hd.
    destruct (N.eqb_spec c 45) as [->|_]; [done|]. rewrite <- E. unfold parse_u64.
    rewrite parse_show_uint by lia. simpl. f_equal. lia.
Qed.

Lemma succ_no_nul (s : str) : NUL ∉ N.succ <$> s.
Proof. rewrite list_elem_of_fmap. unfold NUL. intros (x & Hx & _). lia. Qed.

#[export] Instance json_laws : @JsonLaws ext.
Proof.
  split.
  - intros h. exists (N.succ <$> enc_headers h). split; [done|].
    unfold headers_of_json, ext. rewrite length_fmap, <- list_fmap_compose.
    rewrite (list_fmap_ext _ id), list_fmap_id.
    + apply dec_enc_headers, Nat.lt_succ_diag_r.
    + intros i x _. apply N.pred_succ.
  - intros h j [= <-]. apply succ_no_nul.
Qed.

#[export] Instance argon_laws : @ArgonLaws ext.
Proof.
  split.
  - intros p salt. exists (N.succ <$> p), (N.succ <$> p). splits; try done. intros q. simpl.
    rewrite str_eqb_eq. split; [|by intros ->]. apply list_fmap_eq_inj. intros x y. apply N.succ_inj.
  - intros p salt h [= <-]. apply succ_no_nul.
Qed.
End Toy.
