(* ===== verification/Message.v ===== *)
(** * Message: commands, articles and their headers ([parse.rs], [storage/common.rs])

    The nom parsers of the protocol as functions from text to an optional
    result and the rest of the text ([None] is a parse error), the Message-ID
    escaping, and the header accessors of [handlers/utils.rs]. *)

From stdpp Require Import base numbers list gmap strings.
From Stdlib Require Import NArith ZArith Lia.
From S2P Require Import Prelude Text Externals.
Local Open Scope N_scope.

Definition DQ : char := 34.   (* the double quote *)
Definition BSL : char := 92.  (* the backslash *)

(** ** Commands *)
Record Command := mkCommand { cmd_name : str; cmd_args : list str }.
Record Response := mkResponse { rsp_code : N; rsp_text : str }.

(** nom's [take_while1], [space1], [space0], [crlf], [take_till]. *)
Definition take_while1 (f : char -> bool) (s : str) : option (str * str) :=
  match span f s with
  | ([], _) => None
  | (a, r) => Some (a, r)
  end.
Definition is_space (c : char) : bool := (c =? SP) || (c =? TAB).
Definition space1 (s : str) : option str :=
  match take_while1 is_space s with Some (_, r) => Some r | None => None end.
Definition space0 (s : str) : str := snd (span is_space s).
Definition p_crlf (s : str) : option str := strip_prefix crlf s.
Definition not_eol (c : char) : bool := negb ((c =? CR) || (c =? LF)).
Definition take_till_eol (s : str) : str * str := span not_eol s.

Definition arg_char (c : char) : bool := negb ((c =? SP) || (c =? CR) || (c =? LF)).

(** [separated_list1(space1, is_not(" \r\n"))] after its first element: a
    separator with no element after it is left in the input. *)
Fixpoint more_args (fuel : nat) (s : str) : list str * str :=
  match fuel with
  | O => ([], s)
  | S fuel =>
      match space1 s with
      | None => ([], s)
      | Some s' =>
          match take_while1 arg_char s' with
          | None => ([], s)
          | Some (a, s'') => let '(l, r) := more_args fuel s'' in (a :: l, r)
          end
      end
  end.

Definition parse_args (s : str) : option (list str * str) :=
  match space1 s with
  | None => None
  | Some s' =>
      match take_while1 arg_char s' with
      | None => None
      | Some (a, s'') => let '(l, r) := more_args (length s'') s'' in Some (a :: l, r)
      end
  end.

Definition parse_command (input : str) : option (str * Command) :=
  match take_while1 is_ascii_alphabetic input with
  | None => None
  | Some (name, input) =>
      let '(args, input) := match parse_args input with
                            | Some (l, r) => (l, r)
                            | None => ([], input)
                            end in
      let input := match p_crlf input with Some r => r | None => input end in
      Some (input, mkCommand (to_ascii_uppercase name) args)
  end.

Definition parse_response (input : str) : option (str * Response) :=
  match take_while1 is_ascii_digit input with
  | None => None
  | Some (d, input) =>
      match parse_u16 d with
      | None => None
      | Some code =>
          let '(text, input) := match input with
                                | c :: t => if c =? SP then take_till_eol t else ([], input)
                                | [] => ([], input)
                                end in
          let input := match p_crlf input with Some r => r | None => input end in
          Some (input, mkResponse code text)
      end
  end.

(** ** Messages *)
Record Message := mkMessage { headers : list (str * str); body : str }.

(** The character loop of [unescape_message_id] on the text between the angle
    brackets; [depth] is the comment nesting depth. *)
Fixpoint unescape_loop (s : str) (in_quotes in_brackets : bool) (depth : N) : str :=
  match s with
  | [] => []
  | c :: t =>
      if 0 <? depth then
        if c =? ch "(" then unescape_loop t in_quotes in_brackets (depth + 1)
        else if c =? ch ")" then unescape_loop t in_quotes in_brackets (depth - 1)
        else unescape_loop t in_quotes in_brackets depth
      else if (c =? DQ) && negb in_brackets then unescape_loop t (negb in_quotes) in_brackets depth
      else if (c =? ch "[") && negb in_quotes then c :: unescape_loop t in_quotes true depth
      else if (c =? ch "]") && in_brackets then c :: unescape_loop t in_quotes false depth
      else if (c =? BSL) && (in_quotes || in_brackets) then
        match t with
        | n :: u => n :: unescape_loop u in_quotes in_brackets depth
        | [] => []
        end
      else if (c =? ch "(") && negb in_quotes && negb in_brackets then
        unescape_loop t in_quotes in_brackets 1
      else if is_whitespace c && negb in_quotes && negb in_brackets then
        unescape_loop t in_quotes in_brackets depth
      else c :: unescape_loop t in_quotes in_brackets depth
  end.

(** [&s[1..s.len() - 1]] for a text that starts and ends with a one-byte character. *)
Definition inner (s : str) : str := removelast (tail s).

Definition bracketed (l r : char) (s : str) : bool := starts_with [l] s && ends_with [r] s.
Definition is_angle (s : str) : bool := bracketed (ch "<") (ch ">") s.

Definition unescape_message_id (id : str) : str :=
  let trimmed := trim id in
  if negb (is_angle trimmed) then trimmed
  else lit "<" ++ unescape_loop (inner trimmed) false false 0 ++ lit ">".

(** The characters an unquoted local part may hold. *)
Definition atext (c : char) : bool :=
  is_ascii_alphanumeric c || existsb (N.eqb c) (lit "!#$%&'*+-/=?^_`{|}~.").

Definition escape_chars (special : char -> bool) (s : str) : str :=
  s ≫= (fun c => if special c then [BSL; c] else [c]).

Definition escape_message_id (id : str) : str :=
  let trimmed := trim id in
  if negb (is_angle trimmed) then trimmed
  else
    match split_once (ch "@") (inner trimmed) with
    | None => trimmed
    | Some (lpart, rpart) =>
        let needs_quote := existsb (fun c => negb (atext c)) lpart in
        let quote := if needs_quote then [DQ] else [] in
        let esc_left :=
          quote ++ escape_chars (fun c => (c =? DQ) || (c =? BSL)) lpart ++ quote in
        let esc_right :=
          if bracketed (ch "[") (ch "]") rpart
          then lit "[" ++
               escape_chars (fun c => (c =? BSL) || (c =? ch "]") || (c =? ch "[")) (inner rpart)
               ++ lit "]"
          else rpart in
        lit "<" ++ esc_left ++ lit "@" ++ esc_right ++ lit ">"
    end.

Definition is_header (name : str) (kv : str * str) : bool := eq_ignore_ascii_case (fst kv) name.

(** Rewrite the values of the headers called [name]. *)
Definition map_header (name : str) (f : str -> str) (hs : list (str * str)) : list (str * str) :=
  (fun kv => if is_header name kv then (fst kv, f (snd kv)) else kv) <$> hs.

Definition escape_message_id_header (msg : Message) : Message :=
  mkMessage (map_header (lit "Message-ID") escape_message_id (headers msg)) (body msg).

(** *** Header parsing *)
Definition header_name_char (c : char) : bool := negb ((c =? ch ":") || (c =? CR) || (c =? LF)).

(** The folded continuation lines of a header. *)
Fixpoint header_continuations (fuel : nat) (i val : str) : option (str * str) :=
  match fuel with
  | O => None
  | S fuel =>
      match take_while1 is_space i with
      | None => Some (i, val)
      | Some (_, next) =>
          let '(cont, next) := take_till_eol next in
          match p_crlf next with
          | None => None
          | Some next => header_continuations fuel next (val ++ [SP] ++ cont)
          end
      end
  end.

Definition parse_header_line (input : str) : option (str * (str * str)) :=
  match take_while1 header_name_char input with
  | None => None
  | Some (name, i) =>
      match i with
      | c :: i =>
          if c =? ch ":" then
            let i := space0 i in
            let '(value, i) := take_till_eol i in
            match p_crlf i with
            | None => None
            | Some i =>
                match header_continuations (S (length i)) i value with
                | None => None
                | Some (i, val) => Some (i, (name, val))
                end
            end
          else None
      | [] => None
      end
  end.

Fixpoint parse_headers_loop (fuel : nat) (input : str) : option (str * list (str * str)) :=
  match fuel with
  | O => None
  | S fuel =>
      match p_crlf input with
      | Some rest => Some (rest, [])
      | None =>
          match parse_header_line input with
          | None => None
          | Some (next, header) =>
              match parse_headers_loop fuel next with
              | None => None
              | Some (rest, l) => Some (rest, header :: l)
              end
          end
      end
  end.

(** Each header takes at least one character, so the length is fuel enough. *)
Definition parse_headers (input : str) : option (str * list (str * str)) :=
  parse_headers_loop (S (length input)) input.

Definition parse_message (input : str) : option Message :=
  match parse_headers input with
  | None => None
  | Some (rest, hs) =>
      Some (mkMessage (map_header (lit "Message-ID") unescape_message_id hs) rest)
  end.

(** ** Header accessors ([handlers/utils.rs], [storage/common.rs]) *)
Definition has_header (article : Message) (name : str) : bool :=
  existsb (is_header name) (headers article).

Definition get_header_value (msg : Message) (name : str) : option str :=
  snd <$> find_first (is_header name) (headers msg).

Definition get_header_values (article : Message) (name : str) : list str :=
  snd <$> List.filter (is_header name) (headers article).

Definition extract_message_id (article : Message) : option str :=
  get_header_value article (lit "Message-ID").

Definition parse_newsgroups_from_message (article : Message) : list str :=
  match get_header_value article (lit "Newsgroups") with
  | None => []
  | Some v => List.filter (fun s => negb (str_eqb s [])) (trim <$> split_on (ch ",") v)
  end.

Definition extract_newsgroups : Message -> list str := parse_newsgroups_from_message.

Section WithExt.
Context {X : Ext}.

Definition reconstruct_message_from_row (headers_str body : str) : result Message :=
  match headers_of_json headers_str with
  | Ok hs => Ok (mkMessage hs body)
  | Err e => Err e
  end.

Definition ensure_message_id (msg : Message) (domain : str) : Message :=
  if has_header msg (lit "Message-ID") then msg
  else
    let hex := sha1_digest (utf8_encode (body msg)) ≫= hex_byte in
    mkMessage (headers msg ++ [(lit "Message-ID", lit "<" ++ hex ++ lit "@" ++ domain ++ lit ">")])
              (body msg).

Definition ensure_date (now : Z) (msg : Message) : Message :=
  if has_header msg (lit "Date") then msg
  else mkMessage (headers msg ++ [(lit "Date", to_rfc2822 now)]) (body msg).

Definition parse_datetime (date time : str) (gmt : bool) : result Z :=
  if negb ((utf8_len date =? 6) || (utf8_len date =? 8)) || negb (forallb is_ascii_digit date)
  then Err (lit "invalid date")
  else if negb (utf8_len time =? 6) || negb (forallb is_ascii_digit time)
  then Err (lit "invalid time")
  else
    let fmt := if utf8_len date =? 6 then lit "%y%m%d" else lit "%Y%m%d" in
    match naive_date_parse date fmt with
    | None => Err (lit "invalid date")
    | Some d =>
        match naive_time_parse time (lit "%H%M%S") with
        | None => Err (lit "invalid time")
        | Some t =>
            let naive := (d * 86400 * ns_per_sec + t)%Z in
            if gmt then Ok naive
            else ok_or (local_single naive) (lit "invalid local time")
        end
    end.
End WithExt.

(** ** Escaping and unescaping Message-IDs *)

Lemma inner_angle l r s : inner (l :: s ++ [r]) = s.
Proof. unfold inner. cbn [tail]. by rewrite removelast_last. Qed.

Lemma bracketed_intro l r s : bracketed l r (l :: s ++ [r]) = true.
Proof.
  unfold bracketed. apply andb_true_iff. split.
  - apply starts_with_true. by exists (s ++ [r]).
  - apply ends_with_true. by exists (l :: s).
Qed.

Lemma bracketed_inv l r s : l <> r -> bracketed l r s = true -> s = l :: inner s ++ [r].
Proof.
  intros Hne H. unfold bracketed in H. apply andb_prop in H as [H1 H2].
  apply starts_with_true in H1 as [t ->]. apply ends_with_true in H2 as [u Hu].
  destruct u as [|x u]; simpl in Hu; [by destruct t; simplify_eq|].
  injection Hu as -> Hu. change ([x] ++ t) with (x :: t). rewrite Hu. f_equal.
  by rewrite inner_angle.
Qed.

Lemma is_angle_intro s : is_angle (lit "<" ++ s ++ lit ">") = true.
Proof. apply (bracketed_intro 60 62). Qed.

Lemma inner_lit s : inner (lit "<" ++ s ++ lit ">") = s.
Proof. apply (inner_angle 60 62). Qed.

Lemma trim_angle s : trim (lit "<" ++ s ++ lit ">") = lit "<" ++ s ++ lit ">".
Proof. by apply (trim_matches_id is_whitespace 60 s 62). Qed.

(** The characters that need no escaping in an unquoted part of a Message-ID. *)
Definition plain_char (c : char) : bool :=
  negb ((c =? DQ) || (c =? ch "[") || (c =? ch "(") || is_whitespace c).

Lemma unescape_plain s rest : forallb plain_char s = true ->
  unescape_loop (s ++ rest) false false 0 = s ++ unescape_loop rest false false 0.
Proof.
  induction s as [|c s IH]; intros H; [done|]. cbn [forallb] in H.
  apply andb_prop in H as [Hc H]. unfold plain_char in Hc.
  apply negb_true_iff in Hc. rewrite !orb_false_iff in Hc. destruct_and! Hc.
  cbn [app unescape_loop].
  repeat match goal with E : _ = false |- _ => rewrite E; clear E end.
  rewrite ?andb_false_r. cbn. by rewrite IH.
Qed.

(** In quotes, an escaped text is read back, up to the closing quote. *)
Lemma unescape_quoted s rest :
  unescape_loop (escape_chars (fun c => (c =? DQ) || (c =? BSL)) s ++ rest) true false 0
  = s ++ unescape_loop rest true false 0.
Proof.
  induction s as [|c s IH]; [done|]. unfold escape_chars in *. csimpl.
  destruct ((c =? DQ) || (c =? BSL)) eqn:E; csimpl; rewrite IH; [done|].
  apply orb_false_iff in E as [E1 E2].
  by rewrite E1, E2, !andb_false_r.
Qed.

Lemma unescape_brackets s rest :
  unescape_loop (escape_chars (fun c => (c =? BSL) || (c =? ch "]") || (c =? ch "[")) s ++ rest)
    false true 0
  = s ++ unescape_loop rest false true 0.
Proof.
  change (ch "]") with 93; change (ch "[") with 91.
  induction s as [|c s IH]; [done|]. unfold escape_chars in *. csimpl.
  destruct ((c =? BSL) || (c =? 93) || (c =? 91)) eqn:E; csimpl; rewrite IH; [done|].
  rewrite !orb_false_iff in E. destruct_and! E.
  repeat match goal with E : _ = false |- _ => rewrite E; clear E end.
  by rewrite ?andb_false_r.
Qed.

Lemma escape_chars_id f s : existsb f s = false -> escape_chars f s = s.
Proof.
  induction s as [|c s IH]; [done|]. cbn [existsb]. intros H.
  apply orb_false_iff in H as [H1 H2]. unfold escape_chars in *. csimpl.
  rewrite H1. csimpl. f_equal. by apply IH.
Qed.

Lemma atext_plain c : atext c = true -> plain_char c = true.
Proof.
  unfold atext, plain_char. intros H. apply negb_true_iff.
  apply orb_true_iff in H as [H|H].
  - change (ch "[") with 91; change (ch "(") with 40; unfold DQ. char_lia.
  - apply existsb_exists in H as (d & Hd & <-%N.eqb_eq).
    repeat (destruct Hd as [<-|Hd]; [done|]). done.
Qed.

Lemma atext_not_special c : atext c = true -> (c =? DQ) || (c =? BSL) = false.
Proof.
  unfold atext. intros H. apply orb_true_iff in H as [H|H].
  - unfold DQ, BSL. char_lia.
  - apply existsb_exists in H as (d & Hd & <-%N.eqb_eq).
    repeat (destruct Hd as [<-|Hd]; [done|]). done.
Qed.

(** The local part comes back whether it had to be quoted or not. *)
Lemma unescape_local l rest :
  let quote := if existsb (fun c => negb (atext c)) l then [DQ] else [] in
  unescape_loop
    (quote ++ escape_chars (fun c => (c =? DQ) || (c =? BSL)) l ++ quote ++ rest) false false 0
  = l ++ unescape_loop rest false false 0.
Proof.
  destruct (existsb _ l) eqn:E; cbv zeta.
  - cbn [app]. cbn -[escape_chars]. rewrite unescape_quoted. done.
  - assert (Hl : forall c, In c l -> atext c = true).
    { intros c Hc. destruct (atext c) eqn:Ec; [done|]. exfalso.
      assert (existsb (fun c => negb (atext c)) l = true) by
        (apply existsb_exists; exists c; by rewrite Ec). congruence. }
    rewrite escape_chars_id.
    + cbn [app]. apply unescape_plain, forallb_forall. intros c Hc. by apply atext_plain, Hl.
    + destruct (existsb (fun c => (c =? DQ) || (c =? BSL)) l) eqn:E2; [|done].
      apply existsb_exists in E2 as (c & Hc & Hs). rewrite atext_not_special in Hs by auto. done.
Qed.

(** A domain part is either a bracketed literal or free of special characters. *)
Definition domain_ok (d : str) : bool :=
  bracketed (ch "[") (ch "]") d || forallb plain_char d.

Lemma unescape_domain d :
  domain_ok d = true ->
  unescape_loop
    (if bracketed (ch "[") (ch "]") d
     then lit "[" ++ escape_chars (fun c => (c =? BSL) || (c =? ch "]") || (c =? ch "[")) (inner d)
          ++ lit "]"
     else d) false false 0 = d.
Proof.
  unfold domain_ok. destruct (bracketed (ch "[") (ch "]") d) eqn:E; intros H.
  - apply bracketed_inv in E; [|done]. cbn -[escape_chars inner].
    rewrite unescape_brackets. cbn -[inner]. by rewrite E at 2.
  - rewrite <- (app_nil_r d) at 1. rewrite unescape_plain by done. by rewrite app_nil_r.
Qed.

(** [unescape_message_id] undoes [escape_message_id]: for every unescaped
    Message-ID [<local@domain>] whose domain is a bracketed literal or free of
    quotes, brackets, comments and blanks, whatever characters the local part
    holds. *)
Theorem unescape_escape_message_id (l d : str) :
  ch "@" ∉ l -> domain_ok d = true ->
  let id := lit "<" ++ (l ++ ch "@" :: d) ++ lit ">" in
  unescape_message_id (escape_message_id id) = id.
Proof.
  intros Hl Hd id. unfold escape_message_id. subst id. rewrite trim_angle, is_angle_intro.
  cbn [negb]. rewrite inner_lit.
  rewrite (proj2 (split_once_Some (ch "@") _ l d)) by done. cbv zeta.
  unfold unescape_message_id. cbv zeta.
  pose proof (unescape_local l) as HL. cbv zeta in HL.
  set (quote := if existsb (fun c => negb (atext c)) l then [DQ] else []) in *.
  set (esc := escape_chars (fun c => (c =? DQ) || (c =? BSL)) l) in *.
  pose proof (unescape_domain d Hd) as HD.
  set (dom := if bracketed (ch "[") (ch "]") d then _ else d) in *.
  replace (lit "<" ++ (quote ++ esc ++ quote) ++ lit "@" ++ dom ++ lit ">")
    with (lit "<" ++ ((quote ++ esc ++ quote) ++ lit "@" ++ dom) ++ lit ">")
    by (by rewrite <- !app_assoc).
  rewrite trim_angle, is_angle_intro. cbn [negb]. rewrite inner_lit.
  do 2 f_equal. rewrite <- !app_assoc, HL. f_equal.
  cbn [app]. cbn -[dom]. f_equal. exact HD.
Qed.

Lemma unescape_escape_message_id_witness :
  unescape_message_id (escape_message_id
    (lit "<" ++ ([105; DQ; 32; BSL] ++ ch "@" :: lit "[a]b]") ++ lit ">"))
  = lit "<" ++ ([105; DQ; 32; BSL] ++ ch "@" :: lit "[a]b]") ++ lit ">".
Proof.
  apply unescape_escape_message_id; [|reflexivity].
  rewrite !not_elem_of_cons. splits; try discriminate. apply not_elem_of_nil.
Defined.

(** ** The command parser *)

(** An argument the parser returns as one word. *)
Definition arg_ok (a : str) : bool :=
  match a with
  | [] => false
  | c :: _ => negb (c =? TAB) && forallb arg_char a
  end.

Definition unparse_args (args : list str) : str := args ≫= cons SP.
Definition eol_ok (e : str) : Prop := e = [] \/ e = crlf.

Lemma take_while1_exact f a b : a <> [] -> forallb f a = true ->
  match b with c :: _ => f c = false | [] => True end -> take_while1 f (a ++ b) = Some (a, b).
Proof. intros Hn Ha Hb. unfold take_while1. rewrite span_exact by done. by destruct a. Qed.

Lemma space1_arg a rest : arg_ok a = true -> space1 (SP :: a ++ rest) = Some (a ++ rest).
Proof.
  intros H. unfold space1. change (SP :: a ++ rest) with ([SP] ++ (a ++ rest)).
  rewrite take_while1_exact; [done|done|done|].
  destruct a as [|c a]; [done|]. unfold arg_ok in H. cbn [app]. apply andb_prop in H as [H1 H2].
  cbn [forallb] in H2. apply andb_prop in H2 as [H2 _].
  unfold is_space, arg_char, SP, TAB, CR, LF in *. char_lia.
Qed.

Lemma take_arg a rest : arg_ok a = true ->
  match rest with c :: _ => arg_char c = false | [] => True end ->
  take_while1 arg_char (a ++ rest) = Some (a, rest).
Proof.
  intros H Hr. apply take_while1_exact; [by destruct a| |done].
  destruct a as [|c a]; [done|]. by apply andb_prop in H as [_ H].
Qed.

Lemma unparse_head args e : eol_ok e ->
  match unparse_args args ++ e with c :: _ => arg_char c = false | [] => True end.
Proof. intros [->| ->]; by destruct args. Qed.

Lemma more_args_unparse args e fuel : forallb arg_ok args = true -> eol_ok e ->
  (length args <= fuel)%nat -> more_args fuel (unparse_args args ++ e) = (args, e).
Proof.
  intros H He. revert fuel. induction args as [|a args IH]; intros fuel Hf.
  - by destruct fuel, He as [->| ->].
  - destruct fuel as [|fuel]; [csimpl in Hf; lia|].
    cbn [forallb] in H. apply andb_prop in H as [Ha H].
    change (unparse_args (a :: args)) with (SP :: a ++ unparse_args args).
    cbn [app more_args]. rewrite <- app_assoc, space1_arg by done.
    rewrite take_arg by (try done; by apply unparse_head).
    rewrite IH; [done|done|csimpl in Hf; lia].
Qed.

Lemma unparse_args_length args e : forallb arg_ok args = true ->
  (length args <= length (unparse_args args ++ e))%nat.
Proof.
  intros _. induction args as [|a args IH]; csimpl; [lia|].
  unfold unparse_args in *. csimpl. rewrite <- app_assoc, length_app. lia.
Qed.

Lemma parse_unparsed (name : str) (args : list str) (e : str) :
  name <> [] -> forallb is_ascii_alphabetic name = true ->
  forallb arg_ok args = true -> eol_ok e ->
  parse_command (name ++ unparse_args args ++ e)
  = Some ([], mkCommand (to_ascii_uppercase name) args).
Proof.
  intros Hn Hl Ha He. unfold parse_command. rewrite take_while1_exact; [|done|done|].
  2: { destruct args; destruct He as [->| ->]; done. }
  assert (Hargs : (match parse_args (unparse_args args ++ e) with
                   | Some (l, r) => (l, r) | None => ([], unparse_args args ++ e) end) = (args, e)).
  { destruct args as [|a args]; [by destruct He as [->| ->]|].
    cbn [forallb] in Ha. apply andb_prop in Ha as [Ha Hargs].
    change (unparse_args (a :: args)) with (SP :: a ++ unparse_args args).
    cbn [app]. unfold parse_args. rewrite <- app_assoc, space1_arg by done.
    rewrite take_arg by (try done; by apply unparse_head).
    rewrite more_args_unparse by auto using unparse_args_length. done. }
  rewrite Hargs. by destruct He as [->| ->].
Qed.

(** A command line the client writes - a word of letters, its arguments
    each after one blank, with or without the line end - is parsed back into
    that name in upper case and those arguments, with nothing left over. *)
Theorem parse_command_unparse (name : str) (args : list str) (e : str) :
  name <> [] -> forallb is_ascii_alphabetic name = true ->
  forallb arg_ok args = true -> eol_ok e ->
  parse_command (name ++ unparse_args args ++ e)
  = Some ([], mkCommand (to_ascii_uppercase name) args).
Proof. apply parse_unparsed. Qed.

Lemma parse_command_unparse_witness :
  parse_command (lit "group" ++ unparse_args [lit "comp.lang.rust"; lit "1-5"] ++ crlf)
  = Some ([], mkCommand (lit "GROUP") [lit "comp.lang.rust"; lit "1-5"]).
Proof. apply (parse_command_unparse (lit "group")); try done. by right. Defined.

(** ** Termination of the header parser *)
Lemma take_while1_shorter f s a r : take_while1 f s = Some (a, r) -> (length r < length s)%nat.
Proof.
  unfold take_while1. pose proof (span_app f s) as H. destruct (span f s) as [[|c b] t]; [done|].
  intros [= <- <-]. rewrite <- H. cbn. rewrite length_app. lia.
Qed.

Lemma strip_prefix_shorter p s r : strip_prefix p s = Some r -> (length r <= length s)%nat.
Proof. intros ->%strip_prefix_Some. rewrite length_app. lia. Qed.

Lemma take_till_shorter s : (length (snd (take_till_eol s)) <= length s)%nat.
Proof. apply span_length. Qed.

Lemma header_continuations_shorter fuel i v i' v' :
  header_continuations fuel i v = Some (i', v') -> (length i' <= length i)%nat.
Proof.
  revert i v. induction fuel as [|fuel IH]; intros i v; [done|]. cbn [header_continuations].
  destruct (take_while1 is_space i) as [[a next]|] eqn:E; [|by intros [= -> ->]].
  apply take_while1_shorter in E. pose proof (take_till_shorter next).
  destruct (take_till_eol next) as [cont next']. cbn [snd] in *.
  destruct (p_crlf next') as [n|] eqn:Ec; [|done]. apply strip_prefix_shorter in Ec.
  intros Hr%IH. lia.
Qed.

Lemma parse_header_line_shorter s r h :
  parse_header_line s = Some (r, h) -> (length r < length s)%nat.
Proof.
  unfold parse_header_line. destruct (take_while1 header_name_char s) as [[n i]|] eqn:E; [|done].
  apply take_while1_shorter in E. destruct i as [|c i]; [done|]. destruct (c =? ch ":"); [|done].
  pose proof (span_length is_space i) as Hs. fold (space0 i) in Hs.
  pose proof (take_till_shorter (space0 i)) as Ht. destruct (take_till_eol (space0 i)) as [v j].
  cbn [snd length] in *. destruct (p_crlf j) as [k|] eqn:Ec; [|done].
  apply strip_prefix_shorter in Ec.
  destruct (header_continuations (S (length k)) k v) as [[i' v']|] eqn:Eh; [|done].
  apply header_continuations_shorter in Eh. intros [= <- <-]. lia.
Qed.

(** The header parser terminates: its fuel, the length of the text, is
    never the reason it fails, since more fuel gives the same answer. *)
Theorem parse_headers_fuel (fuel : nat) (input : str) :
  (length input < fuel)%nat -> parse_headers_loop fuel input = parse_headers input.
Proof.
  unfold parse_headers. revert input.
  enough (H : forall n f s, (length s < n)%nat -> (length s < f)%nat ->
    parse_headers_loop n s = parse_headers_loop f s) by (intros; apply H; lia).
  induction n as [|n IH]; intros [|f] s Hn Hf; [lia..|].
  cbn [parse_headers_loop]. destruct (p_crlf s); [done|].
  destruct (parse_header_line s) as [[next h]|] eqn:E; [|done].
  apply parse_header_line_shorter in E. by rewrite (IH f next) by lia.
Qed.

Lemma parse_headers_fuel_witness :
  parse_headers_loop 100 (lit "A: b" ++ crlf ++ crlf) = Some ([], [(lit "A", lit "b")]).
Proof. rewrite (parse_headers_fuel 100); [reflexivity|vm_compute; lia]. Defined.
