(* ===== verification/Wildmat.v ===== *)
(** * Wildmat: group patterns ([wildmat.rs])

    The translation of a wildmat pattern to a regular expression, as the code
    writes it, and what the result matches, given what the regex crate
    promises ([RegexLaws]). *)

From stdpp Require Import base numbers list gmap strings.
From Stdlib Require Import NArith ZArith Lia.
From S2P Require Import Prelude Text Externals.
Local Open Scope N_scope.

Section Wildmat.
Context {X : Ext}.

(** The body of a class, up to its closing bracket, and the rest. *)
Fixpoint class_loop (s : str) : str * str :=
  match s with
  | [] => ([], [])
  | c :: t =>
      if c =? ch "]" then ([], t)
      else if c =? ch "\" then
        match t with
        | n :: u => let '(k, r) := class_loop u in (regex_escape [n] ++ k, r)
        | [] => ([c], [])
        end
      else let '(k, r) := class_loop t in (c :: k, r)
  end.

(** [parse_class]: [None], and nothing consumed, when no bracket closes it. *)
Definition parse_class (s : str) : option (str * str) :=
  if negb (existsb (N.eqb (ch "]")) s) then None
  else
    match s with
    | c :: t =>
        if (c =? ch "!") || (c =? ch "^")
        then let '(k, r) := class_loop t in Some (ch "^" :: k, r)
        else Some (class_loop s)
    | [] => Some (class_loop s)
    end.

Fixpoint pattern_loop (fuel : nat) (s : str) : str :=
  match fuel with
  | O => []
  | S fuel =>
      match s with
      | [] => []
      | c :: t =>
          if c =? ch "*" then lit ".*" ++ pattern_loop fuel t
          else if c =? ch "?" then lit "." ++ pattern_loop fuel t
          else if c =? ch "[" then
            match parse_class t with
            | Some (class, r) => lit "[" ++ class ++ lit "]" ++ pattern_loop fuel r
            | None => lit "\[" ++ pattern_loop fuel t
            end
          else if c =? ch "\" then
            match t with
            | n :: u => regex_escape [n] ++ pattern_loop fuel u
            | [] => lit "\"
            end
          else regex_escape [c] ++ pattern_loop fuel t
      end
  end.

(** Each step takes a character, so the length is fuel enough. *)
Definition pattern_to_regex (pattern : str) : option Regex :=
  regex_new (lit "^" ++ pattern_loop (length pattern) pattern ++ lit "$").

Definition wildmat (pattern text : str) : bool :=
  match pattern_to_regex pattern with
  | Some re => regex_is_match re text
  | None => false
  end.

(** ** What a pattern means

    [glob_atoms] reads a pattern directly.  It is defined on the patterns
    whose classes hold letters, digits and ranges of them and which do not
    end in a lone backslash. *)
Fixpoint read_class (s : str) : option (list citem * str) :=
  match s with
  | [] => None
  | c :: t =>
      if c =? ch "]" then Some ([], t)
      else if negb (is_ascii_alphanumeric c) then None
      else match t with
           | d :: hi :: u =>
               if d =? ch "-" then
                 if citem_wf (CRange c hi)
                 then match read_class u with Some (l, r) => Some (CRange c hi :: l, r) | None => None end
                 else None
               else match read_class t with Some (l, r) => Some (CChar c :: l, r) | None => None end
           | _ => match read_class t with Some (l, r) => Some (CChar c :: l, r) | None => None end
           end
  end.

Fixpoint glob_atoms (fuel : nat) (s : str) : option (list ratom) :=
  match fuel with
  | O => match s with [] => Some [] | _ => None end
  | S fuel =>
      match s with
      | [] => Some []
      | c :: t =>
          if c =? ch "*" then cons RStar <$> glob_atoms fuel t
          else if c =? ch "?" then cons RAny <$> glob_atoms fuel t
          else if c =? ch "[" then
            if existsb (N.eqb (ch "]")) t then
              let neg := match t with n :: _ => (n =? ch "!") || (n =? ch "^") | [] => false end in
              match read_class (if neg then tail t else t) with
              | Some (i :: l, r) => cons (RClass neg (i :: l)) <$> glob_atoms fuel r
              | _ => None
              end
            else cons (RLit c) <$> glob_atoms fuel t
          else if c =? ch "\" then
            match t with n :: u => cons (RLit n) <$> glob_atoms fuel u | [] => None end
          else cons (RLit c) <$> glob_atoms fuel t
      end
  end.
Definition glob (s : str) : option (list ratom) := glob_atoms (length s) s.

Lemma class_loop_cons c t k r : (c =? ch "]") = false -> (c =? ch "\") = false ->
  class_loop t = (k, r) -> class_loop (c :: t) = (c :: k, r).
Proof. intros H1 H2 H. cbn [class_loop]. by rewrite H1, H2, H. Qed.

Lemma alnum_plain c : is_ascii_alphanumeric c = true ->
  (c =? ch "]") = false /\ (c =? ch "\") = false.
Proof. change (ch "]") with 93; change (ch "\") with 92. intros. char_lia. Qed.

(** The class read by [read_class] is the text the code copies. *)
Lemma read_class_loop n s l r : (length s <= n)%nat -> read_class s = Some (l, r) ->
  class_loop s = (l ≫= citem_render, r) /\ forallb citem_wf l = true.
Proof.
  revert s l r. induction n as [|n IH]; intros [|c t] l r Hn H; try done; [csimpl in Hn; lia|].
  cbn [read_class] in H. destruct (c =? ch "]") eqn:Eb.
  { injection H as <- <-. cbn [class_loop]. by rewrite Eb. }
  destruct (is_ascii_alphanumeric c) eqn:Ec; [cbn [negb] in H|done].
  destruct (alnum_plain c Ec) as [_ Es]. cbn [length] in Hn.
  assert (Hone : (match read_class t with Some (l, r) => Some (CChar c :: l, r) | None => None end)
    = Some (l, r) -> class_loop (c :: t) = (l ≫= citem_render, r) /\ forallb citem_wf l = true).
  { destruct (read_class t) as [[l' r']|] eqn:E; [|done]. intros [= <- <-].
    apply IH in E as [E1 E2]; [|lia]. split; [by apply class_loop_cons|].
    cbn [forallb citem_wf]. by rewrite Ec. }
  destruct t as [|d [|hi u]]; [by apply Hone..|].
  destruct (d =? ch "-") eqn:Ed; [|by apply Hone]. clear Hone.
  destruct (citem_wf (CRange c hi)) eqn:Ew; [|done].
  destruct (read_class u) as [[l' r']|] eqn:E; [|done]. injection H as <- <-.
  apply IH in E as [E1 E2]; [|cbn [length] in Hn; lia].
  apply N.eqb_eq in Ed as ->.
  assert (Hh : is_ascii_alphanumeric hi = true).
  { cbn [citem_wf] in Ew. apply andb_prop in Ew as [Ew _]. by apply andb_prop in Ew as [_ Ew]. }
  destruct (alnum_plain hi Hh) as [Hh1 Hh2]. split; [|cbn [forallb]; by rewrite Ew].
  by repeat apply class_loop_cons.
Qed.

Lemma read_class_length n s l r : (length s <= n)%nat -> read_class s = Some (l, r) ->
  (length r < length s)%nat.
Proof.
  revert s l r. induction n as [|n IH]; intros [|c t] l r Hn H; try done; [csimpl in Hn; lia|].
  cbn [read_class length] in *. destruct (c =? ch "]"); [injection H as <- <-; lia|].
  destruct (negb _); [done|].
  assert (Hone : (match read_class t with Some (l, r) => Some (CChar c :: l, r) | None => None end)
    = Some (l, r) -> (length r < S (length t))%nat).
  { destruct (read_class t) as [[l' r']|] eqn:E; [|done]. intros [= <- <-].
    apply IH in E; lia. }
  destruct t as [|d [|hi u]]; [by apply Hone..|].
  destruct (d =? ch "-"); [|by apply Hone]. destruct (citem_wf _); [|done].
  destruct (read_class u) as [[l' r']|] eqn:E; [|done]. injection H as <- <-.
  cbn [length] in *. apply IH in E; lia.
Qed.

Context {L : RegexLaws}.

Lemma parse_class_read t neg i l r :
  existsb (N.eqb (ch "]")) t = true ->
  neg = match t with n :: _ => (n =? ch "!") || (n =? ch "^") | [] => false end ->
  read_class (if neg then tail t else t) = Some (i :: l, r) ->
  parse_class t = Some ((if neg then lit "^" else []) ++ ((i :: l) ≫= citem_render), r)
  /\ forallb citem_wf (i :: l) = true /\ (length r < length t)%nat.
Proof.
  intros Hb -> H. unfold parse_class. rewrite Hb. cbn [negb].
  destruct t as [|n t]; [done|].
  destruct ((n =? ch "!") || (n =? ch "^")).
  - cbn [tail] in H. pose proof (read_class_length _ _ _ _ (le_n _) H).
    apply (read_class_loop _ _ _ _ (le_n _)) in H as [-> Hw].
    splits; [done|done|cbn [length]; lia].
  - pose proof (read_class_length _ _ _ _ (le_n _) H).
    apply (read_class_loop _ _ _ _ (le_n _)) in H as [-> Hw]. by splits.
Qed.

Lemma fmap_cons_Some {A} (a : A) o l : cons a <$> o = Some l ->
  exists l', o = Some l' /\ l = a :: l'.
Proof. destruct o as [l'|]; [|done]. intros [= <-]. by exists l'. Qed.

(** The expression the code writes is the rendering of the pattern's atoms. *)
Lemma pattern_loop_render fuel s l : (length s <= fuel)%nat -> glob_atoms fuel s = Some l ->
  pattern_loop fuel s = l ≫= atom_render /\ forallb atom_wf l = true.
Proof.
  revert s l. induction fuel as [|fuel IH]; intros [|c t] l Hn H; try done;
    [by injection H as <- | by injection H as <- |].
  cbn [glob_atoms pattern_loop length] in *.
  destruct (c =? ch "*").
  { apply fmap_cons_Some in H as (l' & H & ->). apply IH in H as [-> Hw]; [|lia]. done. }
  destruct (c =? ch "?").
  { apply fmap_cons_Some in H as (l' & H & ->). apply IH in H as [-> Hw]; [|lia]. done. }
  destruct (c =? ch "[") eqn:Eb.
  { apply N.eqb_eq in Eb as ->.
    destruct (existsb (N.eqb (ch "]")) t) eqn:Ec.
    - cbv zeta in H. destruct (read_class _) as [[[|i k] r]|] eqn:Er; [done| |done].
      apply parse_class_read in Er as (-> & Hw & Hl); [|done..].
      apply fmap_cons_Some in H as (l' & H & ->). apply IH in H as [-> Hw']; [|lia].
      split; [csimpl; by rewrite <- !app_assoc|].
      cbn [forallb atom_wf] in *. by rewrite Hw, Hw'.
    - unfold parse_class. rewrite Ec. cbn [negb].
      apply fmap_cons_Some in H as (l' & H & ->). apply IH in H as [-> Hw]; [|lia].
      split; [|done]. csimpl. change [91] with (lit "["). by rewrite regex_escape_bracket. }
  destruct (c =? ch "\").
  { destruct t as [|n u]; [done|]. cbn [length] in Hn.
    apply fmap_cons_Some in H as (l' & H & ->). apply IH in H as [-> Hw]; [|lia]. done. }
  apply fmap_cons_Some in H as (l' & H & ->). apply IH in H as [-> Hw]; [|lia]. done.
Qed.

Lemma wildmat_atoms (pattern text : str) (atoms : list ratom) :
  glob pattern = Some atoms -> wildmat pattern text = atoms_match atoms text.
Proof.
  intros H. apply pattern_loop_render in H as [H Hw]; [|done].
  unfold wildmat, pattern_to_regex. rewrite H.
  destruct (regex_anchored atoms Hw) as (re & -> & Hre). apply Hre.
Qed.

(** C27: a wildmat pattern matches exactly the texts its atoms match, from
    beginning to end: [*] any run and [?] any one character (neither a line
    feed), a class one of its characters or, after [!] or [^], one that is
    not, a backslash or any other character itself. *)
Theorem wildmat_glob (pattern text : str) (atoms : list ratom) :
  glob pattern = Some atoms -> wildmat pattern text = atoms_match atoms text.
Proof. apply wildmat_atoms. Qed.

(** A pattern without special characters matches itself and nothing else. *)
Definition literal_char (c : char) : bool :=
  negb ((c =? ch "*") || (c =? ch "?") || (c =? ch "[") || (c =? ch "\")).

Lemma glob_literal p fuel : (length p <= fuel)%nat -> forallb literal_char p = true ->
  glob_atoms fuel p = Some (RLit <$> p).
Proof.
  revert p. induction fuel as [|fuel IH]; intros [|c p] Hn H; try done; [csimpl in Hn; lia|].
  cbn [forallb length] in *. apply andb_prop in H as [Hc H]. unfold literal_char in Hc.
  apply negb_true_iff in Hc. rewrite !orb_false_iff in Hc. destruct_and! Hc.
  cbn [glob_atoms].
  repeat match goal with E : _ = false |- _ => rewrite E; clear E end.
  by rewrite IH by (done || lia).
Qed.

Lemma atoms_match_literal p t : atoms_match (RLit <$> p) t = str_eqb p t.
Proof.
  revert t. induction p as [|c p IH]; intros [|d t]; try done. csimpl. rewrite IH.
  destruct (N.eqb_spec c d) as [->|Hne]; cbn [andb].
  - unfold str_eqb. apply bool_decide_ext. naive_solver.
  - unfold str_eqb. symmetry. apply bool_decide_eq_false. naive_solver.
Qed.

Lemma wildmat_literal p t : forallb literal_char p = true -> wildmat p t = str_eqb p t.
Proof.
  intros H. rewrite (wildmat_atoms p t (RLit <$> p)); [apply atoms_match_literal|].
  by apply glob_literal.
Qed.
End Wildmat.

Lemma wildmat_glob_witness :
  @wildmat Toy.ext (lit "b[!a-e]?*") (lit "bird") = true.
Proof.
  rewrite (@wildmat_glob Toy.ext Toy.regex_laws _ _
    [RLit (ch "b"); RClass true [CRange (ch "a") (ch "e")]; RAny; RStar]); reflexivity.
Defined.
