(* ===== verification/Config.v ===== *)
(** * Config: the configuration ([config.rs])

    The configuration record, the size and duration syntax, the deserialisers
    of single values, the choice of the group rule that applies to a group, and
    what a reload changes. *)

From stdpp Require Import base numbers list gmap strings.
From Stdlib Require Import NArith ZArith Lia.
From S2P Require Import Prelude Text Externals Wildmat.
Local Open Scope N_scope.

(** ** Sizes and durations *)
Definition checked_mul (a b : N) : option N := if a * b <=? u64_max then Some (a * b) else None.

Definition last_char (s : str) : option char := last s.

Definition parse_scaled (factor_of : char -> option (bool * N)) (trimmed : str) : option N :=
  match last_char trimmed with
  | None => None
  | Some c =>
      match factor_of c with
      | None => None
      | Some (suffixed, factor) =>
          let digits := if suffixed : bool then removelast trimmed else trimmed in
          match parse_u64 (trim digits) with
          | Some n => checked_mul n factor
          | None => None
          end
      end
  end.

Definition size_factor (c : char) : option (bool * N) :=
  if (c =? ch "K") || (c =? ch "k") then Some (true, 1024)
  else if (c =? ch "M") || (c =? ch "m") then Some (true, 1024 * 1024)
  else if (c =? ch "G") || (c =? ch "g") then Some (true, 1024 * 1024 * 1024)
  else if is_ascii_digit c then Some (false, 1)
  else None.

Definition parse_size (input : str) : option N :=
  let trimmed := trim input in
  match trimmed with
  | [] => None
  | _ => parse_scaled size_factor trimmed
  end.

Definition duration_factor (c : char) : option (bool * N) :=
  if (c =? ch "s") || (c =? ch "S") then Some (true, 1)
  else if (c =? ch "m") || (c =? ch "M") then Some (true, 60)
  else if (c =? ch "h") || (c =? ch "H") then Some (true, 60 * 60)
  else if (c =? ch "d") || (c =? ch "D") then Some (true, 60 * 60 * 24)
  else if (c =? ch "w") || (c =? ch "W") then Some (true, 60 * 60 * 24 * 7)
  else if is_ascii_digit c then Some (false, 1)
  else None.

Definition parse_duration_secs (input : str) : option N :=
  let trimmed := trim input in
  match trimmed with
  | [] => None
  | _ => if str_eqb trimmed (lit "0") then None else parse_scaled duration_factor trimmed
  end.

(** ** Deserialisers: what a TOML value becomes *)
Inductive TomlValue : Type :=
| TUnsigned (v : N)
| TInteger (v : Z)
| TString (v : str)
| TNone.

Definition deserialize_duration_secs (v : TomlValue) : result (option N) :=
  match v with
  | TUnsigned v => Ok (if v =? 0 then None else Some v)
  | TInteger v => if (v <? 0)%Z then Err (lit "duration must be positive")
                  else if (v =? 0)%Z then Ok None else Ok (Some (Z.to_N v))
  | TString v => match v with [] => Ok None | _ => Ok (parse_duration_secs v) end
  | TNone => Ok None
  end.

Definition deserialize_bandwidth_limit (v : TomlValue) : result (option N) :=
  match v with
  | TUnsigned v => Ok (if v =? 0 then None else Some v)
  | TInteger v => if (v <? 0)%Z then Err (lit "size must be positive")
                  else if (v =? 0)%Z then Ok None else Ok (Some (Z.to_N v))
  | TString v =>
      if str_eqb v [] || str_eqb v (lit "0") then Ok None
      else match parse_size v with
           | Some size => Ok (if size =? 0 then None else Some size)
           | None => Err (lit "invalid size: " ++ v)
           end
  | TNone => Ok None
  end.

Definition deserialize_size (v : TomlValue) : result (option N) :=
  match v with
  | TUnsigned v => Ok (Some v)
  | TInteger v => if (v <? 0)%Z then Err (lit "size must be positive") else Ok (Some (Z.to_N v))
  | TString v => match parse_size v with
                 | Some size => Ok (Some size)
                 | None => Err (lit "invalid size: " ++ v)
                 end
  | TNone => Ok None
  end.

(** ** The configuration *)
Record GroupRule := mkGroupRule {
  gr_group : option str;
  gr_pattern : option str;
  gr_retention_days : option Z;
  gr_max_article_bytes : option N;
}.

Record PeerRule := mkPeerRule {
  pr_sitename : str;
  pr_patterns : list str;
  pr_sync_schedule : option str;
}.

Record MilterConfig := mkMilterConfig { mc_address : str; mc_timeout_secs : N }.

(** The parameters of a filter entry are kept as serde reads them when the
    filter needs them: a [MilterConfig] or the reason they are not one. *)
Record FilterConfig := mkFilterConfig { fc_name : str; fc_parameters : result MilterConfig }.

Record UserLimitsConfig := mkUserLimitsConfig {
  ulc_allow_posting : bool;
  ulc_max_connections : N;
  ulc_bandwidth_limit : option N;
  ulc_bandwidth_period : option N;
}.

Definition default_bandwidth_period_secs : option N := Some (30 * 24 * 60 * 60).
Definition default_UserLimitsConfig : UserLimitsConfig :=
  mkUserLimitsConfig true 0 None default_bandwidth_period_secs.

(** [Config] without the logging settings, which only set up the log output. *)
Record Config := mkConfig {
  cfg_addr : str;
  cfg_site_name : str;
  cfg_db_path : str;
  cfg_auth_db_path : str;
  cfg_peer_db_path : str;
  cfg_peer_sync_schedule : str;
  cfg_idle_timeout_secs : N;
  cfg_peers : list PeerRule;
  cfg_tls_addr : option str;
  cfg_tls_cert : option str;
  cfg_tls_key : option str;
  cfg_ws_addr : option str;
  cfg_article_queue_capacity : N;
  cfg_article_worker_count : N;
  cfg_runtime_threads : N;
  cfg_group_settings : list GroupRule;
  cfg_filters : list FilterConfig;
  cfg_pgp_key_servers : list str;
  cfg_allow_auth_insecure_connections : bool;
  cfg_allow_anonymous_posting : bool;
  cfg_user_limits : UserLimitsConfig;
}.

(** The last step of [Config::from_file]: the queue settings are at least one. *)
Definition enforce_minimums (c : Config) : Config :=
  mkConfig (cfg_addr c) (cfg_site_name c) (cfg_db_path c) (cfg_auth_db_path c)
    (cfg_peer_db_path c) (cfg_peer_sync_schedule c) (cfg_idle_timeout_secs c) (cfg_peers c)
    (cfg_tls_addr c) (cfg_tls_cert c) (cfg_tls_key c) (cfg_ws_addr c)
    (N.max (cfg_article_queue_capacity c) 1) (N.max (cfg_article_worker_count c) 1)
    (cfg_runtime_threads c) (cfg_group_settings c) (cfg_filters c) (cfg_pgp_key_servers c)
    (cfg_allow_auth_insecure_connections c) (cfg_allow_anonymous_posting c) (cfg_user_limits c).

(** [update_runtime]: the fields taken from the new configuration. *)
Definition update_runtime (self other : Config) : Config :=
  mkConfig (cfg_addr self) (cfg_site_name self) (cfg_db_path self) (cfg_auth_db_path self)
    (cfg_peer_db_path self) (cfg_peer_sync_schedule other) (cfg_idle_timeout_secs other)
    (cfg_peers other) (cfg_tls_addr self) (cfg_tls_cert other) (cfg_tls_key other)
    (cfg_ws_addr other) (cfg_article_queue_capacity self) (cfg_article_worker_count self)
    (cfg_runtime_threads other) (cfg_group_settings other) (cfg_filters other)
    (cfg_pgp_key_servers other) (cfg_allow_auth_insecure_connections other)
    (cfg_allow_anonymous_posting other) (cfg_user_limits other).

(** ** The rule that applies to a group *)
Definition as_i32 (z : Z) : Z := ((z + 2 ^ 31) mod 2 ^ 32 - 2 ^ 31)%Z.

Definition wildcard_count (pattern : str) : N :=
  N.of_nat (length (List.filter (fun c => (c =? ch "*") || (c =? ch "?")) pattern)).

(** The sort key: fewer wildcards first, then longer patterns. *)
Definition rule_key (r : GroupRule) : N * Z :=
  let p := default [] (gr_pattern r) in
  (wildcard_count p, as_i32 (- as_i32 (Z.of_N (utf8_len p)))).

Definition key_leb (a b : N * Z) : bool :=
  (fst a <? fst b) || ((fst a =? fst b) && (snd a <=? snd b)%Z).

(** [sort_by_key]: a stable sort. *)
Fixpoint insert_by_key {A} (key : A -> N * Z) (x : A) (l : list A) : list A :=
  match l with
  | [] => [x]
  | y :: l' => if key_leb (key x) (key y) then x :: l else y :: insert_by_key key x l'
  end.
Definition sort_by_key {A} (key : A -> N * Z) (l : list A) : list A :=
  foldr (insert_by_key key) [] l.

(** [chrono::Duration::days], which panics out of its range (nanoseconds). *)
Definition duration_seconds (secs : Z) : outcome Z :=
  if (Z.abs secs <=? i64_max / 1000)%Z then Ret (secs * ns_per_sec)%Z else Panic.
Definition duration_days (days : Z) : outcome Z := duration_seconds (days * 86400).

Section Rules.
Context {X : Ext}.

Definition is_exact (group : str) (r : GroupRule) : bool :=
  match gr_group r with Some g => str_eqb g group | None => false end.

Definition pattern_applies (group : str) (r : GroupRule) : bool :=
  match gr_group r with
  | Some _ => false
  | None => match gr_pattern r with Some p => wildmat p group | None => false end
  end.

Definition pattern_matches {A} (group : str) (field : GroupRule -> option A) (c : Config)
  : list GroupRule :=
  List.filter (fun r => pattern_applies group r && match field r with Some _ => true | None => false end)
    (cfg_group_settings c).

Definition max_size_for_group (c : Config) (group : str) : option N :=
  let by_pattern :=
    match sort_by_key rule_key (pattern_matches group gr_max_article_bytes c) with
    | [] => None
    | r :: _ => gr_max_article_bytes r
    end in
  match find_first (is_exact group) (cfg_group_settings c) with
  | Some r => match gr_max_article_bytes r with Some m => Some m | None => by_pattern end
  | None => by_pattern
  end.

(** The retention period in nanoseconds. *)
Definition retention_of_days (days : Z) : outcome (option Z) :=
  if (0 <? days)%Z then
    match duration_days days with
    | Ret d => Ret (Some d)
    | _ => Panic
    end
  else Ret None.

Definition retention_for_group (c : Config) (group : str) : outcome (option Z) :=
  let by_pattern :=
    match sort_by_key rule_key (pattern_matches group gr_retention_days c) with
    | [] => Ret None
    | r :: _ => match gr_retention_days r with
                | Some days => retention_of_days days
                | None => Ret None
                end
    end in
  match find_first (is_exact group) (cfg_group_settings c) with
  | Some r => match gr_retention_days r with
              | Some days => retention_of_days days
              | None => by_pattern
              end
  | None => by_pattern
  end.
End Rules.

(** ** Sorting by specificity *)
Lemma key_leb_refl k : key_leb k k = true.
Proof. unfold key_leb. destruct k as [a b]. cbn. rewrite N.eqb_refl, Z.leb_refl. by destruct (a <? a). Qed.

Lemma key_leb_total a b : key_leb a b = false -> key_leb b a = true.
Proof.
  unfold key_leb. destruct a as [a1 a2], b as [b1 b2]. cbn [fst snd].
  destruct (N.ltb_spec a1 b1), (N.eqb_spec a1 b1), (N.ltb_spec b1 a1), (N.eqb_spec b1 a1),
    (Z.leb_spec a2 b2), (Z.leb_spec b2 a2); cbn; try done; lia.
Qed.

Lemma key_leb_trans a b c : key_leb a b = true -> key_leb b c = true -> key_leb a c = true.
Proof.
  unfold key_leb. destruct a as [a1 a2], b as [b1 b2], c as [c1 c2]. cbn [fst snd].
  destruct (N.ltb_spec a1 b1), (N.eqb_spec a1 b1), (N.ltb_spec b1 c1), (N.eqb_spec b1 c1),
    (N.ltb_spec a1 c1), (N.eqb_spec a1 c1), (Z.leb_spec a2 b2), (Z.leb_spec b2 c2),
    (Z.leb_spec a2 c2); cbn; try done; lia.
Qed.

Section Sorting.
Context {A : Type} (key : A -> N * Z).

Lemma insert_by_key_perm x l : insert_by_key key x l ≡ₚ x :: l.
Proof.
  induction l as [|y l IH]; [done|]. cbn [insert_by_key]. destruct (key_leb _ _); [done|].
  rewrite IH. apply Permutation_swap.
Qed.

Lemma sort_by_key_perm l : sort_by_key key l ≡ₚ l.
Proof.
  induction l as [|x l IH]; [done|]. cbn. by rewrite insert_by_key_perm, IH.
Qed.

(** The head of the sorted list has a least key. *)
Definition head_least (l : list A) : Prop :=
  match l with [] => True | x :: _ => forall y, In y l -> key_leb (key x) (key y) = true end.

Lemma insert_head_least x l : head_least l -> head_least (insert_by_key key x l).
Proof.
  destruct l as [|y l]; cbn [insert_by_key].
  - intros _ z [->|[]]. apply key_leb_refl.
  - intros H. destruct (key_leb (key x) (key y)) eqn:E.
    + intros z [->|Hz]; [apply key_leb_refl|]. eapply key_leb_trans; [done|]. by apply H.
    + intros z Hz. assert (Hz' : In z (y :: x :: l)).
      { destruct Hz as [->|Hz]; [by left|]. right.
        apply elem_of_list_In. apply elem_of_list_In in Hz.
        by rewrite insert_by_key_perm in Hz. }
      destruct Hz' as [->|[->|Hz']].
      * apply key_leb_refl.
      * by apply key_leb_total.
      * apply H. by right.
Qed.

Lemma sort_head_least l : head_least (sort_by_key key l).
Proof. induction l as [|x l IH]; [done|]. cbn. by apply insert_head_least. Qed.
End Sorting.

Section RuleTheorems.
Context {X : Ext}.

(** [governs field c group o]: [o] is the setting [field] of the rule that
    applies to [group]: of the first rule naming the group when that rule has
    it, else of a matching pattern rule than which no matching pattern rule
    with the setting is more specific; nothing when there is no such rule. *)
Definition governs {A} (field : GroupRule -> option A) (c : Config) (group : str) (o : option A)
  : Prop :=
  (exists r a, find_first (is_exact group) (cfg_group_settings c) = Some r
               /\ field r = Some a /\ o = Some a)
  \/ ((forall r, find_first (is_exact group) (cfg_group_settings c) = Some r -> field r = None)
      /\ ((o = None /\ forall r, In r (cfg_group_settings c) -> pattern_applies group r = true ->
                                 field r = None)
          \/ (exists r a, In r (cfg_group_settings c) /\ pattern_applies group r = true
               /\ field r = Some a /\ o = Some a
               /\ forall r' a', In r' (cfg_group_settings c) -> pattern_applies group r' = true ->
                    field r' = Some a' -> key_leb (rule_key r) (rule_key r') = true))).

Lemma pattern_matches_spec {A} group (field : GroupRule -> option A) c r :
  In r (pattern_matches group field c) <->
  In r (cfg_group_settings c) /\ pattern_applies group r = true /\ is_Some (field r).
Proof.
  unfold pattern_matches. rewrite filter_In, andb_true_iff.
  destruct (field r); split; intros; destruct_and?; splits; try done.
Qed.

(** The setting the sorted pattern rules give. *)
Lemma governs_pattern {A} (field : GroupRule -> option A) c group :
  (forall r, find_first (is_exact group) (cfg_group_settings c) = Some r -> field r = None) ->
  governs field c group
    match sort_by_key rule_key (pattern_matches group field c) with
    | [] => None
    | r :: _ => field r
    end.
Proof.
  intros Hex. right. split; [done|].
  pose proof (sort_by_key_perm rule_key (pattern_matches group field c)) as Hp.
  pose proof (sort_head_least rule_key (pattern_matches group field c)) as Hh.
  destruct (sort_by_key _ _) as [|r l].
  - left. split; [done|]. intros r Hr Ha. destruct (field r) eqn:E; [|done].
    assert (Hin : In r (pattern_matches group field c)) by (by apply pattern_matches_spec).
    apply elem_of_list_In in Hin. rewrite <- Hp in Hin. by apply elem_of_nil in Hin.
  - right. assert (Hin : In r (pattern_matches group field c)).
    { apply elem_of_list_In. rewrite <- Hp. by left. }
    apply pattern_matches_spec in Hin as (Hin & Ha & [a Hf]).
    exists r, a. splits; try done. intros r' a' Hr' Ha' Hf'. apply Hh.
    apply elem_of_list_In. rewrite Hp. apply elem_of_list_In.
    apply pattern_matches_spec. rewrite Hf'. by splits.
Qed.

(** The size limit of a group is that of the rule that governs it: the
    exact rule first, then the most specific pattern. *)
Theorem max_size_for_group_governs (c : Config) (group : str) :
  governs gr_max_article_bytes c group (max_size_for_group c group).
Proof.
  unfold max_size_for_group.
  destruct (find_first (is_exact group) (cfg_group_settings c)) as [r|] eqn:E.
  - destruct (gr_max_article_bytes r) as [m|] eqn:Em.
    + left. by exists r, m.
    + apply governs_pattern. intros r' Hr'. congruence.
  - apply governs_pattern. intros r' Hr'. congruence.
Qed.

(** The retention of a group is the governing number of days, as a
    duration; none when that number is not positive. *)
Theorem retention_for_group_governs (c : Config) (group : str) :
  exists o, governs gr_retention_days c group o /\
    retention_for_group c group = match o with Some d => retention_of_days d | None => Ret None end.
Proof.
  unfold retention_for_group.
  destruct (find_first (is_exact group) (cfg_group_settings c)) as [r|] eqn:E;
    [destruct (gr_retention_days r) as [m|] eqn:Em|].
  - exists (Some m). split; [left; by exists r, m|done].
  - eexists. split; [apply governs_pattern; intros; congruence|].
    by destruct (sort_by_key _ _).
  - eexists. split; [apply governs_pattern; intros; congruence|].
    by destruct (sort_by_key _ _).
Qed.
End RuleTheorems.

(** ** Sizes *)
Lemma trim_digits n : trim (show_N n) = show_N n.
Proof.
  pose proof (show_N_digits n) as H. pose proof (show_N_nonempty n) as Hn.
  set (s := show_N n) in *. clearbody s.
  assert (Hd : forall c, is_ascii_digit c = true -> is_whitespace c = false) by (intros; char_lia).
  rewrite forallb_forall in H.
  unfold trim, trim_matches. rewrite trim_start_id.
  - destruct s as [|c s] using rev_ind; [done|]. apply trim_end_snoc, Hd, H.
    apply in_or_app. right. by left.
  - destruct s as [|c s]; [done|]. apply Hd, H. by left.
Qed.

Lemma trim_digits_suffix n c : is_whitespace c = false -> trim (show_N n ++ [c]) = show_N n ++ [c].
Proof.
  intros Hc. pose proof (show_N_digits n) as H. pose proof (show_N_nonempty n) as Hn.
  destruct (show_N n) as [|d s] eqn:E; [done|]. cbn [app]. apply trim_matches_id; [|done].
  cbn [forallb] in H. apply andb_prop in H as [H _]. char_lia.
Qed.

(** A decimal number followed by a unit letter is that many units, and is
    refused exactly when the number of bytes exceeds 64 bits. *)
Theorem parse_size_units (n : N) (c : char) (factor : N) :
  n <= u64_max -> size_factor c = Some (true, factor) ->
  parse_size (show_N n ++ [c]) =
    if n * factor <=? u64_max then Some (n * factor) else None.
Proof.
  intros Hn Hf. unfold parse_size. cbv zeta.
  assert (Hc : is_whitespace c = false).
  { unfold size_factor in Hf. change (ch "K") with 75 in *; change (ch "k") with 107 in *;
    change (ch "M") with 77 in *; change (ch "m") with 109 in *; change (ch "G") with 71 in *;
    change (ch "g") with 103 in *.
    destruct ((c =? 75) || (c =? 107)) eqn:E1; [char_lia|].
    destruct ((c =? 77) || (c =? 109)) eqn:E2; [char_lia|].
    destruct ((c =? 71) || (c =? 103)) eqn:E3; [char_lia|].
    by destruct (is_ascii_digit c). }
  rewrite trim_digits_suffix by done. unfold parse_scaled, last_char. rewrite last_snoc, Hf.
  cbv zeta. rewrite removelast_last, trim_digits. unfold parse_u64.
  rewrite parse_show_uint by done. unfold checked_mul.
  by destruct (show_N n).
Qed.

Lemma parse_size_units_witness :
  parse_size (show_N 10 ++ [ch "M"]) = Some 10485760
  /\ parse_size (show_N 18446744073709551615 ++ [ch "G"]) = None.
Proof.
  split.
  - rewrite (parse_size_units 10 (ch "M") 1048576); [reflexivity|vm_compute; discriminate|reflexivity].
  - rewrite (parse_size_units 18446744073709551615 (ch "G") 1073741824);
      [reflexivity|vm_compute; discriminate|reflexivity].
Defined.
