(* ===== verification/Settings.v ===== *)
(** * Settings: reading the configuration file ([config.rs])

    [Config::from_file]: the file is read, its placeholders are replaced, the text is
    parsed, and the settings that are missing get their defaults.  Also the split of the
    configuration into a static and a dynamic part.  The regex crate's captures and the
    TOML parser are classes; the machine is a record of its files and its environment. *)

From stdpp Require Import base numbers list strings.
From Stdlib Require Import NArith ZArith Lia.
From S2P Require Import Prelude Text Externals Message Wildmat Config.
Local Open Scope N_scope.

(** ** The machine: [std::env::var] and [std::fs::read_to_string] *)
Inductive ErrorKind : Type := NotFound | PermissionDenied | OtherKind.
Record FileError := mkFileError { io_kind : ErrorKind; io_text : str }.

Record Machine := mkMachine {
  env_var : str -> result str;
  read_to_string : str -> FileError + str;
}.

Definition of_io {A} (r : FileError + A) : result A :=
  match r with inl e => Err (io_text e) | inr a => Ok a end.

Definition map_error {A} (f : str -> str) (r : result A) : result A :=
  match r with Ok a => Ok a | Err e => Err (f e) end.

(** ** Placeholders

    One item of [captures_iter]: where the match starts and ends, and group 1. *)
Record Capture := mkCapture { cap_start : nat; cap_end : nat; cap_group : str }.

Class Captures := {
  CRegex : Type;
  cregex_new : str -> result CRegex;
  captures_iter : CRegex -> str -> list Capture;
}.

(** [&text[a..b]]: a panic where the bounds are no range of the text. *)
Definition slice (text : str) (a b : nat) : outcome str :=
  if (a <=? b)%nat && (b <=? length text)%nat then Ret (take (b - a) (drop a text)) else Panic.

(** The loop over the captures of one expression. *)
Fixpoint replace_captures (lookup : str -> result str) (text : str) (cs : list Capture)
    (last : nat) (out : str) : outcome str :=
  match cs with
  | [] => match slice text last (length text) with
          | Ret rest => Ret (out ++ rest)
          | o => o
          end
  | c :: cs =>
      match slice text last (cap_start c) with
      | Ret before =>
          match lookup (cap_group c) with
          | Ok value => replace_captures lookup text cs (cap_end c) (out ++ before ++ value)
          | Err e => Fail e
          end
      | o => o
      end
  end.

Definition env_re : str := lit "\$ENV\{([^}]+)\}".
Definition file_re : str := lit "\$FILE\{([^}]+)\}".

Section Expand.
Context {CA : Captures}.

Definition expand_placeholders (m : Machine) (text : str) : outcome str :=
  match cregex_new env_re with
  | Err e => Fail e
  | Ok env_re =>
      match cregex_new file_re with
      | Err e => Fail e
      | Ok file_re =>
          match replace_captures (env_var m) text (captures_iter env_re text) 0 [] with
          | Ret text =>
              replace_captures (fun path => of_io (read_to_string m path)) text
                (captures_iter file_re text) 0 []
          | o => o
          end
      end
  end.
End Expand.

(** ** The settings of a file: what the TOML text gives, a value for each key it has *)
Record RawGroupRule := mkRawGroupRule {
  rg_group : option str; rg_pattern : option str; rg_retention_days : option Z;
  rg_max_article_bytes : option TomlValue }.
Record RawPeerRule := mkRawPeerRule {
  rp_sitename : option str; rp_patterns : option (list str); rp_sync_schedule : option str }.
Record RawUserLimits := mkRawUserLimits {
  ru_allow_posting : option bool; ru_max_connections : option N;
  ru_bandwidth_limit : option TomlValue; ru_bandwidth_period : option TomlValue }.
Record RawConfig := mkRawConfig {
  rc_addr : option str;
  rc_site_name : option str;
  rc_db_path : option str;
  rc_auth_db_path : option str;
  rc_peer_db_path : option str;
  rc_peer_sync_schedule : option str;
  rc_idle_timeout_secs : option N;
  rc_peers : list RawPeerRule;
  rc_tls_addr : option str;
  rc_tls_cert : option str;
  rc_tls_key : option str;
  rc_ws_addr : option str;
  rc_article_queue_capacity : option N;
  rc_article_worker_count : option N;
  rc_runtime_threads : option N;
  rc_group_settings : list RawGroupRule;
  rc_filters : list FilterConfig;
  rc_pgp_key_servers : option (list str);
  rc_allow_auth_insecure_connections : option bool;
  rc_allow_anonymous_posting : option bool;
  rc_user_limits : option RawUserLimits;
}.

Class TomlParser := { toml_parse : str -> result RawConfig }.

Definition default_db_path : str := lit "sqlite:///var/lib/renews/news.db".
Definition default_auth_db_path : str := lit "sqlite:///var/lib/renews/auth.db".
Definition default_peer_db_path : str := lit "sqlite:///var/lib/renews/peers.db".
Definition default_peer_sync_schedule : str := lit "0 0 * * * *".
Definition default_idle_timeout_secs : N := 600.
Definition default_article_queue_capacity : N := 1000.
Definition default_article_worker_count : N := 4.
Definition default_runtime_threads : N := 1.
Definition default_site_name (m : Machine) : str :=
  match env_var m (lit "HOSTNAME") with Ok name => name | Err _ => lit "localhost" end.
Definition default_true : bool := true.
Definition default_pgp_key_servers : list str :=
  [lit "hkps://keys.openpgp.org/pks/lookup?op=get&search=<email>";
   lit "hkps://pgp.mit.edu/pks/lookup?op=get&search=<email>";
   lit "hkps://keyserver.ubuntu.com/pks/lookup?op=get&search=<email>"].

(** A key with a [deserialize_with] and a default: the default only where the key is missing. *)
Definition field_or {A} (d : A) (read : TomlValue -> result A) (v : option TomlValue) : result A :=
  match v with None => Ok d | Some v => read v end.

Definition read_group_rule (r : RawGroupRule) : result GroupRule :=
  match field_or None deserialize_size (rg_max_article_bytes r) with
  | Ok size => Ok (mkGroupRule (rg_group r) (rg_pattern r) (rg_retention_days r) size)
  | Err e => Err e
  end.

Definition read_peer_rule (r : RawPeerRule) : result PeerRule :=
  match rp_sitename r with
  | None => Err (lit "missing field `sitename`")
  | Some name => Ok (mkPeerRule name (default [] (rp_patterns r)) (rp_sync_schedule r))
  end.

Definition read_user_limits (r : RawUserLimits) : result UserLimitsConfig :=
  match field_or None deserialize_bandwidth_limit (ru_bandwidth_limit r) with
  | Err e => Err e
  | Ok limit =>
      match field_or default_bandwidth_period_secs deserialize_duration_secs (ru_bandwidth_period r) with
      | Err e => Err e
      | Ok period =>
          Ok (mkUserLimitsConfig (default default_true (ru_allow_posting r))
                (default 0 (ru_max_connections r)) limit period)
      end
  end.

(** The defaults of [Config], from the attributes of its fields.  Where several settings are
    wrong the order of the file decides which error is reported; here it is the order of
    the fields. *)
Definition settings (m : Machine) (r : RawConfig) : result Config :=
  match rc_addr r with
  | None => Err (lit "missing field `addr`")
  | Some addr =>
      match try_collect (read_peer_rule <$> rc_peers r) with
      | Err e => Err e
      | Ok peers =>
          match try_collect (read_group_rule <$> rc_group_settings r) with
          | Err e => Err e
          | Ok groups =>
              match match rc_user_limits r with
                    | None => Ok default_UserLimitsConfig
                    | Some u => read_user_limits u
                    end with
              | Err e => Err e
              | Ok limits =>
                  Ok (mkConfig addr (default (default_site_name m) (rc_site_name r))
                        (default default_db_path (rc_db_path r))
                        (default default_auth_db_path (rc_auth_db_path r))
                        (default default_peer_db_path (rc_peer_db_path r))
                        (default default_peer_sync_schedule (rc_peer_sync_schedule r))
                        (default default_idle_timeout_secs (rc_idle_timeout_secs r))
                        peers (rc_tls_addr r) (rc_tls_cert r) (rc_tls_key r) (rc_ws_addr r)
                        (default default_article_queue_capacity (rc_article_queue_capacity r))
                        (default default_article_worker_count (rc_article_worker_count r))
                        (default default_runtime_threads (rc_runtime_threads r))
                        groups (rc_filters r)
                        (default default_pgp_key_servers (rc_pgp_key_servers r))
                        (default false (rc_allow_auth_insecure_connections r))
                        (default false (rc_allow_anonymous_posting r))
                        limits)
              end
          end
      end
  end.

Section FromFile.
Context {CA : Captures} {TP : TomlParser}.

Definition read_error (path : str) (e : FileError) : str :=
  match io_kind e with
  | NotFound => lit "Configuration file not found: '" ++ path ++ lit "'

Please ensure the configuration file exists at the specified path.
You can:
- Create a configuration file at '" ++ path ++ lit "'
- Use --config <path> to specify a different location
- Set the RENEWS_CONFIG environment variable
- See the example configuration at 'examples/config.toml'"
  | PermissionDenied => lit "Permission denied reading configuration file: '" ++ path ++ lit "'

Please ensure the file is readable by the current user.
You may need to check file permissions or run with appropriate privileges."
  | OtherKind => lit "Failed to read configuration file '" ++ path ++ lit "': " ++ io_text e ++ lit "

Please ensure the file exists and is readable."
  end.

Definition placeholder_error (path e : str) : str :=
  lit "Failed to process configuration placeholders in '" ++ path ++ lit "': " ++ e ++ lit "

Please check that all $ENV{...} and $FILE{...} placeholders are valid.".

Definition parse_error (path e : str) : str :=
  lit "Failed to parse configuration file '" ++ path ++ lit "': " ++ e ++ lit "

Please check the TOML syntax. Common issues:
- Missing quotes around string values
- Incorrect section headers
- Malformed array or table syntax

See 'examples/config.toml' for a valid configuration example.".

(** [Config::from_file]. *)
Definition from_file (m : Machine) (path : str) : outcome Config :=
  match read_to_string m path with
  | inl e => Fail (read_error path e)
  | inr text =>
      match expand_placeholders m text with
      | Ret text =>
          match toml_parse text with
          | Ok raw => match settings m raw with
                      | Ok cfg => Ret (enforce_minimums cfg)
                      | Err e => Fail (parse_error path e)
                      end
          | Err e => Fail (parse_error path e)
          end
      | Fail e => Fail (placeholder_error path e)
      | Panic => Panic
      | Stuck => Stuck
      end
  end.
End FromFile.

(** [get_runtime_threads]; [cores] is what [available_parallelism] says. *)
Definition get_runtime_threads (cores : result N) (c : Config) : result N :=
  if cfg_runtime_threads c =? 0
  then map_error (fun e => lit "Failed to determine number of CPU cores: " ++ e) cores
  else Ok (cfg_runtime_threads c).

(** ** The static and the dynamic part of the configuration *)
Record StaticConfig := mkStaticConfig {
  st_addr : str;
  st_tls_addr : option str;
  st_tls_cert : option str;
  st_tls_key : option str;
  st_db_path : str;
  st_auth_db_path : str;
  st_peer_db_path : str;
  st_article_queue_capacity : N;
  st_article_worker_count : N;
  st_runtime_threads : N;
  st_ws_addr : option str;
}.

Record DynamicConfig := mkDynamicConfig {
  dy_site_name : str;
  dy_idle_timeout_secs : N;
  dy_allow_auth_insecure_connections : bool;
  dy_allow_anonymous_posting : bool;
  dy_group_settings : list GroupRule;
  dy_filters : list FilterConfig;
  dy_peers : list PeerRule;
  dy_peer_sync_schedule : option str;
  dy_pgp_key_servers : list str;
  dy_user_limits : UserLimitsConfig;
}.

Definition static_of (cfg : Config) : StaticConfig :=
  mkStaticConfig (cfg_addr cfg) (cfg_tls_addr cfg) (cfg_tls_cert cfg) (cfg_tls_key cfg)
    (cfg_db_path cfg) (cfg_auth_db_path cfg) (cfg_peer_db_path cfg)
    (cfg_article_queue_capacity cfg) (cfg_article_worker_count cfg) (cfg_runtime_threads cfg)
    (cfg_ws_addr cfg).

Definition dynamic_of (cfg : Config) : DynamicConfig :=
  mkDynamicConfig (cfg_site_name cfg) (cfg_idle_timeout_secs cfg)
    (cfg_allow_auth_insecure_connections cfg) (cfg_allow_anonymous_posting cfg)
    (cfg_group_settings cfg) (cfg_filters cfg) (cfg_peers cfg) (Some (cfg_peer_sync_schedule cfg))
    (cfg_pgp_key_servers cfg) (cfg_user_limits cfg).

Record ServerConfig := mkServerConfig { static_cfg : StaticConfig; dynamic_cfg : DynamicConfig }.

Section ServerConfigs.
Context {CA : Captures} {TP : TomlParser}.

Definition server_config_from_file (m : Machine) (path : str) : outcome ServerConfig :=
  match from_file m path with
  | Ret raw => Ret (mkServerConfig (static_of raw) (dynamic_of raw))
  | Fail e => Fail e
  | Panic => Panic
  | Stuck => Stuck
  end.

Definition reload_dynamic (m : Machine) (path : str) : M ServerConfig unit :=
  (raw <-- mout (from_file m path) ;;;
   mmodify (fun c => mkServerConfig (static_cfg c) (dynamic_of raw)))%m.
End ServerConfigs.

(** ** What the captures of a placeholder expression are

    The expression [\$NAME\{([^}]+)\}] matches [$NAME{var}] for a non-empty [var] without a
    closing brace; the matches are found from the left and do not overlap. *)
Definition placeholder (name var : str) : str := lit "$" ++ name ++ lit "{" ++ var ++ lit "}".
Definition placeholder_re (name : str) : str := lit "\$" ++ name ++ lit "\{([^}]+)\}".
Definition var_ok (var : str) : Prop := var <> [] /\ ch "}" ∉ var.

Inductive captured (name : str) : nat -> str -> list Capture -> Prop :=
| captured_none start s :
    (forall pre var post, var_ok var -> s <> pre ++ placeholder name var ++ post) ->
    captured name start s []
| captured_next start pre var post cs :
    var_ok var ->
    (forall pre' var' post', var_ok var' ->
       pre ++ placeholder name var ++ post = pre' ++ placeholder name var' ++ post' ->
       (length pre <= length pre')%nat) ->
    captured name (start + length pre + length (placeholder name var)) post cs ->
    captured name start (pre ++ placeholder name var ++ post)
      (mkCapture (start + length pre) (start + length pre + length (placeholder name var)) var :: cs).

Class CapturesLaws {CA : Captures} : Prop := {
  captures_placeholder : forall name, forallb is_ascii_upper name = true ->
    exists re, cregex_new (placeholder_re name) = Ok re
               /\ forall text, captured name 0 text (captures_iter re text);
}.

(** The first match as a function, and all of them. *)
Definition match_at (name s : str) : option (str * str) :=
  match strip_prefix (lit "$" ++ name ++ lit "{") s with
  | None => None
  | Some t => match split_once (ch "}") t with
              | Some (c :: var, post) => Some (c :: var, post)
              | _ => None
              end
  end.

Fixpoint first_match (name s : str) : option (str * str * str) :=
  match match_at name s with
  | Some (var, post) => Some ([], var, post)
  | None => match s with
            | [] => None
            | c :: t => match first_match name t with
                        | Some (pre, var, post) => Some (c :: pre, var, post)
                        | None => None
                        end
            end
  end.

Fixpoint scan (name : str) (fuel start : nat) (s : str) : list Capture :=
  match fuel with
  | O => []
  | S fuel =>
      match first_match name s with
      | None => []
      | Some (pre, var, post) =>
          let from := (start + length pre)%nat in
          let til := (from + length (placeholder name var))%nat in
          mkCapture from til var :: scan name fuel til post
      end
  end.

(** The replacement of one kind of placeholder, as a function on the text. *)
Fixpoint substitute (name : str) (lookup : str -> result str) (fuel : nat) (s : str) : result str :=
  match fuel with
  | O => Ok s
  | S fuel =>
      match first_match name s with
      | None => Ok s
      | Some (pre, var, post) =>
          match lookup var with
          | Err e => Err e
          | Ok value =>
              match substitute name lookup fuel post with
              | Ok t => Ok (pre ++ value ++ t)
              | Err e => Err e
              end
          end
      end
  end.

Lemma match_at_spec name s var post :
  match_at name s = Some (var, post) <-> s = placeholder name var ++ post /\ var_ok var.
Proof.
  unfold match_at, placeholder, var_ok. split.
  - destruct (strip_prefix _ s) as [t|] eqn:E; [|done]. apply strip_prefix_Some in E as ->.
    destruct (split_once (ch "}") t) as [[[|c v] p]|] eqn:E; [done| |done].
    intros H. injection H as <- <-. apply split_once_Some in E as [-> Hc].
    split; [by rewrite <- !app_assoc|done].
  - intros [-> [Hne Hc]].
    replace ((lit "$" ++ name ++ lit "{" ++ var ++ lit "}") ++ post)
      with ((lit "$" ++ name ++ lit "{") ++ (var ++ ch "}" :: post)) by (by rewrite <- !app_assoc).
    rewrite strip_prefix_app.
    assert (split_once (ch "}") (var ++ ch "}" :: post) = Some (var, post)) as -> by (by apply split_once_Some).
    by destruct var.
Qed.

Lemma first_match_spec name s pre var post : first_match name s = Some (pre, var, post) ->
  s = pre ++ placeholder name var ++ post /\ var_ok var
  /\ forall pre' var' post', var_ok var' -> s = pre' ++ placeholder name var' ++ post' ->
       (length pre <= length pre')%nat.
Proof.
  revert pre. induction s as [|c s IH]; intros pre; cbn [first_match].
  - destruct (match_at name []) as [[v p]|] eqn:E; [|done]. apply match_at_spec in E as [E Hv].
    intros H. injection H as <- <- <-. split_and!; [done..|]. intros. simpl. lia.
  - destruct (match_at name (c :: s)) as [[v p]|] eqn:E.
    + apply match_at_spec in E as [E Hv]. intros H. injection H as <- <- <-.
      split_and!; [done..|]. intros. simpl. lia.
    + destruct (first_match name s) as [[[pre1 v] p]|]; [|done]. intros H. injection H as <- <- <-.
      destruct (IH pre1 eq_refl) as (-> & Hv & Hleft). split_and!; [done..|].
      intros pre' var' post' Hv' Hs. destruct pre' as [|d pre'].
      * assert (match_at name (c :: pre1 ++ placeholder name v ++ p) = Some (var', post')) by (by apply match_at_spec).
        congruence.
      * injection Hs as <- Hs. simpl. specialize (Hleft pre' var' post' Hv' Hs). lia.
Qed.

Lemma first_match_None name s pre var post : first_match name s = None -> var_ok var ->
  s <> pre ++ placeholder name var ++ post.
Proof.
  revert pre. induction s as [|c s IH]; intros pre; cbn [first_match].
  - intros _ _. destruct pre; [|done]. unfold placeholder. by intros [=].
  - destruct (match_at name (c :: s)) as [[v p]|] eqn:E; [done|].
    destruct (first_match name s) as [[[pre1 v] p]|]; [done|]. intros _ Hv Hs.
    destruct pre as [|d pre].
    + assert (match_at name (c :: s) = Some (var, post)) by (by apply match_at_spec). congruence.
    + injection Hs as _ Hs. by apply (IH pre).
Qed.

Lemma placeholder_length name var : (length (placeholder name var) = length name + length var + 3)%nat.
Proof. unfold placeholder. rewrite !length_app. simpl. lia. Qed.

Lemma scan_captured name fuel start s : (length s <= fuel)%nat -> captured name start s (scan name fuel start s).
Proof.
  revert start s. induction fuel as [|fuel IH]; intros start s Hl; cbn [scan].
  - destruct s; [|simpl in Hl; lia]. apply captured_none. intros pre var post Hv. by apply first_match_None.
  - destruct (first_match name s) as [[[pre var] post]|] eqn:E.
    + destruct (first_match_spec _ _ _ _ _ E) as (-> & Hv & Hleft). cbv zeta.
      apply captured_next; [done..|]. apply IH.
      rewrite !length_app, placeholder_length in Hl. lia.
    + apply captured_none. intros pre var post Hv. by apply first_match_None.
Qed.

Lemma leftmost_unique name pre var post pre' var' post' : var_ok var -> var_ok var' ->
  length pre = length pre' ->
  pre ++ placeholder name var ++ post = pre' ++ placeholder name var' ++ post' ->
  pre = pre' /\ var = var' /\ post = post'.
Proof.
  intros Hv Hv' Hl E. apply app_inj_1 in E as [-> E]; [|done]. split; [done|].
  assert (H1 : match_at name (placeholder name var ++ post) = Some (var, post)) by (by apply match_at_spec).
  rewrite E in H1.
  assert (H2 : match_at name (placeholder name var' ++ post') = Some (var', post')) by (by apply match_at_spec).
  rewrite H1 in H2. by injection H2 as -> ->.
Qed.

Lemma captured_unique name start s cs cs' : captured name start s cs -> captured name start s cs' -> cs = cs'.
Proof.
  intros H. revert cs'. induction H as [start s Hno|start pre var post cs Hv Hleft _ IH]; intros cs' H'.
  - inversion H' as [|start' pre var post cs0 Hv _ _]; subst; [done|]. exfalso. exact (Hno _ _ _ Hv eq_refl).
  - inversion H' as [start' s' Hno|start' pre' var' post' cs0 Hv' Hleft' Hcs E1 E2]; subst.
    + exfalso. exact (Hno _ _ _ Hv eq_refl).
    + assert (Hl : length pre = length pre').
      { apply Nat.le_antisymm; [by apply (Hleft _ _ _ Hv' (eq_sym E2))|by apply (Hleft' _ _ _ Hv E2)]. }
      destruct (leftmost_unique name pre var post pre' var' post') as (<- & <- & <-); [done..|].
      by rewrite (IH cs0).
Qed.

(** ** The expansion of a text *)
Lemma slice_app (a b c : str) : slice (a ++ b ++ c) (length a) (length a + length b) = Ret b.
Proof.
  unfold slice. rewrite !length_app.
  assert ((length a <=? length a + length b)%nat = true) as -> by (apply Nat.leb_le; lia).
  assert ((length a + length b <=? length a + (length b + length c))%nat = true) as -> by (apply Nat.leb_le; lia).
  simpl. rewrite drop_app_length. replace (length a + length b - length a)%nat with (length b) by lia.
  by rewrite take_app_length.
Qed.

Lemma slice_rest (a b : str) : slice (a ++ b) (length a) (length (a ++ b)) = Ret b.
Proof.
  rewrite length_app. pose proof (slice_app a b []) as H. by rewrite app_nil_r in H.
Qed.

Lemma replace_scan lookup name fuel (before s out : str) : (length s <= fuel)%nat ->
  replace_captures lookup (before ++ s) (scan name fuel (length before) s) (length before) out
  = match substitute name lookup fuel s with Ok t => Ret (out ++ t) | Err e => Fail e end.
Proof.
  revert before s out. induction fuel as [|fuel IH]; intros before s out Hl; cbn [scan substitute].
  - cbn [replace_captures]. by rewrite slice_rest.
  - destruct (first_match name s) as [[[pre var] post]|] eqn:E.
    + destruct (first_match_spec _ _ _ _ _ E) as (-> & Hv & _). cbv zeta.
      cbn [replace_captures cap_start cap_end cap_group]. rewrite slice_app.
      destruct (lookup var) as [value|e]; [|done].
      rewrite !length_app, placeholder_length in Hl.
      specialize (IH (before ++ pre ++ placeholder name var) post (out ++ pre ++ value)).
      rewrite !length_app in IH. rewrite <- Nat.add_assoc, <- !app_assoc in *. rewrite IH by lia.
      destruct (substitute name lookup fuel post); [by rewrite <- ?app_assoc|done].
    + cbn [replace_captures]. by rewrite slice_rest.
Qed.

Definition read_contents (m : Machine) (path : str) : result str := of_io (read_to_string m path).

Lemma expand_substitute {CA : Captures} `{!CapturesLaws} m text :
  expand_placeholders m text
  = match substitute (lit "ENV") (env_var m) (length text) text with
    | Ok text => outcome_of (substitute (lit "FILE") (read_contents m) (length text) text)
    | Err e => Fail e
    end.
Proof.
  unfold expand_placeholders.
  destruct (captures_placeholder (lit "ENV") eq_refl) as (re1 & E1 & H1).
  destruct (captures_placeholder (lit "FILE") eq_refl) as (re2 & E2 & H2).
  assert (Hre : cregex_new env_re = Ok re1) by exact E1. rewrite Hre. clear Hre.
  assert (Hre : cregex_new file_re = Ok re2) by exact E2. rewrite Hre. clear Hre.
  assert (Hscan : forall name re t, captured name 0 t (captures_iter re t) ->
    captures_iter re t = scan name (length t) 0 t).
  { intros name re t Hc. eapply captured_unique; [exact Hc|]. by apply scan_captured. }
  assert (Hpass : forall name re lookup t, captured name 0 t (captures_iter re t) ->
    replace_captures lookup t (captures_iter re t) 0 [] = outcome_of (substitute name lookup (length t) t)).
  { clear H1 H2. intros name re lookup t Hc. rewrite (Hscan _ _ _ Hc).
    pose proof (replace_scan lookup name (length t) [] t [] (le_n _)) as Hr. cbn [app length] in Hr. rewrite Hr.
    by destruct (substitute name lookup (length t) t). }
  rewrite (Hpass (lit "ENV")) by done.
  destruct (substitute (lit "ENV") (env_var m) (length text) text) as [t|e]; [|done].
  cbn [outcome_of]. by rewrite (Hpass (lit "FILE")).
Qed.

(** A text in pieces: plain text, and placeholders. *)
Inductive Piece : Type :=
| Plain (s : str)
| EnvVar (var : str)
| FileOf (path : str).

Definition render (p : Piece) : str :=
  match p with
  | Plain s => s
  | EnvVar var => placeholder (lit "ENV") var
  | FileOf path => placeholder (lit "FILE") path
  end.

Definition piece_ok (p : Piece) : Prop :=
  match p with
  | Plain s => ch "$" ∉ s
  | EnvVar var | FileOf var => var_ok var /\ ch "$" ∉ var
  end.

Definition env_step (m : Machine) (p : Piece) : result Piece :=
  match p with EnvVar var => Plain <$> env_var m var | _ => Ok p end.
Definition file_step (m : Machine) (p : Piece) : result str :=
  match p with FileOf path => read_contents m path | _ => Ok (render p) end.

Definition prepend (a : str) (o : option (str * str * str)) : option (str * str * str) :=
  match o with Some (pre, var, post) => Some (a ++ pre, var, post) | None => None end.

Lemma first_match_skip name (a s : str) : ch "$" ∉ a -> first_match name (a ++ s) = prepend a (first_match name s).
Proof.
  induction a as [|c a IH]; intros Hc; [cbn [app]; by destruct (first_match name s) as [[[??]?]|]|].
  apply not_elem_of_cons in Hc as [Hne Hc]. cbn [app first_match].
  assert (match_at name (c :: a ++ s) = None) as ->.
  { unfold match_at. change (lit "$" ++ name ++ lit "{") with (ch "$" :: (name ++ lit "{")). cbn [strip_prefix].
    by apply N.eqb_neq in Hne as ->. }
  rewrite IH by done. by destruct (first_match name s) as [[[??]?]|].
Qed.

Lemma first_match_here name var post : var_ok var ->
  first_match name (placeholder name var ++ post) = Some ([], var, post).
Proof.
  intros Hv. assert (Hm : match_at name (placeholder name var ++ post) = Some (var, post)) by (by apply match_at_spec).
  assert (Hn : exists t, placeholder name var ++ post = ch "$" :: t) by (exists ((name ++ lit "{" ++ var ++ lit "}") ++ post); reflexivity).
  destruct Hn as [t Ht]. rewrite Ht in *. cbn [first_match]. by rewrite Hm.
Qed.

Lemma substitute_skip name lookup fuel (a s : str) : ch "$" ∉ a ->
  substitute name lookup fuel (a ++ s)
  = match substitute name lookup fuel s with Ok t => Ok (a ++ t) | Err e => Err e end.
Proof.
  intros Hc. destruct fuel as [|fuel]; [done|]. cbn [substitute]. rewrite first_match_skip by done.
  destruct (first_match name s) as [[[pre var] post]|]; [|done]. cbn [prepend].
  destruct (lookup var); [|done]. destruct (substitute name lookup fuel post); [|done].
  by rewrite <- app_assoc.
Qed.

(** A placeholder of the other kind is left as it is. *)
Lemma substitute_other lookup fuel path s : ch "$" ∉ path ->
  substitute (lit "ENV") lookup fuel (placeholder (lit "FILE") path ++ s)
  = match substitute (lit "ENV") lookup fuel s with
    | Ok t => Ok (placeholder (lit "FILE") path ++ t)
    | Err e => Err e
    end.
Proof.
  intros Hc. set (rest := lit "FILE{" ++ path ++ lit "}").
  assert (Hp : forall t, placeholder (lit "FILE") path ++ t = ch "$" :: rest ++ t).
  { intros t. unfold placeholder, rest. by rewrite <- !app_assoc. }
  assert (Hr : ch "$" ∉ rest).
  { unfold rest. rewrite !elem_of_app. intros [H|[H|H]]; [|done|]; apply elem_of_list_In in H; simpl in H;
      repeat (destruct H as [H|H]; [discriminate|]); done. }
  destruct fuel as [|fuel]; [done|]. rewrite !Hp. cbn [substitute first_match].
  assert (match_at (lit "ENV") (ch "$" :: rest ++ s) = None) as -> by reflexivity.
  rewrite first_match_skip by done.
  destruct (first_match (lit "ENV") s) as [[[pre var] post]|]; [|by rewrite Hp]. cbn [prepend].
  destruct (lookup var); [|done]. destruct (substitute (lit "ENV") lookup fuel post); [|done].
  rewrite Hp. cbn [app]. by rewrite <- app_assoc.
Qed.

Lemma substitute_here name lookup fuel var post : var_ok var ->
  substitute name lookup (S fuel) (placeholder name var ++ post)
  = match lookup var with
    | Ok value => match substitute name lookup fuel post with Ok t => Ok (value ++ t) | Err e => Err e end
    | Err e => Err e
    end.
Proof. intros Hv. cbn [substitute]. by rewrite first_match_here. Qed.

Section Pieces.
Context (m : Machine).

Lemma env_pass ps fuel : Forall piece_ok ps -> (length (ps ≫= render) <= fuel)%nat ->
  substitute (lit "ENV") (env_var m) fuel (ps ≫= render)
  = match try_collect (env_step m <$> ps) with Ok ps' => Ok (ps' ≫= render) | Err e => Err e end.
Proof.
  intros Hps. revert fuel. induction Hps as [|p ps Hp Hps IH]; intros fuel Hl; [by destruct fuel|].
  rewrite bind_cons in *. rewrite fmap_cons. cbn [try_collect]. rewrite length_app in Hl.
  destruct p as [s|var|path]; cbn [render env_step piece_ok] in *.
  - rewrite substitute_skip, IH by (done || lia).
    destruct (try_collect (env_step m <$> ps)); [by rewrite bind_cons|done].
  - destruct Hp as [Hv _]. rewrite placeholder_length in Hl. destruct fuel as [|fuel]; [lia|].
    rewrite substitute_here by done. destruct (env_var m var); [|done]. cbn [fmap result_fmap].
    rewrite IH by lia. destruct (try_collect (env_step m <$> ps)); [by rewrite bind_cons|done].
  - destruct Hp as [_ Hc]. rewrite substitute_other, IH by (done || lia).
    destruct (try_collect (env_step m <$> ps)); [by rewrite bind_cons|done].
Qed.

(** What the first pass leaves. *)
Definition left_ok (p : Piece) : Prop := match p with EnvVar _ => False | _ => piece_ok p end.

Lemma file_pass ps fuel : Forall left_ok ps -> (length (ps ≫= render) <= fuel)%nat ->
  substitute (lit "FILE") (read_contents m) fuel (ps ≫= render)
  = match try_collect (file_step m <$> ps) with Ok ts => Ok (concat ts) | Err e => Err e end.
Proof.
  intros Hps. revert fuel. induction Hps as [|p ps Hp Hps IH]; intros fuel Hl; [by destruct fuel|].
  rewrite bind_cons in *. rewrite fmap_cons. cbn [try_collect]. rewrite length_app in Hl.
  destruct p as [s|var|path]; cbn [render file_step left_ok piece_ok] in *; [|done|].
  - rewrite substitute_skip, IH by (done || lia). by destruct (try_collect (file_step m <$> ps)).
  - destruct Hp as [Hv _]. rewrite placeholder_length in Hl. destruct fuel as [|fuel]; [lia|].
    rewrite substitute_here by done. destruct (read_contents m path); [|done].
    rewrite IH by lia. by destruct (try_collect (file_step m <$> ps)).
Qed.

Lemma env_step_left ps ps' : Forall piece_ok ps ->
  (forall var v, EnvVar var ∈ ps -> env_var m var = Ok v -> ch "$" ∉ v) ->
  try_collect (env_step m <$> ps) = Ok ps' -> Forall left_ok ps'.
Proof.
  intros Hps. revert ps'. induction Hps as [|p ps Hp Hps IH]; intros ps' Hv.
  - cbn. intros H. injection H as <-. constructor.
  - rewrite fmap_cons. cbn [try_collect]. destruct (env_step m p) as [p'|] eqn:Ep; [|done].
    destruct (try_collect (env_step m <$> ps)) as [qs|]; [|done]. intros H. injection H as <-.
    constructor; [|apply IH; [|done]; intros var v Hin; apply Hv; by right].
    destruct p as [s|var|path]; cbn [env_step] in Ep.
    + by injection Ep as <-.
    + destruct (env_var m var) as [v|] eqn:E; [|done]. injection Ep as <-. cbn.
      apply (Hv var v); [by left|done].
    + by injection Ep as <-.
Qed.
End Pieces.

(** C37: [expand_placeholders] comes back with a text or an error for every text, and never panics
    on a slice.  On a text in which dollar signs only start placeholders each [$ENV{var}]
    becomes the value of the variable and then each [$FILE{path}] the contents of the file,
    whatever they contain; the first variable that is not set, then the first file that cannot
    be read, is the error. *)
Theorem placeholders_expanded {CA : Captures} (L : CapturesLaws) (m : Machine) :
  (forall text, exists r : result str, expand_placeholders m text = outcome_of r)
  /\ forall ps : list Piece, Forall piece_ok ps ->
       (forall var v, EnvVar var ∈ ps -> env_var m var = Ok v -> ch "$" ∉ v) ->
       expand_placeholders m (ps ≫= render)
       = outcome_of (match try_collect (env_step m <$> ps) with
                     | Ok ps' => match try_collect (file_step m <$> ps') with
                                 | Ok texts => Ok (concat texts)
                                 | Err e => Err e
                                 end
                     | Err e => Err e
                     end).
Proof.
  split.
  - intros text. rewrite expand_substitute.
    destruct (substitute (lit "ENV") (env_var m) (length text) text) as [t|e]; [by eexists|by exists (Err e)].
  - intros ps Hps Hv. rewrite expand_substitute, env_pass by done.
    destruct (try_collect (env_step m <$> ps)) as [ps'|e] eqn:E; [|done].
    by rewrite (file_pass m ps' _ (env_step_left m ps ps' Hps Hv E)).
Qed.

(** ** The parts of the configuration under a reload

    A reload through [update_runtime] reaches every dynamic setting but the site name, and
    four settings that are called static: the TLS files, the address of the WebSocket bridge
    and the number of threads. *)
Lemma dynamic_reload (a b : Config) :
  dynamic_of (update_runtime a b)
  = mkDynamicConfig (cfg_site_name a) (dy_idle_timeout_secs (dynamic_of b))
      (dy_allow_auth_insecure_connections (dynamic_of b)) (dy_allow_anonymous_posting (dynamic_of b))
      (dy_group_settings (dynamic_of b)) (dy_filters (dynamic_of b)) (dy_peers (dynamic_of b))
      (dy_peer_sync_schedule (dynamic_of b)) (dy_pgp_key_servers (dynamic_of b))
      (dy_user_limits (dynamic_of b)).
Proof. reflexivity. Qed.

Lemma static_reload (a b : Config) :
  static_of (update_runtime a b) = static_of a
  <-> cfg_tls_cert a = cfg_tls_cert b /\ cfg_tls_key a = cfg_tls_key b
      /\ cfg_ws_addr a = cfg_ws_addr b /\ cfg_runtime_threads a = cfg_runtime_threads b.
Proof.
  unfold static_of, update_runtime. simpl. split.
  - intros H. injection H as -> -> -> ->. done.
  - by intros (-> & -> & -> & ->).
Qed.

(** ** What a configuration read from a file satisfies *)
Lemma from_file_queue {CA : Captures} {TP : TomlParser} m path cfg : from_file m path = Ret cfg ->
  1 <= cfg_article_queue_capacity cfg /\ 1 <= cfg_article_worker_count cfg.
Proof.
  unfold from_file. destruct (read_to_string m path); [done|].
  destruct (expand_placeholders m _); try done. destruct (toml_parse _); [|done].
  destruct (settings m _); [|done]. intros H. injection H as <-. simpl. lia.
Qed.

(** ** A concrete machine *)
Module ToySettings.
(** A compiled expression is the name of its placeholder. *)
#[export] Instance captures : Captures := {|
  CRegex := str;
  cregex_new := fun re =>
    match strip_prefix (lit "\$") re with
    | Some s => match split_once (ch "\") s with
                | Some (name, _) => Ok name
                | None => Err (lit "regex")
                end
    | None => Err (lit "regex")
    end;
  captures_iter := fun name text => scan name (length text) 0 text;
|}.

#[export] Instance captures_laws : @CapturesLaws captures.
Proof.
  constructor. intros name Hname. exists name. split.
  - cbn [cregex_new captures]. unfold placeholder_re. rewrite strip_prefix_app.
    assert (split_once (ch "\") (name ++ lit "\{([^}]+)\}") = Some (name, lit "{([^}]+)\}")) as ->; [|done].
    apply split_once_Some. split; [done|]. intros Hc%elem_of_list_In.
    rewrite forallb_forall in Hname. by apply Hname in Hc.
  - intros text. by apply scan_captured.
Qed.

Definition machine : Machine := {|
  env_var := fun v => if str_eqb v (lit "PORT") then Ok (lit "119") else Err (lit "environment variable not found");
  read_to_string := fun p =>
    if str_eqb p (lit "/etc/site") then inr (lit "news $ENV{X}")
    else inl (mkFileError NotFound (lit "No such file or directory (os error 2)"));
|}.
End ToySettings.

Definition two_placeholders : list Piece :=
  [Plain (lit "addr=:"); EnvVar (lit "PORT"); Plain (lit " name="); FileOf (lit "/etc/site")].

Lemma placeholders_expanded_witness :
  @expand_placeholders ToySettings.captures ToySettings.machine (lit "addr=:$ENV{PORT} name=$FILE{/etc/site}")
  = Ret (lit "addr=:119 name=news $ENV{X}").
Proof.
  destruct (@placeholders_expanded ToySettings.captures ToySettings.captures_laws ToySettings.machine) as [_ H].
  refine (eq_trans (H two_placeholders _ _) eq_refl).
  - repeat constructor; by (done || apply absent_check).
  - intros var v Hin. unfold two_placeholders in Hin. rewrite !elem_of_cons in Hin.
    destruct Hin as [Hin|[Hin|[Hin|[Hin|Hin%not_elem_of_nil]]]]; try discriminate Hin; [|done].
    injection Hin as ->. intros E. injection E as <-. by apply absent_check.
Defined.
