(* ===== verification/Listen.v ===== *)
(** * Listen: addresses to listen on, and the WebSocket bridge ([server.rs], [ws.rs])

    How the standard library reads a socket address, the address a listener binds for a
    configured text, the port the WebSocket bridge dials, and what the bridge passes on.
    Sockets are the class [Sockets]; a write to a connection is taken to succeed. *)

From stdpp Require Import base numbers list sets strings.
From Stdlib Require Import NArith ZArith Lia.
From S2P Require Import Prelude Text Externals Config Settings.
Local Open Scope N_scope.

(** ** [SocketAddr::from_str]

    A reader takes a value off the front of a text; one that fails leaves the text as it was. *)
Definition Reader (A : Type) : Type := str -> option (A * str).

Definition read_given_char (c : char) : Reader unit := fun s =>
  match s with d :: t => if d =? c then Some (tt, t) else None | [] => None end.

(** [char::to_digit] for a radix up to 16. *)
Definition to_digit (radix : N) (c : char) : option N :=
  let d := if is_ascii_digit c then Some (c - 48)
           else if in_range 97 102 c then Some (c - 87)
           else if in_range 65 70 c then Some (c - 55)
           else None in
  match d with Some d => if d <? radix then Some d else None | None => None end.

Fixpoint read_digits (radix : N) (s : str) : list N * str :=
  match s with
  | c :: t => match to_digit radix c with
              | Some d => let '(ds, rest) := read_digits radix t in (d :: ds, rest)
              | None => ([], s)
              end
  | [] => ([], s)
  end.

Definition digits_value (radix : N) (ds : list N) : N := fold_left (fun a d => a * radix + d) ds 0.

(** [read_number] for a type of greatest value [max]; with [max_digits] the value cannot
    overflow while it is read, without it every step is checked, which comes to the same
    bound on the whole. *)
Definition read_number (max radix : N) (max_digits : option nat) (allow_zero_prefix : bool) : Reader N := fun s =>
  let '(ds, rest) := read_digits radix s in
  if match max_digits with Some k => (k <? length ds)%nat | None => false end then None
  else match ds with
       | [] => None
       | d :: more =>
           if negb allow_zero_prefix && (d =? 0) && negb (bool_decide (more = [])) then None
           else if digits_value radix ds <=? max then Some (digits_value radix ds, rest) else None
       end.

Definition read_separator {A} (c : char) (index : nat) (inner : Reader A) : Reader A := fun s =>
  match index with
  | O => inner s
  | S _ => match read_given_char c s with Some (_, s) => inner s | None => None end
  end.

Definition read_octet : Reader N := read_number 255 10 (Some 3%nat) false.
Definition read_group : Reader N := read_number 65535 16 (Some 4%nat) true.

Definition read_ipv4_addr : Reader (list N) := fun s =>
  match read_separator (ch ".") 0 read_octet s with
  | Some (a, s) =>
      match read_separator (ch ".") 1 read_octet s with
      | Some (b, s) =>
          match read_separator (ch ".") 2 read_octet s with
          | Some (c, s) =>
              match read_separator (ch ".") 3 read_octet s with
              | Some (d, s) => Some ([a; b; c; d], s)
              | None => None
              end
          | None => None
          end
      | None => None
      end
  | None => None
  end.

(** The groups read from index [i] on, of [limit]: how many there are in the end, whether
    an embedded IPv4 address closed them, and what is left. *)
Fixpoint read_groups (turns limit i : nat) (s : str) : nat * bool * str :=
  match turns with
  | O => (limit, false, s)
  | S turns =>
      match (if (i <? limit - 1)%nat then read_separator (ch ":") i read_ipv4_addr s else None) with
      | Some (_, rest) => ((i + 2)%nat, true, rest)
      | None =>
          match read_separator (ch ":") i read_group s with
          | Some (_, rest) => read_groups turns limit (S i) rest
          | None => (i, false, s)
          end
      end
  end.

(** The address itself is of no use here, only where it ends. *)
Definition read_ipv6_addr : Reader unit := fun s =>
  let '(head_size, head_ipv4, s) := read_groups 8 8 0 s in
  if (head_size =? 8)%nat then Some (tt, s)
  else if head_ipv4 then None
  else match read_given_char (ch ":") s with
       | Some (_, s) =>
           match read_given_char (ch ":") s with
           | Some (_, s) =>
               let limit := (8 - (head_size + 1))%nat in
               let '(_, _, s) := read_groups limit limit 0 s in Some (tt, s)
           | None => None
           end
       | None => None
       end.

Definition read_port : Reader N := fun s =>
  match read_given_char (ch ":") s with
  | Some (_, s) => read_number 65535 10 None true s
  | None => None
  end.

Definition read_scope_id : Reader N := fun s =>
  match read_given_char (ch "%") s with
  | Some (_, s) => read_number (2 ^ 32 - 1) 10 None true s
  | None => None
  end.

Definition read_socket_addr_v4 : Reader N := fun s =>
  match read_ipv4_addr s with Some (_, s) => read_port s | None => None end.

Definition read_socket_addr_v6 : Reader N := fun s =>
  match read_given_char (ch "[") s with
  | Some (_, s) =>
      match read_ipv6_addr s with
      | Some (_, s) =>
          let s := match read_scope_id s with Some (_, s) => s | None => s end in
          match read_given_char (ch "]") s with
          | Some (_, s) => read_port s
          | None => None
          end
      | None => None
      end
  | None => None
  end.

(** The port of the socket address a text is, if it is one. *)
Definition parse_socket_addr (s : str) : option N :=
  match match read_socket_addr_v4 s with Some r => Some r | None => read_socket_addr_v6 s end with
  | Some (port, []) => Some port
  | _ => None
  end.

(** ** The address of a listener *)
Definition listen_addr (raw : str) : str :=
  match parse_socket_addr raw with
  | Some _ => raw
  | None => match strip_prefix (lit ":") raw with
            | Some port => lit "0.0.0.0:" ++ port
            | None => lit "0.0.0.0:" ++ raw
            end
  end.

(** The port the WebSocket bridge dials. *)
Definition port_after_colon (addr : str) (default_port : N) : N :=
  match rsplit_once (ch ":") addr with
  | Some (_, p) => if forallb is_ascii_digit p then default default_port (parse_u16 p) else default_port
  | None => default_port
  end.

Definition port_from_addr (addr : str) (default_port : N) : N :=
  match strip_prefix (lit "[") addr with
  | Some stripped =>
      match split_once (ch "]") stripped with
      | Some (_, after) => default default_port (strip_prefix (lit ":") after ≫= parse_u16)
      | None => port_after_colon addr default_port
      end
  | None => port_after_colon addr default_port
  end.

(** ** Sockets: what the system and the systemd crate do *)
Class Sockets := {
  Listener : Type;
  SystemdAddr : Type;
  StdListener : Type;
  systemd_addr : str -> result SystemdAddr;
  systemd_bind : SystemdAddr -> result StdListener;
  set_nonblocking : StdListener -> result unit;
  from_std : StdListener -> result Listener;
  tcp_bind : str -> result Listener;
}.

Definition bind_hints : str := lit "

This error typically occurs when:
- Another process is already using this port (try: lsof -i :".

Definition bind_causes : str := lit ")
- The port number is invalid (must be 1-65535)
- Permission denied for privileged ports (<1024) - try running as root or use a port " ++ [8805] ++ lit "1024
- The address format is incorrect (should be 'host:port', ':port', or just 'port')
".

Definition systemd_bind_error (addr_config e : str) : str :=
  lit "Failed to bind to address '" ++ addr_config ++ lit "': " ++ e ++ bind_hints
  ++ lit "<port> or netstat -tlnp | grep :<port>" ++ bind_causes
  ++ lit "- For systemd socket activation, the socket is not available

You can use 'systemd://socket_name' format for systemd socket activation.".

(** [addr.split(':').next_back().unwrap_or(port)]: a split has at least one piece. *)
Definition last_piece (port addr : str) : str := default port (last (split_on (ch ":") addr)).

Definition bind_error (addr_config addr e : str) : str :=
  lit "Failed to bind to address '" ++ addr_config ++ lit "': " ++ e ++ bind_hints
  ++ last_piece (lit "119") addr ++ lit " or netstat -tlnp | grep :" ++ last_piece (lit "119") addr ++ bind_causes
  ++ lit "
You can use 'systemd://socket_name' format for systemd socket activation.".

Definition bridge_bind_error (addr e : str) : str :=
  lit "Failed to bind to WebSocket address '" ++ addr ++ lit "': " ++ e ++ bind_hints
  ++ last_piece (lit "8080") addr ++ lit " or netstat -tlnp | grep :" ++ last_piece (lit "8080") addr ++ bind_causes
  ++ lit "
You can change the WebSocket listen address in your configuration file using the 'ws_addr' setting
or disable the WebSocket bridge by removing the 'ws_addr' configuration.".

Section Listeners.
Context {SO : Sockets}.

Definition get_listener (addr_config : str) : result Listener :=
  if starts_with (lit "systemd://") addr_config
  then match systemd_addr addr_config with
       | Err e => Err (lit "Invalid systemd socket address '" ++ addr_config ++ lit "': " ++ e)
       | Ok socket_addr =>
           match systemd_bind socket_addr with
           | Err e => Err (systemd_bind_error addr_config e)
           | Ok std_listener =>
               match set_nonblocking std_listener with
               | Err e => Err (lit "failed to set socket to non-blocking: " ++ e)
               | Ok tt => map_error (fun e => lit "failed to convert socket to tokio: " ++ e)
                            (from_std std_listener)
               end
           end
       end
  else let addr := listen_addr addr_config in
       map_error (bind_error addr_config addr) (tcp_bind addr).

(** [run_ws_bridge] up to its loop: the listener, and the address every connection dials. *)
Definition bridge_addrs (c : Config) : option (str * str) :=
  match cfg_ws_addr c with
  | Some raw => Some (listen_addr raw, lit "127.0.0.1:" ++ show_N (port_from_addr (cfg_addr c) 119))
  | None => None
  end.

Definition bridge_listener (c : Config) : result (option (Listener * str)) :=
  match bridge_addrs c with
  | Some (addr, nntp_addr) =>
      match map_error (bridge_bind_error addr) (tcp_bind addr) with
      | Ok listener => Ok (Some (listener, nntp_addr))
      | Err e => Err e
      end
  | None => Ok None
  end.
End Listeners.

(** ** The WebSocket bridge *)
Inductive WsMessage : Type :=
| WsText (t : str)
| WsBinary (b : list N)
| WsClose
| WsOther.

(** The task towards the news server, over what the WebSocket gives until it ends: the bytes
    written, and whether the task came to its end and shut its side down. *)
Fixpoint to_nntp (messages : list (result WsMessage)) : list N * result unit :=
  match messages with
  | [] => ([], Ok tt)
  | Err e :: _ => ([], Err e)
  | Ok (WsText t) :: rest => let '(out, r) := to_nntp rest in (utf8_encode t ++ out, r)
  | Ok (WsBinary b) :: rest => let '(out, r) := to_nntp rest in (b ++ out, r)
  | Ok WsClose :: _ => ([], Ok tt)
  | Ok WsOther :: rest => to_nntp rest
  end.

(** The loop towards the browser, over the results of its reads, an empty one at the end
    of the connection: the messages sent, and whether it came to the end and closed. *)
Fixpoint to_browser (reads : list (result (list N))) : list WsMessage * result unit :=
  match reads with
  | [] => ([], Ok tt)
  | Err e :: _ => ([], Err e)
  | Ok [] :: _ => ([WsClose], Ok tt)
  | Ok buf :: rest => let '(sent, r) := to_browser rest in (WsBinary buf :: sent, r)
  end.

(** ** What a reader takes *)
Definition takes {A} (P : char -> bool) (r : Reader A) : Prop :=
  forall s a rest, r s = Some (a, rest) -> exists t, s = t ++ rest /\ forallb P t = true.

Lemma takes_weaken {A} (P Q : char -> bool) (r : Reader A) :
  (forall c, P c = true -> Q c = true) -> takes P r -> takes Q r.
Proof.
  intros H Hr s a rest E. destruct (Hr s a rest E) as (t & -> & Ht). exists t. split; [done|].
  rewrite forallb_forall in *. auto.
Qed.

Lemma takes_char (P : char -> bool) c : P c = true -> takes P (read_given_char c).
Proof.
  intros Hc [|d s] a rest; [done|]. cbn [read_given_char]. destruct (N.eqb_spec d c) as [->|]; [|done].
  intros E. injection E as _ <-. exists [c]. split; [done|]. simpl. by rewrite Hc.
Qed.

Lemma takes_then {A B} P (r : Reader A) (r' : A -> Reader B) s b rest :
  takes P r -> (forall a, takes P (r' a)) ->
  match r s with Some (a, s') => r' a s' | None => None end = Some (b, rest) ->
  exists t, s = t ++ rest /\ forallb P t = true.
Proof.
  intros Hr Hr'. destruct (r s) as [[a s']|] eqn:E; [|done]. intros E'.
  destruct (Hr _ _ _ E) as (t & -> & Ht), (Hr' _ _ _ _ E') as (t' & -> & Ht').
  exists (t ++ t'). rewrite <- app_assoc, forallb_app, Ht. done.
Qed.

Definition digit_of (radix : N) (c : char) : bool := match to_digit radix c with Some _ => true | None => false end.

Lemma read_digits_spec radix s ds rest : read_digits radix s = (ds, rest) ->
  exists t, s = t ++ rest /\ forallb (digit_of radix) t = true /\ (to_digit radix <$> t) = Some <$> ds.
Proof.
  revert ds. induction s as [|c s IH]; intros ds; cbn [read_digits].
  - intros E. injection E as <- <-. by exists [].
  - destruct (to_digit radix c) as [d|] eqn:Ed.
    + destruct (read_digits radix s) as [ds1 rest1]. intros E. injection E as <- <-.
      destruct (IH ds1 eq_refl) as (t & -> & Ht & Hd). exists (c :: t). split_and!; [done| |].
      * cbn [forallb]. unfold digit_of at 1. by rewrite Ed.
      * by rewrite !fmap_cons, Ed, Hd.
    + intros E. injection E as <- <-. by exists [].
Qed.

Lemma takes_number max radix k z : takes (digit_of radix) (read_number max radix k z).
Proof.
  intros s n rest. unfold read_number. destruct (read_digits radix s) as [ds rest1] eqn:E.
  destruct (read_digits_spec _ _ _ _ E) as (t & -> & Ht & _).
  destruct (match k with Some k => (k <? length ds)%nat | None => false end); [done|].
  destruct ds as [|d more]; [done|]. destruct (_ && _); [done|]. destruct (_ <=? max); [|done].
  intros H. injection H as _ <-. by exists t.
Qed.

Lemma takes_separator {A} P c i (r : Reader A) : P c = true -> takes P r -> takes P (read_separator c i r).
Proof.
  intros Hc Hr. destruct i; [exact Hr|]. intros s a rest. cbn [read_separator].
  apply (takes_then P (read_given_char c) (fun _ => r)); [by apply takes_char|done].
Qed.

(** The characters of an IPv4 address, and of an IPv6 address. *)
Definition ipv4_char (c : char) : bool := is_ascii_digit c || (c =? ch ".").
Definition ipv6_char (c : char) : bool := digit_of 16 c || (c =? ch ".") || (c =? ch ":").

Lemma in_range_true lo hi c : in_range lo hi c = true <-> lo <= c <= hi.
Proof. unfold in_range. by rewrite andb_true_iff, !N.leb_le. Qed.

Lemma decimal_digit c : digit_of 10 c = is_ascii_digit c.
Proof.
  unfold digit_of, to_digit. destruct (is_ascii_digit c) eqn:Ed.
  - apply in_range_true in Ed. destruct (N.ltb_spec (c - 48) 10); [done|lia].
  - destruct (in_range 97 102 c) eqn:El.
    + apply in_range_true in El. destruct (N.ltb_spec (c - 87) 10); [lia|done].
    + destruct (in_range 65 70 c) eqn:Eu; [|done].
      apply in_range_true in Eu. destruct (N.ltb_spec (c - 55) 10); [lia|done].
Qed.

Lemma decimal_hex c : is_ascii_digit c = true -> digit_of 16 c = true.
Proof.
  intros Hc. unfold digit_of, to_digit. rewrite Hc. apply in_range_true in Hc.
  destruct (N.ltb_spec (c - 48) 16); [done|lia].
Qed.

Lemma ipv4_ipv6 c : ipv4_char c = true -> ipv6_char c = true.
Proof.
  unfold ipv4_char, ipv6_char. intros [H%decimal_hex| ->]%orb_true_iff; [by rewrite H|].
  by rewrite orb_true_r.
Qed.

Lemma takes_ipv4 : takes ipv4_char read_ipv4_addr.
Proof.
  assert (Ho : forall i, takes ipv4_char (read_separator (ch ".") i read_octet)).
  { intros i. apply takes_separator; [done|]. eapply takes_weaken, takes_number.
    intros c. rewrite decimal_digit. unfold ipv4_char. by intros ->. }
  intros s l rest. unfold read_ipv4_addr.
  apply (takes_then _ (read_separator (ch ".") 0 read_octet) (fun a s => _)); [done|].
  intros a s1 l1 rest1. apply (takes_then _ (read_separator (ch ".") 1 read_octet) (fun b s => _)); [done|].
  intros b s2 l2 rest2. apply (takes_then _ (read_separator (ch ".") 2 read_octet) (fun b s => _)); [done|].
  intros c s3 l3 rest3. apply (takes_then _ (read_separator (ch ".") 3 read_octet) (fun d s => Some ([a; b; c; d], s))); [done|].
  intros d s4 l4 rest4 E. injection E as _ <-. by exists [].
Qed.

Lemma takes_groups turns limit i s : exists t,
  s = t ++ snd (read_groups turns limit i s) /\ forallb ipv6_char t = true.
Proof.
  assert (H4 : takes ipv6_char (read_separator (ch ":") i read_ipv4_addr)).
  { apply takes_separator; [done|]. eapply takes_weaken, takes_ipv4. apply ipv4_ipv6. }
  revert i s H4. induction turns as [|turns IH]; intros i s H4; cbn [read_groups]; [by exists []|].
  assert (H4' : takes ipv6_char (read_separator (ch ":") (S i) read_ipv4_addr)).
  { apply takes_separator; [done|]. eapply takes_weaken, takes_ipv4. apply ipv4_ipv6. }
  assert (Hg : takes ipv6_char (read_separator (ch ":") i read_group)).
  { apply takes_separator; [done|]. eapply takes_weaken, takes_number.
    intros c. unfold ipv6_char. by intros ->. }
  destruct (if (i <? limit - 1)%nat then read_separator (ch ":") i read_ipv4_addr s else None)
    as [[l rest]|] eqn:E4.
  - destruct (i <? limit - 1)%nat; [|done]. exact (H4 _ _ _ E4).
  - destruct (read_separator (ch ":") i read_group s) as [[g rest]|] eqn:Eg; [|by exists []].
    destruct (Hg _ _ _ Eg) as (t & -> & Ht), (IH (S i) rest H4') as (t' & E' & Ht').
    exists (t ++ t'). rewrite <- app_assoc, <- E', forallb_app, Ht. done.
Qed.

Lemma takes_ipv6 : takes ipv6_char read_ipv6_addr.
Proof.
  intros s u rest. unfold read_ipv6_addr. destruct (takes_groups 8 8 0 s) as (t & Es & Ht).
  destruct (read_groups 8 8 0 s) as [[head_size head_ipv4] s1]. cbn [snd] in Es. subst s.
  destruct (head_size =? 8)%nat; [intros E; injection E as _ <-; by exists t|].
  destruct head_ipv4; [done|].
  assert (Hc : takes ipv6_char (read_given_char (ch ":"))) by (by apply takes_char).
  intros E.
  destruct (takes_then ipv6_char (read_given_char (ch ":")) (fun _ s => match read_given_char (ch ":") s with
    | Some (_, s) => let limit := (8 - (head_size + 1))%nat in
                     let '(_, _, s) := read_groups limit limit 0 s in Some (tt, s)
    | None => None end) s1 u rest Hc) as (t1 & -> & Ht1).
  - intros _ s2 u2 rest2. apply (takes_then _ (read_given_char (ch ":")) (fun _ s => _)); [done|].
    intros _ s3 u3 rest3. cbv zeta. set (limit := (8 - (head_size + 1))%nat).
    destruct (takes_groups limit limit 0 s3) as (t3 & E3 & Ht3).
    destruct (read_groups limit limit 0 s3) as [[??] s4]. intros H. injection H as _ <-.
    by exists t3.
  - exact E.
  - exists (t ++ t1). rewrite forallb_app, Ht, <- app_assoc. done.
Qed.

(** ** The port of a socket address *)
Lemma decimal_value t ds acc : forallb is_ascii_digit t = true -> (to_digit 10 <$> t) = Some <$> ds ->
  fold_left (fun a d => a * 10 + d) ds acc = dec_value t acc.
Proof.
  revert ds acc. induction t as [|c t IH]; intros [|d ds] acc; [done..|].
  cbn [forallb]. rewrite andb_true_iff, !fmap_cons. intros [Hc Ht] E. injection E as Ed E.
  unfold dec_value. cbn [fold_left]. rewrite (IH ds) by done.
  assert (Hd : d = c - 48).
  { unfold to_digit in Ed. rewrite Hc in Ed. destruct (c - 48 <? 10); congruence. }
  unfold dec_value. f_equal. lia.
Qed.

Lemma read_digits_all t : forallb is_ascii_digit t = true -> exists ds, read_digits 10 t = (ds, []) /\ length ds = length t.
Proof.
  induction t as [|c t IH]; cbn [forallb read_digits]; [by exists []|].
  intros [Hc Ht]%andb_true_iff. destruct (IH Ht) as (ds & -> & Hl). rewrite <- decimal_digit in Hc.
  unfold digit_of in Hc. destruct (to_digit 10 c) as [d|]; [|done]. exists (d :: ds). simpl. by rewrite Hl.
Qed.

Lemma read_port_spec s p : read_port s = Some (p, []) ->
  exists t, s = ch ":" :: t /\ t <> [] /\ forallb is_ascii_digit t = true /\ dec_value t 0 = p /\ p <= 65535.
Proof.
  unfold read_port. destruct s as [|c s]; [done|]. cbn [read_given_char].
  destruct (N.eqb_spec c (ch ":")) as [->|]; [|done]. unfold read_number.
  destruct (read_digits 10 s) as [ds rest] eqn:E. destruct (read_digits_spec _ _ _ _ E) as (t & -> & Ht & Hd).
  cbn [negb andb]. destruct ds as [|d more]; [done|].
  assert (Hdig : forallb is_ascii_digit t = true).
  { rewrite forallb_forall in *. intros x Hx. rewrite <- decimal_digit. auto. }
  unfold digits_value. rewrite (decimal_value t) by done.
  destruct (N.leb_spec (dec_value t 0) 65535); [|done]. intros H'. injection H' as <- ->.
  exists t. rewrite app_nil_r. split_and!; [done| |done..]. by intros ->.
Qed.

Lemma read_port_digits t : t <> [] -> forallb is_ascii_digit t = true -> dec_value t 0 <= 65535 ->
  read_port (ch ":" :: t) = Some (dec_value t 0, []).
Proof.
  intros Hne Ht Hv. unfold read_port. cbn [read_given_char]. rewrite N.eqb_refl. unfold read_number.
  destruct (read_digits_all t Ht) as (ds & E & Hl). rewrite E.
  destruct (read_digits_spec _ _ _ _ E) as (t' & Et & _ & Hd). rewrite app_nil_r in Et. subst t'.
  cbn [negb andb]. unfold digits_value.
  assert (Hval : fold_left (fun a d => a * 10 + d) ds 0 = dec_value t 0) by (by apply decimal_value).
  destruct ds as [|d more]; [by destruct t|]. rewrite Hval. by apply N.leb_le in Hv as ->.
Qed.

Lemma forallb_absent (P : char -> bool) c (s : str) : P c = false -> forallb P s = true -> c ∉ s.
Proof.
  intros Hc Hs H%elem_of_list_In. rewrite forallb_forall in Hs. apply Hs in H. congruence.
Qed.

(** How a socket address is written: before the port, either no colon and no bracket, or
    brackets around a text without a closing one. *)
Lemma socket_addr_form s p : parse_socket_addr s = Some p ->
  exists t, t <> [] /\ forallb is_ascii_digit t = true /\ dec_value t 0 = p /\ p <= 65535
  /\ ((exists ip, s = ip ++ ch ":" :: t /\ forallb ipv4_char ip = true)
      \/ (exists ip, s = lit "[" ++ ip ++ ch "]" :: ch ":" :: t /\ ch "]" ∉ ip)).
Proof.
  unfold parse_socket_addr.
  destruct (read_socket_addr_v4 s) as [[q rest]|] eqn:E4.
  - destruct rest; [|done]. intros H. injection H as ->. unfold read_socket_addr_v4 in E4.
    destruct (read_ipv4_addr s) as [[l s1]|] eqn:E; [|done].
    destruct (takes_ipv4 _ _ _ E) as (ip & -> & Hip).
    destruct (read_port_spec _ _ E4) as (t & -> & Ht & Hd & Hv & Hp).
    exists t. split_and!; [done..|]. left. by exists ip.
  - destruct (read_socket_addr_v6 s) as [[q rest]|] eqn:E6; [|done].
    destruct rest; [|done]. intros H. injection H as ->. unfold read_socket_addr_v6 in E6.
    destruct s as [|b s]; [done|]. cbn [read_given_char] in E6.
    destruct (N.eqb_spec b (ch "[")) as [->|]; [|done].
    destruct (read_ipv6_addr s) as [[u s1]|] eqn:E; [|done].
    destruct (takes_ipv6 _ _ _ E) as (ip & -> & Hip).
    assert (Hscope : exists t s3, s1 = t ++ s3 /\ ch "]" ∉ t
      /\ match read_scope_id s1 with Some (_, s) => s | None => s1 end = s3).
    { destruct (read_scope_id s1) as [[i s2]|] eqn:Es; [|exists [], s1; split_and!; [done|apply not_elem_of_nil|done]].
      unfold read_scope_id in Es.
      destruct (takes_then (fun c => digit_of 10 c || (c =? ch "%")) (read_given_char (ch "%"))
        (fun _ => read_number (2 ^ 32 - 1) 10 None true) s1 i s2) as (t & -> & Ht); [by apply takes_char| |done|].
      - intros _. eapply takes_weaken, takes_number. by intros c ->.
      - exists t, s2. split_and!; [done| |done]. refine (forallb_absent _ _ _ _ Ht); reflexivity. }
    destruct Hscope as (scope & s3 & -> & Hs & E3). cbv zeta in E6. rewrite E3 in E6. destruct s3 as [|c s3]; [done|]. cbn [read_given_char] in E6.
    destruct (N.eqb_spec c (ch "]")) as [->|]; [|done].
    destruct (read_port_spec _ _ E6) as (t & -> & Ht & Hd & Hv & Hp).
    exists t. split_and!; [done..|]. right. exists (ip ++ scope). split; [by rewrite <- app_assoc|].
    rewrite elem_of_app. intros [H|H]; [|done]. revert H. refine (forallb_absent _ _ _ _ Hip); reflexivity.
Qed.

(** The port the bridge takes from a socket address is its port. *)
Lemma port_from_socket_addr s p d : parse_socket_addr s = Some p -> port_from_addr s d = p.
Proof.
  intros H. destruct (socket_addr_form _ _ H) as (t & Hne & Hd & <- & Hp & Hform).
  assert (Hc : ch ":" ∉ t) by (by apply digits_absent).
  assert (Hport : parse_u16 t = Some (dec_value t 0)) by (by apply parse_uint_value).
  unfold port_from_addr. destruct Hform as [(ip & -> & Hip)|(ip & -> & Hb)].
  - assert (strip_prefix (lit "[") (ip ++ ch ":" :: t) = None) as ->.
    { destruct (strip_prefix _ _) as [u|] eqn:E; [|done]. apply strip_prefix_Some in E.
      destruct ip as [|c ip]; [discriminate E|]. injection E as -> _. discriminate Hip. }
    unfold port_after_colon. by rewrite rsplit_once_app, Hd, Hport.
  - rewrite strip_prefix_app.
    assert (split_once (ch "]") (ip ++ ch "]" :: ch ":" :: t) = Some (ip, ch ":" :: t)) as -> by (by apply split_once_Some).
    assert (strip_prefix (lit ":") (ch ":" :: t) = Some t) as -> by (by apply strip_prefix_Some).
    cbn [mbind option_bind]. by rewrite Hport.
Qed.

(** Any address: what follows the wildcard host has to be a port. *)
Lemma parse_any_host x : parse_socket_addr (lit "0.0.0.0:" ++ x)
  = match read_port (ch ":" :: x) with Some (port, []) => Some port | _ => None end.
Proof.
  unfold parse_socket_addr, read_socket_addr_v4.
  assert (read_ipv4_addr (lit "0.0.0.0:" ++ x) = Some ([0; 0; 0; 0], ch ":" :: x)) as -> by reflexivity.
  destruct (read_port (ch ":" :: x)) as [[port rest]|]; [done|].
  assert (read_socket_addr_v6 (lit "0.0.0.0:" ++ x) = None) as -> by reflexivity. done.
Qed.

Lemma socket_addr_colon s p : parse_socket_addr s = Some p -> ch ":" ∈ s.
Proof.
  intros H. destruct (socket_addr_form _ _ H) as (t & _ & _ & _ & _ & [(ip & -> & _)|(ip & -> & _)]); set_solver.
Qed.

Lemma socket_addr_head s p : parse_socket_addr (ch ":" :: s) = Some p -> False.
Proof.
  unfold parse_socket_addr, read_socket_addr_v4, read_ipv4_addr. cbn.
  unfold read_octet, read_number. cbn. done.
Qed.

(** A configured port, alone or after a colon, makes the listener bind that port on every
    interface.  Where the address of the listener is [raw] and it binds port [p], the
    WebSocket bridge dials [p] if [raw] has a colon, and always 119 if it is a port alone. *)
Theorem listener_and_bridge (raw : str) (p : N) :
  (forall n, n <= 65535 ->
     parse_socket_addr (listen_addr (show_N n)) = Some n
     /\ parse_socket_addr (listen_addr (ch ":" :: show_N n)) = Some n)
  /\ (parse_socket_addr (listen_addr raw) = Some p ->
      port_from_addr raw 119 = if existsb (N.eqb (ch ":")) raw then p else 119).
Proof.
  split.
  - intros n Hn.
    assert (Hany : parse_socket_addr (lit "0.0.0.0:" ++ show_N n) = Some n).
    { rewrite parse_any_host, read_port_digits; rewrite ?dec_value_show; auto using show_N_nonempty, show_N_digits. }
    unfold listen_addr. split.
    + destruct (parse_socket_addr (show_N n)) as [q|] eqn:E.
      { exfalso. apply socket_addr_colon in E. revert E. by apply show_N_absent. }
      destruct (strip_prefix (lit ":") (show_N n)) as [x|] eqn:Ex; [|done].
      exfalso. apply strip_prefix_Some in Ex. apply (show_N_absent (ch ":") n); [done|]. rewrite Ex. by left.
    + destruct (parse_socket_addr (ch ":" :: show_N n)) as [q|] eqn:E.
      { exfalso. by eapply socket_addr_head. }
      assert (strip_prefix (lit ":") (ch ":" :: show_N n) = Some (show_N n)) as -> by (by apply strip_prefix_Some).
      done.
  - unfold listen_addr.
    assert (Hin : ch ":" ∈ raw -> existsb (N.eqb (ch ":")) raw = true).
    { intros H. apply existsb_exists. exists (ch ":"). split; [by apply elem_of_list_In|done]. }
    destruct (parse_socket_addr raw) as [q|] eqn:E.
    + intros E'. rewrite E in E'. injection E' as ->. rewrite Hin by (by eapply socket_addr_colon).
      by apply port_from_socket_addr.
    + destruct (strip_prefix (lit ":") raw) as [x|] eqn:Ex.
      * apply strip_prefix_Some in Ex as ->. rewrite Hin by (by left). rewrite parse_any_host.
        destruct (read_port (ch ":" :: x)) as [[q [|]]|] eqn:Ep; [|done..]. intros H. injection H as ->.
        destruct (read_port_spec _ _ Ep) as (t & Et & Hne & Hd & <- & Hp). injection Et as ->.
        change (lit ":" ++ t) with (ch ":" :: t). unfold port_from_addr.
        assert (strip_prefix (lit "[") (ch ":" :: t) = None) as -> by reflexivity.
        unfold port_after_colon.
        assert (rsplit_once (ch ":") (ch ":" :: t) = Some ([], t)) as -> by (by apply (rsplit_once_app (ch ":") []), digits_absent).
        rewrite Hd. unfold parse_u16. by rewrite parse_uint_value.
      * rewrite parse_any_host. destruct (read_port (ch ":" :: raw)) as [[q [|]]|] eqn:Ep; [|done..]. intros _.
        destruct (read_port_spec _ _ Ep) as (t & Et & Hne & Hd & <- & Hp). injection Et as ->.
        assert (Hc : ch ":" ∉ t) by (by apply digits_absent).
        destruct (existsb (N.eqb (ch ":")) t) eqn:Ee.
        { exfalso. apply existsb_exists in Ee as (c & Hc' & <-%N.eqb_eq). by apply Hc, elem_of_list_In. }
        unfold port_from_addr. rewrite strip_prefix_absent.
        { unfold port_after_colon. by rewrite rsplit_once_absent. }
        destruct (starts_with (lit "[") t) eqn:Es; [|done]. apply starts_with_true in Es as [u ->].
        by cbn in Hd.
Qed.

Lemma listener_and_bridge_witness :
  listen_addr (lit "1190") = lit "0.0.0.0:1190" /\ port_from_addr (lit "1190") 119 = 119
  /\ port_from_addr (lit ":1190") 119 = 1190.
Proof.
  split_and!; [reflexivity| |].
  - exact (proj2 (listener_and_bridge (lit "1190") 1190) eq_refl).
  - exact (proj2 (listener_and_bridge (lit ":1190") 1190) eq_refl).
Defined.

(** A host name is taken for a port: the result is no socket address. *)
Lemma host_name_refused : listen_addr (lit "localhost:119") = lit "0.0.0.0:localhost:119"
  /\ parse_socket_addr (lit "0.0.0.0:localhost:119") = None.
Proof. split; reflexivity. Qed.

(** ** What the bridge passes on *)
Definition ws_bytes (w : WsMessage) : list N :=
  match w with WsText t => utf8_encode t | WsBinary b => b | WsClose | WsOther => [] end.
Definition is_close (w : WsMessage) : bool := match w with WsClose => true | _ => false end.

(** Everything the browser sends before it closes reaches the server, in order, and nothing
    after. *)
Lemma bridge_to_nntp (before : list WsMessage) (rest : list (result WsMessage)) :
  existsb is_close before = false ->
  to_nntp ((Ok <$> before) ++ Ok WsClose :: rest) = (before ≫= ws_bytes, Ok tt).
Proof.
  induction before as [|w before IH]; [done|]. cbn [existsb]. rewrite orb_false_iff. intros [Hw Hb].
  rewrite fmap_cons, bind_cons. cbn [app to_nntp]. rewrite (IH Hb). by destruct w.
Qed.

(** Every read from the server becomes one message; the end of the connection closes. *)
Lemma bridge_to_browser (reads : list (list N)) (rest : list (result (list N))) : [] ∉ reads ->
  to_browser ((Ok <$> reads) ++ Ok [] :: rest) = ((WsBinary <$> reads) ++ [WsClose], Ok tt).
Proof.
  induction reads as [|b reads IH]; [done|]. rewrite not_elem_of_cons. intros [Hb Hr].
  rewrite !fmap_cons. cbn [app to_browser]. rewrite (IH Hr). by destruct b.
Qed.

(** What one bridge sends, another gives back byte for byte. *)
Lemma bridge_transparent (reads : list (list N)) : [] ∉ reads ->
  to_nntp (Ok <$> fst (to_browser ((Ok <$> reads) ++ [Ok []]))) = (concat reads, Ok tt).
Proof.
  intros Hr. rewrite bridge_to_browser by done. cbn [fst]. rewrite fmap_app.
  change (Ok <$> [WsClose]) with [Ok WsClose]. rewrite bridge_to_nntp.
  - f_equal. clear. induction reads as [|b reads IH]; [done|]. rewrite fmap_cons, bind_cons, IH. done.
  - clear. by induction reads.
Qed.
