(* ===== verification/Limits.v ===== *)
(** * Limits: per-user limits and usage ([limits/mod.rs]) *)

From stdpp Require Import base numbers list gmap strings.
From Stdlib Require Import NArith ZArith Lia.
From S2P Require Import Prelude Text Externals.
Local Open Scope N_scope.

Record UserLimits := mkUserLimits {
  ul_can_post : bool;
  ul_max_connections : option N;
  ul_bandwidth_limit : option N;
  ul_bandwidth_period_secs : option N;
}.

Definition default_UserLimits : UserLimits := mkUserLimits true None None None.
Definition is_connections_unlimited (l : UserLimits) : bool :=
  match ul_max_connections l with None => true | Some _ => false end.
Definition is_bandwidth_unlimited (l : UserLimits) : bool :=
  match ul_bandwidth_limit l with None => true | Some _ => false end.

Record UserUsage := mkUserUsage {
  uu_bytes_uploaded : N;
  uu_bytes_downloaded : N;
  uu_window_start : option Z;
}.

Definition default_UserUsage : UserUsage := mkUserUsage 0 0 None.
Definition total_bandwidth (u : UserUsage) : N :=
  sat_add (uu_bytes_uploaded u) (uu_bytes_downloaded u).
Definition usage_reset (now : Z) (u : UserUsage) : UserUsage := mkUserUsage 0 0 (Some now).

Inductive LimitCheckResult : Type :=
| Allowed
| PostingDisabled
| BandwidthExceeded
| ConnectionLimitExceeded.

#[export] Instance limit_check_result_dec : EqDecision LimitCheckResult.
Proof. solve_decision. Defined.

Definition is_allowed (r : LimitCheckResult) : bool :=
  match r with Allowed => true | _ => false end.
Definition is_denied (r : LimitCheckResult) : bool := negb (is_allowed r).

(** Limits within the widths of their Rust types. *)
Definition limits_ok (l : UserLimits) : Prop :=
  (forall n, ul_max_connections l = Some n -> n < 2 ^ 32)
  /\ (forall n, ul_bandwidth_limit l = Some n -> n <= u64_max)
  /\ (forall n, ul_bandwidth_period_secs l = Some n -> n <= u64_max).
Definition usage_ok (u : UserUsage) : Prop :=
  uu_bytes_uploaded u <= u64_max /\ uu_bytes_downloaded u <= u64_max.
