(* ===== verification/Auth.v ===== *)
(** * Auth: what the server asks of an authentication back end ([auth/mod.rs])

    The trait [AuthProvider] as a class over the back end's state.  A query
    leaves the state as it is; an update returns the state it reaches with its
    result.  Operations that hash a password take the salt drawn for them, and
    operations that read the clock take the instant they read. *)

From stdpp Require Import base numbers list gmap strings.
From Stdlib Require Import NArith ZArith Lia.
From S2P Require Import Prelude Text Externals Limits.

Class AuthProvider (A : Type) := {
  add_user : N -> str -> str -> A -> result unit * A;
  add_user_with_key : N -> str -> str -> option str -> A -> result unit * A;
  update_password : N -> str -> str -> A -> result unit * A;
  remove_user : str -> A -> result unit * A;
  verify_user : str -> str -> A -> result bool;
  is_admin : str -> A -> result bool;
  add_admin : str -> str -> A -> result unit * A;
  add_admin_without_key : str -> A -> result unit * A;
  remove_admin : str -> A -> result unit * A;
  update_pgp_key : str -> str -> A -> result unit * A;
  get_pgp_key : str -> A -> result (option str);
  add_moderator : str -> str -> A -> result unit * A;
  remove_moderator : str -> str -> A -> result unit * A;
  is_moderator : str -> str -> A -> result bool;
  get_user_limits : str -> A -> result (option UserLimits);
  set_user_limits : str -> UserLimits -> A -> result unit * A;
  clear_user_limits : str -> A -> result unit * A;
  get_user_usage : str -> A -> result UserUsage;
  set_user_usage : Z -> str -> UserUsage -> A -> result unit * A;
  reset_user_usage : Z -> str -> A -> result unit * A;
}.

(** What a back end hands out is within the widths of its Rust types. *)
Class AuthTyped (A : Type) `{AuthProvider A} : Prop := {
  typed_limits u a l : get_user_limits u a = Ok (Some l) -> limits_ok l;
  typed_usage u a x : get_user_usage u a = Ok x -> usage_ok x;
}.

(** What the running server writes to the accounts - keys it looked up, and usage - changes
    no limits. *)
Class AuthStable (A : Type) `{AuthProvider A} : Prop := {
  limits_key v u k a : get_user_limits v (snd (update_pgp_key u k a)) = get_user_limits v a;
  limits_usage v now u x a : get_user_limits v (snd (set_user_usage now u x a)) = get_user_limits v a;
}.
