(* ===== verification/SqliteAuth.v ===== *)
(** * SqliteAuth: the SQLite authentication back end ([auth/sqlite.rs])

    The tables of [auth/migrations/sqlite] as finite maps, and one definition
    per query.  [fk] says whether SQLite enforces foreign keys on the
    connection (sqlx opens it so by default). *)

From stdpp Require Import base numbers list gmap strings.
From Stdlib Require Import NArith ZArith Lia.
From S2P Require Import Prelude Text Externals Wildmat Limits Auth.
Local Open Scope N_scope.

(** The nullable columns of [user_limits], and a row of [user_usage]. *)
Record LimitsRow := mkLimitsRow {
  lr_can_post : option Z;
  lr_max_connections : option Z;
  lr_bandwidth_limit : option Z;
  lr_bandwidth_period : option Z;
}.
Record UsageRow := mkUsageRow {
  ur_uploaded : Z;
  ur_downloaded : Z;
  ur_window_start_at : str;
}.

Record AuthDb := mkAuthDb {
  users : gmap str (str * option str);          (* password hash, PGP key *)
  admins : gset str;
  moderators : gset (str * str);                (* username, pattern *)
  user_limits : gmap str LimitsRow;
  user_usage : gmap str UsageRow;
}.

Definition empty_auth_db : AuthDb := mkAuthDb ∅ ∅ ∅ ∅ ∅.

Definition fk_failed {A} : result A := Err (lit "FOREIGN KEY constraint failed").
Definition datetime_format : str := lit "%Y-%m-%d %H:%M:%S".

Section SqliteAuth.
Context {X : Ext} (fk : bool).

(** Rows of other tables that name a user: without a delete action
    ([admins], [moderators]) and with [ON DELETE CASCADE]. *)
Definition referenced (u : str) (db : AuthDb) : bool :=
  bool_decide (u ∈ admins db) || existsb (fun m => str_eqb (fst m) u) (elements (moderators db)).
Definition cascade (u : str) (db : AuthDb) : AuthDb :=
  if fk then mkAuthDb (users db) (admins db) (moderators db)
               (delete u (user_limits db)) (delete u (user_usage db))
  else db.
Definition has_user (u : str) (db : AuthDb) : bool :=
  match users db !! u with Some _ => true | None => false end.
Definition set_users (f : gmap str (str * option str) -> gmap str (str * option str))
    (db : AuthDb) : AuthDb :=
  mkAuthDb (f (users db)) (admins db) (moderators db) (user_limits db) (user_usage db).

(** [INSERT OR REPLACE INTO users]: an old row is deleted first, with its
    cascades, and the new one keeps the references to it valid. *)
Definition sq_add_user_with_key (salt : N) (u password : str) (key : option str) (db : AuthDb)
  : result unit * AuthDb :=
  match argon2_hash password salt with
  | Err e => (Err e, db)
  | Ok hash =>
      let db := if has_user u db then cascade u db else db in
      (Ok tt, set_users (<[u := (hash, key)]>) db)
  end.
Definition sq_add_user (salt : N) (u password : str) (db : AuthDb) : result unit * AuthDb :=
  sq_add_user_with_key salt u password None db.

Definition sq_update_password (salt : N) (u new_password : str) (db : AuthDb)
  : result unit * AuthDb :=
  match argon2_hash new_password salt with
  | Err e => (Err e, db)
  | Ok hash => (Ok tt, set_users (alter (fun r => (hash, snd r)) u) db)
  end.

Definition sq_remove_user (u : str) (db : AuthDb) : result unit * AuthDb :=
  if fk && has_user u db && referenced u db then (fk_failed, db)
  else
    let db := if has_user u db then set_users (delete u) (cascade u db) else db in
    (Ok tt, mkAuthDb (users db) (admins db ∖ {[u]}) (filter (fun m => fst m <> u) (moderators db))
              (user_limits db) (user_usage db)).

Definition sq_verify_user (u password : str) (db : AuthDb) : result bool :=
  match users db !! u with
  | Some (stored, _) =>
      match pw_hash_new stored with
      | Ok parsed => Ok (argon2_verify password parsed)
      | Err e => Err e
      end
  | None => Ok false
  end.

Definition sq_is_admin (u : str) (db : AuthDb) : result bool := Ok (bool_decide (u ∈ admins db)).

(** [INSERT OR REPLACE INTO admins]. *)
Definition sq_add_admin_without_key (u : str) (db : AuthDb) : result unit * AuthDb :=
  if fk && negb (has_user u db) then (fk_failed, db)
  else (Ok tt, mkAuthDb (users db) ({[u]} ∪ admins db) (moderators db) (user_limits db)
                 (user_usage db)).

Definition sq_update_pgp_key (u key : str) (db : AuthDb) : result unit * AuthDb :=
  (Ok tt, set_users (alter (fun r => (fst r, Some key)) u) db).

Definition sq_add_admin (u key : str) (db : AuthDb) : result unit * AuthDb :=
  match sq_add_admin_without_key u db with
  | (Err e, db) => (Err e, db)
  | (Ok _, db) => sq_update_pgp_key u key db
  end.

Definition sq_remove_admin (u : str) (db : AuthDb) : result unit * AuthDb :=
  (Ok tt, mkAuthDb (users db) (admins db ∖ {[u]}) (moderators db) (user_limits db)
            (user_usage db)).

Definition sq_get_pgp_key (u : str) (db : AuthDb) : result (option str) :=
  Ok (match users db !! u with Some (_, k) => k | None => None end).

Definition sq_add_moderator (u pattern : str) (db : AuthDb) : result unit * AuthDb :=
  if fk && negb (has_user u db) then (fk_failed, db)
  else (Ok tt, mkAuthDb (users db) (admins db) ({[(u, pattern)]} ∪ moderators db)
                 (user_limits db) (user_usage db)).

Definition sq_remove_moderator (u pattern : str) (db : AuthDb) : result unit * AuthDb :=
  (Ok tt, mkAuthDb (users db) (admins db) (moderators db ∖ {[(u, pattern)]})
            (user_limits db) (user_usage db)).

Definition sq_is_moderator (u group : str) (db : AuthDb) : result bool :=
  Ok (existsb (fun m => str_eqb (fst m) u && wildmat (snd m) group) (elements (moderators db))).

(** [v as u32] of a signed column. *)
Definition as_u32 (z : Z) : N := Z.to_N (z mod 2 ^ 32)%Z.

Definition sq_get_user_limits (u : str) (db : AuthDb) : result (option UserLimits) :=
  Ok (match user_limits db !! u with
      | None => None
      | Some row =>
          Some (mkUserLimits
                  (match lr_can_post row with Some v => negb (v =? 0)%Z | None => true end)
                  (as_u32 <$> lr_max_connections row)
                  (as_u64 <$> lr_bandwidth_limit row)
                  (as_u64 <$> lr_bandwidth_period row))
      end).

Definition sq_set_user_limits (u : str) (l : UserLimits) (db : AuthDb) : result unit * AuthDb :=
  if fk && negb (has_user u db) then (fk_failed, db)
  else
    let row := mkLimitsRow (Some (if ul_can_post l then 1%Z else 0%Z))
                 (Z.of_N <$> ul_max_connections l)
                 (as_i64 <$> ul_bandwidth_limit l)
                 (as_i64 <$> ul_bandwidth_period_secs l) in
    (Ok tt, mkAuthDb (users db) (admins db) (moderators db)
              (<[u := row]> (user_limits db)) (user_usage db)).

Definition sq_clear_user_limits (u : str) (db : AuthDb) : result unit * AuthDb :=
  (Ok tt, mkAuthDb (users db) (admins db) (moderators db) (delete u (user_limits db))
            (user_usage db)).

Definition sq_get_user_usage (u : str) (db : AuthDb) : result UserUsage :=
  match user_usage db !! u with
  | None => Ok default_UserUsage
  | Some row =>
      let text := ur_window_start_at row in
      let window_start := match parse_from_rfc3339 text with
                          | Some t => Some t
                          | None => naive_datetime_parse text datetime_format
                          end in
      Ok (mkUserUsage (as_u64 (ur_uploaded row)) (as_u64 (ur_downloaded row)) window_start)
  end.

Definition put_usage (u : str) (row : UsageRow) (db : AuthDb) : result unit * AuthDb :=
  if fk && negb (has_user u db) then (fk_failed, db)
  else (Ok tt, mkAuthDb (users db) (admins db) (moderators db) (user_limits db)
                 (<[u := row]> (user_usage db))).

Definition sq_set_user_usage (now : Z) (u : str) (usage : UserUsage) (db : AuthDb)
  : result unit * AuthDb :=
  let window_start := format_utc (default now (uu_window_start usage)) datetime_format in
  put_usage u (mkUsageRow (as_i64 (uu_bytes_uploaded usage)) (as_i64 (uu_bytes_downloaded usage))
                 window_start) db.

Definition sq_reset_user_usage (now : Z) (u : str) (db : AuthDb) : result unit * AuthDb :=
  put_usage u (mkUsageRow 0 0 (format_utc now datetime_format)) db.

#[export] Instance sqlite_auth : AuthProvider AuthDb := {|
  add_user := sq_add_user;
  add_user_with_key := sq_add_user_with_key;
  update_password := sq_update_password;
  remove_user := sq_remove_user;
  verify_user := sq_verify_user;
  is_admin := sq_is_admin;
  add_admin := sq_add_admin;
  add_admin_without_key := sq_add_admin_without_key;
  remove_admin := sq_remove_admin;
  update_pgp_key := sq_update_pgp_key;
  get_pgp_key := sq_get_pgp_key;
  add_moderator := sq_add_moderator;
  remove_moderator := sq_remove_moderator;
  is_moderator := sq_is_moderator;
  get_user_limits := sq_get_user_limits;
  set_user_limits := sq_set_user_limits;
  clear_user_limits := sq_clear_user_limits;
  get_user_usage := sq_get_user_usage;
  set_user_usage := sq_set_user_usage;
  reset_user_usage := sq_reset_user_usage;
|}.

(** ** Credentials *)
Context {L : ArgonLaws}.

(** After a user is added - or its password updated, when it exists -
    exactly that password verifies; no other user's verification changes. *)
Theorem sqlite_auth_password (salt : N) (u p : str) (key : option str) (db db' : AuthDb) :
  sq_add_user_with_key salt u p key db = (Ok tt, db') \/
    (has_user u db = true /\ sq_update_password salt u p db = (Ok tt, db')) ->
  (forall q, sq_verify_user u q db' = Ok (str_eqb q p))
  /\ (forall v q, v <> u -> sq_verify_user v q db' = sq_verify_user v q db).
Proof.
  destruct (argon2_roundtrip p salt) as (h & ph & Hh & Hph & Hv).
  assert (Hq : forall q, argon2_verify q ph = str_eqb q p).
  { intros q. apply eq_true_iff_eq. by rewrite Hv, str_eqb_eq. }
  unfold sq_add_user_with_key, sq_update_password, sq_verify_user, cascade, has_user, set_users.
  rewrite Hh. intros [H|[Hu H]].
  - assert (Hmap : users db' = <[u := (h, key)]> (users db)).
    { by destruct (users db !! u), fk; injection H as <-. }
    rewrite Hmap. split; [intros q; by rewrite lookup_insert_eq, Hph, Hq|].
    intros v q Hne. by rewrite lookup_insert_ne.
  - destruct (users db !! u) as [[h0 k0]|] eqn:E; [|done]. injection H as <-. cbn [users].
    split; [intros q; by rewrite lookup_alter_eq, E; cbn; rewrite Hph, Hq|].
    intros v q Hne. by rewrite lookup_alter_ne.
Qed.
End SqliteAuth.

Lemma sqlite_auth_password_witness :
  let db := snd (@sq_add_user_with_key Toy.ext true 7 (lit "bob") (lit "old") None empty_auth_db) in
  @sq_verify_user Toy.ext (lit "bob") (lit "new")
    (snd (@sq_update_password Toy.ext 9 (lit "bob") (lit "new") db)) = Ok true.
Proof.
  intros db.
  destruct (@sqlite_auth_password Toy.ext true Toy.argon_laws 9 (lit "bob") (lit "new") None db
              (snd (@sq_update_password Toy.ext 9 (lit "bob") (lit "new") db))) as [H _].
  - right. split; reflexivity.
  - rewrite H. reflexivity.
Defined.

(** ** Integers survive the signed columns *)
Lemma as_u64_as_i64 n : n <= u64_max -> as_u64 (as_i64 n) = n.
Proof.
  unfold u64_max, as_u64, as_i64, u64_mod. intros H. cbv zeta.
  rewrite N.mod_small by lia.
  destruct (Z.leb_spec (Z.of_N n) i64_max) as [Hl|Hl]; unfold i64_max in Hl.
  - rewrite Z.mod_small by lia. lia.
  - replace (Z.of_N n - 2 ^ 64)%Z with (Z.of_N n + (-1) * 2 ^ 64)%Z by lia.
    rewrite Z.mod_add, Z.mod_small by lia. lia.
Qed.

Lemma as_u32_small n : n < 2 ^ 32 -> as_u32 (Z.of_N n) = n.
Proof. intros H. unfold as_u32. rewrite Z.mod_small by lia. lia. Qed.

(** The limits set for a user are the limits read back, although the
    columns are signed: no value of a [u64] limit is changed. *)
Theorem sqlite_auth_limits_roundtrip (fk : bool) (u : str) (l : UserLimits) (db db' : AuthDb) :
  limits_ok l -> sq_set_user_limits fk u l db = (Ok tt, db') ->
  sq_get_user_limits u db' = Ok (Some l)
  /\ (forall v, v <> u -> sq_get_user_limits v db' = sq_get_user_limits v db).
Proof.
  intros (H1 & H2 & H3) H. unfold sq_set_user_limits, sq_get_user_limits in *.
  destruct (fk && negb (has_user u db)); [done|]. injection H as <-. cbn [user_limits]. split.
  - rewrite lookup_insert_eq. do 2 f_equal.
    destruct l as [cp mc bl bp]. cbn in *. f_equal.
    + by destruct cp.
    + destruct mc as [n|]; [|done]. cbn. by rewrite as_u32_small by auto.
    + destruct bl as [n|]; [|done]. cbn. by rewrite as_u64_as_i64 by auto.
    + destruct bp as [n|]; [|done]. cbn. by rewrite as_u64_as_i64 by auto.
  - intros v Hv. by rewrite lookup_insert_ne.
Qed.

Lemma sqlite_auth_limits_roundtrip_witness :
  let l := mkUserLimits false (Some 3) (Some 18446744073709551615) None in
  sq_get_user_limits (lit "bob") (snd (sq_set_user_limits false (lit "bob") l empty_auth_db))
  = Ok (Some l).
Proof.
  intros l.
  apply (sqlite_auth_limits_roundtrip false (lit "bob") l empty_auth_db); [|reflexivity].
  unfold limits_ok. splits; cbn; intros n Hn; [| |discriminate Hn]; injection Hn as <-;
    [reflexivity|discriminate].
Defined.

Lemma as_u64_bound z : as_u64 z <= u64_max.
Proof. unfold as_u64, u64_max. pose proof (Z.mod_pos_bound z (2 ^ 64)). lia. Qed.

Lemma as_u32_bound z : as_u32 z < 2 ^ 32.
Proof. unfold as_u32. pose proof (Z.mod_pos_bound z (2 ^ 32)). lia. Qed.

(** What is read from the columns is within its type, whatever they hold. *)
#[export] Instance sqlite_auth_typed {X : Ext} fk : @AuthTyped AuthDb (sqlite_auth fk).
Proof.
  split.
  - intros u db l. simpl. unfold sq_get_user_limits. destruct (user_limits db !! u) as [row|]; [|done].
    intros [= <-]. split_and!; cbn; intros n Hn; apply fmap_Some in Hn as (z & _ & ->);
      auto using as_u64_bound, as_u32_bound.
  - intros u db x. simpl. unfold sq_get_user_usage. destruct (user_usage db !! u) as [row|];
      intros [= <-]; split; cbn; auto using as_u64_bound; done.
Qed.

#[export] Instance sqlite_auth_stable {X : Ext} fk : @AuthStable AuthDb (sqlite_auth fk).
Proof.
  split; [done|]. intros v now u x db. simpl. unfold sq_set_user_usage, put_usage.
  by destruct (fk && negb (has_user u db)).
Qed.

(** ** Referential integrity

    Every row that names a user names one of [users]. *)
Record auth_wf (db : AuthDb) : Prop := {
  wf_admins : forall u, u ∈ admins db -> has_user u db = true;
  wf_moderators : forall u p, (u, p) ∈ moderators db -> has_user u db = true;
  wf_limits : forall u, is_Some (user_limits db !! u) -> has_user u db = true;
  wf_usage : forall u, is_Some (user_usage db !! u) -> has_user u db = true;
}.

Inductive AuthOp : Type :=
| OpAddUser (salt : N) (u p : str) (key : option str)
| OpUpdatePassword (salt : N) (u p : str)
| OpRemoveUser (u : str)
| OpAddAdmin (u key : str)
| OpAddAdminWithoutKey (u : str)
| OpRemoveAdmin (u : str)
| OpUpdatePgpKey (u key : str)
| OpAddModerator (u p : str)
| OpRemoveModerator (u p : str)
| OpSetLimits (u : str) (l : UserLimits)
| OpClearLimits (u : str)
| OpSetUsage (now : Z) (u : str) (usage : UserUsage)
| OpResetUsage (now : Z) (u : str).

Section Integrity.
Context {X : Ext}.

Definition run_auth_op (fk : bool) (op : AuthOp) (db : AuthDb) : result unit * AuthDb :=
  match op with
  | OpAddUser salt u p key => sq_add_user_with_key fk salt u p key db
  | OpUpdatePassword salt u p => sq_update_password salt u p db
  | OpRemoveUser u => sq_remove_user fk u db
  | OpAddAdmin u key => sq_add_admin fk u key db
  | OpAddAdminWithoutKey u => sq_add_admin_without_key fk u db
  | OpRemoveAdmin u => sq_remove_admin u db
  | OpUpdatePgpKey u key => sq_update_pgp_key u key db
  | OpAddModerator u p => sq_add_moderator fk u p db
  | OpRemoveModerator u p => sq_remove_moderator u p db
  | OpSetLimits u l => sq_set_user_limits fk u l db
  | OpClearLimits u => sq_clear_user_limits u db
  | OpSetUsage now u usage => sq_set_user_usage fk now u usage db
  | OpResetUsage now u => sq_reset_user_usage fk now u db
  end.

Definition run_auth_ops (fk : bool) (ops : list AuthOp) (db : AuthDb) : AuthDb :=
  foldl (fun db op => snd (run_auth_op fk op db)) db ops.

Lemma has_user_dom u (db : AuthDb) : has_user u db = true <-> is_Some (users db !! u).
Proof. unfold has_user. destruct (users db !! u); split; done. Qed.

Lemma referenced_false u (db : AuthDb) :
  referenced u db = false -> u ∉ admins db /\ forall p, (u, p) ∉ moderators db.
Proof.
  unfold referenced. rewrite orb_false_iff, bool_decide_eq_false. intros [H1 H2].
  split; [done|]. intros p Hp. assert ((existsb (fun m => str_eqb (fst m) u)
    (elements (moderators db))) = true); [|congruence].
  apply existsb_exists. exists (u, p). split; [|apply str_eqb_refl].
  apply elem_of_list_In. set_solver.
Qed.

(** The tables other than [users] may only shrink, or gain a row of a user
    that is there; [users] may only grow, or lose a user no row names. *)
Lemma auth_wf_users (f : gmap str (str * option str) -> gmap str (str * option str)) db :
  (forall u, is_Some (users db !! u) -> is_Some (f (users db) !! u)) ->
  auth_wf db -> auth_wf (set_users f db).
Proof.
  intros Hf [H1 H2 H3 H4].
  split; cbn; setoid_rewrite has_user_dom; cbn; intros; apply Hf, has_user_dom; eauto.
Qed.

Lemma auth_wf_cascade u db : auth_wf db -> auth_wf (cascade true u db).
Proof.
  intros [H1 H2 H3 H4]. split; cbn; [exact H1|exact H2|..];
    intros v Hv; [apply (H3 v)|apply (H4 v)]; destruct Hv as [r Hr];
    apply lookup_delete_Some in Hr as [_ Hr]; by exists r.
Qed.

Lemma auth_wf_smaller db db' : auth_wf db -> users db' = users db ->
  admins db' ⊆ admins db -> moderators db' ⊆ moderators db ->
  (forall u, is_Some (user_limits db' !! u) -> is_Some (user_limits db !! u) \/ has_user u db = true) ->
  (forall u, is_Some (user_usage db' !! u) -> is_Some (user_usage db !! u) \/ has_user u db = true) ->
  auth_wf db'.
Proof.
  intros [H1 H2 H3 H4] Hu Ha Hm Hl Hg.
  split; unfold has_user in *; rewrite Hu; intros; eauto.
  - destruct (Hl u H); eauto.
  - destruct (Hg u H); eauto.
Qed.

Lemma insert_rows {V} (m : gmap str V) (x : V) u v (P : Prop) :
  (v = u -> P) -> is_Some (<[u := x]> m !! v) -> is_Some (m !! v) \/ P.
Proof.
  intros HP. rewrite lookup_insert. case_decide as E; [right; by apply HP|by left].
Qed.

Lemma auth_wf_remove u db : auth_wf db -> auth_wf (snd (sq_remove_user true u db)).
Proof.
  intros Hwf. unfold sq_remove_user. cbn [andb].
  destruct (has_user u db) eqn:Eu; cbn [andb].
  - destruct (referenced u db) eqn:Er; [done|]. destruct (referenced_false u db Er) as [Ha Hm].
    destruct Hwf as [H1 H2 H3 H4]. cbn.
    split; cbn; setoid_rewrite has_user_dom; cbn; intros v.
    + intros Hv. rewrite lookup_delete_ne by set_solver. apply has_user_dom, H1. set_solver.
    + intros p Hv. apply elem_of_filter in Hv as [Hne Hv]. cbn in Hne.
      rewrite lookup_delete_ne by done. by eapply has_user_dom, H2.
    + intros [r [Hne Hr]%lookup_delete_Some]. rewrite lookup_delete_ne by done.
      by apply has_user_dom, H3; exists r.
    + intros [r [Hne Hr]%lookup_delete_Some]. rewrite lookup_delete_ne by done.
      by apply has_user_dom, H4; exists r.
  - apply (auth_wf_smaller db); cbn; try done; [set_solver| |by left|by left].
    intros m Hm. by apply elem_of_filter in Hm as [_ Hm].
Qed.

Lemma auth_wf_step op db : auth_wf db -> auth_wf (snd (run_auth_op true op db)).
Proof.
  intros Hwf. destruct op; cbn [run_auth_op].
  - unfold sq_add_user_with_key. destruct (argon2_hash p salt) as [h|]; [|done]. cbn [snd].
    apply auth_wf_users; [|destruct (has_user u db); auto using auth_wf_cascade].
    intros v Hv. rewrite lookup_insert. case_decide; [by eexists|done].
  - unfold sq_update_password. destruct (argon2_hash p salt) as [h|]; [|done].
    apply auth_wf_users; [|done]. intros v [r Hr]. rewrite lookup_alter. case_decide; subst; rewrite Hr; by eexists.
  - by apply auth_wf_remove.
  - unfold sq_add_admin, sq_add_admin_without_key.
    destruct (has_user u db) eqn:Eu; cbn [andb negb]; [|done]. unfold sq_update_pgp_key. cbn [snd].
    apply auth_wf_users.
    { intros v [r Hr]. rewrite lookup_alter. case_decide; subst; rewrite Hr; by eexists. }
    destruct Hwf as [H1 H2 H3 H4]. split; cbn; [|exact H2|exact H3|exact H4].
    intros v [->%elem_of_singleton|Hv]%elem_of_union; [exact Eu|by apply H1].
  - unfold sq_add_admin_without_key. destruct (has_user u db) eqn:Eu; cbn [andb negb]; [|done].
    destruct Hwf as [H1 H2 H3 H4]. split; cbn; [|exact H2|exact H3|exact H4].
    intros v [->%elem_of_singleton|Hv]%elem_of_union; [exact Eu|by apply H1].
  - apply (auth_wf_smaller db); cbn; try done; [set_solver|by left|by left].
  - apply auth_wf_users; [|done]. intros v [r Hr]. rewrite lookup_alter. case_decide; subst; rewrite Hr; by eexists.
  - unfold sq_add_moderator. destruct (has_user u db) eqn:Eu; cbn [andb negb]; [|done].
    destruct Hwf as [H1 H2 H3 H4]. split; cbn; [exact H1| |exact H3|exact H4].
    intros v q [[= -> ->]%elem_of_singleton|Hv]%elem_of_union; [exact Eu|by eapply H2].
  - apply (auth_wf_smaller db); cbn; try done; [set_solver|by left|by left].
  - unfold sq_set_user_limits. destruct (has_user u db) eqn:Eu; cbn [andb negb]; [|done].
    apply (auth_wf_smaller db); cbn; try done; [|by left].
    intros v. apply insert_rows. by intros ->.
  - apply (auth_wf_smaller db); cbn; try done; [|by left].
    intros v [r [_ Hr]%lookup_delete_Some]. left. by exists r.
  - unfold sq_set_user_usage, put_usage. destruct (has_user u db) eqn:Eu; cbn [andb negb]; [|done].
    apply (auth_wf_smaller db); cbn; try done; [by left|].
    intros v. apply insert_rows. by intros ->.
  - unfold sq_reset_user_usage, put_usage.
    destruct (has_user u db) eqn:Eu; cbn [andb negb]; [|done].
    apply (auth_wf_smaller db); cbn; try done; [by left|].
    intros v. apply insert_rows. by intros ->.
Qed.

Lemma auth_wf_empty : auth_wf empty_auth_db.
Proof. split; cbn; [set_solver|set_solver|..]; intros u; rewrite lookup_empty; by intros []. Qed.

Lemma auth_wf_ops ops db : auth_wf db -> auth_wf (run_auth_ops true ops db).
Proof.
  revert db. induction ops as [|op ops IH]; intros db H; [done|].
  cbn. by apply IH, auth_wf_step.
Qed.

(** With foreign keys enforced, whatever sequence of operations runs on
    a new database, every admin, moderator, limit and usage row names a user
    that exists. *)
Theorem auth_integrity (ops : list AuthOp) : auth_wf (run_auth_ops true ops empty_auth_db).
Proof. apply auth_wf_ops, auth_wf_empty. Qed.

(** With foreign keys enforced an administrator or a moderator cannot
    be removed - the delete fails and nothing changes - while removing any
    other user succeeds and leaves no trace of the name. *)
Theorem remove_user_cases (u : str) (db : AuthDb) :
  auth_wf db ->
  if has_user u db && referenced u db
  then sq_remove_user true u db = (fk_failed, db)
  else exists db', sq_remove_user true u db = (Ok tt, db')
       /\ has_user u db' = false /\ u ∉ admins db' /\ (forall p, (u, p) ∉ moderators db')
       /\ user_limits db' !! u = None /\ user_usage db' !! u = None.
Proof.
  intros Hwf. unfold sq_remove_user. cbn [andb].
  destruct (has_user u db) eqn:Eu; cbn [andb].
  - destruct (referenced u db) eqn:Er; [done|]. eexists. split; [reflexivity|]. cbn.
    unfold has_user. cbn. rewrite !lookup_delete_eq. splits; try done; [set_solver|].
    intros p Hp. apply elem_of_filter in Hp as [Hp _]. by apply Hp.
  - eexists. split; [reflexivity|]. cbn. unfold has_user in *. cbn.
    splits; [done|set_solver| | |].
    + intros p Hp. apply elem_of_filter in Hp as [Hp _]. by apply Hp.
    + destruct (user_limits db !! u) eqn:E; [|done].
      assert (has_user u db = true) by (eapply wf_limits; eauto). unfold has_user in *. congruence.
    + destruct (user_usage db !! u) eqn:E; [|done].
      assert (has_user u db = true) by (eapply wf_usage; eauto). unfold has_user in *. congruence.
Qed.
End Integrity.

Lemma remove_user_cases_witness :
  let db := @run_auth_ops Toy.ext true
              [OpAddUser 1 (lit "root") (lit "pw") None; OpAddAdminWithoutKey (lit "root")]
              empty_auth_db in
  sq_remove_user true (lit "root") db = (fk_failed, db).
Proof.
  intros db. exact (remove_user_cases (lit "root") db (auth_wf_ops _ _ auth_wf_empty)).
Defined.
