(* ===== verification/Accounts.v ===== *)
(** * Accounts: what an authentication back end promises

    The abstract state of a back end: the password of each user, the administrators, and
    the patterns of each moderator; with each operation's effect and whether it succeeds.
    The SQLite back end refines it (here) and so does the PostgreSQL one ([PgAuth.v]). *)

From stdpp Require Import base numbers list gmap strings.
From Stdlib Require Import NArith ZArith Lia.
From S2P Require Import Prelude Text Externals Wildmat Limits Auth SqliteAuth.
Local Open Scope N_scope.

Record Accounts := mkAccounts {
  ac_passwords : gmap str str;
  ac_admins : gset str;
  ac_moderators : gset (str * str);
}.

Definition no_accounts : Accounts := mkAccounts ∅ ∅ ∅.
Definition known (u : str) (s : Accounts) : bool :=
  match ac_passwords s !! u with Some _ => true | None => false end.
Definition holds_role (u : str) (s : Accounts) : bool :=
  bool_decide (u ∈ ac_admins s) || existsb (fun m => str_eqb (fst m) u) (elements (ac_moderators s)).

(** An operation on a user who is not there, where one is needed, fails and changes nothing. *)
Definition if_known (u : str) (s s' : Accounts) : bool * Accounts :=
  if known u s then (true, s') else (false, s).

Definition account_op (op : AuthOp) (s : Accounts) : bool * Accounts :=
  let '(mkAccounts ps ads mods) := s in
  match op with
  | OpAddUser _ u p _ => (true, mkAccounts (<[u := p]> ps) ads mods)
  | OpUpdatePassword _ u p => (true, mkAccounts (alter (fun _ => p) u ps) ads mods)
  | OpRemoveUser u =>
      if known u s && holds_role u s then (false, s)
      else (true, mkAccounts (delete u ps) (ads ∖ {[u]}) (filter (fun m => fst m <> u) mods))
  | OpAddAdmin u _ | OpAddAdminWithoutKey u => if_known u s (mkAccounts ps ({[u]} ∪ ads) mods)
  | OpRemoveAdmin u => (true, mkAccounts ps (ads ∖ {[u]}) mods)
  | OpUpdatePgpKey _ _ | OpClearLimits _ => (true, s)
  | OpAddModerator u p => if_known u s (mkAccounts ps ads ({[(u, p)]} ∪ mods))
  | OpRemoveModerator u p => (true, mkAccounts ps ads (mods ∖ {[(u, p)]}))
  | OpSetLimits u _ | OpSetUsage _ u _ | OpResetUsage _ u => if_known u s s
  end.
Definition account_ops (ops : list AuthOp) (s : Accounts) : Accounts :=
  foldl (fun s op => snd (account_op op s)) s ops.

(** Administrators and moderators are users. *)
Definition roles_known (s : Accounts) : Prop :=
  (forall u, u ∈ ac_admins s -> known u s = true)
  /\ (forall u p, (u, p) ∈ ac_moderators s -> known u s = true).

Lemma roles_known_none : roles_known no_accounts.
Proof. split; set_solver. Qed.

Lemma known_dom u s : known u s = true <-> is_Some (ac_passwords s !! u).
Proof. unfold known. destruct (ac_passwords s !! u); split; done. Qed.

Lemma unreferenced u s : holds_role u s = false ->
  u ∉ ac_admins s /\ forall p, (u, p) ∉ ac_moderators s.
Proof.
  unfold holds_role. rewrite orb_false_iff, bool_decide_eq_false. intros [H1 H2].
  split; [done|]. intros p Hp. apply not_true_iff_false in H2. apply H2, existsb_exists.
  exists (u, p). split; [|apply str_eqb_refl]. apply elem_of_list_In. set_solver.
Qed.

Lemma roles_known_step op s : roles_known s -> roles_known (snd (account_op op s)).
Proof.
  destruct s as [ps ads mods]. intros [Ha Hm].
  assert (Hgrow : forall ps', (forall u, is_Some (ps !! u) -> is_Some (ps' !! u)) ->
    roles_known (mkAccounts ps' ads mods)).
  { intros ps' Hps. split; [intros u Hu|intros u p Hu]; apply known_dom, Hps.
    - apply (known_dom u (mkAccounts ps ads mods)). by apply Ha.
    - apply (known_dom u (mkAccounts ps ads mods)). by eapply Hm. }
  assert (Hroles : forall ads' mods',
    (forall u, u ∈ ads' -> known u (mkAccounts ps ads mods) = true) ->
    (forall u p, (u, p) ∈ mods' -> known u (mkAccounts ps ads mods) = true) ->
    roles_known (mkAccounts ps ads' mods')) by (intros ads' mods' ??; by split).
  destruct op; cbn [account_op]; unfold if_known; try by split.
  - apply Hgrow. intros v Hv. rewrite lookup_insert. by case_decide.
  - apply Hgrow. intros v [x Hv]. rewrite lookup_alter. case_decide; subst; rewrite Hv; by eexists.
  - destruct (known u _) eqn:Eu; cbn [andb].
    + destruct (holds_role u _) eqn:Er; [by split|]. apply unreferenced in Er as [Er1 Er2].
      split; cbn; intros v; [intros Hv|intros p [Hne Hv]%elem_of_filter]; apply known_dom; cbn.
      * rewrite lookup_delete_ne by set_solver.
        apply (known_dom v (mkAccounts ps ads mods)), Ha. set_solver.
      * rewrite lookup_delete_ne by done. apply (known_dom v (mkAccounts ps ads mods)). by eapply Hm.
    + assert (delete u ps = ps) as ->.
      { apply delete_id. unfold known in Eu. simpl in Eu. by destruct (ps !! u). }
      apply Hroles; [intros v Hv; apply Ha; set_solver|].
      intros v p [_ Hv]%elem_of_filter. by eapply Hm.
  - destruct (known u _) eqn:Eu; [|by split]. apply Hroles; [|exact Hm].
    intros v [->%elem_of_singleton|Hv]%elem_of_union; [done|by apply Ha].
  - destruct (known u _) eqn:Eu; [|by split]. apply Hroles; [|exact Hm].
    intros v [->%elem_of_singleton|Hv]%elem_of_union; [done|by apply Ha].
  - apply Hroles; [intros v Hv; apply Ha; set_solver|exact Hm].
  - destruct (known u _) eqn:Eu; [|by split]. apply Hroles; [exact Ha|].
    intros v q [[= -> ->]%elem_of_singleton|Hv]%elem_of_union; [done|by eapply Hm].
  - apply Hroles; [exact Ha|]. intros v q Hv. apply (Hm v q). set_solver.
  - by destruct (known u _).
  - by destruct (known u _).
  - by destruct (known u _).
Qed.

Section Refinement.
Context {X : Ext}.

(** A stored hash of a password: it verifies that password and no other. *)
Definition hashes (h p : str) : Prop :=
  exists ph, pw_hash_new h = Ok ph /\ forall q, argon2_verify q ph = str_eqb q p.

(** The three tables stand for the accounts. *)
Definition stands_for (us : gmap str (str * option str)) (ads : gset str) (mods : gset (str * str))
    (s : Accounts) : Prop :=
  ads = ac_admins s /\ mods = ac_moderators s
  /\ forall u, match us !! u, ac_passwords s !! u with
               | Some (h, _), Some p => hashes h p
               | None, None => True
               | _, _ => False
               end.
Definition implements (db : AuthDb) (s : Accounts) : Prop :=
  stands_for (users db) (admins db) (moderators db) s.

Context `{!ArgonLaws}.

Lemma hash_made p salt : exists h, argon2_hash p salt = Ok h /\ hashes h p.
Proof.
  destruct (argon2_roundtrip p salt) as (h & ph & Hh & Hph & Hv). exists h. split; [done|].
  exists ph. split; [done|]. intros q. apply eq_true_iff_eq. by rewrite Hv, str_eqb_eq.
Qed.

Lemma stands_known us ads mods s u : stands_for us ads mods s ->
  match us !! u with Some _ => true | None => false end = known u s.
Proof.
  intros (_ & _ & Hu). specialize (Hu u). unfold known.
  destruct (us !! u) as [[h k]|], (ac_passwords s !! u); done.
Qed.

Lemma stands_insert us ads mods ps u h k p :
  stands_for us ads mods (mkAccounts ps ads mods) -> hashes h p ->
  stands_for (<[u := (h, k)]> us) ads mods (mkAccounts (<[u := p]> ps) ads mods).
Proof.
  intros (_ & _ & Hu) Hh. split_and!; [done..|]. intros v. simpl.
  destruct (decide (u = v)) as [->|Hne]; [by rewrite !lookup_insert_eq|].
  rewrite !lookup_insert_ne by done. apply Hu.
Qed.

(** A change of a row that keeps its hash, or replaces it together with the password. *)
Lemma stands_alter us ads mods ps u f p :
  stands_for us ads mods (mkAccounts ps ads mods) -> (forall h k, hashes (fst (f (h, k))) p) ->
  stands_for (alter f u us) ads mods (mkAccounts (alter (fun _ => p) u ps) ads mods).
Proof.
  intros (_ & _ & Hu) Hf. split_and!; [done..|]. intros v. simpl. specialize (Hu v). simpl in Hu.
  destruct (decide (u = v)) as [->|Hne]; [|by rewrite !lookup_alter_ne].
  rewrite !lookup_alter_eq. destruct (us !! v) as [[h k]|], (ps !! v); try done. simpl.
  specialize (Hf h k). by destruct (f (h, k)).
Qed.

Lemma stands_keys us ads mods s u f : stands_for us ads mods s -> (forall h k, fst (f (h, k)) = h) ->
  stands_for (alter f u us) ads mods s.
Proof.
  intros (Ha & Hm & Hu) Hf. split_and!; [done..|]. intros v. specialize (Hu v).
  destruct (decide (u = v)) as [->|Hne]; [|by rewrite lookup_alter_ne].
  rewrite lookup_alter_eq. destruct (us !! v) as [[h k]|]; [|done]. simpl.
  specialize (Hf h k). destruct (f (h, k)). simpl in Hf. by subst.
Qed.

Lemma stands_delete us ads mods ps u ads' mods' :
  stands_for us ads mods (mkAccounts ps ads mods) ->
  stands_for (delete u us) ads' mods' (mkAccounts (delete u ps) ads' mods').
Proof.
  intros (_ & _ & Hu). split_and!; [done..|]. intros v. simpl. specialize (Hu v). simpl in Hu.
  destruct (decide (u = v)) as [->|Hne]; [by rewrite !lookup_delete_eq|].
  by rewrite !lookup_delete_ne.
Qed.

Lemma stands_roles us ads mods ps ads' mods' :
  stands_for us ads mods (mkAccounts ps ads mods) ->
  stands_for us ads' mods' (mkAccounts ps ads' mods').
Proof. by intros (_ & _ & Hu). Qed.

(** What the accounts answer. *)
Lemma verify_answer us ads mods s u q : stands_for us ads mods s ->
  match us !! u with
  | Some (stored, _) =>
      match pw_hash_new stored with
      | Ok parsed => Ok (argon2_verify q parsed)
      | Err e => Err e
      end
  | None => Ok false
  end = Ok (match ac_passwords s !! u with Some p => str_eqb q p | None => false end).
Proof.
  intros (_ & _ & Hu). specialize (Hu u).
  destruct (us !! u) as [[h k]|], (ac_passwords s !! u); try done.
  destruct Hu as (ph & -> & Hq). by rewrite Hq.
Qed.

(** One operation of the SQLite back end. *)
Lemma sqlite_step op db s : implements db s ->
  is_ok (fst (run_auth_op true op db)) = fst (account_op op s)
  /\ implements (snd (run_auth_op true op db)) (snd (account_op op s)).
Proof.
  intros HR. assert (Hk : forall u, has_user u db = known u s) by (intros u; by eapply stands_known).
  assert (Hr : forall u, referenced u db = holds_role u s).
  { intros u. unfold referenced, holds_role. by destruct HR as (-> & -> & _). }
  destruct s as [ps ads mods]. destruct HR as (Ha & Hm & Hu) eqn:EHR. clear EHR. simpl in Ha, Hm.
  assert (HS : stands_for (users db) ads mods (mkAccounts ps ads mods)) by done.
  unfold implements. destruct op; cbn [run_auth_op account_op].
  - unfold sq_add_user_with_key. destruct (hash_made p salt) as (h & -> & Hh). split; [done|].
    destruct (has_user u db); cbn; rewrite Ha, Hm; by apply stands_insert.
  - unfold sq_update_password. destruct (hash_made p salt) as (h & -> & Hh). split; [done|].
    cbn. rewrite Ha, Hm. by apply stands_alter.
  - unfold sq_remove_user. rewrite Hr, Hk. cbn [andb].
    destruct (known u _) eqn:Eu; cbn [andb].
    + destruct (holds_role u _); [done|]. split; [done|]. cbn. rewrite Ha, Hm. by eapply stands_delete.
    + split; [done|]. cbn. rewrite Ha, Hm.
      assert (Hd : delete u ps = ps).
      { apply delete_id. unfold known in Eu. simpl in Eu. by destruct (ps !! u). }
      rewrite Hd. by eapply stands_roles.
  - unfold sq_add_admin, sq_add_admin_without_key, if_known. rewrite Hk. cbn [andb].
    destruct (known u _); cbn [negb]; [|done]. split; [done|]. cbn. rewrite Ha, Hm.
    apply stands_keys; [|done]. by eapply stands_roles.
  - unfold sq_add_admin_without_key, if_known. rewrite Hk. cbn [andb].
    destruct (known u _); cbn [negb]; [|done]. split; [done|]. cbn. rewrite Ha, Hm. by eapply stands_roles.
  - split; [done|]. cbn. rewrite Ha, Hm. by eapply stands_roles.
  - split; [done|]. cbn. rewrite Ha, Hm. by apply stands_keys.
  - unfold sq_add_moderator, if_known. rewrite Hk. cbn [andb].
    destruct (known u _); cbn [negb]; [|done]. split; [done|]. cbn. rewrite Ha, Hm. by eapply stands_roles.
  - split; [done|]. cbn. rewrite Ha, Hm. by eapply stands_roles.
  - unfold sq_set_user_limits, if_known. rewrite Hk. cbn [andb]. by destruct (known u _).
  - done.
  - unfold sq_set_user_usage, put_usage, if_known. rewrite Hk. cbn [andb]. by destruct (known u _).
  - unfold sq_reset_user_usage, put_usage, if_known. rewrite Hk. cbn [andb]. by destruct (known u _).
Qed.
End Refinement.

(** A step-by-step simulation carries over to sequences of operations. *)
Section Simulation.
Context {A : Type} (run : AuthOp -> A -> result unit * A) (R : A -> Accounts -> Prop)
  (accepted : AuthOp -> Prop).
Hypothesis simulated : forall op a s, accepted op -> R a s ->
  is_ok (fst (run op a)) = fst (account_op op s) /\ R (snd (run op a)) (snd (account_op op s)).

Lemma simulation ops a s : Forall accepted ops -> R a s ->
  R (foldl (fun a op => snd (run op a)) a ops) (account_ops ops s).
Proof.
  intros Ho. revert a s. induction Ho as [|op ops Hop Ho IH]; intros a s HR; [done|]. simpl.
  apply IH. by apply simulated.
Qed.
End Simulation.
