(* ===== verification/Tracker.v ===== *)
(** * Tracker: connection and bandwidth accounting ([limits/tracker.rs])

    The concurrent maps of [UsageTracker] as finite maps.  Each method is one
    definition; [disconnect] is also given as the three critical sections it is
    made of, since its map accesses are separate and other connections run
    between them. *)

From stdpp Require Import base numbers list gmap strings relations.
From Stdlib Require Import NArith ZArith Lia.
From S2P Require Import Prelude Text Externals Config Limits Auth SqliteAuth.
Local Open Scope N_scope.

Record BandwidthState := mkBandwidthState {
  bs_bytes_uploaded : N;
  bs_bytes_downloaded : N;
  bs_window_start : Z;
}.
Definition default_BandwidthState (now : Z) : BandwidthState := mkBandwidthState 0 0 now.

Record UsageTracker := mkUsageTracker {
  connections : gmap str N;
  bandwidth : gmap str BandwidthState;
  limits_cache : gmap str UserLimits;
  defaults : UserLimitsConfig;
}.

Definition new_tracker (d : UserLimitsConfig) : UsageTracker := mkUsageTracker ∅ ∅ ∅ d.
Definition set_connections (m : gmap str N) (t : UsageTracker) : UsageTracker :=
  mkUsageTracker m (bandwidth t) (limits_cache t) (defaults t).
Definition set_bandwidth (m : gmap str BandwidthState) (t : UsageTracker) : UsageTracker :=
  mkUsageTracker (connections t) m (limits_cache t) (defaults t).
Definition set_limits_cache (m : gmap str UserLimits) (t : UsageTracker) : UsageTracker :=
  mkUsageTracker (connections t) (bandwidth t) m (defaults t).
Definition update_defaults (d : UserLimitsConfig) (t : UsageTracker) : UsageTracker :=
  mkUsageTracker (connections t) (bandwidth t) (limits_cache t) d.

(** [AtomicUsize]: 64-bit, wrapping. *)
Definition fetch_add1 (n : N) : N := (n + 1) mod u64_mod.
Definition fetch_sub1 (n : N) : N := (n + u64_mod - 1) mod u64_mod.

Definition connection_count (u : str) (t : UsageTracker) : N := default 0 (connections t !! u).

(** [entry(username).or_insert_with(|| AtomicUsize::new(0))] and the increment:
    one critical section, as the entry is locked until the method returns. *)
Definition connect_entry (max : option N) (u : str) (m : gmap str N) : LimitCheckResult * gmap str N :=
  let current := default 0 (m !! u) in
  match max with
  | None => (Allowed, <[u := fetch_add1 current]> m)
  | Some max => if max <=? current then (ConnectionLimitExceeded, <[u := current]> m)
                else (Allowed, <[u := fetch_add1 current]> m)
  end.

(** The three critical sections of [disconnect]: take one off the counter; when
    it was the last, remove the entry; put it back when it was counted up in
    the meantime. *)
Definition disconnect_sub (u : str) (m : gmap str N) : bool * gmap str N :=
  match m !! u with
  | None => (false, m)
  | Some prev => (prev =? 1, <[u := fetch_sub1 prev]> m)
  end.
Definition disconnect_remove (u : str) (m : gmap str N) : option N * gmap str N :=
  (match m !! u with Some n => if 0 <? n then Some n else None | None => None end, delete u m).
Definition disconnect_put_back (u : str) (n : N) (m : gmap str N) : gmap str N := <[u := n]> m.

(** [disconnect] when nobody comes between its critical sections, as where commands and
    leave-takings run one at a time ([System.v]); [disconnect_race] is about the others. *)
Definition disconnect (u : str) (t : UsageTracker) : UsageTracker :=
  let '(last, m) := disconnect_sub u (connections t) in
  if last then
    let '(left_over, m) := disconnect_remove u m in
    match left_over with
    | Some n => set_connections (disconnect_put_back u n m) t
    | None => set_connections m t
    end
  else set_connections m t.

Section Tracker.
Context {A : Type} `{AuthProvider A}.

Definition limits_of_defaults (d : UserLimitsConfig) : UserLimits :=
  mkUserLimits (ulc_allow_posting d)
    (if ulc_max_connections d =? 0 then None else Some (ulc_max_connections d))
    (ulc_bandwidth_limit d) (ulc_bandwidth_period d).

Definition get_effective_limits (u : str) (auth : A) (t : UsageTracker)
  : UserLimits * UsageTracker :=
  match limits_cache t !! u with
  | Some cached => (cached, t)
  | None =>
      match get_user_limits u auth with
      | Ok (Some db_limits) => (db_limits, set_limits_cache (<[u := db_limits]> (limits_cache t)) t)
      | _ => (limits_of_defaults (defaults t), t)
      end
  end.

Definition invalidate_limits_cache (u : str) (t : UsageTracker) : UsageTracker :=
  set_limits_cache (delete u (limits_cache t)) t.

Definition try_connect (u : str) (auth : A) (t : UsageTracker) : LimitCheckResult * UsageTracker :=
  let '(limits, t) := get_effective_limits u auth t in
  let '(r, m) := connect_entry (ul_max_connections limits) u (connections t) in
  (r, set_connections m t).

Definition tracker_can_post (u : str) (auth : A) (t : UsageTracker)
  : LimitCheckResult * UsageTracker :=
  let '(limits, t) := get_effective_limits u auth t in
  (if ul_can_post limits then Allowed else PostingDisabled, t).

Definition bandwidth_entry (now : Z) (u : str) (t : UsageTracker) : BandwidthState :=
  default (default_BandwidthState now) (bandwidth t !! u).

(** The window reset of [check_bandwidth]; the period is cast to [i64] and
    [Duration::seconds] panics out of its range. *)
Definition roll_window (now : Z) (period : option N) (st : BandwidthState) : outcome BandwidthState :=
  match period with
  | None => Ret st
  | Some period_secs =>
      match duration_seconds (as_i64 period_secs) with
      | Ret p => Ret (if (p <=? now - bs_window_start st)%Z then mkBandwidthState 0 0 now else st)
      | _ => Panic
      end
  end.

(** The clock is read once for a new entry and once for the window; the two readings of
    one call are taken as one. *)
Definition check_bandwidth (now : Z) (u : str) (bytes : N) (auth : A) (t : UsageTracker)
  : outcome LimitCheckResult * UsageTracker :=
  let '(limits, t) := get_effective_limits u auth t in
  match ul_bandwidth_limit limits with
  | None => (Ret Allowed, t)
  | Some limit =>
      let st := bandwidth_entry now u t in
      match roll_window now (ul_bandwidth_period_secs limits) st with
      | Ret st =>
          let t := set_bandwidth (<[u := st]> (bandwidth t)) t in
          let current_total := sat_add (bs_bytes_uploaded st) (bs_bytes_downloaded st) in
          (Ret (if limit <? sat_add current_total bytes then BandwidthExceeded else Allowed), t)
      | _ => (Panic, set_bandwidth (<[u := st]> (bandwidth t)) t)
      end
  end.

Definition record_bandwidth (now : Z) (u : str) (bytes : N) (is_upload : bool) (t : UsageTracker)
  : UsageTracker :=
  let st := bandwidth_entry now u t in
  let st := if is_upload
            then mkBandwidthState (sat_add (bs_bytes_uploaded st) bytes) (bs_bytes_downloaded st)
                   (bs_window_start st)
            else mkBandwidthState (bs_bytes_uploaded st) (sat_add (bs_bytes_downloaded st) bytes)
                   (bs_window_start st) in
  set_bandwidth (<[u := st]> (bandwidth t)) t.

Definition usage_of_state (st : BandwidthState) : UserUsage :=
  mkUserUsage (bs_bytes_uploaded st) (bs_bytes_downloaded st) (Some (bs_window_start st)).

Definition get_usage (u : str) (t : UsageTracker) : UserUsage :=
  match bandwidth t !! u with
  | Some st => usage_of_state st
  | None => default_UserUsage
  end.

Definition reset_usage (now : Z) (u : str) (auth : A) (t : UsageTracker) : A * UsageTracker :=
  let t := match bandwidth t !! u with
           | Some _ => set_bandwidth (<[u := mkBandwidthState 0 0 now]> (bandwidth t)) t
           | None => t
           end in
  (snd (reset_user_usage now u auth), t).

(** [persist]: every tracked user's usage is written; a failed write is only logged. *)
Definition persist (now : Z) (auth : A) (t : UsageTracker) : A :=
  foldl (fun auth us => snd (set_user_usage now (fst us) (usage_of_state (snd us)) auth))
    auth (map_to_list (bandwidth t)).

Definition load_user (now : Z) (u : str) (auth : A) (t : UsageTracker) : UsageTracker :=
  match get_user_usage u auth with
  | Ok usage =>
      let st := mkBandwidthState (uu_bytes_uploaded usage) (uu_bytes_downloaded usage)
                  (default now (uu_window_start usage)) in
      set_bandwidth (<[u := st]> (bandwidth t)) t
  | Err _ => t
  end.
End Tracker.

(** ** Effective limits do not depend on what was cached

    With the back end unchanged, the cache holds what the back end holds, so
    every method sees the stored limits, or the defaults. *)
Section Effective.
Context {A : Type} `{AuthProvider A} (auth : A).

Definition stored_or_default (u : str) (d : UserLimitsConfig) : UserLimits :=
  match get_user_limits u auth with Ok (Some l) => l | _ => limits_of_defaults d end.

Definition cache_ok (t : UsageTracker) : Prop :=
  forall u l, limits_cache t !! u = Some l -> get_user_limits u auth = Ok (Some l).

Lemma effective_limits_spec u t : cache_ok t ->
  exists c, get_effective_limits u auth t
            = (stored_or_default u (defaults t), set_limits_cache c t)
            /\ cache_ok (set_limits_cache c t).
Proof.
  intros Hc. unfold get_effective_limits, stored_or_default.
  destruct (limits_cache t !! u) as [l|] eqn:E.
  - rewrite (Hc _ _ E). exists (limits_cache t). by destruct t.
  - destruct (get_user_limits u auth) as [[l|]|e] eqn:El.
    + eexists. split; [done|]. intros v l'. simpl. rewrite lookup_insert_Some.
      intros [[<- <-]|[_ Hl]]; [exact El|exact (Hc _ _ Hl)].
    + exists (limits_cache t). by destruct t.
    + exists (limits_cache t). by destruct t.
Qed.

Lemma cache_ok_ext t t' : limits_cache t = limits_cache t' -> cache_ok t -> cache_ok t'.
Proof. unfold cache_ok. by intros ->. Qed.
End Effective.

Lemma disconnect_counters u t : exists m, disconnect u t = set_connections m t.
Proof.
  unfold disconnect. destruct (disconnect_sub _ _) as [[] m]; [|by eauto].
  destruct (disconnect_remove _ _) as [[n|] m']; eauto.
Qed.

(** ** Connection counting, one operation at a time *)
Section Connections.
Context {A : Type} `{AuthProvider A} (auth : A) (d : UserLimitsConfig).

Definition count_of (m : gmap str N) (u : str) : N := default 0 (m !! u).

(** The abstract state: how many connections each user has open.  A user
    disconnects only a connection that is open. *)
Inductive conn_step : gmap str N * UsageTracker -> gmap str N * UsageTracker -> Prop :=
| step_connect live t u t' :
    try_connect u auth t = (Allowed, t') -> count_of live u + 1 < u64_mod ->
    conn_step (live, t) (<[u := count_of live u + 1]> live, t')
| step_refused live t u r t' :
    try_connect u auth t = (r, t') -> r <> Allowed -> conn_step (live, t) (live, t')
| step_disconnect live t u :
    0 < count_of live u ->
    conn_step (live, t) (<[u := count_of live u - 1]> live, disconnect u t).

Definition max_connections_of (u : str) : option N :=
  ul_max_connections (stored_or_default auth u d).

Definition within (max : option N) (n : N) : Prop :=
  match max with None => True | Some m => n <= m end.

Definition conn_inv (s : gmap str N * UsageTracker) : Prop :=
  cache_ok auth (snd s) /\ defaults (snd s) = d /\
  forall u, count_of (connections (snd s)) u = count_of (fst s) u
            /\ count_of (fst s) u < u64_mod
            /\ within (max_connections_of u) (count_of (fst s) u).

Lemma count_of_insert m u v n :
  count_of (<[u := n]> m) v = if decide (u = v) then n else count_of m v.
Proof.
  unfold count_of. destruct (decide (u = v)) as [->|].
  - by rewrite lookup_insert_eq.
  - by rewrite lookup_insert_ne.
Qed.

Lemma count_of_delete m u v :
  count_of (delete u m) v = if decide (u = v) then 0 else count_of m v.
Proof.
  unfold count_of. destruct (decide (u = v)) as [->|].
  - by rewrite lookup_delete_eq.
  - by rewrite lookup_delete_ne.
Qed.

Lemma connect_entry_spec max u m r m' : connect_entry max u m = (r, m') ->
  (r = Allowed /\ within max (count_of m u + 1) /\ count_of m' u = fetch_add1 (count_of m u) \/
   r <> Allowed /\ count_of m' u = count_of m u) /\
  forall v, v <> u -> count_of m' v = count_of m v.
Proof.
  unfold connect_entry. fold (count_of m u). intros E.
  assert (exists n, m' = <[u := n]> m /\
    (r = Allowed /\ within max (count_of m u + 1) /\ n = fetch_add1 (count_of m u) \/
     r <> Allowed /\ n = count_of m u)) as (n & -> & Hn).
  { destruct max as [max|]; [destruct (N.leb_spec max (count_of m u))|]; simplify_eq;
      eexists; (split; [done|]);
      first [right; split; done | left; split_and!; simpl; (done || lia)]. }
  split; [|intros v Hv; rewrite count_of_insert, decide_False by congruence; done].
  rewrite count_of_insert, decide_True by done. naive_solver.
Qed.

(** An uninterrupted [disconnect] takes exactly one off the user's count. *)
Lemma disconnect_spec u t v : 0 < count_of (connections t) u < u64_mod ->
  count_of (connections (disconnect u t)) v
  = if decide (u = v) then count_of (connections t) u - 1 else count_of (connections t) v.
Proof.
  unfold disconnect, disconnect_sub. intros Hu.
  assert (exists n, connections t !! u = Some n) as [n E].
  { unfold count_of in Hu. destruct (connections t !! u); simpl in Hu; [by eauto|lia]. }
  assert (Hn : count_of (connections t) u = n) by (unfold count_of; by rewrite E).
  rewrite Hn in *. rewrite E.
  assert (Hs : fetch_sub1 n = n - 1).
  { unfold fetch_sub1. replace (n + u64_mod - 1) with ((n - 1) + 1 * u64_mod) by lia.
    rewrite N.Div0.mod_add. apply N.mod_small. lia. }
  rewrite Hs. simpl. destruct (N.eqb_spec n 1) as [Hn1|]; simpl.
  - rewrite lookup_insert_eq, Hn1. simpl. rewrite count_of_delete, count_of_insert.
    by destruct (decide (u = v)).
  - by rewrite count_of_insert.
Qed.

Lemma try_connect_spec u t r t' : cache_ok auth t -> try_connect u auth t = (r, t') ->
  cache_ok auth t' /\ defaults t' = defaults t /\
  connect_entry (ul_max_connections (stored_or_default auth u (defaults t))) u (connections t)
    = (r, connections t').
Proof.
  intros Hc. unfold try_connect. destruct (effective_limits_spec auth u t Hc) as (c & -> & Hc').
  destruct (connect_entry _ _ _) as [r' m] eqn:E. intros E'. simplify_eq. simpl in *.
  splits; [|done|done]. by eapply cache_ok_ext.
Qed.

Lemma conn_step_inv s s' : conn_step s s' -> conn_inv s -> conn_inv s'.
Proof.
  intros Hstep (Hc & Hd & Hcount). destruct Hstep as [live t u t' Et Hb|live t u r t' Et Hr|live t u Hu];
    simpl in *.
  - destruct (try_connect_spec u t _ _ Hc Et) as (Hc' & Hd' & Ee). rewrite Hd in Ee, Hd'.
    destruct (connect_entry_spec _ _ _ _ _ Ee) as [[(_ & Hw & Hn)|[[] _]] Hv]; [|done].
    split; [done|split; [done|]]. intros v. simpl. rewrite count_of_insert.
    destruct (decide (u = v)) as [<-|Hne].
    + destruct (Hcount u) as (Hc1 & Hc2 & Hc3). rewrite Hc1 in *. splits; [|lia|done].
      rewrite Hn. unfold fetch_add1. by apply N.mod_small.
    + rewrite Hv by done. apply Hcount.
  - destruct (try_connect_spec u t _ _ Hc Et) as (Hc' & Hd' & Ee).
    destruct (connect_entry_spec _ _ _ _ _ Ee) as [[[Ha _]|[_ Hn]] Hv]; [done|].
    split; [done|split; [simpl; congruence|]]. intros v. simpl.
    destruct (decide (v = u)) as [->|]; [rewrite Hn|rewrite Hv by done]; apply Hcount.
  - destruct (disconnect_counters u t) as [m Hm]. unfold conn_inv. splits; simpl.
    + rewrite Hm. by eapply cache_ok_ext.
    + by rewrite Hm.
    + intros v. rewrite disconnect_spec by (destruct (Hcount u) as (-> & ? & _); lia).
      rewrite count_of_insert. destruct (Hcount v) as (Hc1 & Hc2 & Hc3).
      destruct (decide (u = v)) as [<-|]; [|done]. rewrite Hc1. splits; [done|lia|].
      unfold within in *. destruct (max_connections_of u); lia.
Qed.

Lemma conn_reach_inv s s' : rtc conn_step s s' -> conn_inv s -> conn_inv s'.
Proof. induction 1; eauto using conn_step_inv. Qed.

Lemma conn_inv_new : conn_inv (∅, new_tracker d).
Proof.
  split; [done|split; [done|]]. intros u. simpl. unfold count_of. rewrite lookup_empty. splits; [done|done|].
  unfold within. destruct (max_connections_of u); simpl; [lia|done].
Qed.

(** As long as no [disconnect] is interrupted, the counter the tracker
    keeps for a user is the number of connections that user has open, and that
    number never exceeds the limit stored for the user, or the default one. *)
Theorem connections_counted live t :
  rtc conn_step (∅, new_tracker d) (live, t) ->
  forall u, connection_count u t = count_of live u
            /\ within (max_connections_of u) (count_of live u).
Proof.
  intros Hr u. destruct (conn_reach_inv _ _ Hr conn_inv_new) as (_ & _ & Hc).
  by destruct (Hc u) as (? & _ & ?).
Qed.
End Connections.

(** ** Connection counting, with [disconnect] interrupted

    [disconnect] gives up its lock twice; other connections run in between.
    The pending part of the state lists the disconnects that are under way. *)
Section Race.
Context (max : option N).

Inductive pending : Type :=
| AfterSub (u : str)
| AfterRemove (u : str) (n : N).

Record RaceState := mkRaceState {
  rs_live : gmap str N;
  rs_counters : gmap str N;
  rs_pending : list pending;
}.

Definition race_init : RaceState := mkRaceState ∅ ∅ [].

Inductive race_step : RaceState -> RaceState -> Prop :=
| race_connect live m p u m' :
    connect_entry max u m = (Allowed, m') ->
    race_step (mkRaceState live m p) (mkRaceState (<[u := count_of live u + 1]> live) m' p)
| race_sub live m p u last m' :
    0 < count_of live u ->
    disconnect_sub u m = (last, m') ->
    race_step (mkRaceState live m p)
      (mkRaceState (<[u := count_of live u - 1]> live) m' (if last then AfterSub u :: p else p))
| race_remove live m p q u left_over m' :
    disconnect_remove u m = (left_over, m') ->
    race_step (mkRaceState live m (p ++ AfterSub u :: q))
      (mkRaceState live m'
         (match left_over with Some n => p ++ AfterRemove u n :: q | None => p ++ q end))
| race_put_back live m p q u n :
    race_step (mkRaceState live m (p ++ AfterRemove u n :: q))
      (mkRaceState live (disconnect_put_back u n m) (p ++ q)).

Definition reachable_race : RaceState -> Prop := rtc race_step race_init.
End Race.

(** Evaluate one step of an interleaving of one user's connections. *)
Ltac race_eval :=
  unfold connect_entry, disconnect_sub, disconnect_remove;
  rewrite ?lookup_insert_eq, ?lookup_delete_eq, ?lookup_empty;
  change (fetch_add1 (default 0 None)) with 1; change (fetch_add1 (default 0 (Some 0))) with 1;
  change (fetch_sub1 1) with 0; simpl; reflexivity.
Ltac race_count :=
  rewrite ?count_of_insert, ?decide_True by done; unfold count_of; rewrite ?lookup_empty; reflexivity.
Ltac race_connect := eapply rtc_l; [eapply race_connect; race_eval|].
Ltac race_sub := eapply rtc_l; [eapply race_sub; [race_count|race_eval]|].
Ltac race_remove := eapply rtc_l; [eapply (race_remove _ _ _ []); race_eval|].
Ltac race_put_back := eapply rtc_l; [eapply (race_put_back _ _ _ [])|].

(** C38: when connections run between the critical sections of [disconnect], the
    count goes wrong both ways under a limit of one connection: a user can come
    to hold two connections at once, and a user with no connection left can be
    refused every new one, with no disconnect under way to put it right. *)
Theorem disconnect_race (u : str) :
  (exists s, reachable_race (Some 1) s /\ count_of (rs_live s) u = 2) /\
  (exists s, reachable_race (Some 1) s /\ rs_pending s = [] /\ count_of (rs_live s) u = 0 /\
             fst (connect_entry (Some 1) u (rs_counters s)) = ConnectionLimitExceeded).
Proof.
  split.
  - eexists. split.
    + unfold reachable_race, race_init.
      race_connect. race_sub. race_connect. race_remove. race_connect. apply rtc_refl.
    + cbn [rs_live]. race_count.
  - eexists. split; [|split; [|split]].
    + unfold reachable_race, race_init.
      race_connect. race_sub. race_connect. race_remove. race_sub. race_put_back. apply rtc_refl.
    + done.
    + cbn [rs_live]. race_count.
    + cbn [rs_counters]. unfold disconnect_put_back. race_eval.
Qed.

(** ** Bandwidth *)
Definition window_expired (now : Z) (period : option N) (st : BandwidthState) : bool :=
  match period with
  | None => false
  | Some p => (Z.of_N p * ns_per_sec <=? now - bs_window_start st)%Z
  end.

(** Periods [Duration::seconds] takes. *)
Definition period_in_range (period : option N) : Prop :=
  match period with None => True | Some p => (Z.of_N p <= i64_max / 1000)%Z end.

Lemma as_i64_small n : (Z.of_N n <= i64_max)%Z -> as_i64 n = Z.of_N n.
Proof.
  intros H. unfold as_i64, i64_max, u64_mod in *. rewrite N.mod_small by lia.
  destruct (Z.leb_spec (Z.of_N n) (2 ^ 63 - 1)); lia.
Qed.

Lemma roll_window_in_range now period st : period_in_range period ->
  roll_window now period st
  = Ret (if window_expired now period st then mkBandwidthState 0 0 now else st).
Proof.
  destruct period as [p|]; [|done]. simpl. intros Hp. unfold duration_seconds.
  assert (i64_max / 1000 <= i64_max)%Z by done.
  rewrite as_i64_small by lia.
  destruct (Z.leb_spec (Z.abs (Z.of_N p)) (i64_max / 1000)); [done|lia].
Qed.

Definition used (st : BandwidthState) : N := bs_bytes_uploaded st + bs_bytes_downloaded st.

Lemma within_limit a b bytes limit : limit < u64_max ->
  (limit <? sat_add (sat_add a b) bytes) = false <-> a + b + bytes <= limit.
Proof. unfold sat_add. rewrite N.ltb_ge. lia. Qed.

Section Bandwidth.
Context {A : Type} `{AuthProvider A}.

(** A transfer of [bytes] is allowed exactly when it fits in what the limit
    leaves of the current window, counted from zero again once the window's
    period has passed; recording the transfer then keeps the user within the
    limit. *)
Theorem check_bandwidth_fits (now later : Z) (u : str) (bytes limit : N) (up : bool)
    (auth : A) (t : UsageTracker) :
  let limits := fst (get_effective_limits u auth t) in
  let entry := bandwidth_entry now u t in
  let st := if window_expired now (ul_bandwidth_period_secs limits) entry
            then mkBandwidthState 0 0 now else entry in
  ul_bandwidth_limit limits = Some limit -> limit < u64_max ->
  period_in_range (ul_bandwidth_period_secs limits) ->
  exists r t', check_bandwidth now u bytes auth t = (Ret r, t')
    /\ (r = Allowed <-> used st + bytes <= limit)
    /\ (r = Allowed -> exists st', bandwidth (record_bandwidth later u bytes up t') !! u = Some st'
                       /\ used st' = used st + bytes /\ used st' <= limit).
Proof.
  cbv zeta. unfold check_bandwidth.
  destruct (get_effective_limits u auth t) as [limits t1] eqn:El. cbn [fst].
  assert (Hb : bandwidth t1 = bandwidth t).
  { revert El. unfold get_effective_limits. destruct (limits_cache t !! u); [by intros; simplify_eq|].
    destruct (get_user_limits u auth) as [[]|]; by intros; simplify_eq. }
  intros Hl Hmax Hp. rewrite Hl. unfold bandwidth_entry in *. rewrite Hb.
  rewrite roll_window_in_range by done.
  set (st := if window_expired _ _ _ then _ else _).
  do 2 eexists. split; [reflexivity|].
  assert (Hr : (if limit <? sat_add (sat_add (bs_bytes_uploaded st) (bs_bytes_downloaded st)) bytes
                then BandwidthExceeded else Allowed) = Allowed <-> used st + bytes <= limit).
  { unfold used. rewrite <- within_limit by done. by destruct (_ <? _). }
  split; [exact Hr|]. intros Ha. apply Hr in Ha. clear Hr.
  unfold record_bandwidth, bandwidth_entry. cbn [bandwidth set_bandwidth]. rewrite !lookup_insert_eq.
  cbn [default]. eexists. split; [reflexivity|]. unfold used in *.
  destruct up; cbn; rewrite sat_add_exact by lia; lia.
Qed.

(** Logging in replaces what the tracker counted for the user by what the
    back end last stored: transfers recorded since are no longer counted. *)
Theorem login_forgets_unpersisted (now now' : Z) (u : str) (bytes : N) (up : bool) (auth : A)
    (t : UsageTracker) (stored : UserUsage) :
  get_user_usage u auth = Ok stored ->
  let t' := load_user now' u auth (record_bandwidth now u bytes up t) in
  uu_bytes_uploaded (get_usage u t') = uu_bytes_uploaded stored /\
  uu_bytes_downloaded (get_usage u t') = uu_bytes_downloaded stored.
Proof.
  intros E. unfold load_user. rewrite E. unfold get_usage. simpl. by rewrite lookup_insert_eq.
Qed.
End Bandwidth.

(** ** The widths of the counters *)
Definition state_ok (st : BandwidthState) : Prop :=
  bs_bytes_uploaded st <= u64_max /\ bs_bytes_downloaded st <= u64_max.
Definition defaults_ok (d : UserLimitsConfig) : Prop := limits_ok (limits_of_defaults d).

Record tracker_ok (t : UsageTracker) : Prop := {
  tk_counts : forall u n, connections t !! u = Some n -> n < u64_mod;
  tk_states : forall u st, bandwidth t !! u = Some st -> state_ok st;
  tk_limits : forall u l, limits_cache t !! u = Some l -> limits_ok l;
  tk_defaults : defaults_ok (defaults t);
}.

(** The operations of the tracker, each with the back end it is called on. *)
Inductive TrackerOp (A : Type) : Type :=
| TkConnect (u : str) (auth : A)
| TkDisconnect (u : str)
| TkCanPost (u : str) (auth : A)
| TkCheck (now : Z) (u : str) (bytes : N) (auth : A)
| TkRecord (now : Z) (u : str) (bytes : N) (up : bool)
| TkReset (now : Z) (u : str) (auth : A)
| TkLoad (now : Z) (u : str) (auth : A)
| TkInvalidate (u : str)
| TkDefaults (d : UserLimitsConfig).
Arguments TkConnect {A}.
Arguments TkDisconnect {A}.
Arguments TkCanPost {A}.
Arguments TkCheck {A}.
Arguments TkRecord {A}.
Arguments TkReset {A}.
Arguments TkLoad {A}.
Arguments TkInvalidate {A}.
Arguments TkDefaults {A}.

Section Widths.
Context {A : Type} `{AuthProvider A} `{!AuthTyped A}.

Definition run_tracker_op (op : TrackerOp A) (t : UsageTracker) : UsageTracker :=
  match op with
  | TkConnect u auth => snd (try_connect u auth t)
  | TkDisconnect u => disconnect u t
  | TkCanPost u auth => snd (tracker_can_post u auth t)
  | TkCheck now u bytes auth => snd (check_bandwidth now u bytes auth t)
  | TkRecord now u bytes up => record_bandwidth now u bytes up t
  | TkReset now u auth => snd (reset_usage now u auth t)
  | TkLoad now u auth => load_user now u auth t
  | TkInvalidate u => invalidate_limits_cache u t
  | TkDefaults d => update_defaults d t
  end.
Definition run_tracker_ops (ops : list (TrackerOp A)) (t : UsageTracker) : UsageTracker :=
  foldl (fun t op => run_tracker_op op t) t ops.
Definition op_ok (op : TrackerOp A) : Prop :=
  match op with TkDefaults d => defaults_ok d | _ => True end.

Lemma tracker_ok_counts m t : (forall u n, m !! u = Some n -> n < u64_mod) ->
  tracker_ok t -> tracker_ok (set_connections m t).
Proof. intros Hm [H1 H2 H3 H4]. by split. Qed.

Lemma tracker_ok_state u st t : state_ok st -> tracker_ok t ->
  tracker_ok (set_bandwidth (<[u := st]> (bandwidth t)) t).
Proof.
  intros Hst [H1 H2 H3 H4]. split; [done| |done|done].
  intros v s. simpl. intros [[_ <-]|[_ Hv]]%lookup_insert_Some; [done|by eapply H2].
Qed.

Lemma entry_ok now u t : tracker_ok t -> state_ok (bandwidth_entry now u t).
Proof.
  intros Ht. unfold bandwidth_entry. destruct (bandwidth t !! u) as [st|] eqn:E; [by eapply tk_states|].
  split; simpl; lia.
Qed.

Lemma fetch_bound n : fetch_add1 n < u64_mod /\ fetch_sub1 n < u64_mod.
Proof. split; apply N.mod_lt; done. Qed.

Lemma effective_ok u auth t : tracker_ok t ->
  limits_ok (fst (get_effective_limits u auth t)) /\ tracker_ok (snd (get_effective_limits u auth t)).
Proof.
  intros Ht. unfold get_effective_limits. destruct (limits_cache t !! u) as [l|] eqn:E.
  { split; [by eapply tk_limits|done]. }
  destruct (get_user_limits u auth) as [[l|]|e] eqn:El; try (split; [apply tk_defaults, Ht|done]).
  apply typed_limits in El. split; [done|]. destruct Ht as [H1 H2 H3 H4]. split; [done|done| |done].
  intros v k. simpl. intros [[_ <-]|[_ Hv]]%lookup_insert_Some; [done|by eapply H3].
Qed.

Lemma insert_bound (m : gmap str N) u k : (forall v n, m !! v = Some n -> n < u64_mod) -> k < u64_mod ->
  forall v n, <[u := k]> m !! v = Some n -> n < u64_mod.
Proof. intros Hm Hk v n [[_ <-]|[_ Hv]]%lookup_insert_Some; [done|by eapply Hm]. Qed.

Lemma connect_ok max u m r m' : connect_entry max u m = (r, m') ->
  (forall v n, m !! v = Some n -> n < u64_mod) -> forall v n, m' !! v = Some n -> n < u64_mod.
Proof.
  unfold connect_entry. intros E Hm.
  assert (Hc : default 0 (m !! u) < u64_mod) by (destruct (m !! u) eqn:Eu; [by eapply Hm|done]).
  destruct max as [k|]; [destruct (k <=? default 0 (m !! u))|]; injection E as _ <-;
    apply insert_bound; try done; apply fetch_bound.
Qed.

Lemma disconnect_ok u t : tracker_ok t -> tracker_ok (disconnect u t).
Proof.
  intros Ht. unfold disconnect, disconnect_sub.
  destruct (connections t !! u) as [n|] eqn:E; [|by apply tracker_ok_counts; [apply Ht|]].
  assert (Hs : forall v k, <[u := fetch_sub1 n]> (connections t) !! v = Some k -> k < u64_mod)
    by (apply insert_bound; [apply Ht|apply fetch_bound]).
  destruct (n =? 1); [|by apply tracker_ok_counts].
  unfold disconnect_remove. rewrite lookup_insert_eq.
  assert (Hd : forall v k, delete u (<[u := fetch_sub1 n]> (connections t)) !! v = Some k -> k < u64_mod)
    by (intros v k [_ Hv]%lookup_delete_Some; by eapply Hs).
  destruct (0 <? fetch_sub1 n); apply tracker_ok_counts; try done.
  apply insert_bound; [done|apply fetch_bound].
Qed.

Lemma tracker_op_ok op t : op_ok op -> tracker_ok t -> tracker_ok (run_tracker_op op t).
Proof.
  destruct op as [u auth|u|u auth|now u bytes auth|now u bytes up|now u auth|now u auth|u|d];
    simpl; intros Hop Ht.
  - unfold try_connect. destruct (effective_ok u auth t Ht) as [_ Ht'].
    destruct (get_effective_limits u auth t) as [l t'].
    destruct (connect_entry _ u _) as [r m] eqn:E. simpl in *.
    apply tracker_ok_counts; [|done]. eapply connect_ok; [done|apply Ht'].
  - by apply disconnect_ok.
  - unfold tracker_can_post. destruct (effective_ok u auth t Ht) as [_ Ht'].
    by destruct (get_effective_limits u auth t).
  - unfold check_bandwidth. destruct (effective_ok u auth t Ht) as [_ Ht'].
    destruct (get_effective_limits u auth t) as [l t']. simpl in *.
    destruct (ul_bandwidth_limit l); [|done]. pose proof (entry_ok now u t' Ht') as Hst.
    unfold roll_window. destruct (ul_bandwidth_period_secs l) as [p|]; [|by apply tracker_ok_state].
    destruct (duration_seconds _) as [s| | |]; try by apply tracker_ok_state.
    destruct (s <=? _)%Z; apply tracker_ok_state; done.
  - unfold record_bandwidth. pose proof (entry_ok now u t Ht) as [H1 H2].
    destruct up; apply tracker_ok_state; try done; split; simpl; auto using sat_add_le.
  - unfold reset_usage. simpl. destruct (bandwidth t !! u); [|done].
    apply tracker_ok_state; [split; simpl; lia|done].
  - unfold load_user. destruct (get_user_usage u auth) as [x|] eqn:E; [|done].
    apply typed_usage in E. by apply tracker_ok_state.
  - destruct Ht as [H1 H2 H3 H4]. split; [done|done| |done].
    intros v l. simpl. intros [_ Hv]%lookup_delete_Some. by eapply H3.
  - by destruct Ht as [H1 H2 H3 H4].
Qed.

Lemma tracker_ops_ok ops t : Forall op_ok ops -> tracker_ok t -> tracker_ok (run_tracker_ops ops t).
Proof.
  intros Ho. revert t. induction Ho as [|op ops Hop Ho IH]; intros t Ht; [done|]. simpl.
  by apply IH, tracker_op_ok.
Qed.

Lemma new_tracker_ok d : defaults_ok d -> tracker_ok (new_tracker d).
Proof. intros Hd. split; simpl; try done; intros u x; by rewrite lookup_empty. Qed.
End Widths.

(** What [persist] writes for each tracked user. *)
Lemma persist_writes {X : Ext} fk now l (db : AuthDb) u st : NoDup (fst <$> l) -> (u, st) ∈ l ->
  has_user u db = true ->
  user_usage (foldl (fun auth us => snd (sq_set_user_usage fk now (fst us) (usage_of_state (snd us)) auth))
                db l) !! u
  = Some (mkUsageRow (as_i64 (bs_bytes_uploaded st)) (as_i64 (bs_bytes_downloaded st))
            (format_utc (bs_window_start st) datetime_format)).
Proof.
  assert (Hkeep : forall l db, has_user u db = true -> u ∉ (fst <$> l) ->
    user_usage (foldl (fun auth us => snd (sq_set_user_usage fk now (fst us) (usage_of_state (snd us)) auth))
                  db l) !! u = user_usage db !! u).
  { intros k. induction k as [|[v s] k IH]; intros d Hd Hu; [done|]. csimpl in Hu.
    apply not_elem_of_cons in Hu as [Hne Hu]. cbn [foldl fst snd].
    unfold sq_set_user_usage at 2, put_usage at 1.
    destruct (fk && negb (has_user v d)); cbn [snd]; [by apply IH|].
    rewrite IH; [|done|done]. simpl. by rewrite lookup_insert_ne. }
  revert db. induction l as [|[v s] l IH]; intros db Hnd Hin Hu; [by apply elem_of_nil in Hin|].
  csimpl in Hnd. apply NoDup_cons in Hnd as [Hv Hnd]. apply elem_of_cons in Hin as [[= -> ->]|Hin].
  - cbn [foldl fst snd]. rewrite Hkeep; [| |done].
    + unfold sq_set_user_usage, put_usage. rewrite Hu, andb_false_r. simpl. by rewrite lookup_insert_eq.
    + unfold sq_set_user_usage, put_usage. by rewrite Hu, andb_false_r.
  - cbn [foldl fst snd]. apply IH; [done|done|].
    unfold sq_set_user_usage, put_usage. by destruct (fk && negb (has_user v db)).
Qed.

(** C24: every number the tracker keeps stays within its Rust type, whatever operations run
    on it and whatever the back end holds: the connection counters within 64 bits, the
    transferred bytes within a [u64], the cached limits within theirs.  So nothing is lost
    in the signed columns: the counters of a user that are persisted to SQLite and loaded
    again are the same. *)
Theorem tracker_typed {X : Ext} (fk : bool) (ops : list (TrackerOp AuthDb)) (d : UserLimitsConfig)
    (db : AuthDb) (u : str) (now later : Z) (t' : UsageTracker) :
  Forall op_ok ops -> defaults_ok d -> has_user u db = true ->
  let _ := sqlite_auth fk in
  let t := run_tracker_ops ops (new_tracker d) in
  tracker_ok t
  /\ (is_Some (bandwidth t !! u) ->
      let loaded := get_usage u (load_user later u (persist now db t) t') in
      uu_bytes_uploaded loaded = uu_bytes_uploaded (get_usage u t)
      /\ uu_bytes_downloaded loaded = uu_bytes_downloaded (get_usage u t)).
Proof.
  intros Ho Hd Hu auth t.
  assert (Ht : tracker_ok t) by (apply tracker_ops_ok, new_tracker_ok; done).
  split; [exact Ht|]. intros [st Hst]. destruct (tk_states _ Ht _ _ Hst) as [H1 H2].
  clearbody t. subst auth. unfold load_user, persist. simpl. unfold sq_get_user_usage.
  rewrite (persist_writes fk now (map_to_list (bandwidth t)) db u st);
    [|apply NoDup_fst_map_to_list|by apply elem_of_map_to_list|done].
  unfold get_usage. simpl. rewrite lookup_insert_eq, Hst. simpl. by rewrite !as_u64_as_i64.
Qed.

Definition bob_db : AuthDb :=
  snd (@sq_set_user_usage Toy.ext true 0 (lit "bob") (mkUserUsage 5 6 (Some 0%Z))
    (snd (sq_set_user_limits true (lit "bob") (mkUserLimits true (Some 1) (Some 100) (Some 60))
      (snd (@sq_add_user_with_key Toy.ext true 7 (lit "bob") (lit "pw") None empty_auth_db))))).

Definition tracker0 : UsageTracker := new_tracker (mkUserLimitsConfig true 5 None None).

Lemma connections_counted_witness :
  let t := snd (@try_connect _ (@sqlite_auth Toy.ext true) (lit "bob") bob_db tracker0) in
  connection_count (lit "bob") t = 1 /\ within (@max_connections_of _ (@sqlite_auth Toy.ext true) bob_db (defaults tracker0) (lit "bob")) 1.
Proof.
  intros t.
  destruct (@connections_counted _ (@sqlite_auth Toy.ext true) bob_db (defaults tracker0)
              (<[lit "bob" := count_of ∅ (lit "bob") + 1]> ∅) t) with (u := lit "bob") as [H1 H2].
  - eapply rtc_l; [|apply rtc_refl].
    apply (@step_connect _ (@sqlite_auth Toy.ext true) bob_db ∅ tracker0 (lit "bob") t); vm_compute; reflexivity.
  - split; [rewrite H1; vm_compute; reflexivity|]. exact H2.
Defined.

Lemma check_bandwidth_fits_witness :
  let t := @load_user _ (@sqlite_auth Toy.ext true) 0 (lit "bob") bob_db tracker0 in
  exists t', @check_bandwidth _ (@sqlite_auth Toy.ext true) 1 (lit "bob") 89 bob_db t = (Ret Allowed, t').
Proof.
  intros t.
  destruct (@check_bandwidth_fits _ (@sqlite_auth Toy.ext true) 1 2 (lit "bob") 89 100 true bob_db t)
    as (r & t' & E & Hr & _); [vm_compute; reflexivity..| vm_compute; discriminate|].
  exists t'. rewrite E. f_equal. f_equal. apply Hr. vm_compute. discriminate.
Defined.

Lemma login_forgets_unpersisted_witness :
  uu_bytes_downloaded (get_usage (lit "bob")
    (@load_user _ (@sqlite_auth Toy.ext true) 9 (lit "bob") bob_db
      (record_bandwidth 3 (lit "bob") 90 false tracker0))) = 6.
Proof.
  apply (@login_forgets_unpersisted _ (@sqlite_auth Toy.ext true) 3 9 (lit "bob") 90 false bob_db
           tracker0 (mkUserUsage 5 6 (Some 0%Z))). vm_compute. reflexivity.
Defined.

Lemma tracker_typed_witness :
  let _ := @sqlite_auth Toy.ext true in
  let t := run_tracker_ops [TkLoad 0 (lit "bob") bob_db; TkRecord 1 (lit "bob") u64_max true]
             (new_tracker (mkUserLimitsConfig true 5 None None)) in
  uu_bytes_uploaded (get_usage (lit "bob") (load_user 3 (lit "bob") (persist 2 bob_db t) tracker0)) = u64_max.
Proof.
  intros auth t.
  destruct (@tracker_typed Toy.ext true [TkLoad 0 (lit "bob") bob_db; TkRecord 1 (lit "bob") u64_max true]
     (mkUserLimitsConfig true 5 None None) bob_db (lit "bob") 2 3 tracker0) as [_ H].
  - by repeat constructor.
  - split_and!; cbn; intros n Hn; [|discriminate Hn..]. injection Hn as <-. reflexivity.
  - vm_compute. reflexivity.
  - destruct H as [H _]; [vm_compute; eauto|]. etransitivity; [exact H|]. vm_compute. reflexivity.
Defined.
