(* ===== verification/Storage.v ===== *)
(** * Storage: what the server asks of an article store ([storage/mod.rs])

    The trait [Storage] as a class over the store's state: a query returns a
    result, a stream is the list of its items (each of which may be an error),
    an update is a computation on the state.  [StorageLaws] is the contract the
    server's theorems rely on; [SqliteStorage.v] and [PgStorage.v] prove it of the two stores.
    Also here: what is defined on top of any store, article ranges
    ([parse.rs]) and overview lines ([overview.rs]). *)

From stdpp Require Import base numbers list gmap strings.
From Stdlib Require Import NArith ZArith Lia Sorted.
From S2P Require Import Prelude Text Externals Message.
Local Open Scope N_scope.

Class Storage (S : Type) := {
  store_article : Z -> Message -> M S unit;
  get_article_by_number : str -> N -> S -> result (option Message);
  get_article_by_id : str -> S -> result (option Message);
  get_articles_by_ids : list str -> S -> list (result (str * Message));
  get_overview_range : str -> N -> N -> S -> result (list str);
  add_group : Z -> str -> bool -> M S unit;
  set_group_moderated : str -> bool -> M S unit;
  remove_group : str -> M S unit;
  remove_groups_by_pattern : str -> M S unit;
  list_groups : S -> list (result str);
  list_groups_since : Z -> S -> list (result str);
  list_groups_with_times : S -> list (result (str * Z));
  list_article_numbers : str -> S -> list (result N);
  list_article_ids : str -> S -> list (result str);
  list_article_ids_since : str -> Z -> S -> list (result str);
  purge_group_before : str -> Z -> M S unit;
  purge_orphan_messages : M S unit;
  get_message_size : str -> S -> result (option N);
  delete_article_by_id : str -> M S unit;
  is_group_moderated : str -> S -> result bool;
  group_exists : str -> S -> result bool;
  add_group_with_description : Z -> str -> bool -> str -> M S unit;
  list_groups_with_descriptions : S -> list (result (str * str));
}.

(** ** Overview lines ([overview.rs]) *)
Definition OVERVIEW_FORMAT : list str :=
  [lit "Subject:"; lit "From:"; lit "Date:"; lit "Message-ID:"; lit "References:";
   lit ":bytes"; lit ":lines"].

Definition get_overview_format_lines : list str := (fun s => s ++ crlf) <$> OVERVIEW_FORMAT.

(** [article.body.lines().count()]. *)
Definition line_count (body : str) : N := N.of_nat (length (lines body)).

(** [size_of] is the store's [get_message_size]. *)
Definition generate_overview_line (size_of : str -> result (option N)) (article_number : N)
    (article : Message) : result str :=
  let field name := default [] (get_header_value article name) in
  let bytes :=
    match extract_message_id article with
    | Some id => default (utf8_len (body article)) <$> size_of id
    | None => Ok (utf8_len (body article))
    end in
  (fun bytes =>
     join [TAB] [show_N article_number; field (lit "Subject"); field (lit "From");
                 field (lit "Date"); field (lit "Message-ID"); field (lit "References");
                 show_N bytes; show_N (line_count (body article))]) <$> bytes.

(** ** Article ranges ([parse.rs]) *)

(** [(start..=end).collect()]. *)
Definition numbers_upto (start last : N) : list N :=
  (fun i => start + N.of_nat i) <$> seq 0 (N.to_nat (last + 1 - start)).

(** A [Vec] holds at most [isize::MAX] bytes, eight to each number: collecting a longer range
    panics with a capacity overflow before a number is written. *)
Definition isize_max : N := 2 ^ 63 - 1.
Definition range_fits (start last : N) : bool := 8 * (last + 1 - start) <=? isize_max.
Definition collect_range (start last : N) : outcome (list N) :=
  if range_fits start last then Ret (numbers_upto start last) else Panic.

Section Ranges.
Context {S : Type} `{Storage S}.

Definition parse_range (group spec : str) (s : S) : outcome (list N) :=
  match split_once (ch "-") spec with
  | Some (start_s, end_s) =>
      match parse_u64 start_s with
      | None => Fail (lit "invalid range")
      | Some start =>
          if str_eqb end_s [] then
            outcome_of (try_collect (List.filter (fun r => match r with Ok n => start <=? n | Err _ => true end)
                           (list_article_numbers group s)))
          else match parse_u64 end_s with
               | None => Fail (lit "invalid range")
               | Some last => if last <? start then Ret [] else collect_range start last
               end
      end
  | None => outcome_of ((fun n => [n]) <$> ok_or (parse_u64 spec) (lit "invalid digit found in string"))
  end.
End Ranges.

(** ** The contract *)
Class StorageLaws (S : Type) `{Storage S} := {
  st_wf : S -> Prop;
  (** Updates keep the store well formed. *)
  store_keeps_wf now a : keeps st_wf (store_article now a);
  delete_keeps_wf id : keeps st_wf (delete_article_by_id id);
  purge_keeps_wf g t : keeps st_wf (purge_group_before g t);
  orphan_keeps_wf : keeps st_wf purge_orphan_messages;
  add_group_keeps_wf now g m : keeps st_wf (add_group now g m);
  set_moderated_keeps_wf g m : keeps st_wf (set_group_moderated g m);
  remove_group_keeps_wf g : keeps st_wf (remove_group g);
  remove_pattern_keeps_wf p : keeps st_wf (remove_groups_by_pattern p);
  add_description_keeps_wf now g m d : keeps st_wf (add_group_with_description now g m d);
  (** The numbers of an existing group can be listed, and where they can, looking one up
      does not fail. *)
  group_listed g s : st_wf s -> group_exists g s = Ok true ->
    exists l, list_article_numbers g s = Ok <$> l;
  get_by_number_total g n s l : st_wf s -> list_article_numbers g s = Ok <$> l ->
    exists o, get_article_by_number g n s = Ok o;
  (** A store that succeeds makes a new article readable under its Message-ID, and
      changes no other. *)
  store_then_get now a s s' id :
    st_wf s -> extract_message_id a = Some id -> store_article now a s = (Ret tt, s') ->
    get_article_by_id id s = Ok None -> get_article_by_id id s' = Ok (Some a);
  store_keeps_others now a s s' id o :
    st_wf s -> store_article now a s = (o, s') -> forall art,
    get_article_by_id id s = Ok (Some art) -> get_article_by_id id s' = Ok (Some art);
  (** Whatever a store comes to, what can be read afterwards could be read before, or is
      the article. *)
  store_adds_only now a s s' id o art :
    st_wf s -> store_article now a s = (o, s') -> get_article_by_id id s' = Ok (Some art) ->
    get_article_by_id id s = Ok (Some art) \/ (art = a /\ extract_message_id a = Some id);
  (** The numbers of a group are listed in increasing order. *)
  numbers_increase g s l : st_wf s -> list_article_numbers g s = Ok <$> l -> StronglySorted N.lt l;
  (** They are the numbers under which an article can be read; it can be read by its
      Message-ID as well, and has a size. *)
  listed_readable g n s l : st_wf s -> list_article_numbers g s = Ok <$> l ->
    n ∈ l <-> exists a, get_article_by_number g n s = Ok (Some a);
  by_number_by_id g n s a : st_wf s -> get_article_by_number g n s = Ok (Some a) ->
    exists id, get_article_by_id id s = Ok (Some a);
  by_id_named id s a : st_wf s -> get_article_by_id id s = Ok (Some a) ->
    extract_message_id a = Some id /\ exists size, get_message_size id s = Ok (Some size);
  list_groups_total s : st_wf s -> exists l, list_groups s = Ok <$> l;
}.

(** ** Lemmas *)
Lemma numbers_upto_elem start last n : n ∈ numbers_upto start last <-> start <= n <= last.
Proof.
  unfold numbers_upto. rewrite list_elem_of_fmap. split.
  - intros (i & -> & Hi). apply elem_of_seq in Hi. lia.
  - intros Hn. exists (N.to_nat (n - start)). split; [lia|]. apply elem_of_seq. lia.
Qed.

Lemma numbers_upto_sorted start last : StronglySorted N.lt (numbers_upto start last).
Proof.
  unfold numbers_upto. generalize (N.to_nat (last + 1 - start)) as n. generalize 0%nat as k.
  intros k n. revert k. induction n as [|n IH]; intros k; csimpl; [constructor|].
  constructor; [apply IH|]. apply Forall_fmap, Forall_forall. intros i Hi%elem_of_seq. simpl. lia.
Qed.

Section RangeSpec.
Context {S : Type} `{Storage S}.

Definition spec_range (start : N) (last : option N) : str :=
  show_N start ++ lit "-" ++ match last with Some l => show_N l | None => [] end.

Lemma show_N_no_dash n : ch "-" ∉ show_N n.
Proof.
  intros Hc. pose proof (show_N_digits n) as Hd. apply forallb_forall with (x := ch "-") in Hd.
  - done.
  - by apply elem_of_list_In.
Qed.

Lemma split_range start rest :
  split_once (ch "-") (show_N start ++ lit "-" ++ rest) = Some (show_N start, rest).
Proof. apply split_once_Some. split; [done|apply show_N_no_dash]. Qed.

Lemma parse_show_u64 n : n <= u64_max -> parse_u64 (show_N n) = Some n.
Proof. apply parse_show_uint. Qed.

Lemma try_collect_filter (p : N -> bool) (l : list N) :
  try_collect (List.filter (fun r => match r with Ok n => p n | Err _ => true end) (Ok <$> l))
  = Ok (List.filter p l).
Proof.
  induction l as [|a l IH]; csimpl; [done|]. destruct (p a); csimpl; [|done]. by rewrite IH.
Qed.

Lemma range_fits_short start last : last < start -> range_fits start last = true.
Proof. intros Hl. unfold range_fits. replace (last + 1 - start) with 0 by lia. done. Qed.

Lemma range_of_one group n s : n <= u64_max -> parse_range group (show_N n) s = Ret [n].
Proof.
  intros Hn. unfold parse_range. by rewrite (proj2 (split_once_None _ _) (show_N_no_dash n)), parse_show_u64.
Qed.

(** A range of article numbers is read as written: one number stands for
    itself, an open range for the numbers of the group from there on, a closed one for
    every number between its ends - if these fit a [Vec]; a longer one panics - and any other
    text is an error. *)
Lemma parse_range_reads (group : str) (start last : N) (nums : list N) (s : S) :
  start <= u64_max -> last <= u64_max ->
  list_article_numbers group s = Ok <$> nums ->
  parse_range group (show_N start) s = Ret [start]
  /\ parse_range group (spec_range start None) s = Ret (List.filter (N.leb start) nums)
  /\ (if range_fits start last
      then exists l, parse_range group (spec_range start (Some last)) s = Ret l
                     /\ (forall n, n ∈ l <-> start <= n <= last) /\ StronglySorted N.lt l
      else parse_range group (spec_range start (Some last)) s = Panic)
  /\ (forall spec, parse_u64 spec = None -> ch "-" ∉ spec ->
      exists e, parse_range group spec s = Fail e).
Proof.
  intros Hs Hl Hn. unfold parse_range, spec_range. splits.
  - rewrite (proj2 (split_once_None _ _) (show_N_no_dash start)), parse_show_u64 by done. done.
  - rewrite split_range, parse_show_u64 by done. rewrite str_eqb_refl, Hn.
    exact (f_equal outcome_of (try_collect_filter (N.leb start) nums)).
  - rewrite split_range, !parse_show_u64 by done.
    assert (str_eqb (show_N last) [] = false) as ->.
    { destruct (str_eqb (show_N last) []) eqn:E; [|done]. apply str_eqb_eq in E.
      assert (E1 := parse_show_u64 last Hl). rewrite E in E1. done. }
    unfold collect_range. destruct (N.ltb_spec last start).
    + rewrite range_fits_short by done. exists []. split; [done|]. split; [|constructor].
      intros n. rewrite elem_of_nil. lia.
    + destruct (range_fits start last); [|done]. eexists. split; [reflexivity|].
      split; [intros n; apply numbers_upto_elem|apply numbers_upto_sorted].
  - intros spec Hp Hd. rewrite (proj2 (split_once_None _ _) Hd), Hp. by eexists.
Qed.
End RangeSpec.
