(* ===== verification/SqliteStorage.v ===== *)
(** * SqliteStorage: the SQLite article store ([storage/sqlite.rs])

    The four tables as finite maps from their primary keys; each method runs its
    SQL statements in order on them.  sqlx opens SQLite with foreign keys
    enforced.  Statements without an ORDER BY return rows in an unspecified order,
    here the order of the map. *)

From stdpp Require Import base numbers list gmap strings sorting.
From Stdlib Require Import NArith ZArith Lia Sorted.
From S2P Require Import Prelude Text Externals Message Wildmat Storage.
Local Open Scope N_scope.

(** ** Tables *)
Record MsgRow := mkMsgRow { mr_headers : str; mr_body : str; mr_size : Z }.
Record GroupRow := mkGroupRow {
  grp_created_at : Z; grp_moderated : Z; grp_description : str }.

(** [group_articles]: (group, number) to (message_id, inserted_at). *)
Record Db := mkDb {
  db_messages : gmap str MsgRow;
  db_group_articles : gmap (str * Z) (str * Z);
  db_groups : gmap str GroupRow;
  db_overview : gmap (str * Z) str;
}.

Definition empty_db : Db := mkDb ∅ ∅ ∅ ∅.
Definition set_messages (f : gmap str MsgRow -> gmap str MsgRow) (db : Db) : Db :=
  mkDb (f (db_messages db)) (db_group_articles db) (db_groups db) (db_overview db).
Definition set_group_articles (f : gmap (str * Z) (str * Z) -> gmap (str * Z) (str * Z)) (db : Db) : Db :=
  mkDb (db_messages db) (f (db_group_articles db)) (db_groups db) (db_overview db).
Definition set_groups (f : gmap str GroupRow -> gmap str GroupRow) (db : Db) : Db :=
  mkDb (db_messages db) (db_group_articles db) (f (db_groups db)) (db_overview db).
Definition set_overview (f : gmap (str * Z) str -> gmap (str * Z) str) (db : Db) : Db :=
  mkDb (db_messages db) (db_group_articles db) (db_groups db) (f (db_overview db)).

(** The rows of a group, ordered by number. *)
Definition row_le (a b : Z * (str * Z)) : Prop := (fst a <= fst b)%Z.
#[export] Instance row_le_dec a b : Decision (row_le a b).
Proof. unfold row_le. apply _. Defined.

Definition group_rows (g : str) (db : Db) : list (Z * (str * Z)) :=
  omap (fun kv : (str * Z) * (str * Z) =>
          if str_eqb (fst (fst kv)) g then Some (snd (fst kv), snd kv) else None)
    (map_to_list (db_group_articles db)).
Definition group_rows_by_number (g : str) (db : Db) : list (Z * (str * Z)) :=
  merge_sort row_le (group_rows g db).

(** The groups, ordered by name. *)
Definition name_le (a b : str * GroupRow) : Prop := str_leb (fst a) (fst b) = true.
#[export] Instance name_le_dec a b : Decision (name_le a b).
Proof. unfold name_le. apply _. Defined.
Definition groups_by_name (db : Db) : list (str * GroupRow) :=
  merge_sort name_le (map_to_list (db_groups db)).

(** ** Statements *)
Definition i32_of_bool (b : bool) : Z := if b then 1 else 0.

(** INSERT OR IGNORE INTO messages. *)
Definition insert_message (id : str) (row : MsgRow) : Db -> Db :=
  set_messages (fun m => match m !! id with Some _ => m | None => <[id := row]> m end).

(** SELECT COALESCE(MAX(number),0)+1: past the greatest integer SQLite answers a
    float, which cannot be read as an [i64]. *)
Definition max_number (g : str) (db : Db) : Z :=
  match fst <$> group_rows g db with
  | [] => 0
  | n :: l => foldr Z.max n l
  end.
Definition next_number (g : str) : M Db Z := fun db =>
  let n := (max_number g db + 1)%Z in
  (if (n <=? i64_max)%Z then Ret n else Fail (lit "mismatched types"), db).

(** INSERT INTO group_articles, under its primary key and foreign key. *)
Definition insert_group_article (g : str) (n : Z) (id : str) (now : Z) : M Db unit := fun db =>
  match db_group_articles db !! (g, n), db_messages db !! id with
  | Some _, _ => (Fail (lit "UNIQUE constraint failed"), db)
  | None, None => (Fail (lit "FOREIGN KEY constraint failed"), db)
  | None, Some _ => (Ret tt, set_group_articles (<[(g, n) := (id, now)]>) db)
  end.

(** Does a [group_articles] row name the message? *)
Definition is_referenced (id : str) (db : Db) : bool :=
  existsb (fun kv : (str * Z) * (str * Z) => str_eqb (fst (snd kv)) id)
    (map_to_list (db_group_articles db)).

Definition delete_group_articles (p : str * Z -> str * Z -> bool) : Db -> Db :=
  set_group_articles (filter (fun kv => p (fst kv) (snd kv) = false)).
Definition delete_orphans (db : Db) : Db :=
  set_messages (filter (fun kv => is_referenced (fst kv) db = true)) db.

Section SqliteStorage.
Context {X : Ext}.

Definition ss_get_message_size (id : str) (db : Db) : result (option N) :=
  Ok (match db_messages db !! id with
      | Some row => Some (u64_try_from (mr_size row))
      | None => None
      end).

(** The body of the loop over the newsgroups: read the next number, then use it. *)
Definition store_numbered (ts : Z) (id : str) (a : Message) (g : str) (next : Z) : M Db unit :=
  (insert_group_article g next id ts ;;;
   db <-- mget ;;;
   line <-- mlift (generate_overview_line (fun i => ss_get_message_size i db) (as_u64 next) a) ;;;
   mmodify (set_overview (<[(g, next) := line]>)))%m.
Definition store_in_group (ts : Z) (id : str) (a : Message) (g : str) : M Db unit :=
  (next <-- next_number g ;;; store_numbered ts id a g next)%m.

Definition ss_store_article (now : Z) (a : Message) : M Db unit :=
  (id <-- mlift (ok_or (extract_message_id a) (lit "missing Message-ID")) ;;;
   hs <-- mlift (headers_to_json (headers a)) ;;;
   mmodify (insert_message id
     (mkMsgRow hs (body a) (i64_try_from (utf8_len (body a)) i64_max))) ;;;
   mfor (parse_newsgroups_from_message a) (store_in_group (timestamp now) id a))%m.

Definition message_of_row (row : MsgRow) : result Message :=
  reconstruct_message_from_row (mr_headers row) (mr_body row).

Definition ss_get_article_by_number (g : str) (n : N) (db : Db) : result (option Message) :=
  match db_group_articles db !! (g, i64_try_from n (-1)) with
  | Some (id, _) =>
      match db_messages db !! id with
      | Some row => Some <$> message_of_row row
      | None => Ok None
      end
  | None => Ok None
  end.

Definition ss_get_article_by_id (id : str) (db : Db) : result (option Message) :=
  match db_messages db !! id with
  | Some row => Some <$> message_of_row row
  | None => Ok None
  end.

Definition ss_get_articles_by_ids (ids : list str) (db : Db) : list (result (str * Message)) :=
  match ids with
  | [] => []
  | _ => (fun kv => pair (fst kv) <$> message_of_row (snd kv)) <$>
           List.filter (fun kv => existsb (str_eqb (fst kv)) ids) (map_to_list (db_messages db))
  end.

Definition ss_add_group (now : Z) (g : str) (moderated : bool) : M Db unit :=
  mmodify (set_groups (fun m =>
    match m !! g with
    | Some _ => m
    | None => <[g := mkGroupRow (timestamp now) (i32_of_bool moderated) []]> m
    end)).

Definition ss_set_group_moderated (g : str) (moderated : bool) : M Db unit :=
  mmodify (set_groups (alter (fun r =>
    mkGroupRow (grp_created_at r) (i32_of_bool moderated) (grp_description r)) g)).

Definition ss_remove_group (g : str) : M Db unit :=
  (mmodify (delete_group_articles (fun k _ => str_eqb (fst k) g)) ;;;
   mmodify (set_groups (delete g)) ;;;
   mmodify delete_orphans)%m.

Definition ss_remove_groups_by_pattern (pattern : str) : M Db unit :=
  (names <-- mgets (fun db => fst <$> map_to_list (db_groups db)) ;;;
   mfor (List.filter (wildmat pattern) names) ss_remove_group)%m.

Definition ss_is_group_moderated (g : str) (db : Db) : result bool :=
  Ok (match db_groups db !! g with
      | Some r => negb (grp_moderated r =? 0)%Z
      | None => false
      end).

Definition ss_group_exists (g : str) (db : Db) : result bool :=
  Ok (match db_groups db !! g with Some _ => true | None => false end).

Definition ss_add_group_with_description (now : Z) (g : str) (moderated : bool) (d : str)
  : M Db unit :=
  mmodify (set_groups (fun m =>
    match m !! g with
    | Some r => <[g := mkGroupRow (grp_created_at r) (i32_of_bool moderated) d]> m
    | None => <[g := mkGroupRow (timestamp now) (i32_of_bool moderated) d]> m
    end)).

Definition ss_list_groups_with_descriptions (db : Db) : list (result (str * str)) :=
  (fun kv => Ok (fst kv, grp_description (snd kv))) <$> groups_by_name db.
Definition ss_list_groups (db : Db) : list (result str) :=
  (fun kv => Ok (fst kv)) <$> groups_by_name db.
Definition ss_list_groups_since (since : Z) (db : Db) : list (result str) :=
  (fun kv => Ok (fst kv)) <$>
    List.filter (fun kv => (timestamp since <? grp_created_at (snd kv))%Z) (groups_by_name db).
Definition ss_list_groups_with_times (db : Db) : list (result (str * Z)) :=
  (fun kv => Ok (fst kv, grp_created_at (snd kv))) <$> groups_by_name db.

Definition ss_list_article_numbers (g : str) (db : Db) : list (result N) :=
  (fun r => Ok (u64_try_from (fst r))) <$> group_rows_by_number g db.
Definition ss_list_article_ids (g : str) (db : Db) : list (result str) :=
  (fun r => Ok (fst (snd r))) <$> group_rows_by_number g db.
Definition ss_list_article_ids_since (g : str) (since : Z) (db : Db) : list (result str) :=
  (fun r => Ok (fst (snd r))) <$>
    List.filter (fun r => (timestamp since <? snd (snd r))%Z) (group_rows_by_number g db).

Definition ss_purge_group_before (g : str) (before : Z) : M Db unit :=
  mmodify (delete_group_articles (fun k v =>
    str_eqb (fst k) g && (snd v <? timestamp before)%Z)).

Definition ss_purge_orphan_messages : M Db unit := mmodify delete_orphans.

Definition ss_delete_article_by_id (id : str) : M Db unit :=
  (mmodify (delete_group_articles (fun _ v => str_eqb (fst v) id)) ;;;
   mmodify (fun db => if is_referenced id db then db else set_messages (delete id) db))%m.

Definition ss_get_overview_range (g : str) (start last : N) (db : Db) : result (list str) :=
  let rows := omap (fun kv : (str * Z) * str =>
                if str_eqb (fst (fst kv)) g
                   && (i64_try_from start 0 <=? snd (fst kv))%Z
                   && (snd (fst kv) <=? i64_try_from last i64_max)%Z
                then Some (snd (fst kv), (snd kv, 0%Z)) else None)
                (map_to_list (db_overview db)) in
  Ok ((fun r => fst (snd r)) <$> merge_sort row_le rows).

#[export] Instance sqlite_storage : Storage Db := {|
  store_article := ss_store_article;
  get_article_by_number := ss_get_article_by_number;
  get_article_by_id := ss_get_article_by_id;
  get_articles_by_ids := ss_get_articles_by_ids;
  get_overview_range := ss_get_overview_range;
  add_group := ss_add_group;
  set_group_moderated := ss_set_group_moderated;
  remove_group := ss_remove_group;
  remove_groups_by_pattern := ss_remove_groups_by_pattern;
  list_groups := ss_list_groups;
  list_groups_since := ss_list_groups_since;
  list_groups_with_times := ss_list_groups_with_times;
  list_article_numbers := ss_list_article_numbers;
  list_article_ids := ss_list_article_ids;
  list_article_ids_since := ss_list_article_ids_since;
  purge_group_before := ss_purge_group_before;
  purge_orphan_messages := ss_purge_orphan_messages;
  get_message_size := ss_get_message_size;
  delete_article_by_id := ss_delete_article_by_id;
  is_group_moderated := ss_is_group_moderated;
  group_exists := ss_group_exists;
  add_group_with_description := ss_add_group_with_description;
  list_groups_with_descriptions := ss_list_groups_with_descriptions;
|}.
End SqliteStorage.

(** ** Lemmas on the statements *)
Section Rows.
Implicit Types db : Db.

Lemma elem_group_rows g n v db : (n, v) ∈ group_rows g db <-> db_group_articles db !! (g, n) = Some v.
Proof.
  unfold group_rows. rewrite list_elem_of_omap. split.
  - intros ([[g' n'] v'] & Hin & Hif). simpl in Hif.
    destruct (str_eqb g' g) eqn:E; [|done]. apply str_eqb_eq in E as ->.
    apply elem_of_map_to_list in Hin. by simplify_eq.
  - intros Hl. exists ((g, n), v). simpl. rewrite str_eqb_refl. split; [|done].
    by apply elem_of_map_to_list.
Qed.

Lemma elem_rows_by_number g n v db :
  (n, v) ∈ group_rows_by_number g db <-> db_group_articles db !! (g, n) = Some v.
Proof. unfold group_rows_by_number. rewrite merge_sort_Permutation. apply elem_group_rows. Qed.

Lemma foldr_max_ge n l x : x ∈ n :: l -> (x <= foldr Z.max n l)%Z.
Proof.
  intros [->|Hx]%elem_of_cons.
  - induction l; simpl; lia.
  - induction l as [|y l IH]; [by apply elem_of_nil in Hx|]. simpl.
    apply elem_of_cons in Hx as [->|Hx]; [lia|]. specialize (IH Hx). lia.
Qed.

Lemma foldr_max_elem n l : foldr Z.max n l ∈ n :: l.
Proof.
  induction l as [|y l IH]; simpl; [by left|].
  destruct (Z.max_spec y (foldr Z.max n l)) as [[_ ->]|[_ ->]]; [|by right; left].
  apply elem_of_cons in IH as [->|IH]; [left|right; by right].
Qed.

Lemma max_number_ge g n v db :
  db_group_articles db !! (g, n) = Some v -> (n <= max_number g db)%Z.
Proof.
  intros Hl%elem_group_rows. unfold max_number.
  assert (Hn : n ∈ fst <$> group_rows g db) by (apply list_elem_of_fmap; by exists (n, v)).
  destruct (fst <$> group_rows g db); [by apply elem_of_nil in Hn|]. by apply foldr_max_ge.
Qed.

Lemma max_number_attained g db :
  max_number g db = 0%Z \/ is_Some (db_group_articles db !! (g, max_number g db)).
Proof.
  unfold max_number. destruct (fst <$> group_rows g db) as [|n l] eqn:E; [by left|]. right.
  pose proof (foldr_max_elem n l) as Hm. rewrite <- E in Hm.
  apply list_elem_of_fmap in Hm as ([m v] & Hm & Hv). exists v.
  simpl in Hm. rewrite Hm. by apply elem_group_rows.
Qed.

Lemma next_free g db : db_group_articles db !! (g, (max_number g db + 1)%Z) = None.
Proof.
  destruct (_ !! _) eqn:E; [|done]. apply max_number_ge in E. lia.
Qed.

Lemma is_referenced_true id db :
  is_referenced id db = true <-> exists k t, db_group_articles db !! k = Some (id, t).
Proof.
  unfold is_referenced. rewrite existsb_exists. split.
  - intros ([k [i t]] & Hin & E). apply str_eqb_eq in E. simpl in E. subst. exists k, t.
    apply elem_of_map_to_list. by apply elem_of_list_In.
  - intros (k & t & Hl). exists (k, (id, t)). split; [|apply str_eqb_refl].
    apply elem_of_list_In. by apply elem_of_map_to_list.
Qed.

Lemma is_referenced_false id db :
  is_referenced id db = false -> forall k t, db_group_articles db !! k <> Some (id, t).
Proof.
  intros Hr k t Hl. assert (is_referenced id db = true) by (apply is_referenced_true; eauto).
  congruence.
Qed.

Lemma delete_rows_lookup p db k v :
  db_group_articles (delete_group_articles p db) !! k = Some v
  <-> db_group_articles db !! k = Some v /\ p k v = false.
Proof. simpl. by rewrite map_lookup_filter_Some. Qed.

Lemma delete_orphans_lookup db id row :
  db_messages (delete_orphans db) !! id = Some row
  <-> db_messages db !! id = Some row /\ is_referenced id db = true.
Proof. simpl. by rewrite map_lookup_filter_Some. Qed.

Lemma insert_message_lookup id row db id' row' :
  db_messages (insert_message id row db) !! id' = Some row' ->
  db_messages db !! id' = Some row' \/ (id' = id /\ row' = row).
Proof.
  simpl. destruct (db_messages db !! id) eqn:E; [by left|].
  rewrite lookup_insert_Some. naive_solver.
Qed.

Lemma insert_message_keeps id row db id' row' :
  db_messages db !! id' = Some row' -> db_messages (insert_message id row db) !! id' = Some row'.
Proof.
  simpl. intros Hl. destruct (db_messages db !! id) eqn:E; [done|].
  rewrite lookup_insert_ne; [done|]. congruence.
Qed.

Lemma insert_message_present id row db : is_Some (db_messages (insert_message id row db) !! id).
Proof.
  simpl. destruct (db_messages db !! id) eqn:E; [by exists m|]. rewrite lookup_insert_eq. eauto.
Qed.
End Rows.

(** Numbers of a group, in order: strictly increasing, and exactly the group's rows. *)
Section Numbers.
Implicit Types db : Db.

#[local] Instance row_le_total : Total row_le.
Proof. intros x y. unfold row_le. lia. Qed.
#[local] Instance row_le_trans : Transitive row_le.
Proof. intros x y z. unfold row_le. lia. Qed.

Lemma group_rows_nodup g db : NoDup (fst <$> group_rows g db).
Proof.
  unfold group_rows. pose proof (NoDup_fst_map_to_list (db_group_articles db)) as Hnd.
  induction (map_to_list (db_group_articles db)) as [|[[g' n] v] l IH]; csimpl in *; [constructor|].
  apply NoDup_cons in Hnd as [Hn Hnd]. specialize (IH Hnd).
  destruct (str_eqb g' g) eqn:E; [|done]. csimpl. apply NoDup_cons. split; [|done].
  apply str_eqb_eq in E as ->. intros Hin. apply Hn. clear -Hin.
  apply list_elem_of_fmap in Hin as ([m w] & Hm & Hin). simpl in Hm. subst.
  apply list_elem_of_omap in Hin as ([[g1 m1] w1] & Hin & Hif). simpl in Hif.
  destruct (str_eqb g1 g) eqn:E; [|done]. apply str_eqb_eq in E as ->. simplify_eq.
  apply list_elem_of_fmap. by exists ((g, m), w).
Qed.

Lemma rows_sorted g db : StronglySorted Z.lt (fst <$> group_rows_by_number g db).
Proof.
  pose proof (group_rows_nodup g db) as Hnd.
  unfold group_rows_by_number.
  assert (Hs : StronglySorted row_le (merge_sort row_le (group_rows g db)))
    by apply (StronglySorted_merge_sort _).
  assert (Hp : NoDup (fst <$> merge_sort row_le (group_rows g db)))
    by (by rewrite merge_sort_Permutation).
  induction Hs as [|r l Hs IH Hr]; csimpl in *; [constructor|].
  apply NoDup_cons in Hp as [Hn Hp]. constructor; [by apply IH|].
  apply Forall_fmap. rewrite Forall_forall in Hr |- *. intros x Hx.
  specialize (Hr x Hx). unfold row_le in Hr. simpl.
  assert (fst r <> fst x); [|lia]. intros Hf. apply Hn. rewrite Hf.
  apply list_elem_of_fmap. by exists x.
Qed.
End Numbers.

(** ** Integrity *)
Section Integrity.
Context {X : Ext} `{!JsonLaws}.
Implicit Types db : Db.

(** The size a store records, and answers. *)
Definition stored_size (b : str) : N := N.min (utf8_len b) (Z.to_N i64_max).
Lemma stored_size_read b : u64_try_from (i64_try_from (utf8_len b) i64_max) = stored_size b.
Proof.
  unfold stored_size, u64_try_from, i64_try_from, i64_max in *. destruct (Z.leb_spec (Z.of_N (utf8_len b)) (2 ^ 63 - 1)).
  - destruct (Z.ltb_spec (Z.of_N (utf8_len b)) 0); lia.
  - destruct (Z.ltb_spec (2 ^ 63 - 1) 0); lia.
Qed.

(** The overview line of a stored article under a number. *)
Definition stored_line (n : N) (a : Message) : str :=
  match generate_overview_line (fun _ => Ok (Some (stored_size (body a)))) n a with Ok l => l | Err _ => [] end.

(** What a row of [messages] stores. *)
Definition row_stores (id : str) (row : MsgRow) (a : Message) : Prop :=
  headers_of_json (mr_headers row) = Ok (headers a) /\ mr_body row = body a /\
  mr_size row = i64_try_from (utf8_len (body a)) i64_max /\ extract_message_id a = Some id.

Record db_wf (db : Db) : Prop := {
  wf_reference : forall k id t, db_group_articles db !! k = Some (id, t) ->
    is_Some (db_messages db !! id);
  wf_number : forall g n v, db_group_articles db !! (g, n) = Some v -> (1 <= n <= i64_max)%Z;
  wf_message : forall id row, db_messages db !! id = Some row -> exists a, row_stores id row a;
  wf_overview : forall k v, db_group_articles db !! k = Some v -> is_Some (db_overview db !! k);
}.

Lemma db_wf_empty : db_wf empty_db.
Proof. split; intros *; simpl; rewrite ?lookup_empty; done. Qed.

(** Deleting rows, then messages no row names, and any change of [groups]. *)
Lemma db_wf_smaller db db' :
  db_group_articles db' ⊆ db_group_articles db -> db_messages db' ⊆ db_messages db ->
  db_overview db' = db_overview db ->
  (forall k id t, db_group_articles db' !! k = Some (id, t) -> is_Some (db_messages db' !! id)) ->
  db_wf db -> db_wf db'.
Proof.
  intros Hg Hm Ho Hr [H1 H2 H3 H4]. split; [exact Hr|..].
  - intros g n v Hl. eapply H2. by eapply lookup_weaken.
  - intros id row Hl. apply (H3 id). by eapply lookup_weaken.
  - intros k v Hl. rewrite Ho. eapply H4. by eapply lookup_weaken.
Qed.

Lemma db_wf_groups f db : db_wf db -> db_wf (set_groups f db).
Proof. intros [H1 H2 H3 H4]. by split. Qed.

Lemma db_wf_delete_rows p db : db_wf db -> db_wf (delete_group_articles p db).
Proof.
  intros Hwf. apply (db_wf_smaller db); [apply map_filter_subseteq|done|done| |done].
  intros k id t [Hl _]%delete_rows_lookup. exact (wf_reference _ Hwf _ _ _ Hl).
Qed.

Lemma db_wf_orphans db : db_wf db -> db_wf (delete_orphans db).
Proof.
  intros Hwf. apply (db_wf_smaller db); [done|apply map_filter_subseteq|done| |done].
  simpl. intros k id t Hl. destruct (wf_reference _ Hwf _ _ _ Hl) as [row Hrow].
  exists row. apply map_lookup_filter_Some. split; [done|]. apply is_referenced_true; eauto.
Qed.

Lemma db_wf_delete_message id db :
  db_wf db -> db_wf (if is_referenced id db then db else set_messages (delete id) db).
Proof.
  intros Hwf. destruct (is_referenced id db) eqn:Er; [done|].
  apply (db_wf_smaller db); [done|apply delete_subseteq|done| |done].
  simpl. intros k i t Hl. destruct (wf_reference _ Hwf _ _ _ Hl) as [row Hrow].
  exists row. apply lookup_delete_Some. split; [|done]. intros ->.
  by eapply is_referenced_false.
Qed.

Lemma db_wf_insert_row id row a db : row_stores id row a -> db_wf db -> db_wf (insert_message id row db).
Proof.
  intros Hrow [H1 H2 H3 H4]. split; [|exact H2| |exact H4].
  - intros k i t Hl. destruct (H1 k i t Hl) as [r Hr]. exists r. by apply insert_message_keeps.
  - intros i r [Hl|[-> ->]]%insert_message_lookup; [by eauto|]. by exists a.
Qed.

Lemma db_wf_insert_message id a hs db : headers_to_json (headers a) = Ok hs ->
  extract_message_id a = Some id -> db_wf db ->
  db_wf (insert_message id (mkMsgRow hs (body a) (i64_try_from (utf8_len (body a)) i64_max)) db).
Proof.
  intros Hj Hid. apply (db_wf_insert_row id _ a).
  destruct (headers_json_roundtrip (headers a)) as (j & Hj1 & Hj2).
  rewrite Hj1 in Hj. injection Hj as ->. by split_and!.
Qed.

(** What one turn of the loop over the newsgroups does. *)
Lemma store_in_group_ok ts id a g db :
  is_Some (db_messages db !! id) -> (max_number g db + 1 <= i64_max)%Z ->
  exists line, store_in_group ts id a g db
    = (Ret tt, set_overview (<[(g, (max_number g db + 1)%Z) := line]>)
                (set_group_articles (<[(g, (max_number g db + 1)%Z) := (id, ts)]>) db)).
Proof.
  intros [row Hrow] Hmax. unfold store_in_group, store_numbered, next_number, mbind'.
  destruct (Z.leb_spec (max_number g db + 1) i64_max); [|lia].
  unfold insert_group_article. rewrite next_free, Hrow. unfold mget, mlift.
  unfold generate_overview_line. destruct (extract_message_id a); simpl; eauto.
Qed.

Lemma store_in_group_line ts id a g db row :
  extract_message_id a = Some id -> db_messages db !! id = Some row ->
  mr_size row = i64_try_from (utf8_len (body a)) i64_max -> (max_number g db + 1 <= i64_max)%Z ->
  store_in_group ts id a g db
  = (Ret tt, set_overview (<[(g, (max_number g db + 1)%Z) := stored_line (as_u64 (max_number g db + 1)) a]>)
              (set_group_articles (<[(g, (max_number g db + 1)%Z) := (id, ts)]>) db)).
Proof.
  intros Hid Hrow Hsize Hmax. unfold store_in_group, store_numbered, next_number, mbind'.
  destruct (Z.leb_spec (max_number g db + 1) i64_max); [|lia].
  unfold insert_group_article. rewrite next_free, Hrow. unfold mget, mlift, stored_line, generate_overview_line.
  rewrite Hid. unfold ss_get_message_size. cbn [db_messages set_group_articles]. rewrite Hrow, Hsize.
  by rewrite stored_size_read.
Qed.

Lemma store_in_group_full ts id a g db :
  (i64_max < max_number g db + 1)%Z ->
  store_in_group ts id a g db = (Fail (lit "mismatched types"), db).
Proof.
  intros Hmax. unfold store_in_group, store_numbered, next_number, mbind'.
  destruct (Z.leb_spec (max_number g db + 1) i64_max); [lia|done].
Qed.

Definition stored_with (id : str) (db : Db) : Prop := db_wf db /\ is_Some (db_messages db !! id).

Lemma max_number_nonneg g db : db_wf db -> (0 <= max_number g db)%Z.
Proof.
  intros Hwf. destruct (max_number_attained g db) as [->|[v Hv]]; [done|].
  apply (wf_number _ Hwf) in Hv. lia.
Qed.

Lemma store_in_group_keeps ts id a g : keeps (stored_with id) (store_in_group ts id a g).
Proof.
  intros db o db' [Hwf Hid] E.
  destruct (Z.leb_spec (max_number g db + 1) i64_max) as [Hle|Hgt].
  - destruct (store_in_group_ok ts id a g db Hid Hle) as [line El]. rewrite El in E.
    injection E as _ <-. split; [|exact Hid]. pose proof (max_number_nonneg g db Hwf).
    destruct Hwf as [H1 H2 H3 H4]. split; simpl.
    + intros k i t [[_ [= -> ->]]|[_ Hl]]%lookup_insert_Some; [exact Hid|by eauto].
    + intros g' n v [[Heq _]|[_ Hl]]%lookup_insert_Some; [|by eauto].
      injection Heq as <- <-. lia.
    + exact H3.
    + intros k v [[<- _]|[Hne Hl]]%lookup_insert_Some; [by rewrite lookup_insert_eq; eauto|].
      rewrite lookup_insert_ne by done. by eauto.
  - rewrite store_in_group_full in E by done. by injection E as _ <-.
Qed.

Lemma ss_store_article_keeps now a : keeps db_wf (ss_store_article now a).
Proof.
  intros db o db' Hwf. unfold ss_store_article, mbind', mlift.
  destruct (extract_message_id a) as [id|] eqn:Eid; [|intros E; injection E as _ E; by subst].
  destruct (headers_json_roundtrip (headers a)) as (hs & Hj & _). simpl. rewrite Hj. simpl.
  intros E. eapply (keeps_for (stored_with id)) in E; [by destruct E| |].
  - intros g. apply store_in_group_keeps.
  - split; [by apply db_wf_insert_message|apply insert_message_present].
Qed.

Lemma ss_delete_article_keeps id : keeps db_wf (ss_delete_article_by_id id).
Proof.
  apply keeps_bind; [|intros _]; apply keeps_modify; intros db;
    [apply db_wf_delete_rows|apply db_wf_delete_message].
Qed.

Lemma ss_remove_group_keeps g : keeps db_wf (ss_remove_group g).
Proof.
  unfold ss_remove_group. apply keeps_bind; [|intros _; apply keeps_bind; [|intros _]];
    apply keeps_modify; intros db;
    [apply db_wf_delete_rows|apply db_wf_groups|apply db_wf_orphans].
Qed.

Lemma ss_remove_pattern_keeps p : keeps db_wf (ss_remove_groups_by_pattern p).
Proof.
  unfold ss_remove_groups_by_pattern. apply keeps_bind; [apply keeps_gets|intros names].
  apply keeps_for. intros g. apply ss_remove_group_keeps.
Qed.

(** With a Message-ID, a store is the insertion of the message, then the loop. *)
Lemma ss_store_article_unfold now a id : extract_message_id a = Some id ->
  exists hs, headers_of_json hs = Ok (headers a) /\ forall db,
    ss_store_article now a db
    = mfor (parse_newsgroups_from_message a) (store_in_group (timestamp now) id a)
        (insert_message id (mkMsgRow hs (body a) (i64_try_from (utf8_len (body a)) i64_max)) db).
Proof.
  intros Hid. destruct (headers_json_roundtrip (headers a)) as (hs & Hj & Hback).
  exists hs. split; [exact Hback|]. intros db. unfold ss_store_article, mbind', mlift.
  rewrite Hid. cbn [ok_or outcome_of]. rewrite Hj. reflexivity.
Qed.

(** The updates of the store. *)
Inductive StorageOp : Type :=
| OpStore (now : Z) (a : Message)
| OpAddGroup (now : Z) (g : str) (moderated : bool)
| OpAddGroupWithDescription (now : Z) (g : str) (moderated : bool) (d : str)
| OpSetModerated (g : str) (moderated : bool)
| OpRemoveGroup (g : str)
| OpRemovePattern (p : str)
| OpPurgeBefore (g : str) (before : Z)
| OpPurgeOrphans
| OpDeleteArticle (id : str).

Definition run_storage_op (op : StorageOp) : M Db unit :=
  match op with
  | OpStore now a => ss_store_article now a
  | OpAddGroup now g m => ss_add_group now g m
  | OpAddGroupWithDescription now g m d => ss_add_group_with_description now g m d
  | OpSetModerated g m => ss_set_group_moderated g m
  | OpRemoveGroup g => ss_remove_group g
  | OpRemovePattern p => ss_remove_groups_by_pattern p
  | OpPurgeBefore g t => ss_purge_group_before g t
  | OpPurgeOrphans => ss_purge_orphan_messages
  | OpDeleteArticle id => ss_delete_article_by_id id
  end.

(** A failed update leaves what it had done; the next one starts from there. *)
Definition run_storage_ops (ops : list StorageOp) (db : Db) : Db :=
  foldl (fun db op => snd (run_storage_op op db)) db ops.

Lemma storage_op_keeps op : keeps db_wf (run_storage_op op).
Proof.
  destruct op; simpl;
    eauto using ss_store_article_keeps, ss_remove_group_keeps, ss_remove_pattern_keeps,
      ss_delete_article_keeps;
    apply keeps_modify; auto using db_wf_groups, db_wf_delete_rows, db_wf_orphans.
Qed.

Lemma storage_ops_keep ops db : db_wf db -> db_wf (run_storage_ops ops db).
Proof.
  revert db. induction ops as [|op ops IH]; intros db Hwf; [done|]. simpl. apply IH.
  destruct (run_storage_op op db) as [o db'] eqn:E. by apply (storage_op_keeps op db o db' Hwf).
Qed.

End Integrity.

(** ** Storing, functionally *)
Section Store.
Context {X : Ext} `{!JsonLaws}.
Implicit Types db : Db.

Lemma max_number_spec g db m :
  (forall n v, db_group_articles db !! (g, n) = Some v -> (n <= m)%Z) ->
  is_Some (db_group_articles db !! (g, m)) \/
    (m = 0%Z /\ forall n, db_group_articles db !! (g, n) = None) ->
  max_number g db = m.
Proof.
  intros Hub [[v Hv]|[-> Hn]].
  - apply max_number_ge in Hv as Hle. destruct (max_number_attained g db) as [H0|[w Hw]].
    + unfold max_number in *. pose proof (proj2 (elem_group_rows g m v db) Hv) as Hin.
      destruct (fst <$> group_rows g db) as [|n l] eqn:E.
      { apply (list_elem_of_fmap_2 fst) in Hin. rewrite E in Hin. by apply elem_of_nil in Hin. }
      pose proof (foldr_max_elem n l) as Hm. rewrite <- E in Hm.
      apply list_elem_of_fmap in Hm as ([k w] & Hk & Hw). apply elem_group_rows in Hw.
      apply Hub in Hw. simpl in Hk. lia.
    + apply Hub in Hw. lia.
  - destruct (max_number_attained g db) as [H0|[w Hw]]; [done|]. by rewrite Hn in Hw.
Qed.

Lemma max_number_ext g db db' :
  (forall n, db_group_articles db' !! (g, n) = db_group_articles db !! (g, n)) ->
  max_number g db' = max_number g db.
Proof.
  intros Hext. apply max_number_spec.
  - intros n v. rewrite Hext. apply max_number_ge.
  - rewrite Hext. destruct (max_number_attained g db) as [H0|]; [|by left].
    destruct (db_group_articles db !! (g, max_number g db)) eqn:E; [by left; eauto|].
    right. split; [done|]. intros n. rewrite Hext.
    destruct (db_group_articles db !! (g, n)) as [v|] eqn:En; [|done].
    pose proof (proj2 (elem_group_rows g n v db) En) as Hin. exfalso.
    unfold max_number in E, H0. destruct (fst <$> group_rows g db) as [|k l] eqn:El.
    + apply (list_elem_of_fmap_2 fst) in Hin. rewrite El in Hin. by apply elem_of_nil in Hin.
    + pose proof (foldr_max_elem k l) as Hm. rewrite <- El in Hm.
      apply list_elem_of_fmap in Hm as ([j w] & Hj & Hw). apply elem_group_rows in Hw.
      simpl in Hj. rewrite <- Hj in Hw. congruence.
Qed.

(** The loop over distinct newsgroups adds one row and one overview line per group, after its
    last. *)
Lemma store_groups_ok ts id a gs db row :
  extract_message_id a = Some id -> db_messages db !! id = Some row ->
  mr_size row = i64_try_from (utf8_len (body a)) i64_max -> NoDup gs ->
  (forall g, g ∈ gs -> (max_number g db + 1 <= i64_max)%Z) ->
  exists db', mfor gs (store_in_group ts id a) db = (Ret tt, db')
    /\ db_messages db' = db_messages db /\ db_groups db' = db_groups db
    /\ (forall g n, db_group_articles db' !! (g, n)
          = if decide (g ∈ gs /\ n = (max_number g db + 1)%Z) then Some (id, ts)
            else db_group_articles db !! (g, n))
    /\ (forall g n, db_overview db' !! (g, n)
          = if decide (g ∈ gs /\ n = (max_number g db + 1)%Z) then Some (stored_line (as_u64 n) a)
            else db_overview db !! (g, n)).
Proof.
  intros Hext Hrow Hsize. revert db Hrow. induction gs as [|g gs IH]; intros db Hid Hnd Hmax.
  { exists db. split; [done|]. split; [done|]. split; [done|].
    split; intros g n; (rewrite decide_False; [done|]); intros [[]%elem_of_nil _]. }
  apply NoDup_cons in Hnd as [Hg Hnd].
  pose proof (store_in_group_line ts id a g db row Hext Hid Hsize (Hmax g (list_elem_of_here _ _))) as El.
  set (db1 := set_overview _ _) in El.
  assert (Hrows : forall h n, h <> g ->
    db_group_articles db1 !! (h, n) = db_group_articles db !! (h, n)
    /\ db_overview db1 !! (h, n) = db_overview db !! (h, n)).
  { intros h n Hne. simpl. rewrite !lookup_insert_ne by congruence. done. }
  assert (Hm : forall h, h ∈ gs -> max_number h db1 = max_number h db).
  { intros h Hh. apply max_number_ext. intros n. apply Hrows. congruence. }
  destruct (IH db1 Hid Hnd) as (db' & E & Hmsg & Hgrp & Hl & Ho).
  { intros h Hh. rewrite (Hm h Hh). apply Hmax. by right. }
  exists db'. split; [simpl; by rewrite (mbind_Ret _ _ _ _ _ El)|]. split; [done|]. split; [done|].
  (* The row a group has after the loop, in either table. *)
  assert (Hstep : forall {V} (f : gmap (str * Z) V) (v : Z -> V) (m m' : gmap (str * Z) V),
    f = <[(g, (max_number g db + 1)%Z) := v (max_number g db + 1)%Z]> m ->
    (forall h n, m' !! (h, n) = if decide (h ∈ gs /\ n = (max_number h db1 + 1)%Z) then Some (v n) else f !! (h, n)) ->
    forall h n, m' !! (h, n) = if decide (h ∈ g :: gs /\ n = (max_number h db + 1)%Z) then Some (v n) else m !! (h, n)).
  { intros V f v m m' -> Hm' h n. rewrite Hm'. destruct (decide (h = g)) as [->|Hne].
    - rewrite decide_False by naive_solver. destruct (decide _) as [[_ ->]|Hn]; [apply lookup_insert_eq|].
      apply lookup_insert_ne. intros [= <-]. apply Hn. split; [left|done].
    - rewrite lookup_insert_ne by congruence. destruct (decide (h ∈ gs)) as [Hh|Hh].
      + rewrite (Hm h Hh). destruct (decide (h ∈ gs /\ _)), (decide (h ∈ g :: gs /\ _)) as [|]; try done; set_solver.
      + rewrite decide_False by naive_solver. by rewrite decide_False by (rewrite elem_of_cons; naive_solver). }
  split; [by eapply (Hstep _ _ (fun _ => (id, ts)))|by eapply (Hstep _ _ (fun n => stored_line (as_u64 n) a))].
Qed.

Lemma sorted_lt_ext (l k : list Z) :
  StronglySorted Z.lt l -> StronglySorted Z.lt k -> (forall x, x ∈ l <-> x ∈ k) -> l = k.
Proof. exact (sorted_ext Z.lt l k). Qed.

Lemma elem_numbers g n db :
  n ∈ fst <$> group_rows_by_number g db <-> is_Some (db_group_articles db !! (g, n)).
Proof.
  rewrite list_elem_of_fmap. split.
  - intros ([m v] & -> & Hin). apply elem_rows_by_number in Hin. eauto.
  - intros [v Hv]. exists (n, v). split; [done|]. by apply elem_rows_by_number.
Qed.

Lemma numbers_fmap g db :
  ss_list_article_numbers g db
  = (fun z => Ok (u64_try_from z)) <$> (fst <$> group_rows_by_number g db).
Proof. unfold ss_list_article_numbers. by rewrite <- list_fmap_compose. Qed.

Lemma numbers_ext g db db' :
  (forall n, is_Some (db_group_articles db' !! (g, n)) <-> is_Some (db_group_articles db !! (g, n))) ->
  ss_list_article_numbers g db' = ss_list_article_numbers g db.
Proof.
  intros Hext. rewrite !numbers_fmap. f_equal.
  apply sorted_lt_ext; [apply rows_sorted..|]. intros n. rewrite !elem_numbers. apply Hext.
Qed.

Lemma numbers_snoc g m db db' :
  (forall n v, db_group_articles db !! (g, n) = Some v -> (n < m)%Z) ->
  (forall n, is_Some (db_group_articles db' !! (g, n))
             <-> n = m \/ is_Some (db_group_articles db !! (g, n))) ->
  ss_list_article_numbers g db' = ss_list_article_numbers g db ++ [Ok (u64_try_from m)].
Proof.
  intros Hlt Hext. rewrite !numbers_fmap.
  assert ((fst <$> group_rows_by_number g db') = (fst <$> group_rows_by_number g db) ++ [m]) as ->.
  { apply sorted_lt_ext; [apply rows_sorted| |].
    - assert (Hb : forall x, x ∈ fst <$> group_rows_by_number g db -> (x < m)%Z).
      { intros x [v Hv]%elem_numbers. by eapply Hlt. }
      pose proof (rows_sorted g db) as Hs. induction Hs as [|x l Hs IH Hx]; simpl;
        [by repeat constructor|].
      constructor; [apply IH; intros; apply Hb; by right|].
      apply Forall_app. split; [done|]. constructor; [apply Hb; left|constructor].
    - intros x. rewrite elem_of_app, !elem_numbers, Hext, list_elem_of_singleton. tauto. }
  by rewrite fmap_app.
Qed.

Lemma get_by_number_lookup g n db id t row :
  db_group_articles db !! (g, n) = Some (id, t) -> (1 <= n <= i64_max)%Z ->
  db_messages db !! id = Some row ->
  ss_get_article_by_number g (Z.to_N n) db = Some <$> message_of_row row.
Proof.
  intros Hl Hn Hrow. unfold ss_get_article_by_number, i64_try_from.
  rewrite Z2N.id by lia. destruct (Z.leb_spec n i64_max); [|lia]. by rewrite Hl, Hrow.
Qed.

(** The number the next article of a group gets. *)
Definition next_article_number (g : str) (db : Db) : N := Z.to_N (max_number g db + 1).

(** C17: storing an article whose Message-ID is new, with newsgroups named once each and none
    of them at the last [i64] number, succeeds; then the article can be read by its Message-ID
    and, in each of its newsgroups, under the number after the group's last, which is added at
    the end of the group's list.  Every row of the tables is accounted for: [messages] has one
    row more, [group_articles] and [overview] one more for each newsgroup, under its next
    number, and all other rows, and the groups, are as they were. *)
Theorem store_article_effect (now : Z) (a : Message) (id : str) (db : Db) :
  let gs := parse_newsgroups_from_message a in
  let added g n := g ∈ gs /\ n = (max_number g db + 1)%Z in
  db_wf db -> extract_message_id a = Some id -> db_messages db !! id = None ->
  NoDup gs -> (forall g, g ∈ gs -> (max_number g db < i64_max)%Z) ->
  exists db' row, ss_store_article now a db = (Ret tt, db')
    /\ ss_get_article_by_id id db' = Ok (Some a)
    /\ (forall g, g ∈ gs ->
          ss_get_article_by_number g (next_article_number g db) db' = Ok (Some a)
          /\ ss_list_article_numbers g db'
             = ss_list_article_numbers g db ++ [Ok (next_article_number g db)])
    /\ db_messages db' = <[id := row]> (db_messages db) /\ row_stores id row a
    /\ db_groups db' = db_groups db
    /\ (forall g n, added g n -> db_group_articles db' !! (g, n) = Some (id, timestamp now)
                                /\ db_overview db' !! (g, n) = Some (stored_line (as_u64 n) a))
    /\ (forall g n, ~ added g n -> db_group_articles db' !! (g, n) = db_group_articles db !! (g, n)
                                  /\ db_overview db' !! (g, n) = db_overview db !! (g, n)).
Proof.
  intros gs added Hwf Hid Hnew Hnd Hmax.
  destruct (ss_store_article_unfold now a id Hid) as (hs & Hback & Hs).
  set (row := mkMsgRow hs (body a) (i64_try_from (utf8_len (body a)) i64_max)) in Hs.
  set (db1 := insert_message id row db).
  assert (Hmessages : db_messages db1 = <[id := row]> (db_messages db)) by (simpl; by rewrite Hnew).
  assert (Hrow : db_messages db1 !! id = Some row) by (rewrite Hmessages; apply lookup_insert_eq).
  assert (Hread : message_of_row row = Ok a).
  { unfold message_of_row, reconstruct_message_from_row. simpl. rewrite Hback. by destruct a. }
  destruct (store_groups_ok (timestamp now) id a gs db1 row Hid Hrow eq_refl Hnd) as (db' & E & Hmsg & Hgrp & Hl & Ho);
    [intros g Hg; apply Hmax in Hg; change (max_number g db1) with (max_number g db); lia|].
  change (forall g n, db_group_articles db' !! (g, n)
    = if decide (g ∈ gs /\ n = (max_number g db + 1)%Z) then Some (id, timestamp now)
      else db_group_articles db !! (g, n)) in Hl.
  change (forall g n, db_overview db' !! (g, n)
    = if decide (g ∈ gs /\ n = (max_number g db + 1)%Z) then Some (stored_line (as_u64 n) a)
      else db_overview db !! (g, n)) in Ho.
  exists db', row. splits.
  - rewrite Hs. exact E.
  - unfold ss_get_article_by_id. rewrite Hmsg, Hrow, Hread. done.
  - intros g Hg. specialize (Hmax g Hg). pose proof (max_number_nonneg g db Hwf). split.
    + unfold next_article_number. erewrite get_by_number_lookup; [by rewrite Hread| |lia|].
      * rewrite Hl, decide_True by done. done.
      * by rewrite Hmsg.
    + rewrite (numbers_snoc g (max_number g db + 1) db).
      * unfold next_article_number, u64_try_from. destruct (Z.ltb_spec (max_number g db + 1) 0); [lia|done].
      * intros n v Hn%max_number_ge. lia.
      * intros n. rewrite Hl. destruct (decide _) as [[_ ->]|Hn]; [split; eauto|].
        split; [by right|]. intros [->|]; [|done]. by destruct Hn.
  - by rewrite Hmsg.
  - by split_and!.
  - done.
  - intros g n Hn. by rewrite Hl, Ho, !decide_True by done.
  - intros g n Hn. by rewrite Hl, Ho, !decide_False by done.
Qed.
End Store.

(** ** Removing *)
Section Remove.
Context {X : Ext}.
Implicit Types db : Db.

(** Deleting an article takes it away under its Message-ID and under every
    number it has in any group, and takes away nothing else. *)
Theorem delete_article_effect (id : str) (db : Db) :
  let (o, db') := ss_delete_article_by_id id db in
  o = Ret tt
  /\ (forall i, ss_get_article_by_id i db'
                = if decide (i = id) then Ok None else ss_get_article_by_id i db)
  /\ (forall g n, ss_get_article_by_number g n db'
        = if decide (fst <$> db_group_articles db !! (g, i64_try_from n (-1)) = Some id)
          then Ok None else ss_get_article_by_number g n db).
Proof.
  unfold ss_delete_article_by_id, mbind', mmodify.
  set (db1 := delete_group_articles _ db).
  assert (Hr : is_referenced id db1 = false).
  { destruct (is_referenced id db1) eqn:E; [|done].
    apply is_referenced_true in E as (k & t & [_ Hf]%delete_rows_lookup).
    by rewrite str_eqb_refl in Hf. }
  rewrite Hr. split; [done|]. unfold ss_get_article_by_id, ss_get_article_by_number. simpl. split.
  - intros i. destruct (decide (i = id)) as [->|Hne]; [by rewrite lookup_delete_eq|].
    by rewrite lookup_delete_ne.
  - intros g n. destruct (db_group_articles db !! (g, i64_try_from n (-1))) as [[i t]|] eqn:E.
    + cbn [fmap option_fmap option_map fst]. destruct (decide (Some i = Some id)) as [[= ->]|Hne].
      * rewrite map_lookup_filter_None_2; [done|]. right. intros [j u] Hj. rewrite E in Hj.
        injection Hj as <- <-. simpl. by rewrite str_eqb_refl.
      * rewrite (map_lookup_filter_Some_2 _ _ _ (i, t)); [|done|].
        { rewrite lookup_delete_ne by congruence. done. }
        simpl. destruct (str_eqb i id) eqn:Ei; [|done]. apply str_eqb_eq in Ei. congruence.
    + rewrite map_lookup_filter_None_2 by (by left). cbn. destruct (decide _); done.
Qed.

Lemma reads_same db db' id : db_messages db' !! id = db_messages db !! id ->
  ss_get_article_by_id id db' = ss_get_article_by_id id db.
Proof. unfold ss_get_article_by_id. by intros ->. Qed.

(** A retention pass over a group, followed by the removal of orphans,
    takes away exactly the rows of that group inserted before the cut-off and the messages
    no group names any more; whatever number is kept still reads the same article. *)
Theorem purge_effect (g : str) (before : Z) (db : Db) :
  let db1 := snd (ss_purge_group_before g before db) in
  let db2 := snd (ss_purge_orphan_messages db1) in
  (forall h n, db_group_articles db2 !! (h, n)
     = match db_group_articles db !! (h, n) with
       | Some (id, t) => if str_eqb h g && (t <? timestamp before)%Z then None else Some (id, t)
       | None => None
       end)
  /\ (forall id, ss_get_article_by_id id db2
        = if is_referenced id db1 then ss_get_article_by_id id db else Ok None)
  /\ (forall h n, ss_get_article_by_number h n db2 = ss_get_article_by_number h n db
        \/ (h = g /\ exists id t, db_group_articles db !! (h, i64_try_from n (-1)) = Some (id, t)
                     /\ (t < timestamp before)%Z)).
Proof.
  intros db1 db2.
  assert (Hl : forall h n, db_group_articles db2 !! (h, n)
     = match db_group_articles db !! (h, n) with
       | Some (id, t) => if str_eqb h g && (t <? timestamp before)%Z then None else Some (id, t)
       | None => None
       end).
  { intros h n. simpl. destruct (db_group_articles db !! (h, n)) as [[id t]|] eqn:E.
    - destruct (str_eqb h g && (t <? timestamp before)%Z) eqn:Ep.
      + apply map_lookup_filter_None_2. right. intros x Hx. rewrite E in Hx.
        injection Hx as <-. simpl. by rewrite Ep.
      + by apply map_lookup_filter_Some_2.
    - apply map_lookup_filter_None_2. by left. }
  assert (Hm : forall id, db_messages db2 !! id
            = if is_referenced id db1 then db_messages db !! id else None).
  { intros id. change (db_messages db2) with
      (filter (fun kv : str * MsgRow => is_referenced (fst kv) db1 = true) (db_messages db)).
    destruct (is_referenced id db1) eqn:Er.
    - destruct (db_messages db !! id) eqn:Ed; [by apply map_lookup_filter_Some_2|].
      apply map_lookup_filter_None_2. by left.
    - apply map_lookup_filter_None_2. right. simpl. congruence. }
  split; [exact Hl|]. split.
  - intros id. unfold ss_get_article_by_id. rewrite Hm. by destruct (is_referenced id db1).
  - intros h n. unfold ss_get_article_by_number. rewrite Hl.
    destruct (db_group_articles db !! (h, i64_try_from n (-1))) as [[id t]|] eqn:E; [|by left].
    destruct (str_eqb h g) eqn:Eh; simpl.
    + apply str_eqb_eq in Eh as ->. destruct (Z.ltb_spec t (timestamp before)).
      * right. split; [done|]. eauto.
      * left. rewrite Hm. assert (is_referenced id db1 = true) as ->; [|done].
        apply is_referenced_true. exists (g, i64_try_from n (-1)), t. apply delete_rows_lookup.
        split; [done|]. simpl. rewrite str_eqb_refl. simpl. by apply Z.ltb_ge.
    + left. rewrite Hm. assert (is_referenced id db1 = true) as ->; [|done].
      apply is_referenced_true. exists (h, i64_try_from n (-1)), t. apply delete_rows_lookup.
      split; [done|]. simpl. by rewrite Eh.
Qed.
End Remove.

(** ** Numbers that come back *)
Section Reuse.
Context {X : Ext} `{!JsonLaws}.

(** When a new article is stored and then deleted, the numbers it had are
    the ones the next article of the same groups gets. *)
Theorem deleted_number_reused (now : Z) (a : Message) (id : str) (db db1 : Db) (g : str) :
  db_wf db -> extract_message_id a = Some id -> db_messages db !! id = None ->
  NoDup (parse_newsgroups_from_message a) ->
  (forall g, g ∈ parse_newsgroups_from_message a -> (max_number g db < i64_max)%Z) ->
  ss_store_article now a db = (Ret tt, db1) ->
  let db2 := snd (ss_delete_article_by_id id db1) in
  db_group_articles db2 = db_group_articles db
  /\ next_article_number g db2 = next_article_number g db.
Proof.
  intros Hwf Hid Hnew Hnd Hmax E db2.
  assert (Hrows : db_group_articles db2 = db_group_articles db).
  { assert (Hno : forall k t, db_group_articles db !! k <> Some (id, t)).
    { intros k t Hl. destruct (wf_reference _ Hwf _ _ _ Hl). congruence. }
    destruct (ss_store_article_unfold now a id Hid) as (hs & _ & Hs). rewrite Hs in E.
    set (row := mkMsgRow hs _ _) in E.
    destruct (store_groups_ok (timestamp now) id a (parse_newsgroups_from_message a)
                (insert_message id row db) row) as (db' & E' & _ & _ & Hl & _).
    { done. }
    { simpl. rewrite Hnew. apply lookup_insert_eq. }
    { done. }
    { done. }
    { intros h Hh. apply Hmax in Hh.
      change (max_number h (insert_message id row db)) with (max_number h db). lia. }
    assert (db' = db1) as <- by (rewrite E' in E; by injection E).
    apply map_eq. intros [h n]. unfold db2, ss_delete_article_by_id, mbind', mmodify. simpl.
    transitivity (db_group_articles (delete_group_articles (fun _ v => str_eqb v.1 id) db') !! (h, n)).
    { by destruct (is_referenced id _). }
    simpl. specialize (Hl h n). simpl in Hl.
    destruct (db_group_articles db !! (h, n)) as [[i t]|] eqn:Eo.
    - apply map_lookup_filter_Some_2.
      + rewrite Hl, decide_False; [done|]. intros [_ ->].
        pose proof (next_free h db) as Hf. unfold insert_message in Eo.
        change (max_number h (set_messages _ db)) with (max_number h db) in Eo. congruence.
      + simpl. destruct (str_eqb i id) eqn:Ei; [|done]. apply str_eqb_eq in Ei as ->.
        by apply Hno in Eo.
    - apply map_lookup_filter_None_2. destruct (decide _) in Hl.
      + right. intros x Hx. rewrite Hl in Hx. injection Hx as <-. simpl. by rewrite str_eqb_refl.
      + by left. }
  split; [exact Hrows|]. unfold next_article_number. f_equal. f_equal.
  apply max_number_ext. intros n. by rewrite Hrows.
Qed.

(** The number of an article is read and used in two statements: when two
    articles for one group are stored at the same time and both read the number before
    either uses it, the second is stored but gets no number in the group, and its
    store fails. *)
Theorem concurrent_stores_collide (g : str) (n ts1 ts2 : Z) (id1 id2 : str) (a1 a2 : Message) (db : Db) :
  is_Some (db_messages db !! id1) -> is_Some (db_messages db !! id2) ->
  next_number g db = (Ret n, db) ->
  exists db1, store_numbered ts1 id1 a1 g n db = (Ret tt, db1)
    /\ next_number g db = (Ret n, db)
    /\ store_numbered ts2 id2 a2 g n db1 = (Fail (lit "UNIQUE constraint failed"), db1)
    /\ db_group_articles db1 !! (g, n) = Some (id1, ts1).
Proof.
  intros H1 H2 E.
  assert (n = (max_number g db + 1)%Z /\ (n <= i64_max)%Z) as [-> Hle].
  { revert E. unfold next_number. destruct (Z.leb_spec (max_number g db + 1) i64_max); [|done].
    intros E. injection E as <-. done. }
  destruct (store_in_group_ok ts1 id1 a1 g db H1 Hle) as [line El].
  unfold store_in_group in El. rewrite (mbind_Ret _ _ _ _ _ E) in El.
  eexists. split; [exact El|]. split; [exact E|].
  unfold store_numbered, mbind', insert_group_article. simpl. by rewrite lookup_insert_eq.
Qed.
End Reuse.

(** ** The contract of [Storage.v] *)
Section Laws.
Context {X : Ext} `{!JsonLaws}.
Implicit Types db : Db.

Lemma ss_get_by_id_total id db : db_wf db -> exists o, ss_get_article_by_id id db = Ok o.
Proof.
  intros Hwf. unfold ss_get_article_by_id, message_of_row, reconstruct_message_from_row.
  destruct (db_messages db !! id) as [row|] eqn:E; [|eauto].
  destruct (wf_message _ Hwf _ _ E) as (a & -> & _). simpl. eauto.
Qed.

Lemma ss_get_by_number_total g n db : db_wf db -> exists o, ss_get_article_by_number g n db = Ok o.
Proof.
  intros Hwf. unfold ss_get_article_by_number.
  destruct (db_group_articles db !! _) as [[id t]|]; [|eauto].
  apply (ss_get_by_id_total id db Hwf).
Qed.

(** The loop over the groups leaves the messages alone. *)
Lemma store_in_group_messages (P : gmap str MsgRow -> Prop) ts id a g :
  keeps (fun d => P (db_messages d)) (store_in_group ts id a g).
Proof.
  unfold store_in_group, store_numbered. apply keeps_bind.
  - intros d o d' Hd E. unfold next_number in E. by injection E as _ <-.
  - intros n. apply keeps_bind.
    + intros d o d' Hd E. unfold insert_group_article in E.
      destruct (db_group_articles d !! _), (db_messages d !! id); injection E as _ E; by subst.
    + intros _. apply keeps_bind; [apply keeps_get|intros d].
      apply keeps_bind; [apply keeps_lift|intros line]. by apply keeps_modify.
Qed.

(** Storing never changes a stored message: later inserts of the same key are ignored. *)
Lemma store_messages_mono now a db o db' id row :
  ss_store_article now a db = (o, db') ->
  db_messages db !! id = Some row -> db_messages db' !! id = Some row.
Proof.
  intros E Hl.
  assert (Hk : keeps (fun d => db_messages d !! id = Some row) (ss_store_article now a)).
  { unfold ss_store_article. apply keeps_bind; [apply keeps_lift|intros i].
    apply keeps_bind; [apply keeps_lift|intros hs].
    apply keeps_bind; [apply keeps_modify; intros d; apply insert_message_keeps|intros _].
    apply keeps_for. intros g. apply (store_in_group_messages (fun m => m !! id = Some row)). }
  exact (Hk _ _ _ Hl E).
Qed.

(** A message that is there after an insertion was there before, or is the article's. *)
Lemma insert_message_adds id a hs n db k art :
  headers_of_json hs = Ok (headers a) ->
  ss_get_article_by_id k (insert_message id (mkMsgRow hs (body a) n) db) = Ok (Some art) ->
  ss_get_article_by_id k db = Ok (Some art) \/ (art = a /\ k = id).
Proof.
  intros Hback. unfold ss_get_article_by_id, insert_message. cbn [db_messages set_messages].
  destruct (db_messages db !! id) as [row|] eqn:Ed; [by left|].
  destruct (decide (id = k)) as [->|Hne]; [|rewrite lookup_insert_ne by done; by left].
  rewrite lookup_insert_eq. unfold message_of_row, reconstruct_message_from_row. simpl. rewrite Hback.
  intros [= <-]. right. by destruct a.
Qed.

Lemma ss_store_adds_only now a db o db' id art :
  ss_store_article now a db = (o, db') -> ss_get_article_by_id id db' = Ok (Some art) ->
  ss_get_article_by_id id db = Ok (Some art) \/ (art = a /\ extract_message_id a = Some id).
Proof.
  destruct (extract_message_id a) as [i|] eqn:Hid.
  - destruct (ss_store_article_unfold now a i Hid) as (hs & Hback & ->). intros E Hget.
    set (db1 := insert_message i _ db) in E.
    assert (Hm : db_messages db' = db_messages db1).
    { eapply (keeps_for (fun d => db_messages d = db_messages db1)) in E; [exact E| |done].
      intros g. apply (store_in_group_messages (fun m => m = db_messages db1)). }
    assert (Hget1 : ss_get_article_by_id id db1 = Ok (Some art))
      by (unfold ss_get_article_by_id in *; by rewrite Hm in Hget).
    apply insert_message_adds in Hget1 as [?|[-> ->]]; [by left|by right|done].
  - unfold ss_store_article, mbind', mlift. rewrite Hid. intros [= _ <-]. by left.
Qed.

(** An update takes messages away or, where it stores an article, adds its row. *)
Lemma storage_op_messages op db id row :
  db_messages (snd (run_storage_op op db)) !! id = Some row ->
  db_messages db !! id = Some row \/ exists now a, op = OpStore now a /\ row_stores id row a.
Proof.
  assert (Hkeep : forall (m : M Db unit), keeps (fun d => db_messages d ⊆ db_messages db) m ->
    db_messages (snd (m db)) !! id = Some row -> db_messages db !! id = Some row).
  { intros m Hm Hl. destruct (m db) as [o d] eqn:E. eapply lookup_weaken; [exact Hl|]. by eapply (Hm db o d). }
  assert (Horphans : keeps (fun d => db_messages d ⊆ db_messages db) (mmodify delete_orphans)).
  { apply keeps_modify. intros d Hd. etrans; [|exact Hd]. apply map_filter_subseteq. }
  assert (Hremove : forall g, keeps (fun d => db_messages d ⊆ db_messages db) (ss_remove_group g)).
  { intros g. unfold ss_remove_group. do 2 (apply keeps_bind; [by apply keeps_modify|intros _]). exact Horphans. }
  destruct op as [now a|now g m|now g m d|g m|g|p|g t| |i]; cbn [run_storage_op].
  - destruct (ss_store_article now a db) as [o db'] eqn:E. cbn [snd]. intros Hl.
    destruct (extract_message_id a) as [i|] eqn:Hid.
    + destruct (ss_store_article_unfold now a i Hid) as (hs & Hback & Hs). rewrite Hs in E.
      set (db1 := insert_message i _ db) in E.
      assert (Hm : db_messages db' = db_messages db1).
      { eapply (keeps_for (fun d => db_messages d = db_messages db1)) in E; [exact E| |done].
        intros g. apply (store_in_group_messages (fun m => m = db_messages db1)). }
      rewrite Hm in Hl. apply insert_message_lookup in Hl as [?|[-> ->]]; [by left|]. right.
      exists now, a. by split_and!.
    + unfold ss_store_article, mbind', mlift in E. rewrite Hid in E. injection E as _ <-. by left.
  - intros Hl. left. revert Hl. apply Hkeep. by apply keeps_modify.
  - intros Hl. left. revert Hl. apply Hkeep. by apply keeps_modify.
  - intros Hl. left. revert Hl. apply Hkeep. by apply keeps_modify.
  - intros Hl. left. revert Hl. apply Hkeep, Hremove.
  - intros Hl. left. revert Hl. apply Hkeep. unfold ss_remove_groups_by_pattern.
    apply keeps_bind; [apply keeps_gets|intros names]. by apply keeps_for.
  - intros Hl. left. revert Hl. apply Hkeep. by apply keeps_modify.
  - intros Hl. left. revert Hl. by apply Hkeep.
  - intros Hl. left. revert Hl. apply Hkeep. unfold ss_delete_article_by_id.
    apply keeps_bind; [by apply keeps_modify|intros _]. apply keeps_modify. intros d Hd.
    destruct (is_referenced i d); [done|]. etrans; [apply delete_subseteq|exact Hd].
Qed.

(** Every row stores an article one of the updates stored. *)
Lemma storage_ops_messages ops id row : db_messages (run_storage_ops ops empty_db) !! id = Some row ->
  exists now a, OpStore now a ∈ ops /\ row_stores id row a.
Proof.
  induction ops as [|op ops IH] using rev_ind; [simpl; by rewrite lookup_empty|].
  unfold run_storage_ops. rewrite foldl_app. cbn [foldl].
  intros [Hl|(now & a & -> & Hr)]%storage_op_messages.
  - destruct (IH Hl) as (now & a & Hin & Hr). exists now, a. split; [apply elem_of_app; by left|done].
  - exists now, a. split; [apply elem_of_app; right; left|done].
Qed.

(** C5: whatever sequence of updates runs on a new database, failing ones included: every
    number of every group is between 1 and the greatest [i64], has an overview line and reads
    as the article of its message; and every row of [messages] - also of an article in no
    group, or whose store failed half-way - reads back under its Message-ID as an article one
    of the updates stored, with the size of its body. *)
Theorem storage_integrity (ops : list StorageOp) :
  let db := run_storage_ops ops empty_db in
  (forall g n id t, db_group_articles db !! (g, n) = Some (id, t) ->
     (1 <= n <= i64_max)%Z /\ is_Some (db_overview db !! (g, n))
     /\ exists a, ss_get_article_by_id id db = Ok (Some a)
                  /\ ss_get_article_by_number g (Z.to_N n) db = Ok (Some a))
  /\ (forall id, is_Some (db_messages db !! id) ->
        exists now a, OpStore now a ∈ ops /\ extract_message_id a = Some id
          /\ ss_get_article_by_id id db = Ok (Some a)
          /\ ss_get_message_size id db = Ok (Some (stored_size (body a)))).
Proof.
  intros db. assert (Hwf : db_wf db) by apply storage_ops_keep, db_wf_empty.
  assert (Hrow : forall id row a, db_messages db !! id = Some row -> row_stores id row a ->
            ss_get_article_by_id id db = Ok (Some a) /\ message_of_row row = Ok a).
  { intros id row a Hl (Hh & Hb & _). unfold ss_get_article_by_id, message_of_row, reconstruct_message_from_row.
    rewrite Hl, Hh, Hb. by destruct a. }
  split.
  - intros g n id t Hl. pose proof (wf_number _ Hwf _ _ _ Hl) as Hn. split; [done|].
    split; [by eapply wf_overview|]. destruct (wf_reference _ Hwf _ _ _ Hl) as [row Hr].
    destruct (wf_message _ Hwf _ _ Hr) as (a & Ha). destruct (Hrow _ _ _ Hr Ha) as [H1 H2].
    exists a. split; [done|]. rewrite (get_by_number_lookup g n db id t row Hl Hn Hr). by rewrite H2.
  - intros id [row Hr]. destruct (storage_ops_messages ops id row Hr) as (now & a & Hin & Ha).
    destruct (Hrow _ _ _ Hr Ha) as [H1 _]. destruct Ha as (_ & _ & Hsize & Hid).
    exists now, a. split_and!; [done..|]. unfold ss_get_message_size. rewrite Hr, Hsize. by rewrite stored_size_read.
Qed.

Lemma ss_store_then_get now a db db' id :
  extract_message_id a = Some id -> ss_store_article now a db = (Ret tt, db') ->
  ss_get_article_by_id id db = Ok None -> ss_get_article_by_id id db' = Ok (Some a).
Proof.
  intros Hid E Hnone. unfold ss_get_article_by_id in Hnone.
  destruct (db_messages db !! id) as [row|] eqn:Ed.
  { destruct (message_of_row row); done. }
  destruct (ss_store_article_unfold now a id Hid) as (hs & Hback & Hs). rewrite Hs in E.
  set (row := mkMsgRow hs _ _) in E.
  assert (Hrow : db_messages db' !! id = Some row).
  { eapply (keeps_for (fun d => db_messages d !! id = Some row)) in E; [exact E| |].
    - intros g. apply (store_in_group_messages (fun m => m !! id = Some row)).
    - simpl. rewrite Ed. apply lookup_insert_eq. }
  unfold ss_get_article_by_id. rewrite Hrow. unfold message_of_row, reconstruct_message_from_row.
  simpl. rewrite Hback. by destruct a.
Qed.

Lemma ss_numbers_listed g db :
  ss_list_article_numbers g db = Ok <$> (u64_try_from <$> (fst <$> group_rows_by_number g db)).
Proof. rewrite numbers_fmap. apply (list_fmap_compose u64_try_from Ok). Qed.

(** Numbers from 1 on are listed in increasing order. *)
Lemma ss_numbers_increase g db l :
  (forall n v, db_group_articles db !! (g, n) = Some v -> (1 <= n <= i64_max)%Z) ->
  ss_list_article_numbers g db = Ok <$> l -> StronglySorted N.lt l.
Proof.
  intros Hn. rewrite ss_numbers_listed. intros E%(f_equal try_collect).
  rewrite !try_collect_Ok in E. injection E as <-.
  assert (Hb : forall x, x ∈ fst <$> group_rows_by_number g db -> (1 <= x)%Z).
  { intros x [v Hv]%elem_numbers. pose proof (Hn _ _ Hv). lia. }
  pose proof (rows_sorted g db) as Hs. clear Hn.
  induction Hs as [|x l Hs IH Hx]; csimpl; [constructor|].
  constructor; [apply IH; intros; apply Hb; by right|].
  apply Forall_fmap. rewrite Forall_forall in Hx |- *. intros y Hy. specialize (Hx y Hy).
  specialize (Hb x (list_elem_of_here _ _)). simpl. unfold u64_try_from.
  destruct (Z.ltb_spec x 0), (Z.ltb_spec y 0); lia.
Qed.

Lemma ss_listed_readable g n db l : db_wf db -> ss_list_article_numbers g db = Ok <$> l ->
  n ∈ l <-> exists a, ss_get_article_by_number g n db = Ok (Some a).
Proof.
  intros Hwf. rewrite ss_numbers_listed. intros E%(f_equal try_collect).
  rewrite !try_collect_Ok in E. injection E as <-. rewrite list_elem_of_fmap. split.
  - intros (z & -> & Hz). apply elem_numbers in Hz as [[id t] Hv]. pose proof (wf_number _ Hwf _ _ _ Hv).
    destruct (wf_reference _ Hwf _ _ _ Hv) as [row Hrow].
    destruct (wf_message _ Hwf _ _ Hrow) as (a & Hh & _). eexists. unfold u64_try_from.
    replace (if (z <? 0)%Z then 0 else Z.to_N z) with (Z.to_N z) by (destruct (Z.ltb_spec z 0); lia).
    rewrite (get_by_number_lookup _ _ _ _ _ _ Hv) by done.
    unfold message_of_row, reconstruct_message_from_row. rewrite Hh. reflexivity.
  - intros [a Ha]. unfold ss_get_article_by_number in Ha.
    destruct (db_group_articles db !! _) as [[id t]|] eqn:Hv; [|done].
    pose proof (wf_number _ Hwf _ _ _ Hv) as Hn. unfold i64_try_from in Hn, Hv.
    destruct (Z.leb_spec (Z.of_N n) i64_max); [|lia]. exists (Z.of_N n). split.
    + unfold u64_try_from. destruct (Z.ltb_spec (Z.of_N n) 0); lia.
    + apply elem_numbers. by eexists.
Qed.

Lemma ss_by_number_by_id g n db a : ss_get_article_by_number g n db = Ok (Some a) ->
  exists id t, db_group_articles db !! (g, i64_try_from n (-1)) = Some (id, t)
    /\ ss_get_article_by_id id db = Ok (Some a).
Proof.
  unfold ss_get_article_by_number, ss_get_article_by_id.
  destruct (db_group_articles db !! _) as [[id t]|]; [|done]. intros Ha. by exists id, t.
Qed.

Lemma ss_by_id_named id db a : db_wf db -> ss_get_article_by_id id db = Ok (Some a) ->
  extract_message_id a = Some id /\ exists size, ss_get_message_size id db = Ok (Some size).
Proof.
  intros Hwf. unfold ss_get_article_by_id, ss_get_message_size.
  destruct (db_messages db !! id) as [row|] eqn:Hrow; [|done].
  destruct (wf_message _ Hwf _ _ Hrow) as (b & Hh & Hb & _ & Hid).
  unfold message_of_row, reconstruct_message_from_row. rewrite Hh, Hb. intros [= <-].
  split; [|by eexists]. rewrite <- Hid. by destruct b.
Qed.

#[export] Instance sqlite_storage_laws : StorageLaws Db.
Proof.
  refine {| st_wf := db_wf |}.
  - apply ss_store_article_keeps.
  - apply ss_delete_article_keeps.
  - intros g t. apply keeps_modify. intros db. apply db_wf_delete_rows.
  - apply keeps_modify. intros db. apply db_wf_orphans.
  - intros now g m. apply keeps_modify. intros db. apply db_wf_groups.
  - intros g m. apply keeps_modify. intros db. apply db_wf_groups.
  - apply ss_remove_group_keeps.
  - apply ss_remove_pattern_keeps.
  - intros now g m d. apply keeps_modify. intros db. apply db_wf_groups.
  - intros g db _ _. eexists. apply ss_numbers_listed.
  - intros g n db l Hwf _. by apply ss_get_by_number_total.
  - intros now a db db' id _. apply ss_store_then_get.
  - intros now a db db' id o _ E art. simpl. unfold ss_get_article_by_id.
    destruct (db_messages db !! id) as [row|] eqn:Ed; [|done].
    by rewrite (store_messages_mono _ _ _ _ _ _ _ E Ed).
  - intros now a db db' id o art _. apply ss_store_adds_only.
  - intros g db l Hwf. apply ss_numbers_increase. intros n v Hv.
    by pose proof (wf_number _ Hwf _ _ _ Hv).
  - apply ss_listed_readable.
  - intros g n db a _ (id & t & _ & Ha)%ss_by_number_by_id. by exists id.
  - apply ss_by_id_named.
  - intros db _. exists (fst <$> groups_by_name db). simpl. unfold ss_list_groups.
    by rewrite <- list_fmap_compose.
Defined.
End Laws.

(** ** Concrete runs *)
Definition art1 : Message :=
  mkMessage [(lit "Message-ID", lit "<1@x>"); (lit "Newsgroups", lit "misc.a, misc.b");
             (lit "Subject", lit "one")] (lit "hello").
Definition art2 : Message :=
  mkMessage [(lit "Message-ID", lit "<2@x>"); (lit "Newsgroups", lit "misc.a")] (lit "again").

Definition db_one : Db := snd (@ss_store_article Toy.ext ns_per_sec art1 empty_db).

Lemma db_one_wf : @db_wf Toy.ext db_one.
Proof.
  apply (@storage_ops_keep Toy.ext Toy.json_laws [OpStore ns_per_sec art1] empty_db).
  apply db_wf_empty.
Qed.

Lemma storage_integrity_witness :
  (exists a, @ss_get_article_by_number Toy.ext (lit "misc.b") 1 db_one = Ok (Some a))
  /\ exists now a, OpStore now a ∈ [OpStore ns_per_sec art1]
       /\ @ss_get_article_by_id Toy.ext (lit "<1@x>") db_one = Ok (Some a).
Proof.
  destruct (@storage_integrity Toy.ext Toy.json_laws [OpStore ns_per_sec art1]) as [H1 H2]. split.
  - destruct (H1 (lit "misc.b") 1%Z (lit "<1@x>") 1%Z) as (_ & _ & a & _ & Ha); [vm_compute; reflexivity|].
    exists a. exact Ha.
  - destruct (H2 (lit "<1@x>")) as (now & a & Hin & _ & Ha & _); [vm_compute; eexists; reflexivity|].
    exists now, a. split; [exact Hin|exact Ha].
Defined.

Lemma art2_groups g : g ∈ parse_newsgroups_from_message art2 -> g = lit "misc.a".
Proof.
  assert (parse_newsgroups_from_message art2 = [lit "misc.a"]) as -> by (vm_compute; reflexivity).
  apply list_elem_of_singleton.
Qed.

Lemma art2_nodup : NoDup (parse_newsgroups_from_message art2).
Proof.
  assert (parse_newsgroups_from_message art2 = [lit "misc.a"]) as -> by (vm_compute; reflexivity).
  apply NoDup_singleton.
Qed.

Lemma store_article_effect_witness :
  let db' := snd (@ss_store_article Toy.ext ns_per_sec art2 db_one) in
  @ss_get_article_by_number Toy.ext (lit "misc.a") 2 db' = Ok (Some art2)
  /\ db_overview db' !! (lit "misc.a", 1%Z) = db_overview db_one !! (lit "misc.a", 1%Z).
Proof.
  destruct (@store_article_effect Toy.ext Toy.json_laws ns_per_sec art2 (lit "<2@x>") db_one)
    as (db' & row & E & _ & H & _ & _ & _ & _ & Hrest).
  - apply db_one_wf.
  - vm_compute. reflexivity.
  - vm_compute. reflexivity.
  - apply art2_nodup.
  - intros g ->%art2_groups. vm_compute. reflexivity.
  - rewrite E. split.
    + apply (H (lit "misc.a")). apply elem_of_list_In. vm_compute. left. reflexivity.
    + apply Hrest. intros [_ Hn]. vm_compute in Hn. discriminate Hn.
Defined.

Lemma deleted_number_reused_witness :
  next_article_number (lit "misc.a")
    (snd (ss_delete_article_by_id (lit "<2@x>")
       (snd (@ss_store_article Toy.ext ns_per_sec art2 db_one)))) = 2.
Proof.
  destruct (@deleted_number_reused Toy.ext Toy.json_laws ns_per_sec art2 (lit "<2@x>") db_one
              (snd (@ss_store_article Toy.ext ns_per_sec art2 db_one)) (lit "misc.a")) as [_ H].
  - apply db_one_wf.
  - vm_compute. reflexivity.
  - vm_compute. reflexivity.
  - apply art2_nodup.
  - intros g ->%art2_groups. vm_compute. reflexivity.
  - vm_compute. reflexivity.
  - rewrite H. vm_compute. reflexivity.
Defined.

Lemma concurrent_stores_collide_witness :
  exists db1, store_numbered 5 (lit "<1@x>") art1 (lit "misc.c") 1 db_one = (Ret tt, db1)
    /\ fst (store_numbered 5 (lit "<1@x>") art2 (lit "misc.c") 1 db1)
       = Fail (lit "UNIQUE constraint failed").
Proof.
  destruct (concurrent_stores_collide (lit "misc.c") 1 5 5 (lit "<1@x>") (lit "<1@x>")
              art1 art2 db_one) as (db1 & E & _ & H & _).
  - vm_compute. eauto.
  - vm_compute. eauto.
  - vm_compute. reflexivity.
  - exists db1. split; [exact E|]. by rewrite H.
Defined.
