(* ===== verification/PgStorage.v ===== *)
(** * PgStorage: the PostgreSQL article store ([storage/postgres.rs])

    The same four tables as the SQLite store, [Db]; a BOOLEAN is written 1 or 0.  What is
    different is the server: it refuses a statement whose text parameters contain NUL, it
    sorts names by the collation of the database, and an integer that leaves 64 bits is an
    error of the statement.  The store meets the contract [StorageLaws], so that the theorems
    on the connections hold of it as well, and on texts without NUL it does what the SQLite
    store does. *)

From stdpp Require Import base numbers list gmap strings sorting.
From Stdlib Require Import NArith ZArith Lia Sorted.
From S2P Require Import Prelude Text Externals Message Wildmat Storage SqliteStorage.
Local Open Scope N_scope.

(** The collation of the database: a total order on names. *)
Class Collation := {
  collate_le : str -> str -> bool;
  collate_total : forall a b, collate_le a b = true \/ collate_le b a = true;
  collate_trans : forall a b c, collate_le a b = true -> collate_le b c = true -> collate_le a c = true;
}.

(** ** Statements and their parameters *)
Definition has_nul (t : str) : bool := existsb (N.eqb NUL) t.
Definition encoding_error : str := lit "invalid byte sequence for encoding UTF8: 0x00".

Definition pg_params {S} (params : list str) : M S unit :=
  if existsb has_nul params then mfail encoding_error else mreturn tt.
Definition pg_execute {S} (params : list str) (statement : S -> S) : M S unit :=
  (pg_params params ;;; mmodify statement)%m.
Definition pg_fetch {B} (params : list str) (row : result B) : result B :=
  if existsb has_nul params then Err encoding_error else row.
(** A stream whose query is refused has that error as its only item. *)
Definition pg_rows {B} (params : list str) (rows : list (result B)) : list (result B) :=
  if existsb has_nul params then [Err encoding_error] else rows.

Section PgStorage.
Context {X : Ext} {C : Collation}.

(** SELECT COALESCE(MAX(number),0)+1. *)
Definition pg_next_number (g : str) : M Db Z :=
  (pg_params [g] ;;; fun db =>
   let n := (max_number g db + 1)%Z in
   (if (n <=? i64_max)%Z then Ret n else Fail (lit "bigint out of range"), db))%m.

Definition pg_insert_group_article (g : str) (n : Z) (id : str) (now : Z) : M Db unit :=
  (pg_params [g; id] ;;; fun db =>
   match db_group_articles db !! (g, n), db_messages db !! id with
   | Some _, _ => (Fail (lit "duplicate key value violates unique constraint"), db)
   | None, None => (Fail (lit "violates foreign key constraint"), db)
   | None, Some _ => (Ret tt, set_group_articles (<[(g, n) := (id, now)]>) db)
   end)%m.

Definition pg_get_message_size (id : str) (db : Db) : result (option N) :=
  pg_fetch [id] (Ok (match db_messages db !! id with
                     | Some row => Some (u64_try_from (mr_size row))
                     | None => None
                     end)).

Definition pg_store_numbered (ts : Z) (id : str) (a : Message) (g : str) (next : Z) : M Db unit :=
  (pg_insert_group_article g next id ts ;;;
   db <-- mget ;;;
   line <-- mlift (generate_overview_line (fun i => pg_get_message_size i db) (as_u64 next) a) ;;;
   pg_execute [g; line] (set_overview (<[(g, next) := line]>)))%m.
Definition pg_store_in_group (ts : Z) (id : str) (a : Message) (g : str) : M Db unit :=
  (next <-- pg_next_number g ;;; pg_store_numbered ts id a g next)%m.

Definition pg_store_article (now : Z) (a : Message) : M Db unit :=
  (id <-- mlift (ok_or (extract_message_id a) (lit "missing Message-ID")) ;;;
   hs <-- mlift (headers_to_json (headers a)) ;;;
   pg_execute [id; hs; body a] (insert_message id
     (mkMsgRow hs (body a) (i64_try_from (utf8_len (body a)) i64_max))) ;;;
   mfor (parse_newsgroups_from_message a) (pg_store_in_group (timestamp now) id a))%m.

Definition pg_get_article_by_number (g : str) (n : N) (db : Db) : result (option Message) :=
  pg_fetch [g]
    match db_group_articles db !! (g, i64_try_from n (-1)) with
    | Some (id, _) =>
        match db_messages db !! id with
        | Some row => Some <$> message_of_row row
        | None => Ok None
        end
    | None => Ok None
    end.

Definition pg_get_article_by_id (id : str) (db : Db) : result (option Message) :=
  pg_fetch [id]
    match db_messages db !! id with
    | Some row => Some <$> message_of_row row
    | None => Ok None
    end.

Definition pg_get_articles_by_ids (ids : list str) (db : Db) : list (result (str * Message)) :=
  match ids with
  | [] => []
  | _ => pg_rows ids ((fun kv => pair (fst kv) <$> message_of_row (snd kv)) <$>
           List.filter (fun kv => existsb (str_eqb (fst kv)) ids) (map_to_list (db_messages db)))
  end.

Definition pg_add_group (now : Z) (g : str) (moderated : bool) : M Db unit :=
  pg_execute [g] (set_groups (fun m =>
    match m !! g with
    | Some _ => m
    | None => <[g := mkGroupRow (timestamp now) (i32_of_bool moderated) []]> m
    end)).

Definition pg_set_group_moderated (g : str) (moderated : bool) : M Db unit :=
  pg_execute [g] (set_groups (alter (fun r =>
    mkGroupRow (grp_created_at r) (i32_of_bool moderated) (grp_description r)) g)).

Definition pg_remove_group (g : str) : M Db unit :=
  (pg_execute [g] (delete_group_articles (fun k _ => str_eqb (fst k) g)) ;;;
   pg_execute [g] (set_groups (delete g)) ;;;
   pg_execute [] delete_orphans)%m.

Definition pg_remove_groups_by_pattern (pattern : str) : M Db unit :=
  (names <-- mgets (fun db => fst <$> map_to_list (db_groups db)) ;;;
   mfor (List.filter (wildmat pattern) names) pg_remove_group)%m.

Definition pg_is_group_moderated (g : str) (db : Db) : result bool :=
  pg_fetch [g] (Ok (match db_groups db !! g with
                    | Some r => negb (grp_moderated r =? 0)%Z
                    | None => false
                    end)).

Definition pg_group_exists (g : str) (db : Db) : result bool :=
  pg_fetch [g] (Ok (match db_groups db !! g with Some _ => true | None => false end)).

Definition pg_add_group_with_description (now : Z) (g : str) (moderated : bool) (d : str) : M Db unit :=
  pg_execute [g; d] (set_groups (fun m =>
    match m !! g with
    | Some r => <[g := mkGroupRow (grp_created_at r) (i32_of_bool moderated) d]> m
    | None => <[g := mkGroupRow (timestamp now) (i32_of_bool moderated) d]> m
    end)).

(** ORDER BY name. *)
Definition collated (a b : str * GroupRow) : Prop := collate_le (fst a) (fst b) = true.
#[export] Instance collated_dec a b : Decision (collated a b).
Proof. unfold collated. apply _. Defined.
#[export] Instance collated_total : Total collated.
Proof. intros a b. apply collate_total. Qed.
#[export] Instance collated_trans : Transitive collated.
Proof. intros a b c. apply collate_trans. Qed.
Definition pg_groups_by_name (db : Db) : list (str * GroupRow) :=
  merge_sort collated (map_to_list (db_groups db)).

Definition pg_list_groups_with_descriptions (db : Db) : list (result (str * str)) :=
  (fun kv => Ok (fst kv, grp_description (snd kv))) <$> pg_groups_by_name db.
Definition pg_list_groups (db : Db) : list (result str) :=
  (fun kv => Ok (fst kv)) <$> pg_groups_by_name db.
Definition pg_list_groups_since (since : Z) (db : Db) : list (result str) :=
  (fun kv => Ok (fst kv)) <$>
    List.filter (fun kv => (timestamp since <? grp_created_at (snd kv))%Z) (pg_groups_by_name db).
Definition pg_list_groups_with_times (db : Db) : list (result (str * Z)) :=
  (fun kv => Ok (fst kv, grp_created_at (snd kv))) <$> pg_groups_by_name db.

Definition pg_list_article_numbers (g : str) (db : Db) : list (result N) :=
  pg_rows [g] ((fun r => Ok (u64_try_from (fst r))) <$> group_rows_by_number g db).
Definition pg_list_article_ids (g : str) (db : Db) : list (result str) :=
  pg_rows [g] ((fun r => Ok (fst (snd r))) <$> group_rows_by_number g db).
Definition pg_list_article_ids_since (g : str) (since : Z) (db : Db) : list (result str) :=
  pg_rows [g] ((fun r => Ok (fst (snd r))) <$>
    List.filter (fun r => (timestamp since <? snd (snd r))%Z) (group_rows_by_number g db)).

Definition pg_purge_group_before (g : str) (before : Z) : M Db unit :=
  pg_execute [g] (delete_group_articles (fun k v =>
    str_eqb (fst k) g && (snd v <? timestamp before)%Z)).

Definition pg_purge_orphan_messages : M Db unit := pg_execute [] delete_orphans.

Definition pg_delete_article_by_id (id : str) : M Db unit :=
  (pg_execute [id] (delete_group_articles (fun _ v => str_eqb (fst v) id)) ;;;
   pg_execute [id] (fun db => if is_referenced id db then db else set_messages (delete id) db))%m.

Definition pg_get_overview_range (g : str) (start last : N) (db : Db) : result (list str) :=
  let rows := omap (fun kv : (str * Z) * str =>
                if str_eqb (fst (fst kv)) g
                   && (i64_try_from start 0 <=? snd (fst kv))%Z
                   && (snd (fst kv) <=? i64_try_from last i64_max)%Z
                then Some (snd (fst kv), (snd kv, 0%Z)) else None)
                (map_to_list (db_overview db)) in
  pg_fetch [g] (Ok ((fun r => fst (snd r)) <$> merge_sort row_le rows)).

(** Not an instance: the tables are those of the SQLite store. *)
Definition postgres_storage : Storage Db := {|
  store_article := pg_store_article;
  get_article_by_number := pg_get_article_by_number;
  get_article_by_id := pg_get_article_by_id;
  get_articles_by_ids := pg_get_articles_by_ids;
  get_overview_range := pg_get_overview_range;
  add_group := pg_add_group;
  set_group_moderated := pg_set_group_moderated;
  remove_group := pg_remove_group;
  remove_groups_by_pattern := pg_remove_groups_by_pattern;
  list_groups := pg_list_groups;
  list_groups_since := pg_list_groups_since;
  list_groups_with_times := pg_list_groups_with_times;
  list_article_numbers := pg_list_article_numbers;
  list_article_ids := pg_list_article_ids;
  list_article_ids_since := pg_list_article_ids_since;
  purge_group_before := pg_purge_group_before;
  purge_orphan_messages := pg_purge_orphan_messages;
  get_message_size := pg_get_message_size;
  delete_article_by_id := pg_delete_article_by_id;
  is_group_moderated := pg_is_group_moderated;
  group_exists := pg_group_exists;
  add_group_with_description := pg_add_group_with_description;
  list_groups_with_descriptions := pg_list_groups_with_descriptions;
|}.
End PgStorage.

(** ** Texts without NUL *)
Definition clean (t : str) : Prop := NUL ∉ t.

Create HintDb clean discriminated.

Section Clean.
Implicit Types t : str.

Lemma has_nul_app (a b : str) : has_nul (a ++ b) = has_nul a || has_nul b.
Proof. apply existsb_app. Qed.

Lemma clean_has_nul t : clean t <-> has_nul t = false.
Proof.
  unfold clean, has_nul. rewrite <- not_true_iff_false, existsb_exists. split.
  - intros Hn (c & Hin & <-%N.eqb_eq). apply Hn. by apply elem_of_list_In.
  - intros Hn Hin. apply Hn. exists NUL. split; [by apply elem_of_list_In|by apply N.eqb_eq].
Qed.

Lemma clean_params l : Forall clean l -> existsb has_nul l = false.
Proof.
  induction 1 as [|t l Ht Hl IH]; [done|]. simpl. by rewrite (proj1 (clean_has_nul t) Ht), IH.
Qed.

Lemma clean_app a b : clean a -> clean b -> clean (a ++ b).
Proof. unfold clean. rewrite elem_of_app. tauto. Qed.

Lemma clean_incl a b : (forall c, c ∈ a -> c ∈ b) -> clean b -> clean a.
Proof. unfold clean. auto. Qed.

Lemma clean_digits n : clean (show_N n).
Proof.
  intros Hin. pose proof (show_N_digits n) as Hd. rewrite forallb_forall in Hd.
  by assert (is_ascii_digit NUL = true) by by apply Hd, elem_of_list_In.
Qed.

Lemma trim_start_incl f t c : c ∈ trim_start_matches f t -> c ∈ t.
Proof.
  induction t as [|d t IH]; simpl; [done|]. destruct (f d); [|done]. intros Hin. right. by apply IH.
Qed.

Lemma trim_incl t c : c ∈ trim t -> c ∈ t.
Proof.
  unfold trim, trim_matches, trim_end_matches. intros Hin.
  apply elem_of_list_In, in_rev, elem_of_list_In, trim_start_incl in Hin.
  apply elem_of_list_In, in_rev, elem_of_list_In, trim_start_incl in Hin. done.
Qed.

Lemma split_on_incl d t p c : p ∈ split_on d t -> c ∈ p -> c ∈ t.
Proof.
  revert p. induction t as [|x t IH]; intros p; simpl.
  - rewrite list_elem_of_singleton. by intros ->.
  - destruct (x =? d).
    + intros [->|Hp]%elem_of_cons Hc; [by apply elem_of_nil in Hc|right; by eapply IH].
    + destruct (split_on d t) as [|q l].
      * intros ->%list_elem_of_singleton ->%list_elem_of_singleton. left.
      * intros [->|Hp]%elem_of_cons Hc.
        -- apply elem_of_cons in Hc as [->|Hc]; [left|right; eapply IH; [left|done]].
        -- right. eapply IH; [right; exact Hp|done].
Qed.

Lemma clean_join sep l : clean sep -> Forall clean l -> clean (join sep l).
Proof.
  intros Hs. induction 1 as [|t l Ht Hl IH]; [apply not_elem_of_nil|].
  cbn [join]. destruct l; [done|]. by repeat apply clean_app.
Qed.

(** An article as it comes without NUL. *)
Definition clean_article (a : Message) : Prop :=
  Forall (fun kv => clean (snd kv)) (headers a) /\ clean (body a).

(** The headers whose values become parameters; the others go into the JSON text, which
    escapes NUL. *)
Definition bound_headers : list str :=
  [lit "Message-ID"; lit "Newsgroups"; lit "Subject"; lit "From"; lit "Date"; lit "References"].
Definition clean_bound (a : Message) : Prop :=
  Forall (fun name => clean (default [] (get_header_value a name))) bound_headers /\ clean (body a).

Lemma clean_header a name v : clean_article a -> get_header_value a name = Some v -> clean v.
Proof.
  intros [Hh _]. unfold get_header_value. destruct (find_first _ _) as [kv|] eqn:E; [|done].
  apply find_first_Some in E as [Hin _]. intros [= <-].
  rewrite Forall_forall in Hh. by apply (Hh kv), elem_of_list_In.
Qed.

Lemma clean_article_bound a : clean_article a -> clean_bound a.
Proof.
  intros Ha. split; [|apply Ha]. apply Forall_forall. intros name _.
  destruct (get_header_value a name) eqn:E; [by eapply clean_header|apply not_elem_of_nil].
Qed.

Lemma clean_bound_header a name : clean_bound a -> In name bound_headers ->
  clean (default [] (get_header_value a name)).
Proof. intros [Ha _] Hin. rewrite Forall_forall in Ha. by apply Ha, elem_of_list_In. Qed.

Lemma clean_group a g : clean_bound a -> g ∈ parse_newsgroups_from_message a -> clean g.
Proof.
  intros Ha. pose proof (clean_bound_header a (lit "Newsgroups") Ha ltac:(simpl; tauto)) as Hn.
  unfold parse_newsgroups_from_message.
  destruct (get_header_value a _) as [v|] eqn:E; [|by intros ?%elem_of_nil].
  rewrite elem_of_list_In, filter_In, <- elem_of_list_In. intros [Hin _].
  apply list_elem_of_fmap in Hin as (p & -> & Hp).
  apply (clean_incl _ v); [|done]. intros c Hc%trim_incl. by eapply split_on_incl.
Qed.

Lemma clean_overview a f n l : clean_bound a -> generate_overview_line f n a = Ok l -> clean l.
Proof.
  intros Ha. unfold generate_overview_line.
  pose proof (fun name => clean_bound_header a name Ha) as Hf.
  assert (Hj : forall ts, Forall clean ts -> Ok (join [TAB] ts) = Ok l -> clean l).
  { intros ts Hts [= <-]. apply clean_join; [|done]. by intros ?%list_elem_of_singleton. }
  destruct (match extract_message_id a with Some id => _ | None => _ end) as [b|e]; [|done].
  apply Hj. repeat constructor; try apply clean_digits; apply Hf; simpl; tauto.
Qed.
End Clean.
#[export] Hint Resolve clean_digits : clean.

(** ** The two stores on texts without NUL *)
Section Equivalence.
Context {X : Ext} {C : Collation} `{!JsonLaws}.
Implicit Types db : Db.

Definition run_pg_op (op : StorageOp) : M Db unit :=
  match op with
  | OpStore now a => pg_store_article now a
  | OpAddGroup now g m => pg_add_group now g m
  | OpAddGroupWithDescription now g m d => pg_add_group_with_description now g m d
  | OpSetModerated g m => pg_set_group_moderated g m
  | OpRemoveGroup g => pg_remove_group g
  | OpRemovePattern p => pg_remove_groups_by_pattern p
  | OpPurgeBefore g t => pg_purge_group_before g t
  | OpPurgeOrphans => pg_purge_orphan_messages
  | OpDeleteArticle id => pg_delete_article_by_id id
  end.
Definition run_pg_ops (ops : list StorageOp) (db : Db) : Db :=
  foldl (fun db op => snd (run_pg_op op db)) db ops.

Definition clean_op (op : StorageOp) : Prop :=
  match op with
  | OpStore _ a => clean_article a
  | OpAddGroup _ g _ | OpSetModerated g _ | OpRemoveGroup g | OpPurgeBefore g _ => clean g
  | OpAddGroupWithDescription _ g _ d => clean g /\ clean d
  | OpDeleteArticle id => clean id
  | OpRemovePattern _ | OpPurgeOrphans => True
  end.

(** The names in the table of groups are bound as parameters when a pattern is removed. *)
Definition clean_names db : Prop := forall g r, db_groups db !! g = Some r -> clean g.

Lemma pg_execute_clean params (f : Db -> Db) db : Forall clean params ->
  pg_execute params f db = mmodify f db.
Proof. intros Hp. unfold pg_execute, pg_params. by rewrite clean_params. Qed.

Lemma execute_agree (I : Db -> Prop) params (f : Db -> Db) : Forall clean params ->
  (forall db, I db -> I (f db)) -> agree I (pg_execute params f) (mmodify f).
Proof. intros Hp Hf db Hn. rewrite pg_execute_clean by done. split; [done|]. split; [done|]. by apply Hf. Qed.

Lemma clean_insert g (r : GroupRow) db :
  clean g -> clean_names db -> clean_names (set_groups (<[g := r]>) db).
Proof.
  intros Hg Hn h r'. simpl. intros [[<- _]|[_ Hh]]%lookup_insert_Some; [done|by eapply Hn].
Qed.

(** Storing looks at no group. *)
Lemma store_in_group_agree (I : Db -> Prop) ts id a g :
  (forall db db', db_groups db' = db_groups db -> I db -> I db') ->
  clean_bound a -> clean g -> clean id -> extract_message_id a = Some id ->
  agree I (pg_store_in_group ts id a g) (store_in_group ts id a g).
Proof.
  intros HI Ha Hg Hid Ei. unfold pg_store_in_group, store_in_group. apply agree_bind.
  { intros db Hn. unfold pg_next_number, next_number, pg_params.
    rewrite clean_params by by repeat constructor. unfold mbind', mreturn.
    by destruct (_ <=? _)%Z. }
  intros n. unfold pg_store_numbered, store_numbered. apply agree_bind.
  { intros db Hn. unfold pg_insert_group_article, insert_group_article, pg_params.
    rewrite clean_params by by repeat constructor. unfold mbind', mreturn.
    destruct (db_group_articles db !! (g, n)), (db_messages db !! id); split_and!; try done.
    simpl. exact (HI db (set_group_articles _ db) eq_refl Hn). }
  intros _. apply (agree_gets _ (fun db : Db => db)). intros db Hn.
  assert (Hgen : generate_overview_line (fun i => pg_get_message_size i db) (as_u64 n) a
          = generate_overview_line (fun i => ss_get_message_size i db) (as_u64 n) a).
  { unfold generate_overview_line. rewrite Ei. unfold pg_get_message_size, pg_fetch.
    by rewrite clean_params by by repeat constructor. }
  rewrite Hgen. apply agree_lift. intros line Hl. apply (execute_agree _); [|intros d Hd; refine (HI d _ _ Hd); reflexivity].
  repeat constructor; [done|]. by eapply clean_overview.
Qed.

Lemma store_article_agree (I : Db -> Prop) now a :
  (forall db db', db_groups db' = db_groups db -> I db -> I db') -> clean_bound a ->
  agree I (pg_store_article now a) (ss_store_article now a).
Proof.
  intros HI Ha. apply agree_lift. intros id Ei%ok_or_Ok. apply agree_lift. intros hs Hj.
  assert (Hid : clean id).
  { pose proof (clean_bound_header a (lit "Message-ID") Ha ltac:(simpl; tauto)) as Hc.
    unfold extract_message_id in Ei. by rewrite Ei in Hc. }
  apply agree_bind; [apply (execute_agree _); [|intros d Hd; refine (HI d _ _ Hd); reflexivity]|].
  - repeat constructor; [done|by eapply headers_json_escaped|apply Ha].
  - intros _. apply agree_for. intros g Hg. apply store_in_group_agree; try done.
    by eapply clean_group.
Qed.

Lemma remove_group_agree g : clean g -> agree clean_names (pg_remove_group g) (ss_remove_group g).
Proof.
  intros Hg. unfold pg_remove_group, ss_remove_group.
  apply agree_bind; [|intros _; apply agree_bind; [|intros _]]; apply (execute_agree _);
    try done; try by repeat constructor.
  intros db Hn h r. simpl. intros [_ Hl]%lookup_delete_Some. by eapply Hn.
Qed.

Lemma run_op_agree op : clean_op op -> agree clean_names (run_pg_op op) (run_storage_op op).
Proof.
  destruct op as [now a|now g m|now g m d|g m|g|p|g t| |id]; simpl; intros Hc.
  - apply store_article_agree; [|by apply clean_article_bound].
    intros db db' E Hn h r. rewrite E. by apply Hn.
  - apply (execute_agree _); [by repeat constructor|]. intros db Hn. unfold set_groups.
    intros h r. simpl. destruct (db_groups db !! g); [apply Hn|]. by apply (clean_insert g _ db).
  - destruct Hc as [Hg Hd]. apply (execute_agree _); [by repeat constructor|]. intros db Hn h r. simpl.
    destruct (db_groups db !! g); by apply (clean_insert g _ db).
  - apply (execute_agree _); [by repeat constructor|]. intros db Hn h r. simpl.
    destruct (decide (g = h)) as [->|Hne]; [done|]. rewrite lookup_alter_ne by done. apply Hn.
  - by apply remove_group_agree.
  - apply agree_gets. intros db Hn. apply agree_for. intros g Hg. apply remove_group_agree.
    apply elem_of_list_In, filter_In in Hg as [Hg _]. apply elem_of_list_In in Hg.
    apply list_elem_of_fmap in Hg as ([h r] & -> & Hin). apply elem_of_map_to_list in Hin.
    by eapply Hn.
  - apply (execute_agree _); [by repeat constructor|done].
  - apply (execute_agree _); [by repeat constructor|done].
  - apply agree_bind; [|intros _]; apply (execute_agree _); try done; try by repeat constructor.
    intros db Hn. by destruct (is_referenced id db).
Qed.

Lemma run_ops_agree ops db : Forall clean_op ops -> clean_names db ->
  run_pg_ops ops db = run_storage_ops ops db /\ clean_names (run_storage_ops ops db).
Proof.
  intros Ho. revert db. induction Ho as [|op ops Hop Ho IH]; intros db Hn; [done|]. simpl.
  destruct (run_op_agree op Hop db Hn) as (_ & -> & Hn'). by apply IH.
Qed.

Lemma names_permuted db : pg_groups_by_name db ≡ₚ groups_by_name db.
Proof. unfold pg_groups_by_name, groups_by_name. by rewrite !merge_sort_Permutation. Qed.

(** C26: on texts without NUL the PostgreSQL store does what the SQLite store does: after
    the same updates of a new store the tables are equal, the next update has the same
    outcome (but for the text of an error) and the same effect, every lookup and article
    listing gives the same answer, and the listings of groups the same entries, which
    PostgreSQL orders by the collation of the database. *)
Theorem postgres_agrees (ops : list StorageOp) (op : StorageOp) :
  Forall clean_op ops -> clean_op op ->
  let db := run_pg_ops ops empty_db in
  db = run_storage_ops ops empty_db
  /\ same_outcome (fst (run_pg_op op db)) (fst (run_storage_op op db))
  /\ snd (run_pg_op op db) = snd (run_storage_op op db)
  /\ (forall id, clean id -> pg_get_article_by_id id db = ss_get_article_by_id id db
        /\ pg_get_message_size id db = ss_get_message_size id db)
  /\ (forall g, clean g ->
        (forall n, pg_get_article_by_number g n db = ss_get_article_by_number g n db)
        /\ pg_list_article_numbers g db = ss_list_article_numbers g db
        /\ (forall t, pg_list_article_ids_since g t db = ss_list_article_ids_since g t db)
        /\ (forall lo hi, pg_get_overview_range g lo hi db = ss_get_overview_range g lo hi db))
  /\ pg_list_groups_with_descriptions db ≡ₚ ss_list_groups_with_descriptions db
  /\ StronglySorted collated (pg_groups_by_name db).
Proof.
  intros Ho Hop db.
  destruct (run_ops_agree ops empty_db Ho) as [Heq Hn]; [intros g r; simpl; by rewrite lookup_empty|].
  fold db in Heq. rewrite <- Heq in Hn. destruct (run_op_agree op Hop db Hn) as (Hout & Hst & _).
  split; [exact Heq|]. split; [exact Hout|]. split; [exact Hst|]. clear.
  split; [|split; [|split]].
  - intros id Hid. unfold pg_get_article_by_id, pg_get_message_size, pg_fetch.
    by rewrite clean_params by by repeat constructor.
  - intros g Hg. unfold pg_get_article_by_number, pg_list_article_numbers,
      pg_list_article_ids_since, pg_get_overview_range, pg_fetch, pg_rows.
    by rewrite clean_params by by repeat constructor.
  - unfold pg_list_groups_with_descriptions, ss_list_groups_with_descriptions.
    by rewrite names_permuted.
  - apply StronglySorted_merge_sort; apply _.
Qed.
End Equivalence.

(** ** The contract of [Storage.v] *)
Section Laws.
Context {X : Ext} {C : Collation} `{!JsonLaws}.
Implicit Types db : Db.

(** The store is well formed but for overview rows, which are missing where the server
    refused to insert one. *)
Definition pg_shape db : Prop :=
  exists gs ov, db_wf (mkDb (db_messages db) (db_group_articles db) gs ov).

Lemma pg_shape_empty : pg_shape empty_db.
Proof. exists ∅, ∅. apply db_wf_empty. Qed.

Lemma pg_execute_keeps (I : Db -> Prop) params f : (forall db, I db -> I (f db)) ->
  keeps I (pg_execute params f).
Proof.
  intros Hf. apply keeps_bind; [|intros _; by apply keeps_modify].
  unfold pg_params. destruct (existsb _ _); [apply keeps_fail|apply keeps_ret].
Qed.

Lemma pg_shape_delete_rows p db : pg_shape db -> pg_shape (delete_group_articles p db).
Proof. intros (gs & ov & Hwf%(db_wf_delete_rows p)). by exists gs, ov. Qed.

Lemma pg_shape_orphans db : pg_shape db -> pg_shape (delete_orphans db).
Proof. intros (gs & ov & Hwf%db_wf_orphans). by exists gs, ov. Qed.

Lemma pg_shape_delete_message id db :
  pg_shape db -> pg_shape (if is_referenced id db then db else set_messages (delete id) db).
Proof.
  intros (gs & ov & Hwf%(db_wf_delete_message id)). exists gs, ov.
  change (is_referenced id (mkDb _ _ _ _)) with (is_referenced id db) in Hwf.
  by destruct (is_referenced id db).
Qed.

(** A row under the next number, for a message that is there. *)
Lemma pg_shape_insert ts id g db : pg_shape db -> is_Some (db_messages db !! id) ->
  (max_number g db + 1 <= i64_max)%Z ->
  pg_shape (set_group_articles (<[(g, (max_number g db + 1)%Z) := (id, ts)]>) db).
Proof.
  intros (gs & ov & Hwf) Hid Hmax.
  destruct (store_in_group_ok ts id (mkMessage [] []) g _ (Hid : is_Some (db_messages
    (mkDb (db_messages db) (db_group_articles db) gs ov) !! id)) Hmax) as [line E].
  destruct (store_in_group_keeps ts id (mkMessage [] []) g _ _ _ (conj Hwf Hid) E) as [Hwf' _].
  eexists _, _. exact Hwf'.
Qed.

Definition pg_stored_with (id : str) db : Prop := pg_shape db /\ is_Some (db_messages db !! id).

Lemma pg_store_in_group_keeps ts id a g : keeps (pg_stored_with id) (pg_store_in_group ts id a g).
Proof.
  intros db o db' [Hwf Hid]. unfold pg_store_in_group, mbind' at 1, pg_next_number, pg_params.
  destruct (existsb has_nul [g]) eqn:Eg; [intros E; by injection E as _ <-|].
  unfold mbind' at 1, mreturn. destruct (Z.leb_spec (max_number g db + 1) i64_max) as [Hle|_];
    [|intros E; by injection E as _ <-].
  assert (Hk : keeps (pg_stored_with id) (d <-- mget ;;;
     line <-- mlift (generate_overview_line (fun i => pg_get_message_size i d)
                       (as_u64 (max_number g db + 1)) a) ;;;
     pg_execute [g; line] (set_overview (<[(g, (max_number g db + 1)%Z) := line]>)))%m).
  { apply keeps_bind; [apply keeps_get|intros d]. apply keeps_bind; [apply keeps_lift|intros line].
    by apply pg_execute_keeps. }
  unfold pg_store_numbered, mbind' at 1, pg_insert_group_article, mbind' at 1, pg_params.
  destruct (existsb has_nul [g; id]); [intros E; by injection E as _ <-|].
  unfold mreturn. rewrite next_free. destruct (db_messages db !! id) eqn:Ei; [|by destruct Hid].
  intros E. refine (Hk _ _ _ _ E). split; [|simpl; by rewrite Ei].
  apply pg_shape_insert; [done|by rewrite Ei|done].
Qed.

(** Storing in a group does nothing to the messages. *)
Lemma pg_store_in_group_on (P : gmap str MsgRow -> Prop) ts i a g :
  keeps (fun d => P (db_messages d)) (pg_store_in_group ts i a g).
Proof.
  apply keeps_bind.
  { intros d o d' Hd. unfold pg_next_number, mbind', pg_params.
    destruct (existsb _ _); intros E; by injection E as _ <-. }
  intros n. apply keeps_bind.
  { intros d o d' Hd. unfold pg_insert_group_article, mbind', pg_params.
    destruct (existsb _ _); [intros E; by injection E as _ <-|]. unfold mreturn.
    destruct (db_group_articles d !! _), (db_messages d !! i); intros E; injection E as _ <-; done. }
  intros _. apply keeps_bind; [apply keeps_get|intros d]. apply keeps_bind; [apply keeps_lift|intros line].
  by apply pg_execute_keeps.
Qed.

Lemma pg_store_article_keeps now a : keeps pg_shape (pg_store_article now a).
Proof.
  intros db o db' Hwf. unfold pg_store_article, mbind' at 1, mlift.
  destruct (ok_or _ _) as [id|e] eqn:Eid; simpl; [|intros E; by injection E as _ <-].
  apply ok_or_Ok in Eid. unfold mbind' at 1. destruct (headers_to_json (headers a)) as [hs|e] eqn:Ej;
    simpl; [|intros E; by injection E as _ <-].
  unfold pg_execute, mbind' at 1, mbind' at 1, pg_params.
  destruct (existsb has_nul _); [intros E; by injection E as _ <-|]. unfold mreturn, mmodify.
  intros E. eapply (keeps_for (pg_stored_with id)) in E; [by destruct E| |].
  - intros g. apply pg_store_in_group_keeps.
  - split; [|apply insert_message_present]. destruct Hwf as (gs & ov & Hwf). exists gs, ov.
    exact (db_wf_insert_message id a hs _ Ej Eid Hwf).
Qed.

(** Storing keeps every row of [messages]. *)
Lemma pg_messages_mono now a id row :
  keeps (fun d => db_messages d !! id = Some row) (pg_store_article now a).
Proof.
  apply keeps_bind; [apply keeps_lift|intros i]. apply keeps_bind; [apply keeps_lift|intros hs].
  apply keeps_bind; [apply pg_execute_keeps; intros d; apply insert_message_keeps|intros _].
  apply keeps_for. intros g. apply (pg_store_in_group_on (fun m => m !! id = Some row)).
Qed.

Lemma pg_store_then_get now a db db' id :
  extract_message_id a = Some id -> pg_store_article now a db = (Ret tt, db') ->
  pg_get_article_by_id id db = Ok None -> pg_get_article_by_id id db' = Ok (Some a).
Proof.
  intros Hid E Hnone. unfold pg_store_article, mbind' at 1, mlift in E. rewrite Hid in E. simpl in E.
  destruct (headers_json_roundtrip (headers a)) as (hs & Hj & Hback).
  unfold mbind' at 1 in E. rewrite Hj in E. simpl in E.
  unfold pg_execute, mbind' at 1, mbind' at 1, pg_params in E.
  unfold pg_get_article_by_id, pg_fetch in *. cbn [existsb] in *.
  destruct (has_nul id); [done|]. destruct (has_nul hs || (has_nul (body a) || false)); [done|].
  simpl in *. unfold mreturn, mmodify in E.
  destruct (db_messages db !! id) as [row|] eqn:Ed; [by destruct (message_of_row row)|].
  set (row := mkMsgRow hs _ _) in E.
  assert (Hrow : db_messages db' !! id = Some row).
  { eapply (keeps_for (fun d => db_messages d !! id = Some row)) in E; [exact E| |].
    - intros g. apply (pg_store_in_group_on (fun m => m !! id = Some row)).
    - simpl. rewrite Ed. apply lookup_insert_eq. }
  rewrite Hrow. unfold message_of_row, reconstruct_message_from_row. simpl. rewrite Hback. by destruct a.
Qed.

Lemma pg_store_adds_only now a db o db' id art :
  pg_store_article now a db = (o, db') -> pg_get_article_by_id id db' = Ok (Some art) ->
  pg_get_article_by_id id db = Ok (Some art) \/ (art = a /\ extract_message_id a = Some id).
Proof.
  intros E Hget. unfold pg_store_article, mbind' at 1, mlift in E.
  destruct (extract_message_id a) as [i|] eqn:Hid; simpl in E; [|injection E as _ <-; by left].
  destruct (headers_json_roundtrip (headers a)) as (hs & Hj & Hback).
  unfold mbind' at 1 in E. rewrite Hj in E. simpl in E.
  unfold pg_execute, mbind' at 1, mbind' at 1, pg_params in E.
  destruct (existsb has_nul _); [injection E as _ <-; by left|]. unfold mreturn, mmodify in E.
  set (db1 := insert_message i _ db) in E.
  assert (Hm : db_messages db' = db_messages db1).
  { eapply (keeps_for (fun d => db_messages d = db_messages db1)) in E; [exact E| |done].
    intros g. apply (pg_store_in_group_on (fun m => m = db_messages db1)). }
  unfold pg_get_article_by_id, pg_fetch in *. destruct (existsb has_nul [id]); [done|]. rewrite Hm in Hget.
  destruct (insert_message_adds i a hs _ db id art Hback Hget) as [?|[-> ->]]; [by left|by right].
Qed.

Lemma pg_rows_listed {B} g (l : list B) : has_nul g = false -> pg_rows [g] (Ok <$> l) = Ok <$> l.
Proof. intros Hg. unfold pg_rows. simpl. by rewrite Hg. Qed.

Lemma pg_rows_clean {B} g (rows : list (result B)) l : pg_rows [g] rows = Ok <$> l -> has_nul g = false.
Proof. unfold pg_rows. simpl. destruct (has_nul g); [|done]. by destruct l. Qed.

Lemma pg_numbers_listed g db l : pg_list_article_numbers g db = Ok <$> l ->
  has_nul g = false /\ ss_list_article_numbers g db = Ok <$> l.
Proof.
  intros Hl. pose proof (pg_rows_clean _ _ _ Hl) as Hg. split; [done|].
  unfold pg_list_article_numbers, pg_rows in Hl. simpl in Hl. by rewrite Hg in Hl.
Qed.

Lemma pg_groups_keep g (f : Db -> Db) params : (forall db, exists h, f db = set_groups h db) ->
  keeps pg_shape (pg_execute (g :: params) f).
Proof.
  intros Hf. apply pg_execute_keeps. intros db (gs & ov & Hwf). destruct (Hf db) as [h ->].
  by exists gs, ov.
Qed.

Lemma pg_remove_group_keeps g : keeps pg_shape (pg_remove_group g).
Proof.
  apply keeps_bind; [apply pg_execute_keeps, pg_shape_delete_rows|intros _].
  apply keeps_bind; [apply pg_groups_keep; eauto|intros _]. apply pg_execute_keeps, pg_shape_orphans.
Qed.

(** No Message-ID in the table has NUL: the server refuses such a parameter. *)
Definition keys_clean db : Prop := forall id, is_Some (db_messages db !! id) -> clean id.
Definition pg_wf db : Prop := pg_shape db /\ keys_clean db.

Lemma keys_clean_fewer db db' : db_messages db' ⊆ db_messages db -> keys_clean db -> keys_clean db'.
Proof. intros Hsub Hc id [row Hrow]. apply Hc. exists row. by eapply lookup_weaken. Qed.

Lemma execute_keys params f : (forall db, db_messages (f db) ⊆ db_messages db) ->
  keeps keys_clean (pg_execute params f).
Proof. intros Hf. apply pg_execute_keeps. intros db. by apply keys_clean_fewer. Qed.

Lemma orphans_fewer db : db_messages (delete_orphans db) ⊆ db_messages db.
Proof. apply map_filter_subseteq. Qed.

Lemma delete_message_fewer id db :
  db_messages (if is_referenced id db then db else set_messages (delete id) db) ⊆ db_messages db.
Proof. destruct (is_referenced id db); [done|]. apply delete_subseteq. Qed.

Lemma store_article_keys now a : keeps keys_clean (pg_store_article now a).
Proof.
  apply keeps_bind; [apply keeps_lift|intros id]. apply keeps_bind; [apply keeps_lift|intros hs].
  apply keeps_bind; [|intros _; apply keeps_for; intros g;
    apply (pg_store_in_group_on (fun m => forall k, is_Some (m !! k) -> clean k))].
  intros db o db' Hc. unfold pg_execute, mbind', pg_params.
  destruct (existsb has_nul _) eqn:En; [intros E; by injection E as _ <-|].
  unfold mreturn, mmodify. intros E k Hk. injection E as _ <-. cbn [existsb] in En.
  apply orb_false_iff in En as [Hid _]. destruct (decide (k = id)) as [->|Hne].
  - by apply clean_has_nul.
  - apply Hc. revert Hk. unfold insert_message. simpl.
    destruct (db_messages db !! id); [done|]. by rewrite lookup_insert_ne.
Qed.

Lemma pg_remove_group_keys g : keeps keys_clean (pg_remove_group g).
Proof.
  apply keeps_bind; [by apply execute_keys|intros _].
  apply keeps_bind; [by apply execute_keys|intros _]. apply execute_keys, orphans_fewer.
Qed.

Lemma pg_wf_empty : pg_wf empty_db.
Proof. split; [apply pg_shape_empty|]. intros id [row Hrow]. simpl in Hrow. by rewrite lookup_empty in Hrow. Qed.

(** What is proved of the server over the contract holds of it on PostgreSQL. *)
Definition postgres_storage_laws : @StorageLaws Db postgres_storage.
Proof.
  refine {| st_wf := pg_wf : Db -> Prop |}; simpl.
  - intros now a. apply keeps_and; [apply pg_store_article_keeps|apply store_article_keys].
  - intros id. apply keeps_and; (apply keeps_bind; [|intros _]).
    + apply pg_execute_keeps, pg_shape_delete_rows.
    + apply pg_execute_keeps, pg_shape_delete_message.
    + by apply execute_keys.
    + apply execute_keys, delete_message_fewer.
  - intros g t. apply keeps_and; [apply pg_execute_keeps, pg_shape_delete_rows|by apply execute_keys].
  - apply keeps_and; [apply pg_execute_keeps, pg_shape_orphans|apply execute_keys, orphans_fewer].
  - intros now g m. apply keeps_and; [apply pg_groups_keep; eauto|by apply execute_keys].
  - intros g m. apply keeps_and; [apply pg_groups_keep; eauto|by apply execute_keys].
  - intros g. apply keeps_and; [apply pg_remove_group_keeps|apply pg_remove_group_keys].
  - intros p. apply keeps_bind; [apply keeps_gets|intros names]. apply keeps_for. intros g.
    apply keeps_and; [apply pg_remove_group_keeps|apply pg_remove_group_keys].
  - intros now g m d. apply keeps_and; [apply pg_groups_keep; eauto|by apply execute_keys].
  - intros g db _. unfold pg_group_exists, pg_fetch. simpl.
    destruct (has_nul g) eqn:Eg; [done|intros _]. eexists. unfold pg_list_article_numbers.
    change ((fun r => Ok (u64_try_from (fst r))) <$> group_rows_by_number g db)
      with (ss_list_article_numbers g db).
    rewrite ss_numbers_listed. by apply pg_rows_listed.
  - intros g n db l [(gs & ov & Hwf) _] Hg%pg_rows_clean. unfold pg_get_article_by_number, pg_fetch. simpl.
    rewrite Hg. exact (ss_get_by_number_total g n _ Hwf).
  - intros now a db db' id _ Hid E Hnone. apply (pg_store_then_get now a db db' id Hid E Hnone).
  - intros now a db db' id o _ E art. unfold pg_get_article_by_id, pg_fetch. simpl.
    destruct (has_nul id); [done|]. destruct (db_messages db !! id) as [row|] eqn:Ed; [|done].
    by rewrite (pg_messages_mono now a id row _ _ _ Ed E).
  - intros now a db db' id o art _. apply pg_store_adds_only.
  - intros g db l [(gs & ov & Hwf) _] Hl. destruct (pg_numbers_listed _ _ _ Hl) as [_ Hl'].
    eapply (ss_numbers_increase g); [|exact Hl']. intros n v Hv. exact (wf_number _ Hwf g n v Hv).
  - intros g n db l [(gs & ov & Hwf) _] Hl. destruct (pg_numbers_listed _ _ _ Hl) as [Hg Hl'].
    unfold pg_get_article_by_number, pg_fetch. simpl. rewrite Hg.
    exact (ss_listed_readable g n _ l Hwf Hl').
  - intros g n db a [_ Hk]. unfold pg_get_article_by_number, pg_fetch. simpl.
    destruct (has_nul g); [done|]. intros (id & t & _ & Ha)%ss_by_number_by_id. exists id.
    unfold pg_get_article_by_id, pg_fetch. simpl. unfold ss_get_article_by_id in Ha.
    destruct (db_messages db !! id) as [row|] eqn:Erow; [|done].
    by rewrite (proj1 (clean_has_nul id) (Hk id (mk_is_Some _ _ Erow))).
  - intros id db a [(gs & ov & Hwf) _]. unfold pg_get_article_by_id, pg_get_message_size, pg_fetch. simpl.
    destruct (has_nul id); [done|]. exact (ss_by_id_named id _ a Hwf).
  - intros db _. exists (fst <$> pg_groups_by_name db). unfold pg_list_groups.
    by rewrite <- list_fmap_compose.
Defined.

Lemma pg_next_number_ok g db : clean g -> (max_number g db + 1 <= i64_max)%Z ->
  pg_next_number g db = (Ret (max_number g db + 1)%Z, db).
Proof.
  intros Hg Hmax. unfold pg_next_number, mbind', pg_params. rewrite clean_params by by repeat constructor.
  unfold mreturn. by destruct (Z.leb_spec (max_number g db + 1) i64_max); [|lia].
Qed.

Lemma pg_insert_ok g n id ts db : clean g -> clean id ->
  db_group_articles db !! (g, n) = None -> is_Some (db_messages db !! id) ->
  pg_insert_group_article g n id ts db = (Ret tt, set_group_articles (<[(g, n) := (id, ts)]>) db).
Proof.
  intros Hg Hid Hn [row Hr]. unfold pg_insert_group_article, mbind', pg_params.
  rewrite clean_params by by repeat constructor. unfold mreturn. by rewrite Hn, Hr.
Qed.

(** The header fields of an overview line. *)
Definition field_nul (a : Message) : bool :=
  existsb (fun name => has_nul (default [] (get_header_value a name)))
    [lit "Subject"; lit "From"; lit "Date"; lit "References"].

Lemma nul_join sep t ts : In t ts -> has_nul t = true -> has_nul (join sep ts) = true.
Proof.
  intros Hin Ht. induction ts as [|u ts IH]; [done|]. destruct Hin as [->|Hin].
  - cbn [join]. destruct ts; [done|]. by rewrite !has_nul_app, Ht.
  - specialize (IH Hin). cbn [join]. destruct ts; [done|]. by rewrite !has_nul_app, IH, !orb_true_r.
Qed.

Lemma nul_overview a f n l : field_nul a = true -> generate_overview_line f n a = Ok l -> has_nul l = true.
Proof.
  unfold field_nul. rewrite existsb_exists. intros (name & Hin & Hn). unfold generate_overview_line.
  destruct (match extract_message_id a with Some id => _ | None => _ end) as [b|e]; [|done].
  assert (Hj : forall ts, In (default [] (get_header_value a name)) ts -> Ok (join [TAB] ts) = Ok l -> has_nul l = true).
  { intros ts Ht E. assert (l = join [TAB] ts) as -> by congruence. by eapply nul_join. }
  apply Hj. simpl in Hin. destruct Hin as [<-|[<-|[<-|[<-|[]]]]]; simpl; tauto.
Qed.

(** A turn of the loop over the newsgroups returns or fails; it fails where a parameter has
    NUL. *)
Lemma pg_store_in_group_nul ts id a g db :
  (exists db', pg_store_in_group ts id a g db = (Ret tt, db') /\ has_nul g = false /\ field_nul a = false)
  \/ exists e db', pg_store_in_group ts id a g db = (Fail e, db').
Proof.
  unfold pg_store_in_group, pg_next_number, mbind', pg_params, mfail, mreturn. cbn [existsb].
  destruct (has_nul g) eqn:Eg; cbn [orb]; [by right; eauto|].
  destruct (_ <=? _)%Z; [|by right; eauto].
  unfold pg_store_numbered, pg_insert_group_article, mbind', pg_params, mfail, mreturn. cbn [existsb].
  rewrite Eg. destruct (has_nul id); cbn [orb]; [by right; eauto|].
  destruct (db_group_articles db !! _), (db_messages db !! id); try by right; eauto.
  unfold mget, mlift. destruct (generate_overview_line _ _ a) as [l|e] eqn:El; cbn [outcome_of]; [|by right; eauto].
  unfold pg_execute, mbind', pg_params, mfail, mreturn, mmodify. cbn [existsb]. rewrite Eg.
  destruct (has_nul l) eqn:Enl; cbn [orb]; [by right; eauto|]. left. eexists. split; [reflexivity|]. split; [done|].
  destruct (field_nul a) eqn:Ef; [|done]. by rewrite (nul_overview _ _ _ _ Ef El) in Enl.
Qed.

Lemma pg_groups_nul ts id a gs db : existsb has_nul gs || (field_nul a && negb (bool_decide (gs = []))) = true ->
  exists e db', mfor gs (pg_store_in_group ts id a) db = (Fail e, db').
Proof.
  revert db. induction gs as [|g gs IH]; intros db; [by rewrite andb_false_r|]. intros Hn. cbn [mfor].
  destruct (pg_store_in_group_nul ts id a g db) as [(db1 & E & Hg & Hf)|(e & db1 & E)].
  - rewrite (mbind_Ret _ _ _ _ _ E). apply IH. cbn [existsb] in Hn. rewrite Hg, Hf in *. by rewrite orb_false_r in *.
  - exists e, db1. by apply mbind_Fail.
Qed.

(** C35: NUL in an article for PostgreSQL.  In its Message-ID or its body: the store fails
    and changes nothing.  In the name of a newsgroup, or, where there is a newsgroup, in its
    Subject, From, Date or References: the store fails; with NUL in one of these fields it
    fails half-way, and leaves the article readable by its Message-ID and in its first newsgroup,
    for which no overview line was written, and in no other.  Elsewhere - in any other header -
    the article is stored as SQLite stores it. *)
Theorem postgres_refuses_nul now a id db : extract_message_id a = Some id ->
  let gs := parse_newsgroups_from_message a in
  (has_nul id || has_nul (body a) = true ->
     pg_store_article now a db = (Fail encoding_error, db))
  /\ (existsb has_nul gs || (field_nul a && negb (bool_decide (gs = []))) = true ->
     exists e db', pg_store_article now a db = (Fail e, db'))
  /\ (forall g rest, clean id -> clean (body a) -> gs = g :: rest -> clean g -> field_nul a = true ->
       db_messages db !! id = None -> (max_number g db + 1 <= i64_max)%Z ->
       exists db', pg_store_article now a db = (Fail encoding_error, db')
         /\ pg_get_article_by_id id db' = Ok (Some a)
         /\ db_group_articles db'
            = <[(g, (max_number g db + 1)%Z) := (id, timestamp now)]> (db_group_articles db)
         /\ db_overview db' = db_overview db)
  /\ (clean_bound a ->
       same_outcome (fst (pg_store_article now a db)) (fst (ss_store_article now a db))
       /\ snd (pg_store_article now a db) = snd (ss_store_article now a db)).
Proof.
  intros Hid gs. destruct (headers_json_roundtrip (headers a)) as (hs & Hj & Hback).
  assert (Hstart : forall d, pg_store_article now a d =
    (pg_execute [id; hs; body a] (insert_message id
       (mkMsgRow hs (body a) (i64_try_from (utf8_len (body a)) i64_max))) ;;;
     mfor gs (pg_store_in_group (timestamp now) id a))%m d).
  { intros d. unfold pg_store_article, mbind' at 1, mlift. rewrite Hid. simpl.
    unfold mbind' at 1. by rewrite Hj. }
  split_and!.
  - intros Hn. rewrite Hstart. unfold pg_execute, mbind', pg_params. cbn [existsb].
    by destruct (has_nul id), (has_nul hs), (has_nul (body a)).
  - intros Hn. rewrite Hstart. unfold pg_execute, mbind' at 1, mbind' at 1, pg_params.
    destruct (existsb has_nul [id; hs; body a]); [by eexists _, _|]. by apply pg_groups_nul.
  - intros g rest Ci%clean_has_nul Cb Hgs Cg Hn Hnone Hmax. rewrite Hstart.
    assert (Hp : Forall clean [id; hs; body a]).
    { repeat constructor; [by apply clean_has_nul|by eapply headers_json_escaped|done]. }
    unfold mbind' at 1. rewrite (pg_execute_clean _ _ _ Hp). unfold mmodify at 1.
    set (row := mkMsgRow _ _ _). set (db1 := insert_message id row db).
    assert (Hrow : db_messages db1 !! id = Some row).
    { simpl. rewrite Hnone. apply lookup_insert_eq. }
    set (n := (max_number g db + 1)%Z) in *.
    set (db2 := set_group_articles (<[(g, n) := (id, timestamp now)]>) db1). exists db2.
    pose proof (pg_next_number_ok g db1 Cg Hmax : pg_next_number g db1 = (Ret n, db1)) as Enext.
    assert (Eins : pg_insert_group_article g n id (timestamp now) db1 = (Ret tt, db2)).
    { apply pg_insert_ok; [done|by apply clean_has_nul|exact (next_free g db)|by rewrite Hrow]. }
    assert (Hgen : exists l, generate_overview_line (fun i => pg_get_message_size i db2)
              (as_u64 n) a = Ok l).
    { unfold generate_overview_line. rewrite Hid. unfold pg_get_message_size, pg_fetch. cbn [existsb].
      rewrite Ci. eexists. reflexivity. }
    destruct Hgen as [l Hl]. split; [|split; [|split]].
    + rewrite Hgs. cbn [mfor]. apply mbind_Fail. unfold pg_store_in_group.
      rewrite (mbind_Ret _ _ _ _ _ Enext). unfold pg_store_numbered.
      rewrite (mbind_Ret _ _ _ _ _ Eins).
      unfold mbind', mget, mlift. rewrite Hl. unfold outcome_of, pg_execute, mbind', pg_params.
      cbn [existsb]. by rewrite (proj1 (clean_has_nul g) Cg), (nul_overview _ _ _ _ Hn Hl).
    + unfold pg_get_article_by_id, pg_fetch. cbn [existsb]. rewrite Ci. cbn [orb].
      change (db_messages db2) with (db_messages db1). rewrite Hrow.
      unfold message_of_row, reconstruct_message_from_row. simpl. rewrite Hback. by destruct a.
    + done.
    + done.
  - intros Ha. destruct (store_article_agree (fun _ => True) now a (fun _ _ _ H => H) Ha db I) as (Ho & Hs & _).
    by split.
Qed.
End Laws.

(** ** Concrete runs: names in byte order *)
Lemma str_leb_total a b : str_leb a b = true \/ str_leb b a = true.
Proof.
  revert b. induction a as [|x a IH]; intros [|y b]; simpl; auto.
  destruct (N.eqb_spec x y) as [->|Hne]; [rewrite N.eqb_refl; apply IH|].
  rewrite (proj2 (N.eqb_neq y x)) by done. rewrite !N.ltb_lt. lia.
Qed.

Lemma str_leb_trans a b c : str_leb a b = true -> str_leb b c = true -> str_leb a c = true.
Proof.
  revert b c. induction a as [|x a IH]; intros [|y b] [|z c]; simpl; try done.
  destruct (N.eqb_spec x y), (N.eqb_spec y z), (N.eqb_spec x z); subst; try done; [by apply IH|..];
    rewrite ?N.ltb_lt; lia.
Qed.

Definition byte_order : Collation := {|
  collate_le := str_leb; collate_total := str_leb_total; collate_trans := str_leb_trans |}.

Definition two_updates : list StorageOp :=
  [OpAddGroup ns_per_sec (lit "misc.b") false; OpStore ns_per_sec art1].
Definition nul_subject : Message :=
  mkMessage [(lit "Message-ID", lit "<3@x>"); (lit "Newsgroups", lit "misc.a, misc.b");
             (lit "Subject", [NUL])] (lit "body").

Lemma postgres_agrees_witness :
  @pg_list_groups_with_descriptions byte_order (@run_pg_ops Toy.ext two_updates empty_db)
  ≡ₚ ss_list_groups_with_descriptions (@run_storage_ops Toy.ext two_updates empty_db)
  /\ @run_pg_ops Toy.ext two_updates empty_db = @run_storage_ops Toy.ext two_updates empty_db.
Proof.
  assert (Hc : Forall clean_op two_updates).
  { repeat constructor; apply clean_has_nul; vm_compute; reflexivity. }
  destruct (@postgres_agrees Toy.ext byte_order Toy.json_laws two_updates OpPurgeOrphans Hc I)
    as (Heq & _ & _ & _ & _ & Hl & _).
  rewrite <- Heq. split; [exact Hl|reflexivity].
Defined.

Definition nul_elsewhere : Message :=
  mkMessage [(lit "Message-ID", lit "<3@x>"); (lit "Newsgroups", lit "misc.a, misc.b"); (lit "X-Note", [NUL])]
    (lit "body").

Lemma postgres_refuses_nul_witness :
  (exists db', @pg_store_article Toy.ext ns_per_sec nul_subject empty_db = (Fail encoding_error, db')
    /\ @pg_get_article_by_id Toy.ext (lit "<3@x>") db' = Ok (Some nul_subject))
  /\ snd (@pg_store_article Toy.ext ns_per_sec nul_elsewhere empty_db)
     = snd (@ss_store_article Toy.ext ns_per_sec nul_elsewhere empty_db).
Proof.
  split.
  - destruct (@postgres_refuses_nul Toy.ext Toy.json_laws ns_per_sec nul_subject (lit "<3@x>") empty_db)
      as (_ & _ & H & _); [vm_compute; reflexivity|].
    destruct (H (lit "misc.a") [lit "misc.b"]) as (db' & E & Hg & _);
      try (apply clean_has_nul; vm_compute; reflexivity); try (vm_compute; reflexivity).
    + vm_compute. done.
    + exists db'. split; [exact E|exact Hg].
  - destruct (@postgres_refuses_nul Toy.ext Toy.json_laws ns_per_sec nul_elsewhere (lit "<3@x>") empty_db)
      as (_ & _ & _ & H); [vm_compute; reflexivity|].
    apply H. split; [|apply clean_has_nul; vm_compute; reflexivity].
    unfold bound_headers. repeat constructor; apply clean_has_nul; vm_compute; reflexivity.
Defined.
