(* ===== verification/Catalogue.v ===== *)
(** * Catalogue: what an article store promises

    The abstract state of a store: the articles by Message-ID, the index of the groups, the
    groups, and the overview lines.  An operation says at once what the SQL statements reach
    one by one: a group is removed together with its index and the articles no group names
    any more, a pattern removes a set of groups, an article is filed under the number after
    the highest of each of its groups.  The SQLite store refines it, and so does the
    PostgreSQL one on texts without NUL. *)

From stdpp Require Import base numbers list gmap strings sorting.
From Stdlib Require Import NArith ZArith Lia Sorted.
From S2P Require Import Prelude Text Externals Message Wildmat Storage SqliteStorage PgStorage.
Local Open Scope N_scope.

Record GroupInfo := mkGroupInfo { gi_created : Z; gi_moderated : bool; gi_description : str }.
Record Catalogue := mkCatalogue {
  cat_articles : gmap str Message;
  cat_index : gmap (str * Z) (str * Z);      (* group, number: Message-ID, time of arrival *)
  cat_groups : gmap str GroupInfo;
  cat_lines : gmap (str * Z) str;
}.

Definition empty_catalogue : Catalogue := mkCatalogue ∅ ∅ ∅ ∅.

(** The highest number of a group, 0 for none. *)
Definition highest (g : str) (index : gmap (str * Z) (str * Z)) : Z :=
  map_fold (fun k _ m => if decide (fst k = g) then Z.max (snd k) m else m) 0%Z index.
(** Some group has the article. *)
Definition named (id : str) (index : gmap (str * Z) (str * Z)) : Prop :=
  map_Exists (fun _ v => fst v = id) index.
(** Only what is named stays. *)
Definition prune (c : Catalogue) : Catalogue :=
  mkCatalogue (filter (fun kv => named (fst kv) (cat_index c)) (cat_articles c)) (cat_index c)
    (cat_groups c) (cat_lines c).
Definition drop_index (P : (str * Z) * (str * Z) -> Prop) `{!forall x, Decision (P x)} (c : Catalogue)
  : Catalogue :=
  mkCatalogue (cat_articles c) (filter (fun kv => ~ P kv) (cat_index c)) (cat_groups c) (cat_lines c).
Definition drop_groups (gs : gset str) (c : Catalogue) : Catalogue :=
  mkCatalogue (cat_articles c) (cat_index c) (filter (fun kv => fst kv ∉ gs) (cat_groups c)) (cat_lines c).
Definition remove_groups (gs : gset str) (c : Catalogue) : Catalogue :=
  prune (drop_groups gs (drop_index (fun kv => fst (fst kv) ∈ gs) c)).
Definition set_groups_of (f : gmap str GroupInfo -> gmap str GroupInfo) (c : Catalogue) : Catalogue :=
  mkCatalogue (cat_articles c) (cat_index c) (f (cat_groups c)) (cat_lines c).

Section Operations.
Context {X : Ext}.

(** The size recorded for an article, and its overview line under a number. *)
Definition size_of (a : Message) : N := N.min (utf8_len (body a)) (Z.to_N i64_max).
Definition overview_line (recorded number : N) (a : Message) : str :=
  match generate_overview_line (fun _ => Ok (Some recorded)) number a with
  | Ok l => l
  | Err _ => []
  end.

(** The first article with a Message-ID stays. *)
Definition keep_article (id : str) (a : Message) (c : Catalogue) : Catalogue :=
  mkCatalogue (match cat_articles c !! id with Some _ => cat_articles c | None => <[id := a]> (cat_articles c) end)
    (cat_index c) (cat_groups c) (cat_lines c).

(** Filed in each group in turn; a group whose numbers are used up ends it. *)
Fixpoint file_in (gs : list str) (arrival : Z) (id : str) (a : Message) (c : Catalogue)
  : bool * Catalogue :=
  match gs with
  | [] => (true, c)
  | g :: gs =>
      let n := (highest g (cat_index c) + 1)%Z in
      if (i64_max <? n)%Z then (false, c)
      else
        let recorded := match cat_articles c !! id with Some b => size_of b | None => size_of a end in
        file_in gs arrival id a
          (mkCatalogue (cat_articles c) (<[(g, n) := (id, arrival)]> (cat_index c)) (cat_groups c)
             (<[(g, n) := overview_line recorded (Z.to_N n) a]> (cat_lines c)))
  end.

Definition catalogue_op (op : StorageOp) (c : Catalogue) : bool * Catalogue :=
  match op with
  | OpStore now a =>
      match extract_message_id a with
      | None => (false, c)
      | Some id => file_in (parse_newsgroups_from_message a) (timestamp now) id a (keep_article id a c)
      end
  | OpAddGroup now g m =>
      (true, set_groups_of (fun gs => match gs !! g with
                                      | Some _ => gs
                                      | None => <[g := mkGroupInfo (timestamp now) m []]> gs
                                      end) c)
  | OpAddGroupWithDescription now g m d =>
      (true, set_groups_of (fun gs =>
               <[g := mkGroupInfo (default (timestamp now) (gi_created <$> gs !! g)) m d]> gs) c)
  | OpSetModerated g m =>
      (true, set_groups_of (alter (fun i => mkGroupInfo (gi_created i) m (gi_description i)) g) c)
  | OpRemoveGroup g => (true, remove_groups {[g]} c)
  | OpRemovePattern p =>
      let gs := filter (fun g => wildmat p g = true) (dom (cat_groups c)) in
      (true, if decide (gs = ∅) then c else remove_groups gs c)
  | OpPurgeBefore g t =>
      (true, drop_index (fun kv => fst (fst kv) = g /\ (snd (snd kv) < timestamp t)%Z) c)
  | OpPurgeOrphans => (true, prune c)
  | OpDeleteArticle id =>
      (true, let c := drop_index (fun kv => fst (snd kv) = id) c in
             mkCatalogue (delete id (cat_articles c)) (cat_index c) (cat_groups c) (cat_lines c))
  end.
Definition catalogue_ops (ops : list StorageOp) (c : Catalogue) : Catalogue :=
  foldl (fun c op => snd (catalogue_op op c)) c ops.
End Operations.

(** ** The tables stand for a catalogue *)
Section Refinement.
Context {X : Ext} `{!JsonLaws}.

Definition group_row (i : GroupInfo) : GroupRow :=
  mkGroupRow (gi_created i) (i32_of_bool (gi_moderated i)) (gi_description i).

Record catalogues (db : Db) (c : Catalogue) : Prop := {
  ct_wf : db_wf db;
  ct_articles : forall id, match db_messages db !! id, cat_articles c !! id with
                           | Some row, Some a => row_stores id row a
                           | None, None => True
                           | _, _ => False
                           end;
  ct_index : db_group_articles db = cat_index c;
  ct_groups : db_groups db = group_row <$> cat_groups c;
  ct_lines : db_overview db = cat_lines c;
}.

Lemma catalogues_empty : catalogues empty_db empty_catalogue.
Proof.
  split; [apply db_wf_empty| |done| |done]; simpl; [|by rewrite fmap_empty].
  intros id. by rewrite !lookup_empty.
Qed.

Lemma named_referenced id db : named id (db_group_articles db) <-> is_referenced id db = true.
Proof.
  rewrite is_referenced_true. unfold named, map_Exists. split.
  - intros (k & [i t] & Hk & Hi). simpl in Hi. subst. eauto.
  - intros (k & t & Hk). eauto.
Qed.

Lemma highest_spec g index :
  (forall n v, index !! (g, n) = Some v -> (1 <= n)%Z) ->
  (forall n v, index !! (g, n) = Some v -> (n <= highest g index)%Z)
  /\ (is_Some (index !! (g, highest g index))
      \/ (highest g index = 0%Z /\ forall n, index !! (g, n) = None)).
Proof.
  unfold highest. revert index.
  apply (map_fold_weak_ind (fun m (index : gmap (str * Z) (str * Z)) =>
    (forall n v, index !! (g, n) = Some v -> (1 <= n)%Z) ->
    (forall n v, index !! (g, n) = Some v -> (n <= m)%Z)
    /\ (is_Some (index !! (g, m)) \/ (m = 0%Z /\ forall n, index !! (g, n) = None)))).
  { intros _. split; [by intros n v ?%lookup_empty_Some|]. right. split; [done|]. intros n. apply lookup_empty. }
  intros [h n] v index m Hnew IH Hpos. simpl.
  assert (Hpos' : forall n v, index !! (g, n) = Some v -> (1 <= n)%Z).
  { intros k w Hk. apply (Hpos k w). rewrite lookup_insert_ne; [done|]. intros E. rewrite E in Hnew. congruence. }
  destruct (IH Hpos') as [Hub Hat]. case_decide as Eh.
  - subst h. specialize (Hpos n v (lookup_insert_eq _ _ _)). split.
    + intros k w [[E _]|[_ Hk]]%lookup_insert_Some; [injection E as ->; lia|]. specialize (Hub k w Hk). lia.
    + left. destruct Hat as [[w Hw]|[-> Hnone]].
      * destruct (Z.max_spec n m) as [[Hlt ->]|[Hle ->]]; [|rewrite lookup_insert_eq; eauto].
        rewrite lookup_insert_ne by (intros E; injection E; lia). eauto.
      * rewrite Z.max_l by lia. rewrite lookup_insert_eq. eauto.
  - split.
    + intros k w [[E _]|[_ Hk]]%lookup_insert_Some; [congruence|by eapply Hub].
    + assert (Hne : forall k, <[(h, n) := v]> index !! (g, k) = index !! (g, k))
        by (intros k; apply lookup_insert_ne; congruence).
      destruct Hat as [Hm|[-> Hnone]]; [left; by rewrite Hne|right]. split; [done|]. intros k. by rewrite Hne.
Qed.

Lemma highest_max g db : db_wf db -> max_number g db = highest g (db_group_articles db).
Proof.
  intros Hwf. destruct (highest_spec g (db_group_articles db)) as [Hub Hat].
  { intros n v Hn. pose proof (wf_number _ Hwf g n v Hn). lia. }
  by apply max_number_spec.
Qed.

(** *** One operation *)
Definition succeeds (b : bool) (o : outcome unit) : Prop :=
  if b then o = Ret tt else exists e, o = Fail e.
Definition refines (m : M Db unit) (f : Catalogue -> bool * Catalogue) : Prop :=
  forall db c, catalogues db c ->
    succeeds (fst (f c)) (fst (m db)) /\ catalogues (snd (m db)) (snd (f c)).

(** A statement that succeeds. *)
Lemma refines_modify f g : (forall db c, catalogues db c -> catalogues (f db) (g c)) ->
  refines (mmodify f) (fun c => (true, g c)).
Proof. intros Hfg db c Hc. split; [done|]. by apply Hfg. Qed.

Lemma refines_then m f g h : refines m (fun c => (true, f c)) -> refines g (fun c => (true, h c)) ->
  refines (m ;;; g)%m (fun c => (true, h (f c))).
Proof.
  intros Hm Hg db c Hc. destruct (Hm db c Hc) as (E & Hc'). simpl in E, Hc'.
  unfold mbind'. destruct (m db) as [o db']. simpl in *. subst o. by apply Hg.
Qed.

Lemma catalogues_groups f h db c : (forall gs, f (group_row <$> gs) = group_row <$> h gs) ->
  catalogues db c -> catalogues (set_groups f db) (set_groups_of h c).
Proof.
  intros Hf [H1 H2 H3 H4 H5]. split; simpl; [by apply db_wf_groups|done|done| |done].
  by rewrite H4, Hf.
Qed.

Lemma catalogues_drop p (P : (str * Z) * (str * Z) -> Prop) `{!forall x, Decision (P x)} db c :
  (forall k v, p k v = true <-> P (k, v)) -> catalogues db c ->
  catalogues (delete_group_articles p db) (drop_index P c).
Proof.
  intros Hp [H1 H2 H3 H4 H5]. split; simpl; [by apply db_wf_delete_rows|done| |done|done].
  rewrite H3. apply map_filter_ext. intros k v _. simpl. rewrite <- (Hp k v). by rewrite not_true_iff_false.
Qed.

Lemma catalogues_prune db c : catalogues db c -> catalogues (delete_orphans db) (prune c).
Proof.
  intros Hc. destruct Hc as [H1 H2 H3 H4 H5]. split; simpl; [by apply db_wf_orphans| |done..].
  intros id. specialize (H2 id).
  assert (Hn : named id (cat_index c) <-> is_referenced id db = true)
    by (rewrite <- H3; apply named_referenced).
  rewrite !map_lookup_filter.
  destruct (db_messages db !! id) as [row|], (cat_articles c !! id) as [a|]; try done. simpl.
  destruct (decide (is_referenced id db = true)) as [Hr|Hr], (decide (named id (cat_index c))); simpl;
    rewrite ?option_guard_True, ?option_guard_False by tauto; try done; tauto.
Qed.

Lemma catalogues_delete id db c : catalogues db c ->
  is_referenced id db = false ->
  catalogues (set_messages (delete id) db)
    (mkCatalogue (delete id (cat_articles c)) (cat_index c) (cat_groups c) (cat_lines c)).
Proof.
  intros [H1 H2 H3 H4 H5] Hr. split; simpl; [|intros i|done..].
  - pose proof (db_wf_delete_message id db H1) as Hwf. by rewrite Hr in Hwf.
  - specialize (H2 i). destruct (decide (id = i)) as [->|Hne]; [by rewrite !lookup_delete_eq|].
    by rewrite !lookup_delete_ne.
Qed.

Lemma refines_remove_group g : refines (ss_remove_group g) (fun c => (true, remove_groups {[g]} c)).
Proof.
  intros db c Hc. split; [done|]. cbn. unfold remove_groups.
  apply catalogues_prune.
  apply (catalogues_drop (fun k _ => str_eqb (fst k) g) (fun kv => fst (fst kv) ∈ ({[g]} : gset str))) in Hc.
  2:{ intros k v. simpl. rewrite str_eqb_eq. set_solver. }
  apply (catalogues_groups (delete g) (filter (fun kv => fst kv ∉ ({[g]} : gset str)))) in Hc; [exact Hc|].
  intros gs. apply map_eq. intros h. destruct (decide (g = h)) as [->|Hne].
  - rewrite lookup_delete_eq, lookup_fmap. symmetry. apply fmap_None, map_lookup_filter_None.
    right. intros x _. simpl. set_solver.
  - rewrite lookup_delete_ne by done. rewrite !lookup_fmap. f_equal.
    rewrite map_lookup_filter. destruct (gs !! h); simpl; [|done].
    rewrite option_guard_True; [done|]. simpl. set_solver.
Qed.

(** Removing two sets of groups is removing their union. *)
Lemma catalogue_ext c c' : cat_articles c = cat_articles c' -> cat_index c = cat_index c' ->
  cat_groups c = cat_groups c' -> cat_lines c = cat_lines c' -> c = c'.
Proof. destruct c, c'. simpl. by intros -> -> -> ->. Qed.

Lemma named_mono id index index' : index ⊆ index' -> named id index -> named id index'.
Proof. intros Hs (k & v & Hk & Hv). exists k, v. split; [by eapply lookup_weaken|done]. Qed.

Lemma remove_groups_union g gs c :
  remove_groups gs (remove_groups {[g]} c) = remove_groups ({[g]} ∪ gs) c.
Proof.
  unfold remove_groups, prune, drop_groups, drop_index. simpl.
  assert (Hi : filter (fun kv => fst (fst kv) ∉ gs) (filter (fun kv => fst (fst kv) ∉ ({[g]} : gset str)) (cat_index c))
     = filter (fun kv => fst (fst kv) ∉ ({[g]} ∪ gs)) (cat_index c)).
  { rewrite map_filter_filter. apply map_filter_ext. intros k v _. simpl. set_solver. }
  apply catalogue_ext; simpl; [|exact Hi| |done].
  - rewrite Hi, map_filter_filter. apply map_filter_ext. intros id a _. simpl.
    split; [by intros [??]|]. intros Hn. split; [done|]. revert Hn. apply named_mono.
    rewrite <- Hi. apply map_filter_subseteq.
  - rewrite map_filter_filter. apply map_filter_ext. intros k v _. simpl. set_solver.
Qed.

Lemma refines_ext m f f' : (forall c, f c = f' c) -> refines m f -> refines m f'.
Proof. intros Hf Hm db c Hc. rewrite <- Hf. by apply Hm. Qed.

Lemma refines_remove_list g gs :
  refines (mfor (g :: gs) ss_remove_group) (fun c => (true, remove_groups (list_to_set (g :: gs)) c)).
Proof.
  revert g. induction gs as [|h gs IH]; intros g; cbn [mfor].
  - apply (refines_ext _ (fun c => (true, (fun c => c) (remove_groups {[g]} c)))).
    { intros c. simpl. by rewrite union_empty_r_L. }
    apply (refines_then _ (remove_groups {[g]}) _ (fun c => c)); [apply refines_remove_group|].
    by intros db c Hc.
  - apply (refines_ext _ (fun c => (true, remove_groups (list_to_set (h :: gs)) (remove_groups {[g]} c)))).
    { intros c. by rewrite remove_groups_union. }
    apply (refines_then _ (remove_groups {[g]}) _ (remove_groups (list_to_set (h :: gs))));
      [apply refines_remove_group|apply IH].
Qed.

Lemma refines_remove_pattern p :
  refines (ss_remove_groups_by_pattern p) (catalogue_op (OpRemovePattern p)).
Proof.
  intros db c Hc. unfold ss_remove_groups_by_pattern, mbind', mgets. cbn [catalogue_op].
  set (names := List.filter _ _). set (gs := filter _ _).
  assert (Hgs : gs = list_to_set names).
  { apply set_eq. intros g. unfold gs, names. rewrite elem_of_filter, elem_of_list_to_set.
    rewrite elem_of_list_In, filter_In, <- elem_of_list_In, elem_of_dom, list_elem_of_fmap.
    rewrite (ct_groups _ _ Hc). split.
    - intros [Hw [i Hi]]. split; [|done]. exists (g, group_row i). split; [done|].
      apply elem_of_map_to_list. by rewrite lookup_fmap, Hi.
    - intros [([h r] & -> & Hin) Hw]. split; [done|]. apply elem_of_map_to_list in Hin.
      rewrite lookup_fmap in Hin. apply fmap_Some in Hin as (i & Hi & _). by exists i. }
  rewrite Hgs. clearbody names. clear gs Hgs. destruct names as [|g names].
  - rewrite decide_True by done. by split.
  - rewrite decide_False by set_solver. by apply refines_remove_list.
Qed.

(** Filing an article. *)
Lemma recorded_size row b : mr_size row = i64_try_from (utf8_len (body b)) i64_max ->
  u64_try_from (mr_size row) = size_of b.
Proof.
  intros ->. unfold size_of, i64_try_from, u64_try_from, i64_max.
  destruct (Z.leb_spec (Z.of_N (utf8_len (body b))) (2 ^ 63 - 1)).
  - destruct (Z.ltb_spec (Z.of_N (utf8_len (body b))) 0); lia.
  - change (2 ^ 63 - 1 <? 0)%Z with false. cbv iota. rewrite N.min_r; [done|lia].
Qed.

Lemma file_line db c id a (n : Z) : catalogues db c -> (1 <= n <= i64_max)%Z ->
  extract_message_id a = Some id -> is_Some (db_messages db !! id) ->
  generate_overview_line (fun i => ss_get_message_size i db) (as_u64 n) a
  = Ok (overview_line (match cat_articles c !! id with Some b => size_of b | None => size_of a end)
          (Z.to_N n) a).
Proof.
  intros Hc Hn Hid [row Hrow]. unfold overview_line, generate_overview_line. rewrite Hid.
  unfold ss_get_message_size. pose proof (ct_articles _ _ Hc id) as Ha. rewrite Hrow in *.
  destruct (cat_articles c !! id) as [b|]; [|done]. destruct Ha as (_ & _ & Hs & _).
  pose proof (recorded_size row b Hs) as Hz.
  rewrite Hz. replace (as_u64 n) with (Z.to_N n); [done|].
  unfold as_u64. unfold i64_max in Hn. rewrite Z.mod_small; [done|lia].
Qed.

Lemma refines_file gs ts id a : extract_message_id a = Some id ->
  forall db c, catalogues db c -> is_Some (db_messages db !! id) ->
    succeeds (fst (file_in gs ts id a c)) (fst (mfor gs (store_in_group ts id a) db))
    /\ catalogues (snd (mfor gs (store_in_group ts id a) db)) (snd (file_in gs ts id a c)).
Proof.
  intros Hid. induction gs as [|g gs IH]; intros db c Hc Hrow; [done|]. cbn [mfor file_in]. cbv zeta.
  pose proof (highest_max g db (ct_wf _ _ Hc)) as Hmax. rewrite (ct_index _ _ Hc) in Hmax.
  rewrite <- Hmax. pose proof (max_number_nonneg g db (ct_wf _ _ Hc)) as Hpos.
  destruct (Z.ltb_spec i64_max (max_number g db + 1)) as [Hfull|Hle].
  - unfold mbind'. rewrite store_in_group_full by done. split; [by eexists|done].
  - set (n := (max_number g db + 1)%Z) in *.
    pose proof (file_line db c id a n Hc ltac:(lia) Hid Hrow) as Hline.
    set (line := overview_line _ _ _) in *.
    assert (E : store_in_group ts id a g db
      = (Ret tt, set_overview (<[(g, n) := line]>) (set_group_articles (<[(g, n) := (id, ts)]>) db))).
    { destruct (store_in_group_ok ts id a g db Hrow Hle) as [l El]. rewrite El. fold n.
      unfold store_in_group, store_numbered, next_number, mbind' in El. fold n in El.
      destruct (Z.leb_spec n i64_max); [|lia]. unfold insert_group_article in El.
      rewrite (next_free g db : db_group_articles db !! (g, n) = None) in El.
      destruct Hrow as [row Hrow]. rewrite Hrow in El. unfold mget, mlift in El.
      change (generate_overview_line (fun i => ss_get_message_size i
        (set_group_articles (<[(g, n) := (id, ts)]>) db)) (as_u64 n) a) with
        (generate_overview_line (fun i => ss_get_message_size i db) (as_u64 n) a) in El.
      rewrite Hline in El. rewrite <- El. done. }
    rewrite (mbind_Ret _ _ _ _ _ E). apply IH; [|done].
    destruct (store_in_group_keeps ts id a g db _ _ (conj (ct_wf _ _ Hc) Hrow) E) as [Hwf _].
    destruct Hc as [H1 H2 H3 H4 H5]. split; simpl; [exact Hwf|done| |done|]; by rewrite ?H3, ?H5.
Qed.

Lemma refines_store now a : refines (ss_store_article now a) (catalogue_op (OpStore now a)).
Proof.
  intros db c Hc. cbn [catalogue_op]. destruct (extract_message_id a) as [id|] eqn:Hid.
  2:{ unfold ss_store_article, mbind', mlift. rewrite Hid. split; [by eexists|done]. }
  destruct (ss_store_article_unfold now a id Hid) as (hs & Hback & Hs). rewrite Hs.
  apply refines_file; [done| |apply insert_message_present].
  set (row := mkMsgRow _ _ _). assert (Hst : row_stores id row a) by by split_and!.
  pose proof Hc as [H1 H2 H3 H4 H5].
  split; simpl; [by apply (db_wf_insert_row id row a)| |done..].
  intros i. pose proof (H2 i) as Hi. specialize (H2 id).
  destruct (db_messages db !! id) as [r|] eqn:Er, (cat_articles c !! id) as [b|] eqn:Eb; try done.
  destruct (decide (id = i)) as [<-|Hne]; [by rewrite !lookup_insert_eq|].
  by rewrite !lookup_insert_ne.
Qed.

Lemma refines_op op : refines (run_storage_op op) (catalogue_op op).
Proof.
  destruct op as [now a|now g m|now g m d|g m|g|p|g t| |id]; cbn [run_storage_op].
  - apply refines_store.
  - apply refines_modify. intros db c. apply catalogues_groups. intros gs. rewrite lookup_fmap.
    destruct (gs !! g); simpl; [done|]. by rewrite fmap_insert.
  - apply refines_modify. intros db c. apply catalogues_groups. intros gs. rewrite lookup_fmap.
    destruct (gs !! g); simpl; by rewrite fmap_insert.
  - apply refines_modify. intros db c. apply catalogues_groups. intros gs. apply map_eq. intros h.
    rewrite lookup_alter, !lookup_fmap, lookup_alter. case_decide; [subst|done]. by destruct (gs !! h).
  - apply refines_remove_group.
  - apply refines_remove_pattern.
  - apply refines_modify. intros db c. apply catalogues_drop. intros k v. simpl.
    by rewrite andb_true_iff, str_eqb_eq, Z.ltb_lt.
  - apply refines_modify. apply catalogues_prune.
  - intros db c Hc. split; [done|]. simpl.
    apply (catalogues_drop (fun _ v => str_eqb (fst v) id) (fun kv => fst (snd kv) = id)) in Hc.
    2:{ intros k v. by rewrite str_eqb_eq. }
    set (db1 := delete_group_articles _ db) in *.
    assert (Hr : is_referenced id db1 = false).
    { apply not_true_iff_false. rewrite is_referenced_true. intros (k & t & Hk).
      apply delete_rows_lookup in Hk as [_ Hk]. simpl in Hk. by rewrite str_eqb_refl in Hk. }
    rewrite Hr. by apply (catalogues_delete id db1 _ Hc).
Qed.

Lemma refines_ops ops db c : catalogues db c ->
  catalogues (run_storage_ops ops db) (catalogue_ops ops c).
Proof.
  revert db c. induction ops as [|op ops IH]; intros db c Hc; [done|]. simpl. apply IH. by apply refines_op.
Qed.

(** What a catalogue answers. *)
Lemma article_answer db c id : catalogues db c ->
  ss_get_article_by_id id db = Ok (cat_articles c !! id)
  /\ ss_get_message_size id db = Ok (size_of <$> cat_articles c !! id).
Proof.
  intros Hc. unfold ss_get_article_by_id, ss_get_message_size, message_of_row, reconstruct_message_from_row.
  pose proof (ct_articles _ _ Hc id) as Ha.
  destruct (db_messages db !! id) as [row|], (cat_articles c !! id) as [a|]; try done.
  destruct Ha as (Hh & Hb & Hs & _). rewrite Hh, Hb. simpl. rewrite (recorded_size row a Hs).
  split; [|done]. by destruct a.
Qed.

Lemma number_answer db c g n : catalogues db c ->
  ss_get_article_by_number g n db
  = Ok (cat_index c !! (g, Z.of_N n) ≫= (fun v => cat_articles c !! fst v)).
Proof.
  intros Hc. unfold ss_get_article_by_number. rewrite (ct_index _ _ Hc).
  assert (Hn : cat_index c !! (g, i64_try_from n (-1)) = cat_index c !! (g, Z.of_N n)).
  { unfold i64_try_from. destruct (Z.leb_spec (Z.of_N n) i64_max) as [|Hgt]; [done|].
    rewrite <- (ct_index _ _ Hc). pose proof (wf_number _ (ct_wf _ _ Hc) g) as Hw.
    destruct (db_group_articles db !! (g, (-1)%Z)) eqn:E1; [apply Hw in E1; lia|].
    destruct (db_group_articles db !! (g, Z.of_N n)) eqn:E2; [apply Hw in E2; lia|done]. }
  rewrite Hn. destruct (cat_index c !! (g, Z.of_N n)) as [[id t]|]; [|done]. simpl.
  exact (proj1 (article_answer db c id Hc)).
Qed.

Lemma numbers_answer db c g : catalogues db c -> exists ns,
  ss_list_article_numbers g db = Ok <$> ns /\ StronglySorted N.lt ns
  /\ forall n, n ∈ ns <-> is_Some (cat_index c !! (g, Z.of_N n)).
Proof.
  intros Hc. pose proof (wf_number _ (ct_wf _ _ Hc) g) as Hw.
  exists (u64_try_from <$> (fst <$> group_rows_by_number g db)). split; [apply ss_numbers_listed|].
  split; [by eapply ss_numbers_increase, ss_numbers_listed|].
  intros n. rewrite <- (ct_index _ _ Hc), list_elem_of_fmap. setoid_rewrite elem_numbers. split.
  - intros (z & -> & [v Hv]). pose proof (Hw _ _ Hv). unfold u64_try_from.
    destruct (Z.ltb_spec z 0); [lia|]. rewrite Z2N.id by lia. eauto.
  - intros [v Hv]. exists (Z.of_N n). split; [|eauto]. unfold u64_try_from.
    destruct (Z.ltb_spec (Z.of_N n) 0); lia.
Qed.

Lemma groups_answer db c : catalogues db c ->
  (forall g, ss_group_exists g db = Ok (bool_decide (is_Some (cat_groups c !! g)))
     /\ ss_is_group_moderated g db = Ok (default false (gi_moderated <$> cat_groups c !! g)))
  /\ exists l, ss_list_groups db = Ok <$> l /\ l ≡ₚ elements (dom (cat_groups c)).
Proof.
  intros Hc. split.
  - intros g. unfold ss_group_exists, ss_is_group_moderated. rewrite (ct_groups _ _ Hc), lookup_fmap.
    destruct (cat_groups c !! g) as [[t m d]|]; simpl; [|done].
    split; [done|]. by destruct m.
  - exists (fst <$> groups_by_name db). split; [unfold ss_list_groups; by rewrite <- list_fmap_compose|].
    unfold groups_by_name. rewrite merge_sort_Permutation, (ct_groups _ _ Hc).
    apply NoDup_Permutation; [apply NoDup_fst_map_to_list|apply NoDup_elements|].
    intros g. rewrite elem_of_elements, elem_of_dom, list_elem_of_fmap. split.
    + intros ([h r] & -> & Hin). apply elem_of_map_to_list in Hin. rewrite lookup_fmap in Hin.
      apply fmap_Some in Hin as (i & Hi & _). by exists i.
    + intros [i Hi]. exists (g, group_row i). split; [done|]. apply elem_of_map_to_list.
      by rewrite lookup_fmap, Hi.
Qed.

(** C6: the stores refine the catalogue: after any updates of a new store the next update
    succeeds exactly when it does on the catalogue those updates make, and articles by
    Message-ID, by group and number, sizes, the numbers of a group, the groups and their
    moderation are answered from that catalogue; the PostgreSQL store is in the same state
    when the texts of the updates are without NUL. *)
Theorem stores_refine_catalogue (ops : list StorageOp) :
  let c := catalogue_ops ops empty_catalogue in
  let db := run_storage_ops ops empty_db in
  (forall op, succeeds (fst (catalogue_op op c)) (fst (run_storage_op op db)))
  /\ (forall id, ss_get_article_by_id id db = Ok (cat_articles c !! id)
        /\ ss_get_message_size id db = Ok (size_of <$> cat_articles c !! id))
  /\ (forall g n, ss_get_article_by_number g n db
        = Ok (cat_index c !! (g, Z.of_N n) ≫= (fun v => cat_articles c !! fst v)))
  /\ (forall g, exists ns, ss_list_article_numbers g db = Ok <$> ns /\ StronglySorted N.lt ns
        /\ forall n, n ∈ ns <-> is_Some (cat_index c !! (g, Z.of_N n)))
  /\ (forall g, ss_group_exists g db = Ok (bool_decide (is_Some (cat_groups c !! g)))
        /\ ss_is_group_moderated g db = Ok (default false (gi_moderated <$> cat_groups c !! g)))
  /\ (exists l, ss_list_groups db = Ok <$> l /\ l ≡ₚ elements (dom (cat_groups c)))
  /\ (Forall clean_op ops -> run_pg_ops ops empty_db = db).
Proof.
  intros c db.
  assert (Hc : catalogues db c) by apply refines_ops, catalogues_empty.
  split; [intros op; by apply refines_op|]. split; [intros id; by apply article_answer|].
  split; [intros g n; by apply number_answer|]. split; [intros g; by apply numbers_answer|].
  destruct (groups_answer db c Hc) as [H1 H2]. split; [exact H1|]. split; [exact H2|].
  intros Ho. apply run_ops_agree; [done|]. intros g r. simpl. by rewrite lookup_empty.
Qed.
End Refinement.

Lemma stores_refine_catalogue_witness :
  @ss_get_article_by_number Toy.ext (lit "misc.a") 1 (@run_storage_ops Toy.ext two_updates empty_db)
  = Ok (Some art1)
  /\ @run_pg_ops Toy.ext two_updates empty_db = @run_storage_ops Toy.ext two_updates empty_db.
Proof.
  destruct (@stores_refine_catalogue Toy.ext Toy.json_laws two_updates) as (_ & _ & Hn & _ & _ & _ & Hpg).
  split; [rewrite Hn; vm_compute; reflexivity|]. apply Hpg.
  repeat constructor; apply clean_has_nul; vm_compute; reflexivity.
Defined.
