(* ===== verification/PgAuth.v ===== *)
(** * PgAuth: the PostgreSQL authentication back end ([auth/postgres.rs])

    The tables of [auth/migrations/postgres] and one definition per statement.  As in
    [PgStorage.v] the server refuses texts with NUL; foreign keys are always enforced; and
    a user who is added again is updated in place, so that no row that names the user is
    touched.  Timestamps are the server's own: the class [PgTime] says how it reads and
    writes them. *)

From stdpp Require Import base numbers list gmap strings.
From Stdlib Require Import NArith ZArith Lia.
From S2P Require Import Prelude Text Externals Wildmat Limits Auth SqliteAuth Accounts Storage SqliteStorage PgStorage.
Local Open Scope N_scope.

(** [user_limits] has a BOOLEAN, an INTEGER and two BIGINT columns, all nullable; the window
    of [user_usage] is an instant. *)
Record PgLimitsRow := mkPgLimitsRow {
  pl_can_post : option bool;
  pl_max_connections : option Z;
  pl_bandwidth_limit : option Z;
  pl_bandwidth_period : option Z;
}.
Record PgUsageRow := mkPgUsageRow {
  pu_uploaded : Z;
  pu_downloaded : Z;
  pu_window_start_at : Z;
}.

Record PgAuthDb := mkPgAuthDb {
  pg_users : gmap str (str * option str);
  pg_admins : gset str;
  pg_moderators : gset (str * str);
  pg_user_limits : gmap str PgLimitsRow;
  pg_user_usage : gmap str PgUsageRow;
}.

Definition empty_pg_auth : PgAuthDb := mkPgAuthDb ∅ ∅ ∅ ∅ ∅.

(** Reading a text as TIMESTAMPTZ, and [to_char] with the pattern of the source. *)
Class PgTime := {
  timestamptz_in : str -> option Z;
  pg_to_char : Z -> str;
}.

Definition pg_fk_failed {A} : result A := Err (lit "violates foreign key constraint").
Definition pg_time_format : str := lit "%Y-%m-%dT%H:%M:%SZ".

(** [v as i32]. *)
Definition as_i32_of_u32 (n : N) : Z :=
  let z := (Z.of_N n mod 2 ^ 32)%Z in if (z <? 2 ^ 31)%Z then z else (z - 2 ^ 32)%Z.

Section PgAuth.
Context {X : Ext} {T : PgTime}.

(** A statement with these text parameters. *)
Definition pg_statement (params : list str) (f : PgAuthDb -> result unit * PgAuthDb) (db : PgAuthDb)
  : result unit * PgAuthDb :=
  if existsb has_nul params then (Err encoding_error, db) else f db.
(** Two statements, the second only if the first succeeds. *)
Definition pg_then (f g : PgAuthDb -> result unit * PgAuthDb) (db : PgAuthDb)
  : result unit * PgAuthDb :=
  match f db with
  | (Ok _, db) => g db
  | (Err e, db) => (Err e, db)
  end.

Definition pg_referenced (u : str) (db : PgAuthDb) : bool :=
  bool_decide (u ∈ pg_admins db) || existsb (fun m => str_eqb (fst m) u) (elements (pg_moderators db)).
Definition pg_has_user (u : str) (db : PgAuthDb) : bool :=
  match pg_users db !! u with Some _ => true | None => false end.
Definition set_pg_users (f : gmap str (str * option str) -> gmap str (str * option str))
    (db : PgAuthDb) : PgAuthDb :=
  mkPgAuthDb (f (pg_users db)) (pg_admins db) (pg_moderators db) (pg_user_limits db) (pg_user_usage db).
Definition set_pg_admins (f : gset str -> gset str) (db : PgAuthDb) : PgAuthDb :=
  mkPgAuthDb (pg_users db) (f (pg_admins db)) (pg_moderators db) (pg_user_limits db) (pg_user_usage db).
Definition set_pg_moderators (f : gset (str * str) -> gset (str * str)) (db : PgAuthDb) : PgAuthDb :=
  mkPgAuthDb (pg_users db) (pg_admins db) (f (pg_moderators db)) (pg_user_limits db) (pg_user_usage db).

(** A row that names a user is inserted only for a user who is there. *)
Definition pg_insert_for (u : str) (f : PgAuthDb -> PgAuthDb) (db : PgAuthDb)
  : result unit * PgAuthDb :=
  if pg_has_user u db then (Ok tt, f db) else (pg_fk_failed, db).

Definition pg_add_user_with_key (salt : N) (u password : str) (key : option str) (db : PgAuthDb)
  : result unit * PgAuthDb :=
  match argon2_hash password salt with
  | Err e => (Err e, db)
  | Ok hash =>
      pg_statement (u :: hash :: option_list key)
        (fun db => (Ok tt, set_pg_users (<[u := (hash, key)]>) db)) db
  end.
Definition pg_add_user (salt : N) (u password : str) (db : PgAuthDb) : result unit * PgAuthDb :=
  pg_add_user_with_key salt u password None db.

Definition pg_update_password (salt : N) (u new_password : str) (db : PgAuthDb)
  : result unit * PgAuthDb :=
  match argon2_hash new_password salt with
  | Err e => (Err e, db)
  | Ok hash =>
      pg_statement [hash; u] (fun db => (Ok tt, set_pg_users (alter (fun r => (hash, snd r)) u) db)) db
  end.

(** DELETE FROM users: refused while an administrator or moderator row names the user, and
    cascading into the limits and the usage. *)
Definition pg_delete_user (u : str) (db : PgAuthDb) : result unit * PgAuthDb :=
  if pg_has_user u db then
    if pg_referenced u db then (pg_fk_failed, db)
    else (Ok tt, mkPgAuthDb (delete u (pg_users db)) (pg_admins db) (pg_moderators db)
                   (delete u (pg_user_limits db)) (delete u (pg_user_usage db)))
  else (Ok tt, db).
Definition pg_remove_user (u : str) : PgAuthDb -> result unit * PgAuthDb :=
  pg_then (pg_statement [u] (pg_delete_user u))
    (pg_then (pg_statement [u] (fun db => (Ok tt, set_pg_admins (.∖ {[u]}) db)))
       (pg_statement [u] (fun db => (Ok tt, set_pg_moderators (filter (fun m => fst m <> u)) db)))).

Definition pg_verify_user (u password : str) (db : PgAuthDb) : result bool :=
  pg_fetch [u]
    match pg_users db !! u with
    | Some (stored, _) =>
        match pw_hash_new stored with
        | Ok parsed => Ok (argon2_verify password parsed)
        | Err e => Err e
        end
    | None => Ok false
    end.

Definition pg_is_admin (u : str) (db : PgAuthDb) : result bool :=
  pg_fetch [u] (Ok (bool_decide (u ∈ pg_admins db))).

(** INSERT INTO admins ... ON CONFLICT DO NOTHING. *)
Definition pg_add_admin_without_key (u : str) : PgAuthDb -> result unit * PgAuthDb :=
  pg_statement [u] (fun db =>
    if bool_decide (u ∈ pg_admins db) then (Ok tt, db)
    else pg_insert_for u (set_pg_admins ({[u]} ∪.)) db).

Definition pg_update_pgp_key (u key : str) : PgAuthDb -> result unit * PgAuthDb :=
  pg_statement [key; u] (fun db =>
    (Ok tt, set_pg_users (alter (fun r => (fst r, Some key)) u) db)).

Definition pg_add_admin (u key : str) : PgAuthDb -> result unit * PgAuthDb :=
  pg_then (pg_add_admin_without_key u) (pg_update_pgp_key u key).

Definition pg_remove_admin (u : str) : PgAuthDb -> result unit * PgAuthDb :=
  pg_statement [u] (fun db => (Ok tt, set_pg_admins (.∖ {[u]}) db)).

Definition pg_get_pgp_key (u : str) (db : PgAuthDb) : result (option str) :=
  pg_fetch [u] (Ok (match pg_users db !! u with Some (_, k) => k | None => None end)).

Definition pg_add_moderator (u pattern : str) : PgAuthDb -> result unit * PgAuthDb :=
  pg_statement [u; pattern] (fun db =>
    if bool_decide ((u, pattern) ∈ pg_moderators db) then (Ok tt, db)
    else pg_insert_for u (set_pg_moderators ({[(u, pattern)]} ∪.)) db).

Definition pg_remove_moderator (u pattern : str) : PgAuthDb -> result unit * PgAuthDb :=
  pg_statement [u; pattern] (fun db => (Ok tt, set_pg_moderators (.∖ {[(u, pattern)]}) db)).

Definition pg_is_moderator (u group : str) (db : PgAuthDb) : result bool :=
  pg_fetch [u] (Ok (existsb (fun m => str_eqb (fst m) u && wildmat (snd m) group)
                      (elements (pg_moderators db)))).

Definition pg_get_user_limits (u : str) (db : PgAuthDb) : result (option UserLimits) :=
  pg_fetch [u] (Ok (match pg_user_limits db !! u with
    | None => None
    | Some row =>
        Some (mkUserLimits (default true (pl_can_post row))
                (as_u32 <$> pl_max_connections row)
                (as_u64 <$> pl_bandwidth_limit row)
                (as_u64 <$> pl_bandwidth_period row))
    end)).

Definition pg_set_user_limits (u : str) (l : UserLimits) : PgAuthDb -> result unit * PgAuthDb :=
  let row := mkPgLimitsRow (Some (ul_can_post l)) (as_i32_of_u32 <$> ul_max_connections l)
               (as_i64 <$> ul_bandwidth_limit l) (as_i64 <$> ul_bandwidth_period_secs l) in
  pg_statement [u] (pg_insert_for u (fun db =>
    mkPgAuthDb (pg_users db) (pg_admins db) (pg_moderators db)
      (<[u := row]> (pg_user_limits db)) (pg_user_usage db))).

Definition pg_clear_user_limits (u : str) : PgAuthDb -> result unit * PgAuthDb :=
  pg_statement [u] (fun db =>
    (Ok tt, mkPgAuthDb (pg_users db) (pg_admins db) (pg_moderators db)
              (delete u (pg_user_limits db)) (pg_user_usage db))).

Definition pg_get_user_usage (u : str) (db : PgAuthDb) : result UserUsage :=
  pg_fetch [u] (Ok (match pg_user_usage db !! u with
    | None => default_UserUsage
    | Some row =>
        mkUserUsage (as_u64 (pu_uploaded row)) (as_u64 (pu_downloaded row))
          (parse_from_rfc3339 (pg_to_char (pu_window_start_at row)))
    end)).

Definition pg_put_usage (u : str) (row : PgUsageRow) : PgAuthDb -> result unit * PgAuthDb :=
  pg_insert_for u (fun db =>
    mkPgAuthDb (pg_users db) (pg_admins db) (pg_moderators db) (pg_user_limits db)
      (<[u := row]> (pg_user_usage db))).

Definition pg_set_user_usage (now : Z) (u : str) (usage : UserUsage)
  : PgAuthDb -> result unit * PgAuthDb :=
  let window_start_str := format_utc (default now (uu_window_start usage)) pg_time_format in
  pg_statement [u; window_start_str] (fun db =>
    match timestamptz_in window_start_str with
    | None => (Err (lit "invalid input syntax for type timestamp with time zone"), db)
    | Some w => pg_put_usage u (mkPgUsageRow (as_i64 (uu_bytes_uploaded usage))
                                  (as_i64 (uu_bytes_downloaded usage)) w) db
    end).

Definition pg_reset_user_usage (now : Z) (u : str) : PgAuthDb -> result unit * PgAuthDb :=
  pg_statement [u] (pg_put_usage u (mkPgUsageRow 0 0 now)).

#[export] Instance postgres_auth : AuthProvider PgAuthDb := {|
  add_user := pg_add_user;
  add_user_with_key := pg_add_user_with_key;
  update_password := pg_update_password;
  remove_user := pg_remove_user;
  verify_user := pg_verify_user;
  is_admin := pg_is_admin;
  add_admin := pg_add_admin;
  add_admin_without_key := pg_add_admin_without_key;
  remove_admin := pg_remove_admin;
  update_pgp_key := pg_update_pgp_key;
  get_pgp_key := pg_get_pgp_key;
  add_moderator := pg_add_moderator;
  remove_moderator := pg_remove_moderator;
  is_moderator := pg_is_moderator;
  get_user_limits := pg_get_user_limits;
  set_user_limits := pg_set_user_limits;
  clear_user_limits := pg_clear_user_limits;
  get_user_usage := pg_get_user_usage;
  set_user_usage := pg_set_user_usage;
  reset_user_usage := pg_reset_user_usage;
|}.
End PgAuth.

#[export] Instance postgres_auth_typed {X : Ext} {T : PgTime} : AuthTyped PgAuthDb.
Proof.
  split.
  - intros u db l. simpl. unfold pg_get_user_limits, pg_fetch.
    destruct (existsb _ _); [done|]. destruct (pg_user_limits db !! u) as [row|]; [|done].
    intros [= <-]. split_and!; cbn; intros n Hn; apply fmap_Some in Hn as (z & _ & ->);
      auto using as_u64_bound, as_u32_bound.
  - intros u db x. simpl. unfold pg_get_user_usage, pg_fetch.
    destruct (existsb _ _); [done|]. destruct (pg_user_usage db !! u) as [row|];
      intros [= <-]; split; cbn; auto using as_u64_bound; done.
Qed.

#[export] Instance postgres_auth_stable {X : Ext} {T : PgTime} : AuthStable PgAuthDb.
Proof.
  split.
  - intros v u k db. simpl. unfold pg_get_user_limits, pg_update_pgp_key, pg_statement.
    by destruct (existsb _ [k; u]).
  - intros v now u x db. simpl. unfold pg_get_user_limits, pg_set_user_usage, pg_statement.
    destruct (existsb _ _); [done|]. destruct (timestamptz_in _); [|done].
    unfold pg_put_usage, pg_insert_for. by destruct (pg_has_user u db).
Qed.

(** ** Both back ends refine the accounts of [Accounts.v] *)
Section Refinement.
Context {X : Ext} {T : PgTime} `{!ArgonLaws}.

Definition run_pg_auth_op (op : AuthOp) : PgAuthDb -> result unit * PgAuthDb :=
  match op with
  | OpAddUser salt u p key => pg_add_user_with_key salt u p key
  | OpUpdatePassword salt u p => pg_update_password salt u p
  | OpRemoveUser u => pg_remove_user u
  | OpAddAdmin u key => pg_add_admin u key
  | OpAddAdminWithoutKey u => pg_add_admin_without_key u
  | OpRemoveAdmin u => pg_remove_admin u
  | OpUpdatePgpKey u key => pg_update_pgp_key u key
  | OpAddModerator u p => pg_add_moderator u p
  | OpRemoveModerator u p => pg_remove_moderator u p
  | OpSetLimits u l => pg_set_user_limits u l
  | OpClearLimits u => pg_clear_user_limits u
  | OpSetUsage now u usage => pg_set_user_usage now u usage
  | OpResetUsage now u => pg_reset_user_usage now u
  end.
Definition run_pg_auth_ops (ops : list AuthOp) (db : PgAuthDb) : PgAuthDb :=
  foldl (fun db op => snd (run_pg_auth_op op db)) db ops.

(** Operations whose texts the server accepts. *)
Definition accepted (op : AuthOp) : Prop :=
  match op with
  | OpAddUser _ u _ key => Forall clean (u :: option_list key)
  | OpUpdatePassword _ u _ | OpRemoveUser u | OpAddAdminWithoutKey u | OpRemoveAdmin u
  | OpSetLimits u _ | OpClearLimits u | OpResetUsage _ u => clean u
  | OpAddAdmin u x | OpUpdatePgpKey u x | OpAddModerator u x | OpRemoveModerator u x =>
      clean u /\ clean x
  | OpSetUsage now u usage =>
      let text := format_utc (default now (uu_window_start usage)) pg_time_format in
      clean u /\ clean text /\ is_Some (timestamptz_in text)
  end.

Definition pg_implements (db : PgAuthDb) (s : Accounts) : Prop :=
  stands_for (pg_users db) (pg_admins db) (pg_moderators db) s /\ roles_known s.

Lemma pg_statement_clean params f db : Forall clean params -> pg_statement params f db = f db.
Proof. intros Hp. unfold pg_statement. by rewrite clean_params. Qed.

(** The tables of users and roles are all that [pg_implements] sees. *)
Definition pg_simulates (f : PgAuthDb -> result unit * PgAuthDb) (op : AuthOp) : Prop :=
  forall db s, pg_implements db s ->
    is_ok (fst (f db)) = fst (account_op op s)
    /\ stands_for (pg_users (snd (f db))) (pg_admins (snd (f db))) (pg_moderators (snd (f db)))
         (snd (account_op op s)).

Lemma pg_sim_statement params f op : Forall clean params -> pg_simulates f op ->
  pg_simulates (pg_statement params f) op.
Proof. intros Hp Hf db s HR. rewrite pg_statement_clean by done. by apply Hf. Qed.

(** Inserting a row for a user; [f] leaves the users alone. *)
Lemma pg_sim_insert u op f :
  (forall s, account_op op s = if_known u s (snd (account_op op s))) ->
  (forall db s, stands_for (pg_users db) (pg_admins db) (pg_moderators db) s -> known u s = true ->
     stands_for (pg_users (f db)) (pg_admins (f db)) (pg_moderators (f db)) (snd (account_op op s))) ->
  pg_simulates (pg_insert_for u f) op.
Proof.
  intros Hop Hf db s [HR _]. unfold pg_insert_for.
  assert (Hk : pg_has_user u db = known u s) by by eapply stands_known.
  rewrite Hk, (Hop s). unfold if_known. destruct (known u s) eqn:Eu; [|done]. split; [done|]. by apply Hf.
Qed.

Lemma if_known_snd u s s' : if_known u s s' = if_known u s (snd (if_known u s s')).
Proof. unfold if_known. by destruct (known u s). Qed.

Lemma pg_sim_add_user salt u p key : Forall clean (u :: option_list key) ->
  pg_simulates (pg_add_user_with_key salt u p key) (OpAddUser salt u p key).
Proof.
  intros Hc db [ps ads mods] [HR _]. unfold pg_add_user_with_key.
  destruct (hash_made p salt) as (h & Eh & Hh). rewrite Eh.
  rewrite pg_statement_clean. 2:{ inversion Hc. repeat constructor; [done| |done].
    by eapply argon2_hash_text. }
  split; [done|]. destruct HR as (Ha & Hm & Hu). simpl in *. rewrite Ha, Hm. by apply stands_insert.
Qed.

Lemma pg_sim_update_password salt u p : clean u ->
  pg_simulates (pg_update_password salt u p) (OpUpdatePassword salt u p).
Proof.
  intros Hc db [ps ads mods] [HR _]. unfold pg_update_password.
  destruct (hash_made p salt) as (h & Eh & Hh). rewrite Eh.
  rewrite pg_statement_clean by (repeat constructor; [by eapply argon2_hash_text|done]).
  split; [done|]. destruct HR as (Ha & Hm & Hu). simpl in *. rewrite Ha, Hm. by apply stands_alter.
Qed.

Lemma pg_sim_remove_user u : clean u -> pg_simulates (pg_remove_user u) (OpRemoveUser u).
Proof.
  intros Hc db s [HR _]. unfold pg_remove_user, pg_then.
  rewrite pg_statement_clean by by repeat constructor. unfold pg_delete_user.
  assert (Hk : pg_has_user u db = known u s) by by eapply stands_known. rewrite Hk.
  assert (Hr : pg_referenced u db = holds_role u s).
  { unfold pg_referenced, holds_role. by destruct HR as (-> & -> & _). }
  rewrite Hr. destruct s as [ps ads mods]. cbn [account_op].
  destruct HR as (Ha & Hm & Hu) eqn:EHR. clear EHR. simpl in Ha, Hm.
  destruct (known u _) eqn:Eu; cbn [andb].
  - destruct (holds_role u _); [done|]. rewrite pg_statement_clean by by repeat constructor.
    rewrite pg_statement_clean by by repeat constructor. split; [done|]. cbn. rewrite Ha, Hm.
    by eapply stands_delete.
  - rewrite pg_statement_clean by by repeat constructor.
    rewrite pg_statement_clean by by repeat constructor. split; [done|]. cbn. rewrite Ha, Hm.
    assert (delete u ps = ps) as ->.
    { apply delete_id. unfold known in Eu. simpl in Eu. by destruct (ps !! u). }
    by eapply stands_roles.
Qed.

Lemma pg_sim_add_admin u : pg_simulates (fun db =>
    if bool_decide (u ∈ pg_admins db) then (Ok tt, db)
    else pg_insert_for u (set_pg_admins ({[u]} ∪.)) db) (OpAddAdminWithoutKey u).
Proof.
  intros db s HR. case_bool_decide as Hin.
  - destruct HR as [(Ha & Hm & Hu) [Hk _]]. specialize (Hk u). rewrite <- Ha in Hk. specialize (Hk Hin).
    destruct s as [ps ads mods]. cbn [account_op]. unfold if_known. rewrite Hk. split; [done|].
    simpl in *. subst. replace ({[u]} ∪ pg_admins db) with (pg_admins db) by set_solver. done.
  - revert db s HR Hin. cut (pg_simulates (pg_insert_for u (set_pg_admins ({[u]} ∪.)))
      (OpAddAdminWithoutKey u)); [by intros Hs db s HR _; apply Hs|].
    apply pg_sim_insert; [intros [ps ads mods]; apply if_known_snd|].
    intros db [ps ads mods] (Ha & Hm & Hu) Hk. simpl in *. unfold if_known. rewrite Hk.
    split_and!; [by rewrite Ha|done..].
Qed.

Lemma pg_sim_add_moderator u p : pg_simulates (fun db =>
    if bool_decide ((u, p) ∈ pg_moderators db) then (Ok tt, db)
    else pg_insert_for u (set_pg_moderators ({[(u, p)]} ∪.)) db) (OpAddModerator u p).
Proof.
  intros db s HR. case_bool_decide as Hin.
  - destruct HR as [(Ha & Hm & Hu) [_ Hk]]. specialize (Hk u p). rewrite <- Hm in Hk. specialize (Hk Hin).
    destruct s as [ps ads mods]. cbn [account_op]. unfold if_known. rewrite Hk. split; [done|].
    simpl in *. subst. replace ({[(u, p)]} ∪ pg_moderators db) with (pg_moderators db) by set_solver. done.
  - revert db s HR Hin. cut (pg_simulates (pg_insert_for u (set_pg_moderators ({[(u, p)]} ∪.)))
      (OpAddModerator u p)); [by intros Hs db s HR _; apply Hs|].
    apply pg_sim_insert; [intros [ps ads mods]; apply if_known_snd|].
    intros db [ps ads mods] (Ha & Hm & Hu) Hk. simpl in *. unfold if_known. rewrite Hk.
    split_and!; [done|by rewrite Hm|done].
Qed.

(** Rows of the limits and the usage. *)
Lemma pg_sim_row u op f : (forall s, account_op op s = if_known u s s) ->
  (forall db, pg_users (f db) = pg_users db /\ pg_admins (f db) = pg_admins db
     /\ pg_moderators (f db) = pg_moderators db) ->
  pg_simulates (pg_insert_for u f) op.
Proof.
  intros Hop Hf. apply pg_sim_insert.
  - intros s. rewrite Hop. apply if_known_snd.
  - intros db s HR Hk. rewrite Hop. unfold if_known. rewrite Hk.
    destruct (Hf db) as (-> & -> & ->). exact HR.
Qed.

Lemma pg_sim_op op : accepted op -> pg_simulates (run_pg_auth_op op) op.
Proof.
  assert (Hrow : forall u, (forall s : Accounts, (let '(mkAccounts _ _ _) := s in if_known u s s)
     = if_known u s s)) by (by intros u []).
  destruct op as [salt u p key|salt u p|u|u key|u|u|u key|u p|u p|u l|u|now u usage|now u];
    cbn [accepted run_pg_auth_op]; intros Hc.
  - by apply pg_sim_add_user.
  - by apply pg_sim_update_password.
  - by apply pg_sim_remove_user.
  - destruct Hc as [Hu Hx]. intros db s HR. unfold pg_add_admin, pg_then, pg_add_admin_without_key.
    rewrite pg_statement_clean by by repeat constructor.
    destruct (pg_sim_add_admin u db s HR) as [Ho HR']. revert Ho HR'.
    assert (Hop : account_op (OpAddAdmin u key) s = account_op (OpAddAdminWithoutKey u) s)
      by by destruct s. rewrite Hop.
    destruct (if bool_decide _ then _ else _) as [[[]|e] db']; cbn; intros Ho HR'; [|by rewrite <- Ho].
    unfold pg_update_pgp_key. rewrite pg_statement_clean by by repeat constructor. split; [done|].
    by apply stands_keys.
  - apply pg_sim_statement; [by repeat constructor|]. apply pg_sim_add_admin.
  - apply pg_sim_statement; [by repeat constructor|]. intros db [ps ads mods] [(Ha & Hm & Hu) _].
    split; [done|]. simpl in *. by subst.
  - destruct Hc. apply pg_sim_statement; [by repeat constructor|]. intros db [ps ads mods] [HR _].
    split; [done|]. by apply stands_keys.
  - destruct Hc. apply pg_sim_statement; [by repeat constructor|]. apply pg_sim_add_moderator.
  - destruct Hc. apply pg_sim_statement; [by repeat constructor|].
    intros db [ps ads mods] [(Ha & Hm & Hu) _]. split; [done|]. simpl in *. by subst.
  - apply pg_sim_statement; [by repeat constructor|]. apply pg_sim_row; [by intros []|done].
  - apply pg_sim_statement; [by repeat constructor|]. intros db [ps ads mods] [HR _]. done.
  - destruct Hc as (Hu & Ht & [w Hw]). apply pg_sim_statement; [by repeat constructor|].
    rewrite Hw. apply pg_sim_row; [by intros []|done].
  - apply pg_sim_statement; [by repeat constructor|]. apply pg_sim_row; [by intros []|done].
Qed.

Lemma pg_step op db s : accepted op -> pg_implements db s ->
  is_ok (fst (run_pg_auth_op op db)) = fst (account_op op s)
  /\ pg_implements (snd (run_pg_auth_op op db)) (snd (account_op op s)).
Proof.
  intros Hc HR. destruct (pg_sim_op op Hc db s HR) as [Ho HR']. split; [done|]. split; [done|].
  apply roles_known_step, HR.
Qed.

(** What a back end with these tables answers. *)
Definition answers_of (s : Accounts) (verify : str -> str -> result bool)
    (admin : str -> result bool) (moderator : str -> str -> result bool) (u : str) : Prop :=
  (forall q, verify u q = Ok (match ac_passwords s !! u with Some p => str_eqb q p | None => false end))
  /\ admin u = Ok (bool_decide (u ∈ ac_admins s))
  /\ forall g, moderator u g
       = Ok (existsb (fun m => str_eqb (fst m) u && wildmat (snd m) g) (elements (ac_moderators s))).

(** C18: both back ends implement the same table of accounts: after the same accepted
    operations on new databases every password check, administrator check and moderator
    check is answered from the accounts those operations make, the next operation fails on
    each exactly when it names a user who has to be there and is not, or removes a user who
    still holds a role; and whoever holds a role is a user. *)
Theorem back_ends_refine_accounts (ops : list AuthOp) : Forall accepted ops ->
  let s := account_ops ops no_accounts in
  let sq := run_auth_ops true ops empty_auth_db in
  let pg := run_pg_auth_ops ops empty_pg_auth in
  roles_known s
  /\ (forall u, clean u ->
        answers_of s (fun u q => sq_verify_user u q sq) (fun u => sq_is_admin u sq)
          (fun u g => sq_is_moderator u g sq) u
        /\ answers_of s (fun u q => pg_verify_user u q pg) (fun u => pg_is_admin u pg)
             (fun u g => pg_is_moderator u g pg) u)
  /\ forall op, accepted op ->
       is_ok (fst (run_auth_op true op sq)) = fst (account_op op s)
       /\ is_ok (fst (run_pg_auth_op op pg)) = fst (account_op op s).
Proof.
  intros Ho s sq pg.
  assert (Hsq : implements sq s).
  { apply (simulation (run_auth_op true) implements (fun _ => True)).
    - intros op a t _. apply sqlite_step.
    - by apply Forall_true.
    - split_and!; [done..|]. intros u. simpl. by rewrite !lookup_empty. }
  assert (Hpg : pg_implements pg s).
  { apply (simulation run_pg_auth_op pg_implements accepted); [intros; by apply pg_step|done|].
    split; [|apply roles_known_none]. split_and!; [done..|]. intros u. simpl. by rewrite !lookup_empty. }
  split; [apply Hpg|]. split; [|intros op Hop; split; [by apply sqlite_step|by apply pg_step]].
  intros u Hu. split; split_and!.
  - intros q. by eapply verify_answer.
  - unfold sq_is_admin. by destruct Hsq as (-> & _).
  - intros g. unfold sq_is_moderator. by destruct Hsq as (_ & -> & _).
  - intros q. unfold pg_verify_user, pg_fetch. rewrite clean_params by by repeat constructor.
    by eapply verify_answer, Hpg.
  - unfold pg_is_admin, pg_fetch. rewrite clean_params by by repeat constructor.
    by destruct Hpg as [(-> & _) _].
  - intros g. unfold pg_is_moderator, pg_fetch. rewrite clean_params by by repeat constructor.
    by destruct Hpg as [(_ & -> & _) _].
Qed.

(** Adding a user who is already there replaces the password in both back ends; in
    the SQLite one the row is deleted and inserted anew, which takes the user's limits
    and usage away, while in the PostgreSQL one they stay. *)
Theorem readded_user salt u p key (sq : AuthDb) (pg : PgAuthDb) :
  has_user u sq = true -> Forall clean (u :: option_list key) ->
  exists sq' pg', sq_add_user_with_key true salt u p key sq = (Ok tt, sq')
    /\ pg_add_user_with_key salt u p key pg = (Ok tt, pg')
    /\ (forall q, sq_verify_user u q sq' = Ok (str_eqb q p) /\ pg_verify_user u q pg' = Ok (str_eqb q p))
    /\ sq_get_user_limits u sq' = Ok None /\ sq_get_user_usage u sq' = Ok default_UserUsage
    /\ pg_get_user_limits u pg' = pg_get_user_limits u pg
    /\ pg_get_user_usage u pg' = pg_get_user_usage u pg.
Proof.
  intros Hu Hc. destruct (hash_made p salt) as (h & Eh & ph & Hph & Hq).
  unfold sq_add_user_with_key, pg_add_user_with_key. rewrite Eh, Hu, pg_statement_clean.
  2:{ inversion Hc. repeat constructor; [done| |done]. by eapply argon2_hash_text. }
  eexists _, _. split; [done|]. split; [done|]. split.
  - intros q. unfold sq_verify_user, pg_verify_user, pg_fetch.
    rewrite clean_params by (repeat constructor; by inversion Hc).
    simpl. rewrite !lookup_insert_eq, Hph, Hq. done.
  - unfold sq_get_user_limits, sq_get_user_usage. simpl. by rewrite !lookup_delete_eq.
Qed.

(** Limits and usage through the signed columns and the server's timestamps. *)
Lemma as_u32_as_i32 n : n < 2 ^ 32 -> as_u32 (as_i32_of_u32 n) = n.
Proof.
  intros Hn. unfold as_u32, as_i32_of_u32. rewrite (Z.mod_small (Z.of_N n)) by lia.
  destruct (Z.ltb_spec (Z.of_N n) (2 ^ 31)); [rewrite Z.mod_small by lia; lia|].
  replace (Z.of_N n - 2 ^ 32)%Z with (Z.of_N n + (-1) * 2 ^ 32)%Z by lia.
  rewrite Z.mod_add, Z.mod_small by lia. lia.
Qed.
End Refinement.

(** The server reads the text of an instant of the years 1 to 9999 as that instant, and writes
    an instant as a text that reads back as it, both to the second. *)
Definition four_digit_year (t : Z) : Prop := (-62135596800 <= timestamp t <= 253402300799)%Z.
Definition whole_second (t : Z) : Z := (timestamp t * ns_per_sec)%Z.
Class PgTimeLaws {X : Ext} {T : PgTime} : Prop := {
  timestamptz_reads t : four_digit_year t ->
    clean (format_utc t pg_time_format) /\
    timestamptz_in (format_utc t pg_time_format) = Some (whole_second t);
  to_char_reads t : four_digit_year t -> parse_from_rfc3339 (pg_to_char t) = Some (whole_second t);
}.

Section RoundTrip.
Context {X : Ext} {T : PgTime} `{!PgTimeLaws}.

Lemma whole_second_again t : whole_second (whole_second t) = whole_second t.
Proof.
  unfold whole_second, timestamp, ns_per_sec. by rewrite Z.div_mul.
Qed.

(** In PostgreSQL the limits and the usage set for a user are those read back, whatever
    their [u32] and [u64] values - the columns are signed and may hold them as negative
    numbers - with the start of the window to the second; no other user's change. *)
Theorem postgres_limits_roundtrip now u (l : UserLimits) (usage : UserUsage) (db : PgAuthDb) :
  clean u -> pg_has_user u db = true -> limits_ok l ->
  uu_bytes_uploaded usage <= u64_max -> uu_bytes_downloaded usage <= u64_max ->
  four_digit_year (default now (uu_window_start usage)) ->
  exists db1 db2, pg_set_user_limits u l db = (Ok tt, db1)
    /\ pg_set_user_usage now u usage db1 = (Ok tt, db2)
    /\ pg_get_user_limits u db2 = Ok (Some l)
    /\ pg_get_user_usage u db2 = Ok (mkUserUsage (uu_bytes_uploaded usage) (uu_bytes_downloaded usage)
         (Some (whole_second (default now (uu_window_start usage)))))
    /\ forall v, v <> u -> pg_get_user_limits v db2 = pg_get_user_limits v db
        /\ pg_get_user_usage v db2 = pg_get_user_usage v db.
Proof.
  intros Hu Hhas (H1 & H2 & H3) Hup Hdown Hyear. set (t := default now _) in *.
  destruct (timestamptz_reads t Hyear) as [Htext Hin].
  unfold pg_set_user_limits. rewrite pg_statement_clean by by repeat constructor.
  unfold pg_insert_for at 1. rewrite Hhas. eexists _, _. split; [reflexivity|].
  unfold pg_set_user_usage. fold t. rewrite pg_statement_clean by by repeat constructor.
  rewrite Hin. unfold pg_put_usage, pg_insert_for. unfold pg_has_user in *. cbn [pg_users].
  rewrite Hhas. split; [reflexivity|].
  unfold pg_get_user_limits, pg_get_user_usage, pg_fetch. cbn [existsb pg_user_limits pg_user_usage].
  rewrite (proj1 (clean_has_nul u) Hu), !lookup_insert_eq. cbn [orb]. split_and!.
  - do 2 f_equal. destruct l as [cp mc bl bp]. cbn in *. f_equal.
    + destruct mc as [n|]; [|done]. cbn. by rewrite as_u32_as_i32 by auto.
    + destruct bl as [n|]; [|done]. cbn. by rewrite as_u64_as_i64 by auto.
    + destruct bp as [n|]; [|done]. cbn. by rewrite as_u64_as_i64 by auto.
  - cbn. rewrite !as_u64_as_i64 by done. rewrite to_char_reads, whole_second_again; [done|].
    unfold four_digit_year in *. unfold whole_second, timestamp, ns_per_sec in *. by rewrite Z.div_mul.
  - intros v Hv. by rewrite !lookup_insert_ne.
Qed.
End RoundTrip.

(** ** Concrete runs: an instant as its seconds, written with a final Z *)
Definition toy_time : PgTime := {|
  timestamptz_in := fun s => (fun n => n * ns_per_sec)%Z <$> Toy.read_Z s;
  pg_to_char := fun t => show_Z (timestamp t) ++ lit "Z";
|}.

Lemma show_Z_clean z : clean (show_Z z).
Proof.
  unfold show_Z. destruct (z <? 0)%Z; [|apply clean_digits].
  apply (clean_app [45]); [|apply clean_digits]. by intros ?%list_elem_of_singleton.
Qed.

Lemma toy_time_laws : @PgTimeLaws Toy.ext toy_time.
Proof.
  assert (Hr : forall t, four_digit_year t -> Toy.read_Z (show_Z (timestamp t)) = Some (timestamp t)).
  { intros t Ht. apply Toy.read_show_Z. unfold four_digit_year, u64_max in *. lia. }
  split.
  - intros t Ht. split; [apply show_Z_clean|]. simpl. by rewrite (Hr t Ht).
  - intros t Ht. unfold parse_from_rfc3339, pg_to_char. simpl. rewrite rev_app_distr. simpl.
    rewrite rev_involutive. by rewrite (Hr t Ht).
Qed.

Definition three_ops : list AuthOp :=
  [OpAddUser 1 (lit "root") (lit "pw") None; OpAddAdminWithoutKey (lit "root");
   OpRemoveUser (lit "root")].

Lemma clean_check t : has_nul t = false -> clean t.
Proof. apply clean_has_nul. Qed.

Lemma back_ends_refine_accounts_witness :
  let pg := @run_pg_auth_ops Toy.ext toy_time three_ops empty_pg_auth in
  @pg_verify_user Toy.ext (lit "root") (lit "pw") pg = Ok true
  /\ is_ok (fst (@run_pg_auth_op Toy.ext toy_time (OpRemoveUser (lit "root")) pg)) = false.
Proof.
  assert (Hc : clean (lit "root")) by (apply clean_check; vm_compute; reflexivity).
  destruct (@back_ends_refine_accounts Toy.ext toy_time Toy.argon_laws three_ops) as (_ & Hu & Hop).
  - by repeat constructor.
  - split.
    + destruct (Hu _ Hc) as [_ [H _]]. rewrite H. vm_compute. reflexivity.
    + destruct (Hop (OpRemoveUser (lit "root")) Hc) as [_ H]. rewrite H. vm_compute. reflexivity.
Defined.

Definition limited_root : UserLimits := mkUserLimits false (Some 4294967295) (Some u64_max) None.
Definition sq_root : AuthDb :=
  @run_auth_ops Toy.ext true [OpAddUser 1 (lit "root") (lit "pw") None; OpSetLimits (lit "root") limited_root]
    empty_auth_db.
Definition pg_root : PgAuthDb :=
  @run_pg_auth_ops Toy.ext toy_time
    [OpAddUser 1 (lit "root") (lit "pw") None; OpSetLimits (lit "root") limited_root] empty_pg_auth.

Lemma readded_user_witness :
  exists sq' pg', @sq_add_user_with_key Toy.ext true 2 (lit "root") (lit "new") None sq_root = (Ok tt, sq')
    /\ @pg_add_user_with_key Toy.ext 2 (lit "root") (lit "new") None pg_root = (Ok tt, pg')
    /\ sq_get_user_limits (lit "root") sq' = Ok None
    /\ pg_get_user_limits (lit "root") pg' = Ok (Some limited_root).
Proof.
  destruct (@readded_user Toy.ext toy_time Toy.argon_laws 2 (lit "root") (lit "new") None sq_root pg_root)
    as (sq' & pg' & E1 & E2 & _ & H1 & _ & H2 & _).
  - vm_compute. reflexivity.
  - repeat constructor. apply clean_check. vm_compute. reflexivity.
  - exists sq', pg'. split; [exact E1|]. split; [exact E2|]. split; [exact H1|]. rewrite H2.
    vm_compute. reflexivity.
Defined.

Lemma postgres_limits_roundtrip_witness :
  exists db1 db2, pg_set_user_limits (lit "root") limited_root pg_root = (Ok tt, db1)
    /\ @pg_set_user_usage Toy.ext toy_time 0 (lit "root") (mkUserUsage u64_max 7 (Some 1500000000%Z)) db1
       = (Ok tt, db2)
    /\ @pg_get_user_usage Toy.ext toy_time (lit "root") db2
       = Ok (mkUserUsage u64_max 7 (Some 1000000000%Z)).
Proof.
  destruct (@postgres_limits_roundtrip Toy.ext toy_time toy_time_laws 0 (lit "root") limited_root
     (mkUserUsage u64_max 7 (Some 1500000000%Z)) pg_root) as (db1 & db2 & E1 & E2 & _ & H & _).
  - apply clean_check. vm_compute. reflexivity.
  - vm_compute. reflexivity.
  - unfold limits_ok. splits; cbn; intros n Hn; [| |discriminate Hn]; injection Hn as <-;
      [reflexivity|discriminate].
  - discriminate.
  - discriminate.
  - vm_compute. split; discriminate.
  - exists db1, db2. split; [exact E1|]. split; [exact E2|]. exact H.
Defined.
