(* ===== verification/Responses.v ===== *)
(** * Responses: the response lines and the error types
    ([responses.rs], [error.rs]) *)

From stdpp Require Import base numbers list gmap strings.
From Stdlib Require Import NArith ZArith Lia.
From S2P Require Import Prelude Text Message.
Local Open Scope N_scope.

(** A text of the source that ends its lines by CRLF. *)
Definition line (s : string) : str := lit s ++ crlf.
Arguments line _%_string_scope.

(** Basic response codes. *)
Definition RESP_CRLF : str := crlf.
Definition RESP_DOT_CRLF : str := line ".".

(** Connection and status responses. *)
Definition RESP_200_READY : str := line "200 NNTP Service Ready".
Definition RESP_201_READY_NO_POST : str := line "201 NNTP Service Ready - no posting allowed".
Definition RESP_200_POSTING_ALLOWED : str := line "200 Posting allowed".
Definition RESP_201_POSTING_PROHIBITED : str := line "201 Posting prohibited".
Definition RESP_203_STREAMING : str := line "203 Streaming permitted".
Definition RESP_205_CLOSING : str := line "205 closing connection".

(** Article responses. *)
Definition RESP_220_ARTICLE : str := lit "220".
Definition RESP_221_HEAD : str := lit "221".
Definition RESP_222_BODY : str := lit "222".
Definition RESP_223_STAT : str := lit "223".
Definition RESP_224_OVERVIEW : str := line "224 Overview information follows".
Definition RESP_225_HEADERS : str := line "225 Headers follow".

(** Group and list responses. *)
Definition RESP_211_GROUP : str := lit "211".
Definition RESP_211_LISTGROUP : str := line "211 article numbers follow".
Definition RESP_215_LIST_FOLLOWS : str := line "215 list of newsgroups follows".
Definition RESP_215_DESCRIPTIONS : str := line "215 descriptions follow".
Definition RESP_215_INFO_FOLLOWS : str := line "215 information follows".
Definition RESP_215_OVERVIEW_FMT : str := line "215 Order of fields in overview database.".
Definition RESP_215_METADATA : str := line "215 metadata items supported:".
Definition RESP_221_HEADER_FOLLOWS : str := line "221 Header follows".
Definition RESP_230_NEWNEWS : str := line "230 list of new articles follows".
Definition RESP_231_NEWGROUPS : str := line "231 list of new newsgroups follows".

(** Posting responses. *)
Definition RESP_235_TRANSFER_OK : str := line "235 Article transferred OK".
Definition RESP_238_CHECK_OK : str := lit "238".
Definition RESP_239_TAKETHIS_OK : str := lit "239".
Definition RESP_240_ARTICLE_RECEIVED : str := line "240 article received".

(** Authentication responses. *)
Definition RESP_281_AUTH_OK : str := line "281 authentication accepted".
Definition RESP_290_PASSWORD_OK : str := line "290 Password for {user} accepted".

(** Error responses. *)
Definition RESP_340_SEND_ARTICLE : str :=
  line "340 send article to be posted. End with <CR-LF>.<CR-LF>".
Definition RESP_335_SEND_IT : str := line "335 Send it; end with <CR-LF>.<CR-LF>".
Definition RESP_381_PASSWORD_REQ : str := line "381 password required".

(** 4xx error responses. *)
Definition RESP_403_BANDWIDTH_EXCEEDED : str := line "403 bandwidth limit exceeded".
Definition RESP_411_NO_SUCH_GROUP : str := line "411 no such newsgroup".
Definition RESP_412_NO_GROUP : str := line "412 no newsgroup selected".
Definition RESP_420_NO_CURRENT : str := line "420 no current article selected".
Definition RESP_421_NO_NEXT : str := line "421 no next article".
Definition RESP_422_NO_PREV : str := line "422 no previous article".
Definition RESP_423_RANGE_EMPTY : str := line "423 no articles in that range".
Definition RESP_423_NO_ARTICLE_NUM : str := line "423 no such article number in this group".
Definition RESP_430_NO_ARTICLE : str := line "430 no such article".
Definition RESP_435_NOT_WANTED : str := line "435 article not wanted".
Definition RESP_437_REJECTED : str := line "437 article rejected".
Definition RESP_438_CHECK_REJECT : str := lit "438".
Definition RESP_439_TAKETHIS_REJECT : str := lit "439".
Definition RESP_440_POST_PROHIBITED : str := line "440 posting not allowed".
Definition RESP_441_POSTING_FAILED : str := line "441 posting failed".
Definition RESP_480_AUTH_REQUIRED : str := line "480 authentication required".
Definition RESP_481_AUTH_REJECTED : str := line "481 Authentication rejected".
Definition RESP_481_CONN_LIMIT : str := line "481 connection limit exceeded".
Definition RESP_483_SECURE_REQ : str := line "483 Secure connection required".

(** 5xx error responses. *)
Definition RESP_500_SYNTAX : str := line "500 Syntax error".
Definition RESP_500_UNKNOWN_CMD : str := line "500 command not recognized".
Definition RESP_501_SYNTAX : str := line "501 Syntax error".
Definition RESP_501_INVALID_ID : str := line "501 invalid id".
Definition RESP_501_INVALID_ARG : str := line "501 invalid argument".
Definition RESP_501_INVALID_DATE : str := line "501 invalid date".
Definition RESP_501_MSGID_REQUIRED : str := line "501 message-id required".
Definition RESP_501_NOT_ENOUGH : str := line "501 not enough arguments".
Definition RESP_501_UNKNOWN_KEYWORD : str := line "501 unknown keyword".
Definition RESP_501_UNKNOWN_MODE : str := line "501 unknown mode".
Definition RESP_501_MISSING_MODE : str := line "501 missing mode".
Definition RESP_503_NOT_SUPPORTED : str := line "503 feature not supported".

(** Capability responses. *)
Definition RESP_101_CAPABILITIES : str := line "101 Capability list follows".
Definition RESP_100_HELP_FOLLOWS : str := line "100 help text follows".

(** Capability list items. *)
Definition RESP_CAP_VERSION : str := line "VERSION 2".
Definition RESP_CAP_IMPLEMENTATION : str := line "IMPLEMENTATION Renews 1.0.0".
Definition RESP_CAP_READER : str := line "READER".
Definition RESP_CAP_IHAVE : str := line "IHAVE".
Definition RESP_CAP_POST : str := line "POST".
Definition RESP_CAP_NEWNEWS : str := line "NEWNEWS".
Definition RESP_CAP_HDR : str := line "HDR".
Definition RESP_CAP_OVER : str := line "OVER MSGID".
Definition RESP_CAP_LIST : str := line "LIST ACTIVE NEWSGROUPS ACTIVE.TIMES OVERVIEW.FMT HEADERS".
Definition RESP_CAP_AUTHINFO : str := line "AUTHINFO USER".
Definition RESP_CAP_STREAMING : str := line "STREAMING".

(** Help text. *)
Definition RESP_HELP_TEXT : str :=
  line "CAPABILITIES" ++ line "MODE READER" ++ line "MODE STREAM" ++ line "GROUP" ++
  line "LIST" ++ line "LISTGROUP" ++ line "ARTICLE" ++ line "HEAD" ++ line "BODY" ++
  line "STAT" ++ line "HDR" ++ line "OVER" ++ line "NEXT" ++ line "LAST" ++ line "NEWGROUPS" ++
  line "NEWNEWS" ++ line "IHAVE" ++ line "CHECK" ++ line "TAKETHIS" ++ line "POST" ++
  line "DATE" ++ line "HELP" ++ line "QUIT".

(** Overview format. *)
Definition RESP_SUBJECT : str := line "Subject:".
Definition RESP_FROM : str := line "From:".
Definition RESP_DATE : str := line "Date:".
Definition RESP_MESSAGE_ID : str := line "Message-ID:".
Definition RESP_REFERENCES : str := line "References:".
Definition RESP_BYTES : str := line ":bytes".
Definition RESP_LINES : str := line ":lines".
Definition RESP_COLON : str := line ":".

Definition streaming_response (code : N) (message_id : str) : str :=
  show_N code ++ lit " " ++ message_id ++ crlf.

(** ** Error types ([error.rs]) *)
Inductive StorageError : Type :=
| ArticleNotFound (s : str)
| StorageGroupNotFound (s : str)
| Database (e : str).

Inductive ValidationError : Type :=
| MissingHeader (s : str)
| SizeExceeded (limit actual : N)
| ValidationGroupNotFound (s : str)
| ModerationRequired
| InvalidHeader (s : str)
| FilterRejected (s : str).

Inductive AuthError : Type :=
| Required
| InvalidCredentials (s : str)
| UserNotFound (s : str)
| AccountDisabled (s : str).

Inductive LimitError : Type :=
| LimitPostingDisabled
| LimitBandwidthExceeded
| LimitConnectionLimitExceeded.

Inductive ConfigError : Type :=
| Invalid (s : str)
| MissingField (s : str)
| FileNotFound (s : str).

Inductive NntpError : Type :=
| NStorage (e : StorageError)
| NValidation (e : ValidationError)
| NAuth (e : AuthError)
| NLimit (e : LimitError)
| NConfig (e : ConfigError)
| NIo (e : str)
| NProtocol (s : str).

Definition response_code (e : NntpError) : N :=
  match e with
  | NStorage (ArticleNotFound _) => 430
  | NStorage (StorageGroupNotFound _) => 411
  | NStorage _ => 403
  | NValidation _ => 441
  | NAuth Required => 480
  | NAuth _ => 481
  | NLimit LimitPostingDisabled => 440
  | NLimit LimitBandwidthExceeded => 403
  | NLimit LimitConnectionLimitExceeded => 481
  | NConfig _ => 403
  | NIo _ => 403
  | NProtocol _ => 500
  end.

Definition client_message (e : NntpError) : str :=
  match e with
  | NStorage (ArticleNotFound _) => lit "No such article"
  | NStorage (StorageGroupNotFound _) => lit "No such group"
  | NStorage _ => lit "Service temporarily unavailable"
  | NValidation _ => lit "Posting failed"
  | NAuth Required => lit "authentication required"
  | NAuth _ => lit "Authentication failed"
  | NLimit LimitPostingDisabled => lit "posting not allowed"
  | NLimit LimitBandwidthExceeded => lit "bandwidth limit exceeded"
  | NLimit LimitConnectionLimitExceeded => lit "connection limit exceeded"
  | NConfig _ => lit "Service temporarily unavailable"
  | NIo _ => lit "Service temporarily unavailable"
  | NProtocol _ => lit "Command not recognized"
  end.

Definition to_response (e : NntpError) : str :=
  show_N (response_code e) ++ lit " " ++ client_message e ++ crlf.

(** ** Clients read the lines as they are meant *)
Lemma not_eol_forall s : CR ∉ s -> LF ∉ s -> forallb not_eol s = true.
Proof.
  intros Hc Hl. apply forallb_forall. intros c Hin. apply elem_of_list_In in Hin.
  unfold not_eol. destruct (N.eqb_spec c CR) as [->|]; [done|].
  by destruct (N.eqb_spec c LF) as [->|].
Qed.

(** A status line of a code, a space and a text without line breaks. *)
Lemma parse_status_line code text :
  code <= 65535 -> CR ∉ text -> LF ∉ text ->
  parse_response (show_N code ++ lit " " ++ text ++ crlf) = Some ([], mkResponse code text).
Proof.
  intros Hcode Hc Hl. unfold parse_response, take_while1.
  rewrite span_exact; [|apply show_N_digits|done].
  destruct (show_N code) as [|d l] eqn:E; [by apply show_N_nonempty in E|]. rewrite <- E.
  unfold parse_u16. rewrite parse_show_uint by done. cbn.
  unfold take_till_eol. rewrite span_exact; [done|by apply not_eol_forall|done].
Qed.

(** A CHECK or TAKETHIS answer reads back as its code and its Message-ID. *)
Lemma streaming_response_reads (code : N) (message_id : str) :
  code <= 65535 -> CR ∉ message_id -> LF ∉ message_id ->
  parse_response (streaming_response code message_id) = Some ([], mkResponse code message_id).
Proof. apply parse_status_line. Qed.

Lemma streaming_response_reads_witness :
  parse_response (streaming_response 438 (lit "<1@x>")) = Some ([], mkResponse 438 (lit "<1@x>")).
Proof.
  apply streaming_response_reads; [done|..]; intros H; apply elem_of_list_In in H; vm_compute in H;
    repeat destruct H as [H|H]; discriminate H || contradiction.
Defined.

(** The answer sent for an internal error is one line: the error's code and
    a fixed text that repeats nothing of what the error carries. *)
Lemma to_response_generic (e : NntpError) :
  parse_response (to_response e) = Some ([], mkResponse (response_code e) (client_message e))
  /\ In (client_message e)
       [lit "No such article"; lit "No such group"; lit "Service temporarily unavailable";
        lit "Posting failed"; lit "authentication required"; lit "Authentication failed";
        lit "posting not allowed"; lit "bandwidth limit exceeded";
        lit "connection limit exceeded"; lit "Command not recognized"].
Proof.
  destruct e as [[]|e|[]|[]|e|s|s]; (split; [vm_compute; reflexivity|]); simpl; tauto.
Qed.
