(* ===== verification/Session.v ===== *)
(** * Session: the state of one connection ([session.rs])

    The session identifier is left out: it is only logged. *)

From stdpp Require Import base numbers list gmap strings.
From Stdlib Require Import NArith ZArith Lia.
From S2P Require Import Prelude Text.

Record Session := mkSession {
  current_group : option str;
  current_article : option N;
  authenticated : bool;
  username : option str;
  is_tls : bool;
  in_stream_mode : bool;
  allow_auth_insecure : bool;
  allow_anonymous_posting : bool;
  s_is_admin : bool;
}.

Definition new_session (tls auth_insecure anonymous_posting : bool) : Session :=
  mkSession None None false None tls false auth_insecure anonymous_posting false.

Definition select_group (g : str) (first_article : option N) (s : Session) : Session :=
  mkSession (Some g) first_article (authenticated s) (username s) (is_tls s) (in_stream_mode s)
    (allow_auth_insecure s) (allow_anonymous_posting s) (s_is_admin s).

Definition leave_group (s : Session) : Session :=
  mkSession None None (authenticated s) (username s) (is_tls s) (in_stream_mode s)
    (allow_auth_insecure s) (allow_anonymous_posting s) (s_is_admin s).

Definition set_current_article (n : N) (s : Session) : Session :=
  mkSession (current_group s) (Some n) (authenticated s) (username s) (is_tls s) (in_stream_mode s)
    (allow_auth_insecure s) (allow_anonymous_posting s) (s_is_admin s).

Definition set_pending_username (u : str) (s : Session) : Session :=
  mkSession (current_group s) (current_article s) (authenticated s) (Some u) (is_tls s)
    (in_stream_mode s) (allow_auth_insecure s) (allow_anonymous_posting s) (s_is_admin s).

Definition pending_username (s : Session) : option str := username s.

Definition authenticate (u : str) (s : Session) : Session :=
  mkSession (current_group s) (current_article s) true (Some u) (is_tls s)
    (in_stream_mode s) (allow_auth_insecure s) (allow_anonymous_posting s) (s_is_admin s).

Definition authenticate_with_admin (u : str) (admin : bool) (s : Session) : Session :=
  mkSession (current_group s) (current_article s) true (Some u) (is_tls s)
    (in_stream_mode s) (allow_auth_insecure s) (allow_anonymous_posting s) admin.

Definition confirm_authentication (s : Session) : Session :=
  mkSession (current_group s) (current_article s) true (username s) (is_tls s)
    (in_stream_mode s) (allow_auth_insecure s) (allow_anonymous_posting s) (s_is_admin s).

Definition is_authenticated (s : Session) : bool := authenticated s.
Definition can_authenticate (s : Session) : bool := is_tls s || allow_auth_insecure s.
Definition session_can_post (s : Session) : bool := authenticated s || allow_anonymous_posting s.

Definition enter_stream_mode (s : Session) : Session :=
  mkSession (current_group s) (current_article s) (authenticated s) (username s) (is_tls s)
    true (allow_auth_insecure s) (allow_anonymous_posting s) (s_is_admin s).

Definition set_admin (admin : bool) (s : Session) : Session :=
  mkSession (current_group s) (current_article s) (authenticated s) (username s) (is_tls s)
    (in_stream_mode s) (allow_auth_insecure s) (allow_anonymous_posting s) admin.

(** The user whose limits apply: authenticated and not an administrator
    (the test the handlers share). *)
Definition limited_user (s : Session) : option str :=
  if is_authenticated s && negb (s_is_admin s) then username s else None.
