(* ===== verification/Wire.v ===== *)
(** * Wire: the two ends of a connection ([handlers/utils.rs])

    The input is what the client sends, decoded from UTF-8: [None] stands for
    a byte that is part of no well-formed sequence, and [c_end] for what follows the
    last byte.  The output is what has been written; writes succeed. *)

From stdpp Require Import base numbers list gmap strings.
From Stdlib Require Import NArith ZArith Lia.
From S2P Require Import Prelude Text Externals Message Responses.
Local Open Scope N_scope.

(** After its last byte a client closes the connection, stays silent for ever, or
    the connection breaks. *)
Inductive InEnd : Type := Eof | Silent | IoError.

Record Conn := mkConn { c_in : list (option char); c_end : InEnd; c_out : str }.

(** A client that sends well-formed text. *)
Definition input (s : str) : list (option char) := Some <$> s.

(** ** Reading *)
Definition is_LF (o : option char) : bool :=
  match o with Some c => c =? LF | None => false end.

(** Up to and with the first LF: the line, whether it has one, the rest. *)
Fixpoint take_line (s : list (option char)) : list (option char) * bool * list (option char) :=
  match s with
  | [] => ([], false, [])
  | c :: t => if is_LF c then ([c], true, t)
              else let '(l, b, r) := take_line t in (c :: l, b, r)
  end.

Fixpoint decode (s : list (option char)) : option str :=
  match s with
  | [] => Some []
  | Some c :: t => match decode t with Some l => Some (c :: l) | None => None end
  | None :: _ => None
  end.

(** [AsyncBufReadExt::read_line]: a line, nothing at the end of the input, an
    error for malformed text or a broken connection, or a wait for ever. *)
Inductive ReadResult : Type :=
| RLine (s : str)
| RError
| RPending.

Definition read_line_in (s : list (option char)) (e : InEnd) : ReadResult * list (option char) :=
  let '(l, terminated, rest) := take_line s in
  let text := match decode l with Some t => RLine t | None => RError end in
  if terminated then (text, rest)
  else match e with
       | Eof => (text, rest)
       | Silent => (RPending, rest)
       | IoError => (RError, rest)
       end.

Definition conn_read_line : M Conn str := fun c =>
  let '(r, rest) := read_line_in (c_in c) (c_end c) in
  let c' := mkConn rest (c_end c) (c_out c) in
  match r with
  | RLine s => (Ret s, c')
  | RError => (Fail (lit "stream did not contain valid UTF-8"), c')
  | RPending => (Stuck, c')
  end.

(** The loop of [read_message]: [msg] is what has been read. *)
Fixpoint read_message_loop (fuel : nat) (msg : str) : M Conn str :=
  match fuel with
  | O => mout Stuck
  | S fuel =>
      (line <-- conn_read_line ;;;
       if str_eqb line (lit "." ++ crlf) || str_eqb line (lit "." ++ [LF]) then mreturn msg
       else if starts_with (lit "..") line then read_message_loop fuel (msg ++ tail line)
       else read_message_loop fuel (msg ++ line))%m
  end.

(** Every turn that reads something takes at least one character; a turn that
    reads nothing is the end of the input, where the loop turns for ever. *)
Definition read_message : M Conn str := fun c =>
  read_message_loop (S (length (c_in c))) [] c.

(** ** Writing *)
Definition write_all (s : str) : M Conn unit :=
  mmodify (fun c => mkConn (c_in c) (c_end c) (c_out c ++ s)).

Definition write_simple (response : str) : M Conn unit := write_all response.

Definition send_headers (article : Message) : M Conn unit :=
  mfor (headers article) (fun kv =>
    write_all (fst kv) ;;; write_all (lit ": ") ;;; write_all (snd kv) ;;; write_all crlf)%m.

Definition send_body (body : str) : M Conn unit :=
  mfor (lines body) (fun l =>
    (if starts_with (lit ".") l then write_all (lit ".") else mreturn tt) ;;;
    write_all l ;;; write_all crlf)%m.

Definition write_response_with_values (response : str) (values : list (N * option str))
  : M Conn unit :=
  (write_all response ;;;
   mfor values (fun nv =>
     write_all (match snd nv with
                | Some v => show_N (fst nv) ++ lit " " ++ v ++ crlf
                | None => show_N (fst nv) ++ crlf
                end)) ;;;
   write_all RESP_DOT_CRLF)%m.

Definition write_lines (ls : list str) : M Conn unit := mfor ls write_all.

Fixpoint write_args (first : bool) (args : list str) : M Conn unit :=
  match args with
  | [] => mreturn tt
  | a :: args => ((if first then mreturn tt else write_all (lit " ")) ;;;
                  write_all a ;;; write_args false args)%m
  end.
Definition write_response_with_args (prefix : str) (args : list str) (suffix : str) : M Conn unit :=
  (write_all prefix ;;; write_args true args ;;; write_all suffix)%m.

(** ** What is written, as text *)
Definition wrote (s : str) (c : Conn) : Conn := mkConn (c_in c) (c_end c) (c_out c ++ s).

Definition headers_text (hs : list (str * str)) : str :=
  hs ≫= (fun kv => fst kv ++ lit ": " ++ snd kv ++ crlf).
Definition stuff (l : str) : str := (if starts_with (lit ".") l then lit "." else []) ++ l ++ crlf.
Definition body_text (body : str) : str := lines body ≫= stuff.

Lemma wrote_app s t c : wrote t (wrote s c) = wrote (s ++ t) c.
Proof. unfold wrote. simpl. by rewrite <- app_assoc. Qed.

Lemma wrote_nil c : wrote [] c = c.
Proof. unfold wrote. rewrite app_nil_r. by destruct c. Qed.

(** A loop whose turns each write a text writes their concatenation. *)
Lemma mfor_wrote {A} (l : list A) (f : A -> M Conn unit) (t : A -> str) c :
  (forall a c, f a c = (Ret tt, wrote (t a) c)) ->
  mfor l f c = (Ret tt, wrote (l ≫= t) c).
Proof.
  intros Hf. revert c. induction l as [|a l IH]; intros c; csimpl; [by rewrite wrote_nil|].
  unfold mbind'. by rewrite Hf, IH, wrote_app.
Qed.

Lemma send_headers_wrote a c : send_headers a c = (Ret tt, wrote (headers_text (headers a)) c).
Proof.
  unfold send_headers, headers_text. apply mfor_wrote. intros kv c'.
  unfold mbind', write_all, mmodify, wrote. simpl. by rewrite <- !app_assoc.
Qed.

Lemma send_body_wrote b c : send_body b c = (Ret tt, wrote (body_text b) c).
Proof.
  unfold send_body, body_text. apply mfor_wrote. intros l c'.
  unfold mbind', stuff, write_all, mmodify, mreturn, wrote.
  destruct (starts_with _ l); simpl; by rewrite <- !app_assoc.
Qed.

(** ** Reading lines *)
Lemma decode_input s : decode (input s) = Some s.
Proof. unfold input. induction s as [|c s IH]; csimpl; [done|]. by rewrite IH. Qed.

Lemma input_app s t : input (s ++ t) = input s ++ input t.
Proof. apply fmap_app. Qed.

Lemma take_line_LF x rest :
  LF ∉ x -> take_line (input (x ++ [LF]) ++ rest) = (input (x ++ [LF]), true, rest).
Proof.
  induction x as [|c x IH]; intros Hx; [done|].
  apply not_elem_of_cons in Hx as [Hne Hx].
  change (input ((c :: x) ++ [LF])) with (Some c :: input (x ++ [LF])).
  cbn [app take_line is_LF]. destruct (N.eqb_spec c LF); [congruence|]. by rewrite (IH Hx).
Qed.

(** A line that is there is read whole, whatever comes after it. *)
Lemma read_line_present x rest e out : LF ∉ x ->
  conn_read_line (mkConn (input (x ++ [LF]) ++ rest) e out)
  = (Ret (x ++ [LF]), mkConn rest e out).
Proof.
  intros Hx. unfold conn_read_line, read_line_in. cbn [c_in c_end c_out].
  rewrite take_line_LF by done. by rewrite decode_input.
Qed.

Definition is_terminator (l : str) : bool :=
  str_eqb l (lit "." ++ crlf) || str_eqb l (lit "." ++ [LF]).
Definition unstuff (l : str) : str := if starts_with (lit "..") l then tail l else l.

(** A whole line that does not end the message. *)
Definition text_line (l : str) : Prop :=
  exists x, l = x ++ [LF] /\ LF ∉ x /\ is_terminator l = false.

Lemma read_message_step fuel msg x rest e out : LF ∉ x ->
  read_message_loop (S fuel) msg (mkConn (input (x ++ [LF]) ++ rest) e out)
  = if is_terminator (x ++ [LF]) then (Ret msg, mkConn rest e out)
    else read_message_loop fuel (msg ++ unstuff (x ++ [LF])) (mkConn rest e out).
Proof.
  intros Hx. cbn [read_message_loop]. rewrite (mbind_Ret _ _ _ _ _ (read_line_present x rest e out Hx)).
  unfold is_terminator, unstuff. destruct (_ || _); [done|]. by destruct (starts_with _ _).
Qed.

Lemma read_message_lines fuel msg ls rest e out :
  Forall text_line ls -> (length ls < fuel)%nat ->
  read_message_loop fuel msg (mkConn (input (concat ls ++ lit "." ++ crlf) ++ rest) e out)
  = (Ret (msg ++ (ls ≫= unstuff)), mkConn rest e out).
Proof.
  intros Hls. revert fuel msg. induction Hls as [|l ls (x & -> & Hx & Ht) Hls IH];
    intros [|fuel] msg Hf; csimpl in Hf; [lia| |lia|].
  - change (concat [] ++ lit "." ++ crlf) with ([ch "."; CR] ++ [LF]).
    rewrite read_message_step by set_solver. csimpl. by rewrite app_nil_r.
  - cbn [concat]. rewrite <- app_assoc, input_app, <- app_assoc.
    rewrite read_message_step, Ht by done. rewrite IH by lia. csimpl. by rewrite app_assoc.
Qed.

(** ** Lines of a text have no line feed *)
Lemma split_inclusive_pieces s l : l ∈ split_inclusive_lf s ->
  (exists x, l = x ++ [LF] /\ LF ∉ x) \/ LF ∉ l.
Proof.
  revert l. induction s as [|c s IH]; intros l; cbn [split_inclusive_lf].
  { by intros []%elem_of_nil. }
  destruct (N.eqb_spec c LF) as [->|Hne].
  - intros [->|Hl]%elem_of_cons; [left; exists []; split; [done|apply not_elem_of_nil]|by apply IH].
  - destruct (split_inclusive_lf s) as [|k ks].
    + intros ->%list_elem_of_singleton. right. by intros ?%list_elem_of_singleton.
    + intros [->|Hl]%elem_of_cons; [|apply IH; by right].
      destruct (IH k (list_elem_of_here _ _)) as [(x & -> & Hx)|Hk].
      * left. exists (c :: x). split; [done|]. by apply not_elem_of_cons.
      * right. by apply not_elem_of_cons.
Qed.

Lemma strip_suffix_Some c l t : strip_suffix_char c l = Some t -> l = t ++ [c].
Proof.
  unfold strip_suffix_char. destruct (rev l) as [|d r] eqn:E; [done|].
  destruct (N.eqb_spec d c) as [->|]; [|done]. intros [= <-].
  rewrite <- (rev_involutive l), E. done.
Qed.

Lemma strip_line_end_no_LF l :
  (exists x, l = x ++ [LF] /\ LF ∉ x) \/ LF ∉ l -> LF ∉ strip_line_end l.
Proof.
  unfold strip_line_end. intros [(x & -> & Hx)|Hl].
  - rewrite strip_suffix_snoc. destruct (strip_suffix_char CR x) as [t|] eqn:E; [|done].
    apply strip_suffix_Some in E as ->. set_solver.
  - destruct (strip_suffix_char LF l) as [t|] eqn:E; [|done].
    apply strip_suffix_Some in E as ->. set_solver.
Qed.

Lemma lines_no_LF s l : l ∈ lines s -> LF ∉ l.
Proof.
  unfold lines. intros (p & -> & Hp)%list_elem_of_fmap.
  apply strip_line_end_no_LF. by apply (split_inclusive_pieces s).
Qed.

(** ** An article sent is the article read

    The body as the network carries it: every line ended by CRLF. *)
Definition canonical (body : str) : str := lines body ≫= (fun l => l ++ crlf).

Lemma stuff_text_line l : LF ∉ l -> text_line (stuff l).
Proof.
  intros Hl. unfold stuff. exists ((if starts_with (lit ".") l then lit "." else []) ++ l ++ [CR]).
  split; [by rewrite <- !app_assoc|]. split; [destruct (starts_with _ _); set_solver|].
  unfold is_terminator. apply orb_false_iff.
  destruct l as [|c l]; [done|]. unfold starts_with. change (lit ".") with [46]. cbn [strip_prefix].
  destruct (N.eqb_spec 46 c) as [<-|Hne]; split; unfold str_eqb; apply bool_decide_eq_false;
    csimpl; try discriminate; intros [= ->]; done.
Qed.

Lemma unstuff_stuff l : unstuff (stuff l) = l ++ crlf.
Proof.
  unfold unstuff, stuff. destruct l as [|c l]; [done|]. unfold starts_with.
  change (lit ".") with [46]; change (lit "..") with [46; 46]. cbn [strip_prefix].
  destruct (N.eqb_spec 46 c) as [<-|Hne]; [done|]. cbn [app strip_prefix].
  by destruct (N.eqb_spec 46 c).
Qed.

Lemma concat_bind {A B} (f : A -> list B) l : l ≫= f = concat (f <$> l).
Proof. induction l as [|a l IH]; csimpl; [done|]. by rewrite IH. Qed.

Lemma bind_unstuff_stuff ls : (stuff <$> ls) ≫= unstuff = ls ≫= (fun l => l ++ crlf).
Proof. induction ls as [|l ls IH]; csimpl; [done|]. by rewrite unstuff_stuff, IH. Qed.

(** A header that survives the trip: a name free of colons and line breaks that
    does not look like a continuation or a stuffed line, a value on one line. *)
Definition header_ok (kv : str * str) : bool :=
  match fst kv with
  | [] => false
  | c :: _ => negb (is_space c) && negb (c =? ch ".")
  end
  && forallb header_name_char (fst kv) && forallb not_eol (snd kv)
  && match snd kv with c :: _ => negb (is_space c) | [] => true end
  && (if is_header (lit "Message-ID") kv then str_eqb (unescape_message_id (snd kv)) (snd kv)
      else true).

Definition header_text (kv : str * str) : str := fst kv ++ lit ": " ++ snd kv ++ crlf.

Lemma headers_text_cons kv hs : headers_text (kv :: hs) = header_text kv ++ headers_text hs.
Proof. reflexivity. Qed.

Lemma forallb_elem {A} (f : A -> bool) l x : forallb f l = true -> x ∈ l -> f x = true.
Proof. rewrite forallb_forall. intros Hf Hx. apply Hf. by apply elem_of_list_In. Qed.

(** What a header starts with is neither a blank nor the end of the headers. *)
Definition header_start (s : str) : Prop :=
  match s with c :: _ => is_space c = false | [] => True end.

Lemma headers_start hs body : forallb header_ok hs = true ->
  header_start (headers_text hs ++ crlf ++ body).
Proof.
  destruct hs as [|[k v] hs]; [done|]. cbn [forallb]. intros [Hok _]%andb_prop.
  unfold header_ok in Hok. destruct k as [|c k]; [done|]. simpl in Hok |- *.
  rewrite !andb_true_iff in Hok. destruct Hok as [[[[[Hc _] _] _] _] _].
  by apply negb_true_iff in Hc.
Qed.

Lemma parse_one_header k v rest :
  header_ok (k, v) = true -> header_start rest ->
  parse_header_line (header_text (k, v) ++ rest) = Some (rest, (k, v)).
Proof.
  unfold header_ok. simpl. rewrite !andb_true_iff. intros [[[[Hk Hn] Hv] Hsp] _] Hrest.
  unfold header_text, parse_header_line. cbn [fst snd]. rewrite <- !app_assoc.
  rewrite take_while1_exact; [|by destruct k|exact Hn|done].
  change (lit ": " ++ v ++ crlf ++ rest) with (ch ":" :: SP :: v ++ crlf ++ rest).
  cbn [N.eqb]. rewrite N.eqb_refl.
  assert (Hs0 : space0 (SP :: v ++ crlf ++ rest) = v ++ crlf ++ rest).
  { unfold space0. change (SP :: v ++ crlf ++ rest) with ([SP] ++ (v ++ crlf ++ rest)).
    rewrite span_exact; [done|done|]. destruct v as [|c v]; [done|].
    simpl. by apply negb_true_iff in Hsp. }
  rewrite Hs0. unfold take_till_eol at 1. rewrite span_exact; [|exact Hv|done].
  unfold p_crlf at 1. rewrite strip_prefix_app.
  cbn [header_continuations]. assert (take_while1 is_space rest = None) as ->; [|done].
  unfold take_while1. destruct rest as [|c rest]; [done|]. simpl in Hrest. cbn [span]. by rewrite Hrest.
Qed.

Lemma parse_headers_text hs body : forallb header_ok hs = true ->
  parse_headers (headers_text hs ++ crlf ++ body) = Some (body, hs).
Proof.
  intros Hok. unfold parse_headers.
  enough (H : forall fuel, (length hs < fuel)%nat ->
    parse_headers_loop fuel (headers_text hs ++ crlf ++ body) = Some (body, hs)).
  { apply H. clear. induction hs as [|[k v] hs IH]; cbn [length]; [lia|].
    rewrite headers_text_cons, <- app_assoc. unfold header_text. rewrite !length_app.
    rewrite !length_app in IH.
    cbn [fst snd]. change (length crlf) with 2%nat in *. lia. }
  induction hs as [|[k v] hs IH]; intros [|fuel] Hf; cbn [length] in Hf; [lia| |lia|].
  - cbn [parse_headers_loop]. unfold p_crlf. change (headers_text [] ++ crlf ++ body) with (crlf ++ body).
    by rewrite strip_prefix_app.
  - cbn [forallb] in Hok. apply andb_prop in Hok as [Hkv Hok].
    rewrite headers_text_cons, <- app_assoc. cbn [parse_headers_loop].
    assert (p_crlf (header_text (k, v) ++ headers_text hs ++ crlf ++ body) = None) as ->.
    { unfold header_ok in Hkv. destruct k as [|c k]; [done|]. simpl in Hkv.
      rewrite !andb_true_iff in Hkv. destruct Hkv as [[[[_ [Hc _]] _] _] _].
      unfold p_crlf, header_text. cbn [fst app strip_prefix crlf]. unfold header_name_char in Hc.
      destruct (N.eqb_spec CR c) as [<-|]; [done|done]. }
    rewrite parse_one_header by (try done; by apply headers_start).
    rewrite IH by (done || lia). done.
Qed.

Lemma map_header_id name f hs :
  (forall kv, In kv hs -> is_header name kv = true -> f (snd kv) = snd kv) ->
  map_header name f hs = hs.
Proof.
  unfold map_header. induction hs as [|[k v] hs IH]; intros Hf; csimpl; [done|].
  rewrite IH by (intros kv Hin; apply Hf; by right). f_equal.
  destruct (is_header name (k, v)) eqn:E; [|done]. f_equal. by apply (Hf (k, v) (or_introl eq_refl)).
Qed.

Lemma parse_message_text hs body : forallb header_ok hs = true ->
  parse_message (headers_text hs ++ crlf ++ body) = Some (mkMessage hs body).
Proof.
  intros Hok. unfold parse_message. rewrite parse_headers_text by done. do 2 f_equal.
  apply map_header_id. intros kv Hin Hh.
  apply (proj1 (forallb_forall _ _) Hok) in Hin. unfold header_ok in Hin.
  rewrite Hh, !andb_true_iff in Hin. destruct Hin as [_ Hin]. by apply str_eqb_eq in Hin.
Qed.

(** The lines of an article as sent. *)
Definition article_text (a : Message) : str := headers_text (headers a) ++ crlf ++ body_text (body a).

Definition article_lines (a : Message) : list str :=
  (header_text <$> headers a) ++ [crlf] ++ (stuff <$> lines (body a)).

Lemma article_text_lines a : article_text a = concat (article_lines a).
Proof.
  unfold article_text, article_lines, headers_text, body_text.
  rewrite !concat_app, !concat_bind. done.
Qed.

Lemma header_text_line kv : header_ok kv = true ->
  text_line (header_text kv) /\ unstuff (header_text kv) = header_text kv.
Proof.
  destruct kv as [k v]. unfold header_ok. simpl. rewrite !andb_true_iff.
  intros [[[[Hk Hn] Hv] _] _]. unfold header_text. cbn [fst snd].
  destruct k as [|c k]; [done|]. apply andb_prop in Hk as [_ Hdot]. apply negb_true_iff in Hdot.
  split.
  - exists ((c :: k) ++ lit ": " ++ v ++ [CR]). split; [by rewrite <- !app_assoc|]. split.
    + rewrite !elem_of_app. intros [Hl|[Hl|[Hl|Hl]]].
      * by apply (forallb_elem _ _ _ Hn) in Hl.
      * apply elem_of_list_In in Hl. vm_compute in Hl. by destruct Hl as [|[|[]]].
      * by apply (forallb_elem _ _ _ Hv) in Hl.
      * by apply list_elem_of_singleton in Hl.
    + unfold is_terminator. apply orb_false_iff. split; unfold str_eqb;
        apply bool_decide_eq_false; intros [= -> _]; done.
  - unfold unstuff, starts_with. change (lit "..") with [46; 46]. cbn [app strip_prefix].
    destruct (N.eqb_spec 46 c) as [<-|]; [done|done].
Qed.

Lemma article_text_line a : forallb header_ok (headers a) = true ->
  Forall text_line (article_lines a).
Proof.
  intros Hok. unfold article_lines. rewrite !Forall_app, !Forall_fmap. split; [|split].
  - apply Forall_forall. intros kv Hin. by apply header_text_line, (forallb_elem _ _ _ Hok).
  - constructor; [|constructor]. exists [CR]. split; [done|]. split; [|done].
    by intros ?%list_elem_of_singleton.
  - apply Forall_forall. intros l Hl. by apply stuff_text_line, (lines_no_LF (body a)).
Qed.

Lemma headers_unstuff hs : forallb header_ok hs = true ->
  (header_text <$> hs) ≫= unstuff = headers_text hs.
Proof.
  induction hs as [|kv hs IH]; [done|]. cbn [forallb]. intros [Hkv Hok]%andb_prop.
  rewrite headers_text_cons, <- (IH Hok). csimpl. f_equal. by apply header_text_line.
Qed.

Lemma text_lines_length ls : Forall text_line ls -> (length ls <= length (concat ls))%nat.
Proof.
  intros Hls. induction Hls as [|l ls (x & -> & _) Hls IH]; csimpl; [lia|].
  rewrite !length_app. simpl. lia.
Qed.

(** What [read_message] makes of an article sent as ARTICLE sends it. *)
Definition received_text (a : Message) : str := headers_text (headers a) ++ crlf ++ canonical (body a).

Lemma read_article_text (a : Message) (rest : list (option char)) (e : InEnd) (out : str) :
  forallb header_ok (headers a) = true ->
  read_message (mkConn (input (article_text a ++ RESP_DOT_CRLF) ++ rest) e out)
  = (Ret (received_text a), mkConn rest e out).
Proof.
  intros Hok. unfold read_message. cbn [c_in].
  pose proof (article_text_line a Hok) as Hlines.
  rewrite article_text_lines. change RESP_DOT_CRLF with (lit "." ++ crlf).
  rewrite read_message_lines.
  - unfold article_lines. rewrite !bind_app, bind_unstuff_stuff, headers_unstuff by done.
    reflexivity.
  - exact Hlines.
  - unfold input. rewrite length_app, length_fmap, length_app.
    pose proof (text_lines_length (article_lines a) Hlines). lia.
Qed.

(** The calls by which ARTICLE and a transfer send an article. *)
Lemma send_article_wrote a c :
  (send_headers a ;;; write_all RESP_CRLF ;;; send_body (body a) ;;; write_all RESP_DOT_CRLF)%m c
  = (Ret tt, wrote (article_text a ++ RESP_DOT_CRLF) c).
Proof.
  rewrite (mbind_Ret _ _ _ _ _ (send_headers_wrote a c)). rewrite (mbind_Ret (write_all _) _ _ _ _ eq_refl).
  rewrite (mbind_Ret _ _ _ _ _ (send_body_wrote _ _)). unfold write_all, mmodify, article_text, wrote.
  cbn [c_in c_end c_out]. change RESP_CRLF with crlf. by rewrite <- !app_assoc.
Qed.

(** C13: an article whose headers are well formed, sent as ARTICLE sends it and
    read as POST, IHAVE and TAKETHIS read it, comes back with the same headers and the
    same body lines, each ended by CRLF; what follows it on the connection is untouched. *)
Theorem article_transfer (a : Message) (c : Conn) (rest : list (option char)) (e : InEnd) (out : str) :
  forallb header_ok (headers a) = true ->
  exists sent msg,
    (send_headers a ;;; write_all RESP_CRLF ;;; send_body (body a) ;;; write_all RESP_DOT_CRLF)%m c
      = (Ret tt, wrote sent c)
    /\ read_message (mkConn (input sent ++ rest) e out) = (Ret msg, mkConn rest e out)
    /\ parse_message msg = Some (mkMessage (headers a) (canonical (body a))).
Proof.
  intros Hok. exists (article_text a ++ RESP_DOT_CRLF), (received_text a). split_and!.
  - apply send_article_wrote.
  - by apply read_article_text.
  - by apply parse_message_text.
Qed.

Definition sample : Message :=
  mkMessage [(lit "Subject", lit "dots"); (lit "Message-ID", lit "<1@x>")]
    (lit ".one" ++ [LF] ++ lit "two" ++ crlf ++ lit "." ++ crlf).

Lemma article_transfer_witness :
  exists sent msg, fst (read_message (mkConn (input sent ++ []) Eof [])) = Ret msg
    /\ starts_with (lit "Subject: dots") sent = true
    /\ parse_message msg = Some (mkMessage (headers sample) (canonical (body sample))).
Proof.
  destruct (article_transfer sample (mkConn [] Eof []) [] Eof []) as (sent & msg & Es & E & H);
    [vm_compute; reflexivity|].
  exists sent, msg. rewrite E. split; [reflexivity|]. split; [|exact H].
  assert (sent = c_out (wrote sent (mkConn [] Eof []))) as -> by reflexivity.
  pose proof (f_equal (fun r => c_out (snd r)) Es) as Ec. cbv beta in Ec. cbn [snd] in Ec.
  rewrite <- Ec. vm_compute. reflexivity.
Defined.

(** ** When reading an article comes to an end *)
Lemma take_line_read_line s :
  take_line (input s)
  = (input (fst (read_line s)), ends_with [LF] (fst (read_line s)), input (snd (read_line s))).
Proof.
  induction s as [|c s IH]; [done|]. change (input (c :: s)) with (Some c :: input s).
  cbn [take_line is_LF read_line]. destruct (N.eqb_spec c LF) as [->|Hne]; [done|].
  rewrite IH. destruct (read_line s) as [l r]. cbn [fst snd]. f_equal. f_equal.
  destruct (ends_with [LF] l) eqn:E.
  - symmetry. apply ends_with_true in E as [t ->]. apply ends_with_true. by exists (c :: t).
  - symmetry. destruct (ends_with [LF] (c :: l)) eqn:E'; [|done].
    apply ends_with_true in E' as [u Ht]. destruct u as [|d t]; simplify_eq/=.
    assert (ends_with [LF] (t ++ [LF]) = true) by (apply ends_with_true; by exists t). congruence.
Qed.

Lemma split_inclusive_read_line c s :
  split_inclusive_lf (c :: s)
  = fst (read_line (c :: s)) :: split_inclusive_lf (snd (read_line (c :: s))).
Proof.
  revert c. induction s as [|d s IH]; intros c.
  { cbn. by destruct (c =? LF). }
  cbn [split_inclusive_lf read_line]. destruct (c =? LF); [done|].
  specialize (IH d). cbn [split_inclusive_lf read_line] in IH. rewrite IH.
  by destruct (if d =? LF then ([d], s) else _) as [l r].
Qed.

(** One turn of the loop on a client that sends the text [c :: s]. *)
Lemma read_turn c s e out :
  conn_read_line (mkConn (input (c :: s)) e out)
  = let '(l, r) := read_line (c :: s) in
    if ends_with [LF] l then (Ret l, mkConn (input r) e out)
    else match e with
         | Eof => (Ret l, mkConn (input r) e out)
         | Silent => (Stuck, mkConn (input r) e out)
         | IoError => (Fail (lit "stream did not contain valid UTF-8"), mkConn (input r) e out)
         end.
Proof.
  unfold conn_read_line, read_line_in. cbn [c_in c_end c_out]. rewrite take_line_read_line.
  destruct (read_line (c :: s)) as [l r]. cbn [fst snd].
  rewrite decode_input. by destruct (ends_with [LF] l), e.
Qed.

Lemma terminator_ends l : is_terminator l = true -> ends_with [LF] l = true.
Proof.
  unfold is_terminator. intros [H|H]%orb_true_iff; apply str_eqb_eq in H as ->; done.
Qed.

(** No terminator: the loop never comes back, however long it runs. *)
Lemma read_message_stuck fuel msg s e out : e <> IoError ->
  existsb is_terminator (split_inclusive_lf s) = false ->
  exists c', read_message_loop fuel msg (mkConn (input s) e out) = (Stuck, c').
Proof.
  intros He. revert msg s. induction fuel as [|fuel IH]; intros msg s Hs; [by eexists|].
  cbn [read_message_loop]. destruct s as [|c s].
  - unfold mbind', conn_read_line, read_line_in. cbn [c_in c_end c_out input fmap list_fmap take_line].
    destruct e; [|by eexists|done]. cbn. apply (IH _ []). done.
  - unfold mbind' at 1. rewrite read_turn. rewrite split_inclusive_read_line in Hs.
    destruct (read_line (c :: s)) as [l r]. cbn [fst snd existsb] in Hs.
    apply orb_false_iff in Hs as [Hl Hr]. unfold is_terminator in Hl.
    assert (Hnext : exists c', (if starts_with (lit "..") l
        then read_message_loop fuel (msg ++ tail l) else read_message_loop fuel (msg ++ l))
        (mkConn (input r) e out) = (Stuck, c')) by (destruct (starts_with _ l); by apply IH).
    destruct (ends_with [LF] l); [rewrite Hl; exact Hnext|].
    destruct e; [rewrite Hl; exact Hnext|by eexists|done].
Qed.

Lemma read_message_ends fuel msg s e out :
  existsb is_terminator (split_inclusive_lf s) = true -> (length s < fuel)%nat ->
  exists text c', read_message_loop fuel msg (mkConn (input s) e out) = (Ret text, c').
Proof.
  revert msg s. induction fuel as [|fuel IH]; intros msg s Hs Hf; [lia|].
  destruct s as [|c s]; [done|]. cbn [read_message_loop]. unfold mbind' at 1. rewrite read_turn.
  rewrite split_inclusive_read_line in Hs. pose proof (read_line_shorter c s) as Hsh.
  pose proof (read_line_concat (c :: s)) as Hc.
  destruct (read_line (c :: s)) as [l r] eqn:El. cbn [fst snd existsb] in *.
  destruct (is_terminator l) eqn:Et.
  { rewrite (terminator_ends l Et). unfold is_terminator in Et. rewrite Et. by do 2 eexists. }
  cbn [orb] in Hs. unfold is_terminator in Et.
  assert (Hend : ends_with [LF] l = true).
  { destruct r as [|d r]; [done|]. clear -El. revert c l El.
    induction s as [|b s IHs]; intros c l El; cbn [read_line] in El.
    - destruct (c =? LF); simplify_eq.
    - destruct (N.eqb_spec c LF) as [->|]; [by simplify_eq|].
      destruct (read_line (b :: s)) as [l' r'] eqn:E. cbn [read_line] in E. rewrite E in El.
      injection El as <- ->. specialize (IHs b l' E). apply ends_with_true in IHs as [t ->].
      apply ends_with_true. by exists (c :: t). }
  rewrite Hend, Et. destruct (starts_with _ l); apply IH; (done || lia).
Qed.

(** C34: a client that sends [s] and then closes the connection or stays silent: reading an
    article comes back when one of the lines sent is a single dot; otherwise
    it never does, however long it runs: also when the client has gone. *)
Theorem read_message_returns_iff (s : str) (e : InEnd) (out : str) :
  e <> IoError ->
  if existsb is_terminator (split_inclusive_lf s)
  then exists text c', read_message (mkConn (input s) e out) = (Ret text, c')
  else forall fuel msg, exists c', read_message_loop fuel msg (mkConn (input s) e out) = (Stuck, c').
Proof.
  intros He. destruct (existsb _ _) eqn:E.
  - apply read_message_ends; [done|]. unfold input. cbn [c_in]. rewrite length_fmap. lia.
  - intros fuel msg. by apply read_message_stuck.
Qed.

Lemma read_message_returns_iff_witness :
  exists c', read_message_loop 1000 [] (mkConn (input (lit "Subject: x" ++ crlf)) Eof []) = (Stuck, c').
Proof.
  assert (He : Eof <> IoError) by discriminate.
  exact (read_message_returns_iff (lit "Subject: x" ++ crlf) Eof [] He 1000%nat []).
Defined.
