(* ===== verification/Control.v ===== *)
(** * Control: control messages and their signatures
    ([control.rs], [auth/pgp_discovery.rs]) *)

From stdpp Require Import base numbers list gmap strings relations.
From Stdlib Require Import NArith ZArith Lia.
From S2P Require Import Prelude Text Externals Message Config Limits Auth SqliteAuth Storage SqliteStorage.
Local Open Scope N_scope.

Inductive ControlCommand : Type :=
| Cancel (id : str)
| NewGroup (group : str) (moderated : bool)
| RmGroup (group : str).

Definition parse_control_command (val : str) : option ControlCommand :=
  match split_whitespace val with
  | [] => None
  | w :: parts =>
      let w := to_ascii_lowercase w in
      if str_eqb w (lit "cancel") then
        match parts with id :: _ => Some (Cancel id) | [] => None end
      else if str_eqb w (lit "newgroup") then
        match parts with
        | [] => None
        | group :: parts =>
            Some (NewGroup group (match parts with
                                  | w :: _ => eq_ignore_ascii_case w (lit "moderated")
                                  | [] => false
                                  end))
        end
      else if str_eqb w (lit "rmgroup") then
        match parts with g :: _ => Some (RmGroup g) | [] => None end
      else None
  end.

(** The elements [scheme:value] of a Cancel-Key or Cancel-Lock header. *)
Definition parse_elements (val : str) : list (str * str) :=
  omap (fun p => match split_once (ch ":") (trim_matches (N.eqb (ch ",")) p) with
                 | Some (s, v) => Some (to_ascii_lowercase s, v)
                 | None => None
                 end) (split_whitespace val).

Definition is_control_message (msg : Message) : bool :=
  existsb (fun kv => eq_ignore_ascii_case (fst kv) (lit "Control") && negb (str_eqb (trim (snd kv)) []))
    (headers msg).

(** The text a signature covers. *)
Definition canonical_text (msg : Message) (signed_headers : str) : str :=
  lit "X-Signed-Headers: " ++ signed_headers ++ [LF]
  ++ (split_on (ch ",") signed_headers ≫= (fun name =>
        name ++ lit ": " ++ default [] (get_header_value msg name) ++ [LF]))
  ++ [LF]
  ++ (split_inclusive_lf (replace_crlf (body msg)) ≫= (fun l =>
        (if starts_with (lit "-") l then lit "- " else []) ++ l))
  ++ (if ends_with [LF] (body msg) then [] else [LF]).

(** The two stores a handler works on. *)
Record Stores (S A : Type) := mkStores { sto_storage : S; sto_auth : A }.
Arguments mkStores {S A}.
Arguments sto_storage {S A}.
Arguments sto_auth {S A}.

Section Stores.
Context {S A : Type}.
Definition on_storage {B} (m : M S B) : M (Stores S A) B :=
  mzoom sto_storage (fun s t => mkStores s (sto_auth t)) m.
Definition ask_storage {B} (f : S -> result B) : M (Stores S A) B :=
  fun t => (outcome_of (f (sto_storage t)), t).
Definition ask_auth {B} (f : A -> result B) : M (Stores S A) B :=
  fun t => (outcome_of (f (sto_auth t)), t).
Definition on_auth {B} (f : A -> result B * A) : M (Stores S A) B :=
  fun t => let '(r, a) := f (sto_auth t) in (outcome_of r, mkStores (sto_storage t) a).
End Stores.

Section Control.
Context {X : Ext} {S A : Type} `{Storage S} `{AuthProvider A}.

Definition hash_key (scheme key : str) : option str :=
  let bytes := utf8_encode key in
  if str_eqb scheme (lit "sha256") then Some (base64_encode (sha256_digest bytes))
  else if str_eqb scheme (lit "sha512") then Some (base64_encode (sha512_digest bytes))
  else if str_eqb scheme (lit "sha1") then Some (base64_encode (sha1_digest bytes))
  else None.

Definition verify_cancel (keys locks : list (str * str)) : bool :=
  existsb (fun sk =>
    match hash_key (fst sk) (snd sk) with
    | Some hash =>
        existsb (fun l => eq_ignore_ascii_case (fst sk) (fst l) && str_eqb (snd l) hash) locks
    | None => false
    end) keys.

(** [DefaultPgpKeyDiscovery::discover_key]. *)
Definition discover_key (key_servers : list str) (user : str) : result (option str) :=
  match pgp_get_one user key_servers with
  | Ok public_key =>
      match pgp_to_armored public_key with
      | Ok armored => Ok (Some armored)
      | Err e => Err (lit "Failed to serialize discovered key: " ++ e)
      end
  | Err _ => Ok None
  end.

Definition signature_armor (version sig_data : str) : str :=
  lit "-----BEGIN PGP SIGNATURE-----" ++ [LF] ++ lit "Version: " ++ version ++ [LF] ++ [LF]
  ++ sig_data ++ [LF] ++ lit "-----END PGP SIGNATURE-----" ++ [LF].

Definition try_verify_with_key (msg : Message) (key_text version signed_headers sig_data : str)
  : result (result unit) :=
  match pgp_key_from_string key_text with
  | Err e => Err e
  | Ok key =>
      match pgp_sig_from_armor (signature_armor version sig_data) with
      | Err e => Err e
      | Ok sig => Ok (pgp_verify sig key (canonical_text msg signed_headers))
      end
  end.

Definition verifies (msg : Message) (key_text version signed sig_data : str) : bool :=
  match try_verify_with_key msg key_text version signed sig_data with
  | Ok (Ok tt) => true
  | _ => false
  end.

Definition verify_pgp (msg : Message) (user version signed_headers sig_data : str)
    (key_servers : list str) : M (Stores S A) unit :=
  (stored_key <-- ask_auth (get_pgp_key user) ;;;
   if match stored_key with
      | Some key_text => verifies msg key_text version signed_headers sig_data
      | None => false
      end then mreturn tt
   else
     discovered <-- mlift (discover_key key_servers user) ;;;
     match discovered with
     | Some discovered_key =>
         r <-- mlift (try_verify_with_key msg discovered_key version signed_headers sig_data) ;;;
         match r with
         | Ok tt => _ <-- mcatch (on_auth (update_pgp_key user discovered_key)) ;;; mreturn tt
         | Err e => mfail (lit "Signature verification failed even with discovered key: " ++ e)
         end
     | None =>
         match stored_key with
         | Some _ => mfail (lit "Signature verification failed with stored key and no alternative key could be discovered")
         | None => mfail (lit "No PGP key found for user and no key could be discovered")
         end
     end)%m.

(** Version, signed headers and signature of an X-PGP-Sig header. *)
Definition split_signature (sig_header : str) : result (str * str * str) :=
  match split_whitespace sig_header with
  | version :: signed :: rest => Ok (version, signed, join [LF] rest)
  | _ => Err (lit "bad signature")
  end.

Definition run_control_command (now : Z) (cmd : ControlCommand) : M (Stores S A) unit :=
  match cmd with
  | Cancel id => on_storage (delete_article_by_id id)
  | NewGroup group moderated => on_storage (add_group now group moderated)
  | RmGroup group => on_storage (remove_group group)
  end.

(** The command after an administrator's signature. *)
Definition handle_signed (now : Z) (msg : Message) (c : Config) (cmd : ControlCommand)
  : M (Stores S A) bool :=
  (let from := default [] (get_header_value msg (lit "From")) in
   sig_header <-- mlift (ok_or (get_header_value msg (lit "X-PGP-Sig")) (lit "missing signature")) ;;;
   admin <-- ask_auth (is_admin from) ;;;
   (if admin then mreturn tt else mfail (lit "not admin")) ;;;
   parts <-- mlift (split_signature sig_header) ;;;
   (let '(version, signed, sig_rest) := parts in
    verify_pgp msg from version signed sig_rest (cfg_pgp_key_servers c)) ;;;
   run_control_command now cmd ;;;
   mreturn true)%m.

(** A cancel that carries a Cancel-Key. *)
Definition handle_cancel_key (id key_val : str) : M (Stores S A) bool :=
  (orig <-- ask_storage (get_article_by_id id) ;;;
   match orig with
   | Some orig =>
       match get_header_value orig (lit "Cancel-Lock") with
       | Some lock_val =>
           if verify_cancel (parse_elements key_val) (parse_elements lock_val)
           then on_storage (delete_article_by_id id) ;;; mreturn true
           else mreturn true
       | None => mreturn true
       end
   | None => mreturn true
   end)%m.

Definition handle_control (now : Z) (msg : Message) (c : Config) : M (Stores S A) bool :=
  match get_header_value msg (lit "Control") with
  | None => mreturn false
  | Some control_val =>
      (cmd <-- mlift (ok_or (parse_control_command control_val) (lit "unknown control")) ;;;
       match cmd, get_header_value msg (lit "Cancel-Key") with
       | Cancel id, Some key_val => handle_cancel_key id key_val
       | _, _ => handle_signed now msg c cmd
       end)%m
  end.
End Control.

(** ** Cancel locks *)
Section CancelLocks.
Context {X : Ext}.

(** A Cancel-Key opens a Cancel-Lock exactly when one of its elements, hashed
    by its scheme, is the value of a lock of that scheme; an unknown scheme opens
    nothing. *)
Lemma verify_cancel_iff (keys locks : list (str * str)) :
  verify_cancel keys locks = true <->
  exists scheme key hash ls, In (scheme, key) keys /\ In (ls, hash) locks
    /\ eq_ignore_ascii_case scheme ls = true /\ hash_key scheme key = Some hash.
Proof.
  unfold verify_cancel. rewrite existsb_exists. split.
  - intros ([scheme key] & Hk & Hx). simpl in Hx.
    destruct (hash_key scheme key) as [hash|] eqn:Eh; [|done].
    apply existsb_exists in Hx as ([ls lv] & Hl & He). simpl in He.
    apply andb_prop in He as [He1 He2]. apply str_eqb_eq in He2 as ->.
    by exists scheme, key, hash, ls.
  - intros (scheme & key & hash & ls & Hk & Hl & He & Hh).
    exists (scheme, key). split; [exact Hk|]. simpl. rewrite Hh. apply existsb_exists.
    exists (ls, hash). split; [exact Hl|]. simpl. by rewrite He, str_eqb_refl.
Qed.

(** The same from the texts of the headers: a word [scheme:value] of each, commas around it
    left aside, the scheme in any case; the value in the lock is the digest of the key. *)
Definition element (val scheme value : str) : Prop :=
  exists word s, In word (split_whitespace val)
    /\ trim_matches (N.eqb (ch ",")) word = s ++ lit ":" ++ value /\ ch ":" ∉ s /\ to_ascii_lowercase s = scheme.
Inductive hashes_to (key : str) : str -> str -> Prop :=
| by_sha256 : hashes_to key (lit "sha256") (base64_encode (sha256_digest (utf8_encode key)))
| by_sha512 : hashes_to key (lit "sha512") (base64_encode (sha512_digest (utf8_encode key)))
| by_sha1 : hashes_to key (lit "sha1") (base64_encode (sha1_digest (utf8_encode key))).
Definition key_opens (key_val lock_val : str) : Prop :=
  exists scheme key hash, element key_val scheme key /\ element lock_val scheme hash /\ hashes_to key scheme hash.

Lemma parse_elements_element val scheme value : In (scheme, value) (parse_elements val) -> element val scheme value.
Proof.
  unfold parse_elements. rewrite <- elem_of_list_In, list_elem_of_omap. intros (word & Hin & Hw).
  destruct (split_once (ch ":") _) as [[s v]|] eqn:E; [|done]. injection Hw as <- <-.
  apply split_once_Some in E as [E Hs]. exists word, s. split_and!; [by apply elem_of_list_In|exact E|done|done].
Qed.

Lemma lower_idemp t : to_ascii_lowercase (to_ascii_lowercase t) = to_ascii_lowercase t.
Proof.
  unfold to_ascii_lowercase. rewrite <- list_fmap_compose. apply list_fmap_ext. intros _ x _. simpl.
  unfold to_ascii_lowercase_char. destruct (is_ascii_upper x) eqn:Ex; [|by rewrite Ex].
  destruct (is_ascii_upper (x + 32)) eqn:Ey; [|done]. exfalso.
  unfold is_ascii_upper, in_range in *. revert Ex Ey. rewrite !andb_true_iff, !N.leb_le. lia.
Qed.

Lemma hash_key_hashes scheme key hash : hash_key scheme key = Some hash -> hashes_to key scheme hash.
Proof.
  unfold hash_key. destruct (str_eqb scheme (lit "sha256")) eqn:E1.
  { apply str_eqb_eq in E1 as ->. intros [= <-]. constructor. }
  destruct (str_eqb scheme (lit "sha512")) eqn:E2.
  { apply str_eqb_eq in E2 as ->. intros [= <-]. constructor. }
  destruct (str_eqb scheme (lit "sha1")) eqn:E3; [|done].
  apply str_eqb_eq in E3 as ->. intros [= <-]. constructor.
Qed.

Lemma verify_cancel_opens key_val lock_val :
  verify_cancel (parse_elements key_val) (parse_elements lock_val) = true -> key_opens key_val lock_val.
Proof.
  intros (scheme & key & hash & ls & Hk & Hl & He & Hh)%verify_cancel_iff.
  apply parse_elements_element in Hk, Hl. exists scheme, key, hash.
  split; [done|]. split; [|by apply hash_key_hashes].
  destruct Hk as (w1 & s1 & _ & _ & _ & E1), Hl as (w2 & s2 & Hin & Hw & Hc & E2).
  unfold eq_ignore_ascii_case in He. apply str_eqb_eq in He. rewrite <- E1, <- E2, !lower_idemp in He.
  exists w2, s2. split_and!; [done..|congruence].
Qed.
End CancelLocks.

(** ** Commands and signatures, from the texts *)
Section Signed.
Context {X : Ext}.

(** The words of a Control header. *)
Definition command_words (v : str) (cmd : ControlCommand) : Prop :=
  exists w rest, split_whitespace v = w :: rest /\
  match cmd with
  | Cancel id => to_ascii_lowercase w = lit "cancel" /\ head rest = Some id
  | NewGroup g moderated => to_ascii_lowercase w = lit "newgroup" /\ head rest = Some g
      /\ (moderated = true <-> exists x, rest !! 1%nat = Some x /\ to_ascii_lowercase x = lit "moderated")
  | RmGroup g => to_ascii_lowercase w = lit "rmgroup" /\ head rest = Some g
  end.

Lemma parsed_words v cmd : parse_control_command v = Some cmd -> command_words v cmd.
Proof.
  unfold parse_control_command, command_words. destruct (split_whitespace v) as [|w rest]; [done|]. cbv zeta.
  destruct (str_eqb _ (lit "cancel")) eqn:E1.
  { apply str_eqb_eq in E1. destruct rest as [|id more]; [done|]. intros [= <-]. by exists w, (id :: more). }
  destruct (str_eqb _ (lit "newgroup")) eqn:E2.
  { apply str_eqb_eq in E2. destruct rest as [|g more]; [done|]. intros [= <-]. exists w, (g :: more).
    split; [done|]. split; [done|]. split; [done|]. destruct more as [|x more]; simpl.
    - split; [done|]. by intros (x & [=] & _).
    - unfold eq_ignore_ascii_case. rewrite str_eqb_eq. split; [by eauto|]. by intros (y & [= <-] & Hy). }
  destruct (str_eqb _ (lit "rmgroup")) eqn:E3; [|done].
  apply str_eqb_eq in E3. destruct rest as [|g more]; [done|]. intros [= <-]. by exists w, (g :: more).
Qed.

(** The signed text, line by line: the names of the signed headers, these headers, an empty
    line, and the lines of the body with a dash before those that begin with one. *)
Definition body_lines (b : str) : list str :=
  let pieces := split_on LF (replace_crlf b) in
  if ends_with [LF] b then removelast pieces else pieces.
Definition dashed (l : str) : str := if starts_with (lit "-") l then lit "- " ++ l else l.
Definition signed_lines (msg : Message) (signed : str) : list str :=
  (lit "X-Signed-Headers: " ++ signed)
  :: ((fun name => name ++ lit ": " ++ default [] (get_header_value msg name)) <$> split_on (ch ",") signed)
  ++ [] :: (dashed <$> body_lines (body msg)).
Definition signed_text (msg : Message) (signed : str) : str :=
  signed_lines msg signed ≫= fun l => l ++ [LF].

(** A signature by a key, from the value of an X-PGP-Sig header: a version, the names of the
    signed headers, and the signature. *)
Definition signs (msg : Message) (key sig_header : str) : Prop :=
  exists version signed data pk sg, split_whitespace sig_header = version :: signed :: data
    /\ pgp_key_from_string key = Ok pk
    /\ pgp_sig_from_armor
         (join [LF] [lit "-----BEGIN PGP SIGNATURE-----"; lit "Version: " ++ version; [];
                     join [LF] data; lit "-----END PGP SIGNATURE-----"; []]) = Ok sg
    /\ pgp_verify sg pk (signed_text msg signed) = Ok tt.

Lemma dashed_line l : dashed (l ++ [LF]) = dashed l ++ [LF].
Proof.
  unfold dashed. assert (starts_with (lit "-") (l ++ [LF]) = starts_with (lit "-") l) as ->.
  { destruct l as [|x l]; [done|]. unfold starts_with. change (lit "-") with [ch "-"]. cbn [app strip_prefix].
    by destruct (ch "-" =? x). }
  destruct (starts_with _ l); [by rewrite <- app_assoc|done].
Qed.

Lemma ends_with_LF s : ends_with [LF] s = match last s with Some c => c =? LF | None => false end.
Proof.
  induction s as [|c s IH] using rev_ind; [done|]. rewrite last_snoc. unfold ends_with, starts_with.
  rewrite rev_app_distr. cbn [rev app strip_prefix]. rewrite N.eqb_sym. by destruct (c =? LF).
Qed.

Lemma inclusive_pieces s : (split_inclusive_lf s ≫= dashed) ++ (if ends_with [LF] s then [] else [LF])
  = (if ends_with [LF] s then removelast (split_on LF s) else split_on LF s) ≫= (fun l => dashed l ++ [LF]).
Proof.
  remember (length s) as n eqn:Hn. revert s Hn. induction (lt_wf n) as [n _ IH]. intros s ->.
  destruct (decide (LF ∈ s)) as [(l & rest & -> & Hl)%list_elem_of_split_l|Hno].
  - rewrite split_inclusive_lf_line, split_on_head by done. csimpl. rewrite dashed_line.
    specialize (IH (length rest)). rewrite length_app in IH. specialize (IH ltac:(simpl; lia) rest eq_refl).
    assert (He : ends_with [LF] (l ++ LF :: rest) = match rest with [] => true | _ => ends_with [LF] rest end).
    { rewrite !ends_with_LF. rewrite last_app_cons. destruct rest as [|x rest]; [done|]. by rewrite last_cons_cons. }
    rewrite He. destruct rest as [|x rest].
    + csimpl. by rewrite !app_nil_r.
    + rewrite <- app_assoc, IH. destruct (ends_with [LF] (x :: rest)); [|by csimpl].
      assert (Hne : split_on LF (x :: rest) <> []).
      { cbn [split_on]. destruct (x =? LF); [done|]. by destruct (split_on LF rest). }
      destruct (split_on LF (x :: rest)) as [|p ps]; [done|]. reflexivity.
  - assert (ends_with [LF] s = false) as ->.
    { rewrite ends_with_LF. destruct (last s) as [c|] eqn:El; [|done]. apply N.eqb_neq. intros ->.
      apply last_Some in El as [t ->]. apply Hno. set_solver. }
    rewrite split_on_absent by done. csimpl. rewrite app_nil_r.
    destruct s as [|x s]; [done|].
    assert (split_inclusive_lf (x :: s) = [x :: s]) as ->; [|csimpl; by rewrite app_nil_r].
    clear IH. revert x Hno. induction s as [|y s IHs]; intros x Hno; cbn [split_inclusive_lf].
    + destruct (N.eqb_spec x LF) as [->|]; [set_solver|done].
    + destruct (N.eqb_spec x LF) as [->|]; [set_solver|]. specialize (IHs y ltac:(set_solver)).
      cbn [split_inclusive_lf] in IHs. by rewrite IHs.
Qed.

Lemma replace_crlf_end b : ends_with [LF] (replace_crlf b) = ends_with [LF] b.
Proof.
  rewrite !ends_with_LF. f_equal. induction b as [|c b IH]; [done|]. cbn [replace_crlf].
  destruct b as [|d b]; [by rewrite andb_false_r|].
  destruct ((c =? CR) && (d =? LF)) eqn:E.
  - rewrite IH. by rewrite last_cons_cons.
  - rewrite last_cons_cons, <- IH.
    assert (Hne : replace_crlf (d :: b) <> []).
    { clear. revert d. induction b as [|e b IHb]; intros d; cbn [replace_crlf]; [by rewrite andb_false_r|].
      destruct ((d =? CR) && (e =? LF)); [apply IHb|done]. }
    destruct (replace_crlf (d :: b)) as [|x l]; [done|]. by rewrite last_cons_cons.
Qed.

Lemma canonical_lines msg signed : canonical_text msg signed = signed_text msg signed.
Proof.
  unfold canonical_text, signed_text, signed_lines. rewrite bind_cons, bind_app, bind_cons, <- !app_assoc.
  do 3 f_equal. rewrite list_fmap_bind. f_equal.
  { apply list_bind_ext; [|done]. intros name. cbv [compose]. by rewrite <- !app_assoc. }
  rewrite app_nil_l. f_equal. rewrite <- replace_crlf_end.
  assert (Hd : forall l : list str,
    l ≫= (fun l => (if starts_with (lit "-") l then lit "- " else []) ++ l) = l ≫= dashed).
  { intros l. apply list_bind_ext; [|done]. intros x. unfold dashed. by destruct (starts_with _ x). }
  rewrite Hd, inclusive_pieces, list_fmap_bind. unfold body_lines. rewrite replace_crlf_end.
  by apply list_bind_ext.
Qed.

Lemma verified_signs msg key h v s d : split_signature h = Ok (v, s, d) -> verifies msg key v s d = true ->
  signs msg key h.
Proof.
  unfold split_signature, verifies, try_verify_with_key.
  destruct (split_whitespace h) as [|version [|signed data]] eqn:Ew; try done. intros [= <- <- <-].
  destruct (pgp_key_from_string key) as [pk|] eqn:Ek; [|done].
  destruct (pgp_sig_from_armor _) as [sg|] eqn:Es; [|done]. rewrite canonical_lines.
  destruct (pgp_verify sg pk _) as [[]|] eqn:Ev; [|done]. intros _.
  exists version, signed, data, pk, sg. split_and!; try done.
Qed.
End Signed.

(** ** Who may change the store with a control message *)
Section Authority.
Context {X : Ext} {S A : Type} `{Storage S} `{AuthProvider A}.
Implicit Types t : Stores S A.

(** Only keys change: the article store is as it was, and the accounts differ
    by updates of keys. *)
Definition key_update (a a' : A) : Prop := exists u k, a' = snd (update_pgp_key u k a).
Definition only_keys (t t' : Stores S A) : Prop :=
  sto_storage t' = sto_storage t /\ rtc key_update (sto_auth t) (sto_auth t').

#[export] Instance only_keys_preorder : PreOrder only_keys.
Proof.
  split; [by intros t|]. intros t1 t2 t3 [H1 H2] [H3 H4]. split; [congruence|by etrans].
Qed.

Lemma ask_auth_moves {B} (f : A -> result B) : moves only_keys (ask_auth f).
Proof. apply moves_same; [apply _|]. by intros t. Qed.
Lemma ask_storage_moves {B} (f : S -> result B) : moves only_keys (ask_storage f).
Proof. apply moves_same; [apply _|]. by intros t. Qed.
Lemma update_key_moves u k : moves only_keys (on_auth (update_pgp_key u k)).
Proof.
  intros t o t'. unfold on_auth. destruct (update_pgp_key u k (sto_auth t)) as [r a] eqn:E.
  intros E1. injection E1 as _ <-. split; [done|]. apply rtc_once. exists u, k. by rewrite E.
Qed.

Hint Resolve ask_auth_moves ask_storage_moves update_key_moves : moves.

Lemma verify_pgp_moves msg user v s d ks : moves only_keys (verify_pgp msg user v s d ks).
Proof.
  unfold verify_pgp. apply moves_bind; [apply _|auto with moves|intros stored].
  destruct (match stored with Some _ => _ | None => _ end); [apply moves_ret, _|].
  apply moves_bind; [apply _|apply moves_lift, _|intros [k|]].
  - apply moves_bind; [apply _|apply moves_lift, _|intros [[]|e]]; [|apply moves_fail, _].
    apply moves_bind; [apply _| |intros []; apply moves_ret, _].
    apply moves_catch, update_key_moves; apply _.
  - destruct stored; apply moves_fail, _.
Qed.

(** A signature is accepted only if it verifies under the stored key or a discovered one. *)
Lemma verify_pgp_sound msg user v s d ks t t' :
  verify_pgp msg user v s d ks t = (Ret tt, t') ->
  exists key, (get_pgp_key user (sto_auth t) = Ok (Some key)
               \/ discover_key ks user = Ok (Some key))
              /\ verifies msg key v s d = true.
Proof.
  unfold verify_pgp. intros E. apply mbind_inv in E as (stored & t1 & E1 & E).
  unfold ask_auth in E1. destruct (get_pgp_key user (sto_auth t)) as [k0|] eqn:Ek; [|done].
  injection E1 as -> <-.
  destruct (match stored with Some _ => _ | None => _ end) eqn:Ev.
  { destruct stored as [key|]; [|done]. exists key. by split; [left|]. }
  apply mbind_inv in E as (disc & t2 & E1 & E). unfold mlift in E1.
  destruct (discover_key ks user) as [d0|] eqn:Ed; [|done]. injection E1 as -> <-.
  destruct disc as [key|]; [|destruct stored; done].
  apply mbind_inv in E as (r & t3 & E1 & E). unfold mlift in E1.
  destruct (try_verify_with_key msg key v s d) as [r0|] eqn:Et; [|done]. injection E1 as -> <-.
  exists key. split; [by right|]. unfold verifies. rewrite Et. by destruct r as [[]|].
Qed.

(** A key of a user: the stored one, or one found on the key servers. *)
Definition key_of (c : Config) (user : str) (a : A) (key : str) : Prop :=
  get_pgp_key user a = Ok (Some key)
  \/ exists pk, pgp_get_one user (cfg_pgp_key_servers c) = Ok pk /\ pgp_to_armored pk = Ok key.

Lemma discovered_key c user a key :
  get_pgp_key user a = Ok (Some key) \/ discover_key (cfg_pgp_key_servers c) user = Ok (Some key) -> key_of c user a key.
Proof.
  intros [Hk|Hk]; [by left|right]. unfold discover_key in Hk. destruct (pgp_get_one user _) as [pk|]; [|done].
  exists pk. split; [done|]. destruct (pgp_to_armored pk) as [k|]; [|done]. by injection Hk as ->.
Qed.

(** A cancel is authorised by a Cancel-Key that opens the Cancel-Lock of the article ... *)
Definition cancel_key_ok (msg : Message) (id : str) (s : S) : Prop :=
  exists key orig lock, get_header_value msg (lit "Cancel-Key") = Some key
    /\ get_article_by_id id s = Ok (Some orig)
    /\ get_header_value orig (lit "Cancel-Lock") = Some lock /\ key_opens key lock.

(** ... any command by a signature of the administrator named in From. *)
Definition admin_signed (msg : Message) (c : Config) (a : A) : Prop :=
  let from := default [] (get_header_value msg (lit "From")) in
  is_admin from a = Ok true
  /\ exists h key, get_header_value msg (lit "X-PGP-Sig") = Some h /\ key_of c from a key /\ signs msg key h.

(** The store is as it was: there is nothing to show. *)
Ltac stay := let E := fresh in intros E; unfold mreturn, mfail in E; cbv beta in E;
  injection E as _ E; subst; congruence.

Lemma handle_cancel_key_ok id key t o t' :
  handle_cancel_key id key t = (o, t') -> sto_storage t' <> sto_storage t ->
  exists orig lock, get_article_by_id id (sto_storage t) = Ok (Some orig)
    /\ get_header_value orig (lit "Cancel-Lock") = Some lock
    /\ verify_cancel (parse_elements key) (parse_elements lock) = true
    /\ sto_storage t' = snd (delete_article_by_id id (sto_storage t)).
Proof.
  unfold handle_cancel_key, mbind' at 1, ask_storage.
  destruct (get_article_by_id id (sto_storage t)) as [[orig|]|e]; cbn [outcome_of];
    [|stay..].
  destruct (get_header_value orig (lit "Cancel-Lock")) as [lock|] eqn:El;
    [|stay].
  destruct (verify_cancel _ _) eqn:Ev; [|stay]. intros E _. exists orig, lock. split_and!; try done.
  unfold mbind', on_storage, mzoom, mreturn in E. destruct (delete_article_by_id id (sto_storage t)) as [[] s];
    by injection E as _ <-.
Qed.

(** What a command does to the article store. *)
Definition carried_out (now : Z) (cmd : ControlCommand) (s s' : S) : Prop :=
  match cmd with
  | Cancel id => s' = snd (delete_article_by_id id s)
  | NewGroup g moderated => s' = snd (add_group now g moderated s)
  | RmGroup g => s' = snd (remove_group g s)
  end.

Lemma run_command_carried now cmd t : carried_out now cmd (sto_storage t) (sto_storage (snd (run_control_command now cmd t))).
Proof.
  destruct cmd as [id|g m|g]; simpl; unfold on_storage, mzoom.
  - by destruct (delete_article_by_id id (sto_storage t)).
  - by destruct (add_group now g m (sto_storage t)).
  - by destruct (remove_group g (sto_storage t)).
Qed.

Lemma handle_signed_ok now msg c cmd t o t' :
  handle_signed now msg c cmd t = (o, t') -> sto_storage t' <> sto_storage t ->
  admin_signed msg c (sto_auth t) /\ carried_out now cmd (sto_storage t) (sto_storage t').
Proof.
  unfold handle_signed, admin_signed. set (from := default [] _). cbv zeta.
  unfold mbind' at 1, mlift at 1.
  destruct (get_header_value msg (lit "X-PGP-Sig")) as [h|] eqn:Eh; cbn [ok_or outcome_of];
    [|stay].
  unfold mbind' at 1, ask_auth at 1. destruct (is_admin from (sto_auth t)) as [[]|e] eqn:Ea; cbn [outcome_of];
    [|stay..].
  unfold mbind' at 1, mreturn at 1. unfold mbind' at 1, mlift at 1.
  destruct (split_signature h) as [[[v s] d]|e] eqn:Es; cbn [outcome_of]; [|stay].
  unfold mbind' at 1. destruct (verify_pgp msg from v s d _ t) as [ov t1] eqn:Ev.
  destruct (verify_pgp_moves _ _ _ _ _ _ _ _ _ Ev) as [Hr _]. intros E Hne.
  destruct ov as [[]|e| |]; [|injection E as _ <-; congruence..].
  apply verify_pgp_sound in Ev as (key & Hk & Hv). split.
  - split; [done|]. exists h, key. split; [done|]. split; [by apply discovered_key|by eapply verified_signs].
  - rewrite <- Hr. pose proof (run_command_carried now cmd t1) as Hc.
    unfold mbind', mreturn in E. destruct (run_control_command now cmd t1) as [[]t2]; by injection E as _ <-.
Qed.

(** C15: a control message changes the article store only as the command its Control header
    holds says, and only if either the command is a cancel, the message has a Cancel-Key
    and one of its elements [scheme:key] has as its digest the value of a lock of that scheme in
    the Cancel-Lock of the article cancelled, or its From names an administrator and the
    signature in its X-PGP-Sig verifies, over the signed headers and the body, under that
    administrator's stored key or one found on the key servers. *)
Theorem control_authorised (now : Z) (msg : Message) (c : Config) (t t' : Stores S A)
    (o : outcome bool) :
  handle_control now msg c t = (o, t') -> sto_storage t' <> sto_storage t ->
  exists v cmd, get_header_value msg (lit "Control") = Some v /\ command_words v cmd
    /\ carried_out now cmd (sto_storage t) (sto_storage t')
    /\ ((exists id, cmd = Cancel id /\ cancel_key_ok msg id (sto_storage t))
        \/ admin_signed msg c (sto_auth t)).
Proof.
  unfold handle_control. destruct (get_header_value msg (lit "Control")) as [v|] eqn:Ec;
    [|stay].
  unfold mbind' at 1, mlift. destruct (parse_control_command v) as [cmd|] eqn:Ep; cbn [ok_or outcome_of];
    [|stay].
  intros E Hne. exists v, cmd. split; [done|]. split; [by apply parsed_words|].
  assert (Hs : handle_signed now msg c cmd t = (o, t') ->
    carried_out now cmd (sto_storage t) (sto_storage t')
    /\ ((exists id, cmd = Cancel id /\ cancel_key_ok msg id (sto_storage t)) \/ admin_signed msg c (sto_auth t))).
  { intros Es. destruct (handle_signed_ok _ _ _ _ _ _ _ Es Hne). by split; [|right]. }
  destruct cmd as [id| |]; [|by apply Hs..].
  destruct (get_header_value msg (lit "Cancel-Key")) as [key|] eqn:Ek; [|by apply Hs].
  destruct (handle_cancel_key_ok _ _ _ _ _ E Hne) as (orig & lock & H1 & H2 & H3 & H4).
  split; [exact H4|]. left. exists id. split; [done|]. exists key, orig, lock. split_and!; try done.
  by apply verify_cancel_opens.
Qed.

(** ** What a signature covers *)

(** The messages agree on what a signature over the listed headers covers, and on who signed. *)
Definition same_signed (signed : str) (m1 m2 : Message) : Prop :=
  body m1 = body m2
  /\ get_header_value m1 (lit "From") = get_header_value m2 (lit "From")
  /\ get_header_value m1 (lit "X-PGP-Sig") = get_header_value m2 (lit "X-PGP-Sig")
  /\ forall name, In name (split_on (ch ",") signed) ->
       get_header_value m1 name = get_header_value m2 name.

Lemma canonical_text_same signed m1 m2 : same_signed signed m1 m2 ->
  canonical_text m1 signed = canonical_text m2 signed.
Proof.
  intros (Hb & _ & _ & Hn). unfold canonical_text. rewrite Hb.
  enough (Hl : forall l f, (forall name, In name l -> In name (split_on (ch ",") signed)) ->
    (forall name, f name m1 = name ++ lit ": " ++ default [] (get_header_value m1 name) ++ [LF]) ->
    (forall name, f name m2 = name ++ lit ": " ++ default [] (get_header_value m2 name) ++ [LF]) ->
    l ≫= (fun name => f name m1) = l ≫= (fun name => f name m2)).
  { specialize (Hl (split_on (ch ",") signed)
      (fun name m => name ++ lit ": " ++ default [] (get_header_value m name) ++ [LF])).
    cbv beta in Hl. by rewrite Hl. }
  intros l f. induction l as [|n l IH]; intros Hl H1 H2; [done|]. csimpl.
  rewrite IH by (auto using in_cons). rewrite H1, H2, (Hn n) by (apply Hl; by left). done.
Qed.

Lemma verify_pgp_same signed m1 m2 user v d ks t : same_signed signed m1 m2 ->
  verify_pgp m1 user v signed d ks t = verify_pgp m2 user v signed d ks t.
Proof.
  intros Hs. unfold verify_pgp, verifies, try_verify_with_key.
  by rewrite (canonical_text_same signed m1 m2 Hs).
Qed.

(** C32: a signature stands for no command: when the Control header is not among the headers a
    signature lists, whatever an administrator signed once authorises every command -
    the message with any other Control is treated as that command signed. *)
Theorem signature_transplant (now : Z) (m1 m2 : Message) (c : Config) (cmd : ControlCommand)
    (v sig version signed data : str) t :
  get_header_value m1 (lit "X-PGP-Sig") = Some sig ->
  split_signature sig = Ok (version, signed, data) -> same_signed signed m1 m2 ->
  get_header_value m2 (lit "Control") = Some v -> parse_control_command v = Some cmd ->
  get_header_value m2 (lit "Cancel-Key") = None ->
  handle_control now m2 c t = handle_signed now m1 c cmd t.
Proof.
  intros Hsig Hsplit Hsame Hv Hcmd Hkey.
  assert (Hm2 : handle_control now m2 c t = handle_signed now m2 c cmd t).
  { unfold handle_control. rewrite Hv. unfold mbind' at 1, mlift. rewrite Hcmd, Hkey.
    by destruct cmd. }
  rewrite Hm2. pose proof Hsame as (_ & Hfrom & Hx & _). unfold handle_signed.
  rewrite <- Hfrom, <- Hx, Hsig. cbv zeta. cbn [ok_or].
  rewrite !(mbind_Ret (mlift (Ok sig)) _ t sig t) by done.
  apply mbind_ext. intros adm t1. apply mbind_ext. intros [] t2. rewrite Hsplit.
  rewrite !(mbind_Ret (mlift (Ok (version, signed, data))) _ t2 (version, signed, data) t2) by done.
  unfold mbind' at 1 3. by rewrite (verify_pgp_same signed m1 m2 _ _ _ _ _ Hsame).
Qed.
End Authority.

(** ** Concrete runs *)
Definition locked_article : Message :=
  mkMessage [(lit "Message-ID", lit "<1@x>"); (lit "Newsgroups", lit "misc.a");
             (lit "Cancel-Lock", lit "sha256:6b")] (lit "hello").
Definition cancel_message : Message :=
  mkMessage [(lit "Control", lit "cancel <1@x>"); (lit "Cancel-Key", lit "SHA256:k")] [].

Definition locked_stores : Stores Db AuthDb :=
  mkStores (snd (@ss_store_article Toy.ext ns_per_sec locked_article empty_db)) empty_auth_db.

Definition default_config : Config :=
  mkConfig (lit ":119") (lit "localhost") [] [] [] [] 600 [] None None None None 1000 1 1 [] [] []
    false false (mkUserLimitsConfig true 0 None None).

Definition handle_control_toy : Message -> M (Stores Db AuthDb) bool := fun msg =>
  @handle_control Toy.ext _ _ (@sqlite_storage Toy.ext) (@sqlite_auth Toy.ext true) 0 msg default_config.

Example cancel_deletes :
  db_messages (sto_storage (snd (handle_control_toy cancel_message locked_stores))) = ∅.
Proof. vm_compute. reflexivity. Qed.

Lemma control_authorised_witness :
  @cancel_key_ok Toy.ext _ (@sqlite_storage Toy.ext) cancel_message (lit "<1@x>") (sto_storage locked_stores).
Proof.
  destruct (@control_authorised Toy.ext _ _ (@sqlite_storage Toy.ext) (@sqlite_auth Toy.ext true) 0
           cancel_message default_config locked_stores
           (snd (handle_control_toy cancel_message locked_stores))
           (fst (handle_control_toy cancel_message locked_stores))) as (v & cmd & Hv & Hw & _ & Ha).
  - vm_compute. reflexivity.
  - intros E. apply (f_equal db_messages) in E. vm_compute in E. discriminate E.
  - vm_compute in Hv. injection Hv as <-. destruct Ha as [(id & -> & Hk)|(_ & h & key & Hh & _)].
    + destruct Hw as (w & rest & Hw & _ & Hid). vm_compute in Hw. injection Hw as <- <-. injection Hid as <-. exact Hk.
    + exfalso. vm_compute in Hh. discriminate Hh.
Defined.

(** An administrator's signature over the subject of one message removes a group. *)
Definition signed_message (control : str) : Message :=
  mkMessage [(lit "From", lit "root"); (lit "Subject", lit "s"); (lit "X-PGP-Sig", lit "1 Subject k1");
             (lit "Control", control)] [].
Definition root_stores : Stores Db AuthDb :=
  mkStores (snd (ss_add_group 0 (lit "misc.a") false empty_db))
    (@run_auth_ops Toy.ext true
      [OpAddUser 1 (lit "root") (lit "pw") (Some (lit "k1")); OpAddAdminWithoutKey (lit "root")]
      empty_auth_db).

Lemma signature_transplant_witness :
  fst (handle_control_toy (signed_message (lit "rmgroup misc.a")) root_stores) = Ret true
  /\ db_groups (sto_storage (snd (handle_control_toy (signed_message (lit "rmgroup misc.a")) root_stores))) = ∅.
Proof.
  unfold handle_control_toy.
  rewrite (@signature_transplant Toy.ext Db AuthDb (@sqlite_storage Toy.ext) (@sqlite_auth Toy.ext true)
    0 (signed_message (lit "cancel <9@x>")) (signed_message (lit "rmgroup misc.a")) default_config
    (RmGroup (lit "misc.a")) (lit "rmgroup misc.a") (lit "1 Subject k1") (lit "1") (lit "Subject")
    (lit "k1") root_stores); [vm_compute; split; reflexivity|reflexivity|reflexivity| |reflexivity..].
  split; [reflexivity|]. split; [reflexivity|]. split; [reflexivity|]. intros n [<-|[]]. reflexivity.
Defined.
