(* ===== verification/Milter.v ===== *)
(** * Milter: asking an external milter about an article ([filters/milter.rs])

    The milter is code the server only talks to: a class gives what each step of connecting
    leads to, by TCP, TLS or a Unix socket.  A connection answers with bytes that depend on the commands
    sent to it so far; when it has no more to give, it has closed or it stays silent. *)

From stdpp Require Import base numbers list gmap strings.
From Stdlib Require Import NArith ZArith Lia.
From S2P Require Import Prelude Text Message Config.
Local Open Scope N_scope.

Definition MILTER_CONNECT : N := ch "C".
Definition MILTER_HEADER : N := ch "L".
Definition MILTER_END_HEADERS : N := ch "N".
Definition MILTER_BODY : N := ch "B".
Definition MILTER_END_MESSAGE : N := ch "E".
Definition MILTER_QUIT : N := ch "Q".
Definition MILTER_ACCEPT : N := ch "a".
Definition MILTER_REJECT : N := ch "r".
Definition MILTER_DISCARD : N := ch "d".
Definition MILTER_TEMPFAIL : N := ch "t".
Definition MILTER_CONTINUE : N := ch "c".

Inductive MilterError : Type :=
| ConnectionFailed (msg : str)
| ProtocolError (msg : str)
| MilterIoError (err : str)
| TlsError (msg : str)
| InvalidScheme (msg : str)
| Rejected (msg : str)
| TempFail (msg : str).

Definition milter_error_text (e : MilterError) : str :=
  match e with
  | ConnectionFailed msg => lit "Milter connection failed: " ++ msg
  | ProtocolError msg => lit "Milter protocol error: " ++ msg
  | MilterIoError err => lit "Milter I/O error: " ++ err
  | TlsError msg => lit "Milter TLS error: " ++ msg
  | InvalidScheme msg => lit "Milter invalid scheme: " ++ msg
  | Rejected msg => lit "Article rejected by Milter: " ++ msg
  | TempFail msg => lit "Milter temporary failure: " ++ msg
  end.

Definition MilterCommand : Type := N * list N.

Record MilterPeer := mkMilterPeer {
  peer_reply : list MilterCommand -> list N;
  peer_closes : bool;
}.

(** What connecting leads to.  [None] is no answer: within the timeout for the sockets, for
    ever for the TLS handshake, which has no timeout. *)
Class MilterNet := {
  TcpStream : Type;
  tcp_connect : str -> N -> option (result TcpStream);
  tcp_peer : TcpStream -> MilterPeer;
  unix_connect : str -> N -> option (result MilterPeer);
  load_native_certs : result (list str);
  root_store_add : str -> result unit;
  server_name_ok : str -> bool;
  tls_connect : str -> TcpStream -> option (result MilterPeer);
}.

(** One connection: its peer, the commands sent and how much of the reply is read. *)
Record MilterConn := mkMilterConn {
  ml_peer : MilterPeer; ml_sent : list MilterCommand; ml_read : nat }.

Definition milter_fail {B} (e : MilterError) : M MilterConn B := mfail (milter_error_text e).

(** [u32::to_be_bytes] and [from_be_bytes]. *)
Definition be_bytes (n : N) : list N :=
  [n / 16777216 mod 256; n / 65536 mod 256; n / 256 mod 256; n mod 256].
Definition from_be_bytes (b : list N) : N := foldl (fun a d => 256 * a + d) 0 b.

(** The bytes of a command: its length as a [u32], its letter, its data. *)
Definition frame (c : MilterCommand) : list N :=
  be_bytes ((N.of_nat (length (snd c)) + 1) mod 2 ^ 32) ++ [fst c] ++ snd c.

Definition send_command (cmd : N) (data : list N) : M MilterConn unit :=
  mmodify (fun c => mkMilterConn (ml_peer c) (ml_sent c ++ [(cmd, data)]) (ml_read c)).

Definition read_exact (n : nat) : M MilterConn (list N) := fun c =>
  let available := drop (ml_read c) (peer_reply (ml_peer c) (ml_sent c)) in
  if (n <=? length available)%nat
  then (Ret (take n available), mkMilterConn (ml_peer c) (ml_sent c) (ml_read c + n))
  else if peer_closes (ml_peer c)
       then (Fail (milter_error_text (MilterIoError (lit "early eof"))), c)
       else (Stuck, c).

Definition read_response : M MilterConn N :=
  (len_buf <-- read_exact 4 ;;;
   let len := from_be_bytes len_buf in
   if len =? 0 then milter_fail (ProtocolError (lit "Invalid response length"))
   else
     response <-- read_exact (N.to_nat len) ;;;
     match response with
     | [] => milter_fail (ProtocolError (lit "Empty response"))
     | b :: _ => mreturn b
     end)%m.

Definition handle_response (response : N) : result unit :=
  if (response =? MILTER_ACCEPT) || (response =? MILTER_CONTINUE) then Ok tt
  else if response =? MILTER_REJECT
       then Err (milter_error_text (Rejected (lit "Article rejected by Milter")))
  else if response =? MILTER_DISCARD
       then Err (milter_error_text (Rejected (lit "Article discarded by Milter")))
  else if response =? MILTER_TEMPFAIL
       then Err (milter_error_text (TempFail (lit "Temporary failure from Milter")))
  else Err (milter_error_text (ProtocolError (lit "Unknown response: " ++ show_N response))).

(** One command and its answer; an answer other than "continue" decides. *)
Definition milter_step (cmd : N) (data : list N) (next : M MilterConn unit) : M MilterConn unit :=
  (send_command cmd data ;;;
   response <-- read_response ;;;
   if negb (response =? MILTER_CONTINUE) then mlift (handle_response response) else next)%m.

Fixpoint milter_headers (hs : list (str * str)) (next : M MilterConn unit) : M MilterConn unit :=
  match hs with
  | [] => next
  | kv :: hs =>
      milter_step MILTER_HEADER (utf8_encode (fst kv ++ lit ": " ++ snd kv)) (milter_headers hs next)
  end.

(** [process_article], once connected. *)
Definition milter_dialogue (article : Message) : M MilterConn unit :=
  milter_step MILTER_CONNECT (lit "NNTP 127.0.0.1")
    (milter_headers (headers article)
      (milter_step MILTER_END_HEADERS []
        (milter_step MILTER_BODY (utf8_encode (body article))
          (send_command MILTER_END_MESSAGE [] ;;;
           response <-- read_response ;;;
           mlift (handle_response response) ;;;
           send_command MILTER_QUIT [])%m))).

(** [split_once("://")]. *)
Fixpoint split_scheme (s : str) : option (str * str) :=
  match strip_prefix (lit "://") s with
  | Some rest => Some ([], rest)
  | None => match s with
            | [] => None
            | c :: t => match split_scheme t with
                        | Some (a, b) => Some (c :: a, b)
                        | None => None
                        end
            end
  end.

Section Milter.
Context {Net : MilterNet}.

Definition timed {B} (r : option (result B)) : MilterError + B :=
  match r with
  | None => inl (ConnectionFailed (lit "timeout"))
  | Some (Err e) => inl (ConnectionFailed e)
  | Some (Ok b) => inr b
  end.

Definition connect_tcp (address : str) (timeout : N) : MilterError + MilterPeer :=
  match timed (tcp_connect address timeout) with
  | inl e => inl e
  | inr stream => inr (tcp_peer stream)
  end.

Definition connect_unix (path : str) (timeout : N) : MilterError + MilterPeer :=
  timed (unix_connect path timeout).

(** The native certificates, into the root store one by one. *)
Fixpoint add_roots (certs : list str) : MilterError + unit :=
  match certs with
  | [] => inr tt
  | cert :: certs => match root_store_add cert with
                     | Ok tt => add_roots certs
                     | Err e => inl (TlsError e)
                     end
  end.

(** [address.split(':').next().unwrap_or("localhost")]. *)
Definition sni_hostname (address : str) : str := default (lit "localhost") (head (split_on (ch ":") address)).

Definition connect_tls (address : str) (timeout : N) : outcome (MilterError + MilterPeer) :=
  match timed (tcp_connect address timeout) with
  | inl e => Ret (inl e)
  | inr stream =>
      match load_native_certs with
      | Err e => Ret (inl (TlsError e))
      | Ok certs =>
          match add_roots certs with
          | inl e => Ret (inl e)
          | inr tt =>
              let hostname := sni_hostname address in
              if negb (server_name_ok hostname) then Ret (inl (TlsError (lit "Invalid hostname")))
              else match tls_connect hostname stream with
                   | Some (Ok peer) => Ret (inr peer)
                   | Some (Err e) => Ret (inl (TlsError e))
                   | None => Stuck
                   end
          end
      end
  end.

Definition milter_connect (mc : MilterConfig) : outcome (MilterError + MilterPeer) :=
  match split_scheme (mc_address mc) with
  | Some (scheme, address) =>
      if str_eqb scheme (lit "tcp") then Ret (connect_tcp address (mc_timeout_secs mc))
      else if str_eqb scheme (lit "tls") then connect_tls address (mc_timeout_secs mc)
      else if str_eqb scheme (lit "unix") then Ret (connect_unix address (mc_timeout_secs mc))
      else Ret (inl (InvalidScheme (lit "Unsupported scheme: " ++ scheme
                       ++ lit ". Supported schemes: tcp://, tls://, unix://")))
  | None => Ret (inl (InvalidScheme (lit "Invalid address format: " ++ mc_address mc
                       ++ lit ". Expected format: scheme://address (e.g., tcp://localhost:8888)")))
  end.

Definition milter_process_article (mc : MilterConfig) (article : Message) : outcome unit :=
  match milter_connect mc with
  | Ret (inl e) => Fail (milter_error_text e)
  | Ret (inr peer) => fst (milter_dialogue article (mkMilterConn peer [] 0))
  | Fail e => Fail e
  | Panic => Panic
  | Stuck => Stuck
  end.
End Milter.

(** ** What the milter's answers decide *)

(** A milter that answers the n-th command by the n-th letter of a list. *)
Definition scripted (codes : list N) : MilterPeer :=
  mkMilterPeer (fun cmds => take (length cmds) codes ≫= (fun c => frame (c, []))) true.

(** Every address leads to one milter. *)
Definition answering (peer : MilterPeer) : MilterNet := {|
  TcpStream := MilterPeer;
  tcp_connect := fun _ _ => Some (Ok peer);
  tcp_peer := fun peer => peer;
  unix_connect := fun _ _ => Some (Ok peer);
  load_native_certs := Ok [];
  root_store_add := fun _ => Ok tt;
  server_name_ok := fun _ => true;
  tls_connect := fun _ stream => Some (Ok stream);
|}.

(** How many commands a whole dialogue asks about. *)
Definition milter_questions (a : Message) : nat := length (headers a) + 4.

(** The answer that decides: the first that is not "continue". *)
Definition deciding (codes : list N) : option N :=
  find_first (fun c => negb (c =? MILTER_CONTINUE)) codes.

Lemma scripted_length codes n : (n <= length codes)%nat ->
  length (take n codes ≫= (fun c => frame (c, []))) = (5 * n)%nat.
Proof.
  revert n. induction codes as [|c codes IH]; intros [|n] H; csimpl in *; try lia.
  rewrite IH by lia. lia.
Qed.

Lemma read_exact_ok n peer sent r a b :
  drop r (peer_reply peer sent) = a ++ b -> length a = n ->
  read_exact n (mkMilterConn peer sent r) = (Ret a, mkMilterConn peer sent (r + n)).
Proof.
  intros Hd <-. unfold read_exact. cbn [ml_peer ml_sent ml_read]. rewrite Hd, length_app.
  destruct (Nat.leb_spec (length a) (length a + length b)); [|lia]. by rewrite take_app_length.
Qed.

(** After [n] answered questions, one more command gets the next letter. *)
Lemma read_scripted codes cmds cmd data c :
  codes !! length cmds = Some c ->
  read_response (mkMilterConn (scripted codes) (cmds ++ [(cmd, data)]) (5 * length cmds))
  = (Ret c, mkMilterConn (scripted codes) (cmds ++ [(cmd, data)]) (5 * S (length cmds))).
Proof.
  intros Hc. pose proof (lookup_lt_Some _ _ _ Hc) as Hlt.
  assert (Hrep : drop (5 * length cmds) (peer_reply (scripted codes) (cmds ++ [(cmd, data)]))
                 = [0; 0; 0; 1; c]).
  { simpl peer_reply. rewrite length_app. cbn [length].
    rewrite Nat.add_1_r, (take_S_r _ _ _ Hc), bind_app.
    rewrite drop_app_length'; [done|]. rewrite scripted_length; lia. }
  unfold read_response.
  rewrite (mbind_Ret _ _ _ _ _ (read_exact_ok 4 _ _ _ [0; 0; 0; 1] [c] Hrep eq_refl)).
  change (from_be_bytes [0; 0; 0; 1]) with 1. cbv zeta. cbn [N.eqb N.to_nat Pos.to_nat].
  assert (Hrep' : drop (5 * length cmds + 4) (peer_reply (scripted codes) (cmds ++ [(cmd, data)]))
                  = [c] ++ []) by (by rewrite <- drop_drop, Hrep).
  rewrite (mbind_Ret _ _ _ _ _ (read_exact_ok 1 _ _ _ [c] [] Hrep' eq_refl)).
  unfold mreturn. do 2 f_equal. lia.
Qed.

Lemma milter_step_scripted codes cmds cmd data next c :
  codes !! length cmds = Some c ->
  milter_step cmd data next (mkMilterConn (scripted codes) cmds (5 * length cmds))
  = let s := mkMilterConn (scripted codes) (cmds ++ [(cmd, data)])
               (5 * length (cmds ++ [(cmd, data)])) in
    if c =? MILTER_CONTINUE then next s else (outcome_of (handle_response c), s).
Proof.
  intros Hc. unfold milter_step, mbind', send_command, mmodify. cbn [ml_peer ml_sent ml_read].
  rewrite (read_scripted _ _ _ _ _ Hc). rewrite length_app. cbn [length]. rewrite Nat.add_1_r.
  by destruct (c =? MILTER_CONTINUE).
Qed.

Definition verdict (codes : list N) : outcome unit :=
  match deciding codes with
  | None => Ret tt
  | Some c => outcome_of (handle_response c)
  end.

(** A dialogue whose next answers decide as [verdict] says. *)
Definition follows (m : M MilterConn unit) (n : nat) : Prop :=
  forall codes cmds, (length cmds + n <= length codes)%nat ->
    fst (m (mkMilterConn (scripted codes) cmds (5 * length cmds)))
    = verdict (take n (drop (length cmds) codes)).

Lemma take_drop_S {A} (l : list A) i n x : l !! i = Some x ->
  take (S n) (drop i l) = x :: take n (drop (S i) l).
Proof. intros H. by rewrite (drop_S _ _ _ H). Qed.

Lemma follows_step cmd data next n : follows next n -> follows (milter_step cmd data next) (S n).
Proof.
  intros Hn codes cmds Hlen.
  destruct (lookup_lt_is_Some_2 codes (length cmds)) as [c Hc]; [lia|].
  rewrite (milter_step_scripted _ _ _ _ _ _ Hc), (take_drop_S _ _ _ _ Hc). cbv zeta.
  unfold verdict, deciding, find_first. cbn [List.find].
  destruct (c =? MILTER_CONTINUE); cbn [negb]; [|done].
  assert (Hl : length (cmds ++ [(cmd, data)]) = S (length cmds)) by (rewrite length_app; simpl; lia).
  rewrite Hn by lia. by rewrite Hl.
Qed.

Lemma verdict_one c : verdict [c] = outcome_of (handle_response c).
Proof.
  unfold verdict, deciding, find_first. cbn [List.find].
  destruct (N.eqb_spec c MILTER_CONTINUE) as [->|]; done.
Qed.

Lemma follows_end :
  follows (send_command MILTER_END_MESSAGE [] ;;;
           response <-- read_response ;;;
           mlift (handle_response response) ;;;
           send_command MILTER_QUIT [])%m 1.
Proof.
  intros codes cmds Hlen. destruct (lookup_lt_is_Some_2 codes (length cmds)) as [c Hc]; [lia|].
  rewrite (take_drop_S _ _ _ _ Hc). unfold mbind', send_command, mmodify, mlift.
  cbn [ml_peer ml_sent ml_read]. rewrite (read_scripted _ _ _ _ _ Hc).
  cbn [take]. rewrite verdict_one. by destruct (handle_response c) as [[]|e].
Qed.

Lemma follows_headers hs next n : follows next n -> follows (milter_headers hs next) (length hs + n).
Proof. intros Hn. induction hs as [|kv hs IH]; simpl; [done|]. by apply follows_step. Qed.

(** An address in brackets is no name for TLS: only its first bracket is taken. *)
Lemma bracketed_hostname rest : sni_hostname (lit "[::1" ++ rest) = lit "[".
Proof. reflexivity. Qed.

(** With a milter that answers every command, the article passes exactly
    when the first answer that is not "continue" is "accept" or there is none; any other
    first answer rejects it, and later answers do not count. *)
Theorem milter_verdict `{MilterNet} (mc : MilterConfig) (a : Message) (codes : list N) :
  milter_connect mc = Ret (inr (scripted codes)) -> (milter_questions a <= length codes)%nat ->
  milter_process_article mc a = verdict (take (milter_questions a) codes)
  /\ (milter_process_article mc a = Ret tt <->
      deciding (take (milter_questions a) codes) = None
      \/ deciding (take (milter_questions a) codes) = Some MILTER_ACCEPT).
Proof.
  intros Hc Hlen. unfold milter_process_article. rewrite Hc.
  assert (Hf : follows (milter_dialogue a) (milter_questions a)).
  { unfold milter_questions. replace (length (headers a) + 4)%nat with (S (length (headers a) + 3)) by lia.
    apply follows_step, follows_headers, follows_step, follows_step, follows_end. }
  specialize (Hf codes [] Hlen). change (5 * length (A:=MilterCommand) [])%nat with 0%nat in Hf.
  rewrite Hf. cbn [length drop]. split; [done|]. unfold verdict.
  destruct (deciding _) as [c|] eqn:Ed; [|tauto].
  apply find_first_Some in Ed as [_ Hne]. apply negb_true_iff in Hne.
  unfold handle_response. rewrite Hne, orb_false_r. destruct (N.eqb_spec c MILTER_ACCEPT) as [->|Ha].
  - split; [by right|done].
  - split; [|intros [|E]; congruence].
    by destruct (c =? MILTER_REJECT), (c =? MILTER_DISCARD), (c =? MILTER_TEMPFAIL).
Qed.

Lemma milter_verdict_witness :
  let net := answering (scripted (lit "cca..")) in
  @milter_process_article net (mkMilterConfig (lit "tcp://h:1") 30)
    (mkMessage [(lit "A", lit "b")] (lit "x")) = Ret tt.
Proof.
  intros net.
  apply (@milter_verdict net (mkMilterConfig (lit "tcp://h:1") 30) (mkMessage [(lit "A", lit "b")] (lit "x"))
           (lit "cca..")); [reflexivity|vm_compute; lia|].
  right. vm_compute. reflexivity.
Defined.
