(* ===== verification/Filters.v ===== *)
(** * Filters: article validation ([filters/*.rs], [handlers/utils.rs])

    A filter is a computation on the two stores: moderation may replace a
    stored key.  No filter changes the article store. *)

From stdpp Require Import base numbers list gmap strings relations.
From Stdlib Require Import NArith ZArith Lia.
From S2P Require Import Prelude Text Externals Message Config Limits Auth SqliteAuth Storage SqliteStorage Control Milter.
Local Open Scope N_scope.

Inductive Filter : Type :=
| HeaderFilter
| SizeFilter
| GroupExistenceFilter
| ModerationFilter
| MilterFilter (mc : MilterConfig).

Definition filter_name (f : Filter) : str :=
  match f with
  | HeaderFilter => lit "HeaderFilter"
  | SizeFilter => lit "SizeFilter"
  | GroupExistenceFilter => lit "GroupExistenceFilter"
  | ModerationFilter => lit "ModerationFilter"
  | MilterFilter _ => lit "MilterFilter"
  end.

Definition FilterChain : Type := list Filter.
Definition add_filter (chain : FilterChain) (f : Filter) : FilterChain := chain ++ [f].
Definition filter_names (chain : FilterChain) : list str := filter_name <$> chain.
Definition default_chain : FilterChain :=
  add_filter (add_filter (add_filter (add_filter [] HeaderFilter) SizeFilter) GroupExistenceFilter)
    ModerationFilter.

(** ** The factory ([filters/factory.rs]) *)
Inductive FilterFactoryError : Type :=
| UnknownFilter (name : str)
| InvalidParameters (msg : str).

Definition create_filter (fc : FilterConfig) : FilterFactoryError + Filter :=
  let name := fc_name fc in
  if str_eqb name (lit "HeaderFilter") then inr HeaderFilter
  else if str_eqb name (lit "SizeFilter") then inr SizeFilter
  else if str_eqb name (lit "GroupExistenceFilter") then inr GroupExistenceFilter
  else if str_eqb name (lit "ModerationFilter") then inr ModerationFilter
  else if str_eqb name (lit "MilterFilter") then
    match fc_parameters fc with
    | Ok mc => inr (MilterFilter mc)
    | Err e => inl (InvalidParameters (lit "MilterFilter configuration error: " ++ e))
    end
  else inl (UnknownFilter name).

Fixpoint add_filters (chain : FilterChain) (fcs : list FilterConfig)
  : FilterFactoryError + FilterChain :=
  match fcs with
  | [] => inr chain
  | fc :: fcs => match create_filter fc with
                 | inl e => inl e
                 | inr f => add_filters (add_filter chain f) fcs
                 end
  end.

Definition create_filter_chain (fcs : list FilterConfig) : FilterFactoryError + FilterChain :=
  match fcs with
  | [] => inr default_chain
  | _ => add_filters [] fcs
  end.

Section Filters.
Context {X : Ext} {Net : MilterNet} {S A : Type} `{Storage S} `{AuthProvider A}.

(** The fields of [FilterContext] besides the stores. *)
Context (c : Config) (article : Message) (size : N).

Definition required_headers_missing : bool :=
  negb (has_header article (lit "From")) || negb (has_header article (lit "Subject"))
  || bool_decide (extract_newsgroups article = []).

Definition validate_header : M (Stores S A) unit :=
  if required_headers_missing then mfail (lit "missing required headers") else mreturn tt.

Definition too_large (g : str) : bool :=
  match max_size_for_group c g with Some max_size => max_size <? size | None => false end.

Definition validate_size : M (Stores S A) unit :=
  mfor (extract_newsgroups article) (fun g =>
    if too_large g then mfail (lit "article too large for group " ++ g) else mreturn tt).

Definition validate_groups : M (Stores S A) unit :=
  (all_groups <-- ask_storage (fun s => try_collect (list_groups s)) ;;;
   mfor (extract_newsgroups article) (fun g =>
     if existsb (str_eqb g) all_groups then mreturn tt else mfail (lit "group does not exist")))%m.

(** The approvals by moderators of the group, each with the signature header at
    the place of its Approved header, when there is one. *)
Fixpoint collect_moderators (g : str) (approved sigs : list str) : M (Stores S A) (list str * list str) :=
  match approved with
  | [] => mreturn ([], [])
  | a :: approved =>
      (m <-- ask_auth (is_moderator a g) ;;;
       r <-- collect_moderators g approved (tail sigs) ;;;
       mreturn (if m then (a :: fst r, match sigs with s :: _ => s :: snd r | [] => snd r end)
                else r))%m
  end.

(** The article as the moderator signed it. *)
Definition approved_message (approved : str) : Message :=
  mkMessage (List.filter (fun kv => negb (is_header (lit "Approved") kv)) (headers article)
               ++ [(lit "Approved", approved)]) (body article).

Definition check_approval (approved sig_header : str) : M (Stores S A) unit :=
  (parts <-- mlift (split_signature sig_header) ;;;
   let '(version, signed, sig_rest) := parts in
   verify_pgp (approved_message approved) approved version signed sig_rest (cfg_pgp_key_servers c))%m.

Fixpoint check_approvals (moderators sigs : list str) : M (Stores S A) unit :=
  match moderators, sigs with
  | [], _ => mreturn tt
  | _ :: _, [] => mfail (lit "missing signature")
  | a :: moderators, s :: sigs =>
      (check_approval a s ;;; check_approvals moderators sigs)%m
  end.

Definition moderate_group (g : str) : M (Stores S A) unit :=
  (moderated <-- ask_storage (is_group_moderated g) ;;;
   if moderated then
     r <-- collect_moderators g (get_header_values article (lit "Approved"))
             (get_header_values article (lit "X-PGP-Sig")) ;;;
     let '(moderators, sigs) := r in
     if bool_decide (moderators = []) then mfail (lit "missing approval for moderated group")
     else if (length sigs <? length moderators)%nat
          then mfail (lit "missing signature for moderator")
     else check_approvals moderators sigs
   else mreturn tt)%m.

Definition validate_moderation : M (Stores S A) unit :=
  mfor (extract_newsgroups article) moderate_group.

Definition validate_milter (mc : MilterConfig) : M (Stores S A) unit :=
  mout (milter_process_article mc article).

Definition validate_filter (f : Filter) : M (Stores S A) unit :=
  match f with
  | HeaderFilter => validate_header
  | SizeFilter => validate_size
  | GroupExistenceFilter => validate_groups
  | ModerationFilter => validate_moderation
  | MilterFilter mc => validate_milter mc
  end.

Definition validate_chain (chain : FilterChain) : M (Stores S A) unit := mfor chain validate_filter.

(** [comprehensive_validate_article]. *)
Definition comprehensive_validate_article : M (Stores S A) unit := validate_chain default_chain.

(** [basic_validate_article]. *)
Definition basic_validate_article : result unit :=
  if required_headers_missing then Err (lit "missing required headers") else Ok tt.
End Filters.

(** ** Headers and newsgroups, from the article *)

(** The values of the headers of a name, in any case, in the order of the article. *)
Definition header_values (name : str) (article : Message) : list str :=
  omap (fun kv => if bool_decide (to_ascii_lowercase (fst kv) = to_ascii_lowercase name) then Some (snd kv) else None)
    (headers article).

(** A group the first Newsgroups header names: a piece between commas, trimmed, not empty. *)
Definition names_group (g : str) (article : Message) : Prop :=
  exists v piece, head (header_values (lit "Newsgroups") article) = Some v
    /\ In piece (split_on (ch ",") v) /\ g = trim piece /\ g <> [].

Lemma get_header_values_eq article name : get_header_values article name = header_values name article.
Proof.
  unfold get_header_values, header_values. induction (headers article) as [|kv l IH]; [done|].
  cbn [List.filter]. csimpl. unfold is_header, eq_ignore_ascii_case.
  destruct (str_eqb_spec (to_ascii_lowercase (fst kv)) (to_ascii_lowercase name)).
  - rewrite bool_decide_true by done. csimpl. by rewrite <- IH.
  - by rewrite bool_decide_false.
Qed.

Lemma get_header_value_eq article name : get_header_value article name = head (header_values name article).
Proof.
  rewrite <- get_header_values_eq. unfold get_header_value, get_header_values, find_first.
  induction (headers article) as [|kv l IH]; [done|]. cbn [List.find List.filter].
  by destruct (is_header name kv).
Qed.

Lemma has_header_eq article name : has_header article name = true <-> exists v, In v (header_values name article).
Proof.
  rewrite <- get_header_values_eq. unfold has_header, get_header_values. rewrite existsb_exists. split.
  - intros (kv & Hin & Hk). exists (snd kv). apply in_map. by apply filter_In.
  - intros (v & (kv & <- & Hin)%in_map_iff). apply filter_In in Hin. eauto.
Qed.

Lemma names_group_iff g article : In g (extract_newsgroups article) <-> names_group g article.
Proof.
  unfold extract_newsgroups, parse_newsgroups_from_message, names_group. rewrite get_header_value_eq.
  destruct (head (header_values _ article)) as [v|]; [|by split; [|intros (? & ? & [=] & _)]].
  rewrite filter_In, in_map_iff, negb_true_iff. split.
  - intros [(piece & <- & Hin) Hne]. exists v, piece. split_and!; try done.
    intros E. rewrite E in Hne. by rewrite str_eqb_refl in Hne.
  - intros (v' & piece & [= <-] & Hin & -> & Hne). split; [by exists piece|].
    destruct (str_eqb_spec (trim piece) []); done.
Qed.

(** ** What a validated article satisfies *)
Section Policy.
Context {X : Ext} {Net : MilterNet} {S A : Type} `{Storage S} `{AuthProvider A}.
Context (c : Config) (article : Message) (size : N).
Implicit Types t : Stores S A.

Lemma mfor_checks {B} (l : list B) (p : B -> bool) (e : B -> str) t :
  mfor l (fun b => if p b then mfail (e b) else mreturn tt) t
  = (match find_first p l with Some b => Fail (e b) | None => Ret tt end, t).
Proof.
  induction l as [|b l IH]; [done|]. cbn [mfor]. unfold mbind', find_first in *. cbn [List.find].
  by destruct (p b).
Qed.

Lemma validate_header_spec t :
  validate_header article t
  = (if required_headers_missing article then Fail (lit "missing required headers") else Ret tt, t).
Proof. unfold validate_header. by destruct (required_headers_missing article). Qed.

Lemma validate_size_spec t :
  fst (validate_size c article size t) = Ret tt <->
  forall g, In g (extract_newsgroups article) -> too_large c size g = false.
Proof.
  unfold validate_size. rewrite mfor_checks. simpl.
  destruct (find_first _ _) as [g|] eqn:E.
  - split; [done|]. intros Hg. apply find_first_Some in E as [Hin Ht]. by rewrite Hg in Ht.
  - split; [|done]. intros _ g Hin. destruct (too_large c size g) eqn:Et; [|done].
    apply find_first_None in E. rewrite <- E. symmetry. apply existsb_exists. eauto.
Qed.

Lemma mfor_ext {B} (l : list B) (f g : B -> M (Stores S A) unit) t :
  (forall b, f b = g b) -> mfor l f t = mfor l g t.
Proof.
  intros Hfg. revert t. induction l as [|b l IH]; intros t; [done|]. cbn [mfor]. unfold mbind'.
  rewrite Hfg. by destruct (g b t) as [[] ?].
Qed.

Lemma validate_groups_spec t :
  fst (validate_groups article t) = Ret tt <->
  exists all, try_collect (list_groups (sto_storage t)) = Ok all
    /\ forall g, In g (extract_newsgroups article) -> In g all.
Proof.
  unfold validate_groups, mbind' at 1, ask_storage.
  destruct (try_collect (list_groups (sto_storage t))) as [all|e]; cbn [outcome_of];
    [|by split; [|intros (? & ? & _)]].
  rewrite (mfor_ext _ _ (fun g => if negb (existsb (str_eqb g) all)
      then mfail (lit "group does not exist") else mreturn tt))
    by (intros g; by destruct (existsb (str_eqb g) all)).
  rewrite mfor_checks. cbn [fst].
  assert (Hin : forall g, existsb (str_eqb g) all = true <-> In g all).
  { intros g. rewrite existsb_exists. split.
    - by intros (h & Hh & ->%str_eqb_eq).
    - intros Hg. exists g. by rewrite str_eqb_refl. }
  destruct (find_first _ _) as [g|] eqn:E.
  - split; [done|]. intros (all' & [= <-] & Hg). apply find_first_Some in E as [Hi Ht].
    apply Hg, Hin in Hi. by rewrite Hi in Ht.
  - split; [|done]. intros _. exists all. split; [done|]. intros g Hg. apply Hin.
    destruct (existsb (str_eqb g) all) eqn:Ex; [done|]. apply find_first_None in E.
    rewrite <- E. apply existsb_exists. exists g. by rewrite Ex.
Qed.

Lemma validate_size_state t : snd (validate_size c article size t) = t.
Proof. unfold validate_size. by rewrite mfor_checks. Qed.

Lemma validate_groups_state t : snd (validate_groups article t) = t.
Proof.
  unfold validate_groups, mbind' at 1, ask_storage.
  destruct (try_collect (list_groups (sto_storage t))) as [all|]; [|done]. cbn [outcome_of].
  rewrite (mfor_ext _ _ (fun g => if negb (existsb (str_eqb g) all)
    then mfail (lit "group does not exist") else mreturn tt))
    by (intros g; by destruct (existsb (str_eqb g) all)).
  by rewrite mfor_checks.
Qed.

Lemma collect_moves g approved sigs : moves only_keys (collect_moderators (S:=S) (A:=A) g approved sigs).
Proof.
  revert sigs. induction approved as [|a approved IH]; intros sigs; [apply moves_ret, _|].
  cbn [collect_moderators]. apply moves_bind; [apply _|apply ask_auth_moves|intros m].
  apply moves_bind; [apply _|apply IH|intros r]. apply moves_ret, _.
Qed.

Lemma check_approval_moves a s : moves only_keys (check_approval (S:=S) (A:=A) c article a s).
Proof.
  unfold check_approval. apply moves_bind; [apply _|apply moves_lift, _|intros [[v h] d]].
  apply verify_pgp_moves.
Qed.

Lemma check_approvals_moves ms sigs : moves only_keys (check_approvals (S:=S) (A:=A) c article ms sigs).
Proof.
  revert sigs. induction ms as [|a ms IH]; intros [|s sigs];
    [apply moves_ret, _..|apply moves_fail, _|].
  apply moves_bind; [apply _|apply check_approval_moves|intros _; apply IH].
Qed.

Lemma moderate_group_moves g : moves only_keys (moderate_group (S:=S) (A:=A) c article g).
Proof.
  unfold moderate_group. apply moves_bind; [apply _|apply ask_storage_moves|intros [|]];
    [|apply moves_ret, _].
  apply moves_bind; [apply _|apply collect_moves|intros [ms sigs]].
  case_bool_decide; [apply moves_fail, _|].
  destruct (length sigs <? length ms)%nat; [apply moves_fail, _|apply check_approvals_moves].
Qed.

Lemma chain_moves chain : moves only_keys (validate_chain (S:=S) (A:=A) c article size chain).
Proof.
  unfold validate_chain. apply moves_for; [apply _|]. intros f. destruct f; simpl.
  - apply moves_same; [apply _|]. intros t. by rewrite validate_header_spec.
  - apply moves_same; [apply _|]. intros t. apply validate_size_state.
  - apply moves_same; [apply _|]. intros t. apply validate_groups_state.
  - apply moves_for; [apply _|]. intros g. apply moderate_group_moves.
  - apply moves_out, _.
Qed.

Lemma comprehensive_moves :
  moves only_keys (comprehensive_validate_article (S:=S) (A:=A) c article size).
Proof. apply chain_moves. Qed.

(** The moderators who approve, with the signatures at the places of their approvals:
    when there are enough signatures, each approval has the one at its place. *)
Lemma collect_sound g approved sigs t ms ss t' :
  collect_moderators g approved sigs t = (Ret (ms, ss), t') ->
  t' = t /\ (length ss <= length ms)%nat
  /\ (ms <> [] -> exists i m, approved !! i = Some m /\ is_moderator m g (sto_auth t) = Ok true)
  /\ ((length ms <= length ss)%nat -> forall i m, approved !! i = Some m ->
        is_moderator m g (sto_auth t) = Ok true ->
        exists sig, sigs !! i = Some sig /\ In (m, sig) (zip ms ss)).
Proof.
  revert sigs ms ss t'. induction approved as [|a approved IH]; intros sigs ms ss t' E.
  { injection E as <- <- <-. by split_and!. }
  cbn [collect_moderators] in E. apply mbind_inv in E as (b & t1 & E1 & E).
  unfold ask_auth in E1. destruct (is_moderator a g (sto_auth t)) as [b0|] eqn:Em; [|done].
  injection E1 as -> <-. apply mbind_inv in E as ([ms1 ss1] & t2 & E2 & E).
  apply IH in E2 as (-> & Hlen & Hne & Hall). unfold mreturn in E. injection E as E <-. split; [done|].
  destruct b; cbn [fst snd] in E.
  - destruct sigs as [|s sigs]; injection E as <- <-; cbn [length].
    + split; [lia|]. split; [by exists 0%nat, a|lia].
    + split; [lia|]. split; [by exists 0%nat, a|]. intros Hl [|i] m Hm Hmod.
      * injection Hm as <-. exists s. split; [done|by left].
      * destruct (Hall ltac:(lia) i m Hm Hmod) as (sig & Hs & Hz). exists sig. split; [done|by right].
  - injection E as -> ->. split; [done|]. split.
    + intros Hn. destruct (Hne Hn) as (i & m & Hm). by exists (Datatypes.S i), m.
    + intros Hl [|i] m Hm Hmod; [injection Hm as <-; congruence|].
      destruct (Hall Hl i m Hm Hmod) as (sig & Hs & Hz). exists sig. split; [by destruct sigs|done].
Qed.

(** The approval of a moderated group by the article's own headers, with the accounts [a]: an
    Approved header names a moderator, and each that does has at its place an X-PGP-Sig
    header that is that moderator's signature over the article, with this approval only. *)
Definition group_approved (g : str) (a : A) : Prop :=
  (exists i m, header_values (lit "Approved") article !! i = Some m /\ is_moderator m g a = Ok true)
  /\ forall i m, header_values (lit "Approved") article !! i = Some m -> is_moderator m g a = Ok true ->
       exists sig a' key, header_values (lit "X-PGP-Sig") article !! i = Some sig
         /\ rtc key_update a a' /\ key_of c m a' key
         /\ signs (mkMessage (filter (fun kv => to_ascii_lowercase (fst kv) <> lit "approved") (headers article)
                                ++ [(lit "Approved", m)]) (body article)) key sig.

Lemma approved_only m : approved_message article m
  = mkMessage (filter (fun kv => to_ascii_lowercase (fst kv) <> lit "approved") (headers article)
                 ++ [(lit "Approved", m)]) (body article).
Proof.
  unfold approved_message. do 2 f_equal. induction (headers article) as [|kv l IH]; [done|].
  cbn [List.filter]. rewrite filter_cons, IH. unfold is_header, eq_ignore_ascii_case.
  change (to_ascii_lowercase (lit "Approved")) with (lit "approved").
  destruct (str_eqb_spec (to_ascii_lowercase (fst kv)) (lit "approved")); by case_decide.
Qed.

Lemma check_approvals_sound ms sigs t t' : check_approvals c article ms sigs t = (Ret tt, t') ->
  forall m sig, In (m, sig) (zip ms sigs) ->
  exists t1 t2, only_keys t t1 /\ check_approval c article m sig t1 = (Ret tt, t2).
Proof.
  revert sigs t. induction ms as [|m ms IH]; intros [|s sigs] t E m' sig' Hin; try done.
  cbn [check_approvals] in E. apply mbind_inv in E as ([] & t1 & E1 & E).
  destruct Hin as [[= <- <-]|Hin]; [by exists t, t1|].
  destruct (IH _ _ E _ _ Hin) as (t2 & t3 & Hk & E3). exists t2, t3. split; [|done].
  etrans; [|exact Hk]. eapply check_approval_moves, E1.
Qed.

Lemma moderate_group_sound g t t' :
  moderate_group c article g t = (Ret tt, t') ->
  is_group_moderated g (sto_storage t) = Ok true -> group_approved g (sto_auth t).
Proof.
  unfold moderate_group. intros E Hm. apply mbind_inv in E as (b & t1 & E1 & E).
  unfold ask_storage in E1. rewrite Hm in E1. injection E1 as <- <-.
  apply mbind_inv in E as ([ms sigs] & t2 & E2 & E).
  destruct (collect_sound _ _ _ _ _ _ _ E2) as (-> & _ & Hex & Hall).
  case_bool_decide as Hne; [done|]. destruct (length sigs <? length ms)%nat eqn:Hlen; [done|].
  apply Nat.ltb_ge in Hlen. rewrite !get_header_values_eq in *. split; [by apply Hex|].
  intros i m Hi Hmod. destruct (Hall Hlen i m Hi Hmod) as (sig & Hsig & Hz).
  destruct (check_approvals_sound _ _ _ _ E _ _ Hz) as (t1 & t3 & [_ Hk] & E3).
  unfold check_approval in E3. apply mbind_inv in E3 as ([[v h] d] & t4 & E4 & E5).
  unfold mlift in E4. destruct (split_signature sig) as [p|] eqn:Es; [|done]. injection E4 as -> <-.
  apply verify_pgp_sound in E5 as (key & Hkey & Hv). rewrite approved_only in Hv.
  exists sig, (sto_auth t1), key. split; [done|]. split; [done|]. split; [by apply discovered_key|].
  by eapply verified_signs.
Qed.

Lemma comprehensive_inv t t' :
  comprehensive_validate_article c article size t = (Ret tt, t') ->
  required_headers_missing article = false
  /\ fst (validate_size c article size t) = Ret tt
  /\ fst (validate_groups article t) = Ret tt
  /\ mfor (extract_newsgroups article) (moderate_group c article) t = (Ret tt, t').
Proof.
  unfold comprehensive_validate_article, validate_chain, default_chain, add_filter.
  cbn [app mfor validate_filter]. intros E.
  apply mbind_inv in E as ([] & t1 & E1 & E). rewrite validate_header_spec in E1.
  destruct (required_headers_missing article); [done|]. injection E1 as <-.
  apply mbind_inv in E as ([] & t2 & E2 & E).
  assert (t2 = t) as -> by (rewrite <- (validate_size_state t); by rewrite E2).
  apply mbind_inv in E as ([] & t3 & E3 & E).
  assert (t3 = t) as -> by (rewrite <- (validate_groups_state t); by rewrite E3).
  apply mbind_inv in E as ([] & t4 & E4 & E). unfold mreturn in E. injection E as <-.
  by rewrite E2, E3.
Qed.

(** C16: an article that passes the validation POST, IHAVE and TAKETHIS run has
    From, Subject and at least one newsgroup; each newsgroup its Newsgroups header names
    exists, and its size is within the limit of the rule that governs the group; for each that is
    moderated an Approved header names a moderator of it, and every Approved header that
    does has at its place an X-PGP-Sig header that is this moderator's signature, by the stored key
    or one found on the key servers, over the article with this approval; validation
    changes no article and no account but for stored keys. *)
Theorem validated_article (t t' : Stores S A) :
  comprehensive_validate_article c article size t = (Ret tt, t') ->
  only_keys t t'
  /\ (exists v, In v (header_values (lit "From") article))
  /\ (exists v, In v (header_values (lit "Subject") article))
  /\ (exists g, names_group g article)
  /\ exists all, try_collect (list_groups (sto_storage t)) = Ok all
  /\ forall g, names_group g article ->
       (exists limit, governs gr_max_article_bytes c g limit /\ forall max, limit = Some max -> size <= max)
       /\ In g all
       /\ (is_group_moderated g (sto_storage t) = Ok true ->
           exists a, rtc key_update (sto_auth t) a /\ group_approved g a).
Proof.
  intros E. destruct (comprehensive_inv _ _ E) as (Hh & Hs & Hg & Hm).
  assert (Hmv := moves_for only_keys (extract_newsgroups article) (moderate_group c article)
                  moderate_group_moves _ _ _ Hm).
  unfold required_headers_missing in Hh. rewrite !orb_false_iff, !negb_false_iff, !has_header_eq in Hh.
  destruct Hh as [[Hf Hsub] Hne]. apply bool_decide_eq_false in Hne.
  split; [done|]. split; [done|]. split; [done|]. split.
  { destruct (extract_newsgroups article) as [|g l] eqn:El; [done|]. exists g.
    apply names_group_iff. rewrite El. by left. }
  apply validate_groups_spec in Hg as (all & Hall & Hin). exists all. split; [done|].
  intros g Hg'%names_group_iff. split; [|split; [by apply Hin|]].
  - exists (max_size_for_group c g). split; [apply max_size_for_group_governs|]. intros max Hmax.
    apply validate_size_spec with (g := g) in Hs; [|done].
    unfold too_large in Hs. rewrite Hmax in Hs. by apply N.ltb_ge.
  - intros Hmod. destruct (mfor_inv only_keys _ _ _ _ moderate_group_moves Hm g Hg')
      as (t1 & t2 & [Hst Hk] & Eg).
    exists (sto_auth t1). split; [done|]. eapply moderate_group_sound; [exact Eg|]. by rewrite Hst.
Qed.

(** When no newsgroup of the article is moderated, the validation passes
    exactly on the articles that have the required headers, fit every newsgroup's limit and
    name only existing groups; and it changes nothing. *)
Theorem unmoderated_validation (t : Stores S A) :
  (forall g, In g (extract_newsgroups article) -> is_group_moderated g (sto_storage t) = Ok false) ->
  (comprehensive_validate_article c article size t = (Ret tt, t) <->
   required_headers_missing article = false
   /\ (forall g, In g (extract_newsgroups article) -> too_large c size g = false)
   /\ exists all, try_collect (list_groups (sto_storage t)) = Ok all
        /\ forall g, In g (extract_newsgroups article) -> In g all).
Proof.
  intros Hun. split.
  - intros E. destruct (comprehensive_inv _ _ E) as (Hh & Hs & Hg & _).
    split; [done|].
    split; [exact (proj1 (validate_size_spec t) Hs)|exact (proj1 (validate_groups_spec t) Hg)].
  - intros (Hh & Hs & Hg). apply (proj2 (validate_size_spec t)) in Hs.
    apply (proj2 (validate_groups_spec t)) in Hg.
    unfold comprehensive_validate_article, validate_chain, default_chain, add_filter.
    cbn [app mfor validate_filter].
    rewrite (mbind_Ret _ _ t tt t) by (rewrite validate_header_spec; by rewrite Hh).
    assert (E2 : validate_size c article size t = (Ret tt, t)).
    { rewrite (surjective_pairing (validate_size c article size t)), Hs. by rewrite validate_size_state. }
    rewrite (mbind_Ret _ _ _ _ _ E2).
    assert (E3 : validate_groups article t = (Ret tt, t)).
    { rewrite (surjective_pairing (validate_groups article t)), Hg. by rewrite validate_groups_state. }
    rewrite (mbind_Ret _ _ _ _ _ E3).
    rewrite (mbind_Ret _ _ t tt t); [done|].
    unfold validate_moderation. revert Hun. generalize (extract_newsgroups article) as gs.
    induction gs as [|g gs IH]; intros Hun; [done|]. cbn [mfor].
    rewrite (mbind_Ret _ _ t tt t); [apply IH; intros h Hh'; apply Hun; by right|].
    unfold moderate_group, mbind' at 1, ask_storage. by rewrite Hun by (by left).
Qed.
End Policy.

(** ** Concrete runs *)
Definition no_milter : MilterNet := {|
  TcpStream := unit;
  tcp_connect := fun _ _ => None;
  tcp_peer := fun _ => mkMilterPeer (fun _ => []) true;
  unix_connect := fun _ _ => None;
  load_native_certs := Ok [];
  root_store_add := fun _ => Ok tt;
  server_name_ok := fun _ => true;
  tls_connect := fun _ _ => None;
|}.

Definition news_db : Db :=
  snd (ss_add_group 0 (lit "misc.a") false empty_db).
Definition plain_article : Message :=
  mkMessage [(lit "From", lit "a@b"); (lit "Subject", lit "s"); (lit "Newsgroups", lit "misc.a");
             (lit "Message-ID", lit "<p@x>")] (lit "text" ++ crlf).
Definition news_stores : Stores Db AuthDb := mkStores news_db empty_auth_db.

(** An article to a moderated group, approved and signed by its moderator. *)
Definition approved_article : Message :=
  mkMessage [(lit "From", lit "a@b"); (lit "Subject", lit "s"); (lit "Newsgroups", lit "misc.a, misc.mod");
             (lit "Message-ID", lit "<q@x>"); (lit "Approved", lit "mod");
             (lit "X-PGP-Sig", lit "1 Subject,Approved k1")] (lit "text" ++ crlf).
Definition moderated_stores : Stores Db AuthDb :=
  mkStores (snd (ss_add_group 0 (lit "misc.mod") true news_db))
    (@run_auth_ops Toy.ext true
      [OpAddUser 1 (lit "mod") (lit "pw") (Some (lit "k1")); OpAddModerator (lit "mod") (lit "misc.*")]
      empty_auth_db).

Lemma validated_article_witness :
  exists a key, rtc (@key_update AuthDb (@sqlite_auth Toy.ext true)) (sto_auth moderated_stores) a
    /\ @key_of Toy.ext AuthDb (@sqlite_auth Toy.ext true) default_config (lit "mod") a key
    /\ @signs Toy.ext (mkMessage [(lit "From", lit "a@b"); (lit "Subject", lit "s");
           (lit "Newsgroups", lit "misc.a, misc.mod"); (lit "Message-ID", lit "<q@x>");
           (lit "X-PGP-Sig", lit "1 Subject,Approved k1"); (lit "Approved", lit "mod")] (lit "text" ++ crlf))
         key (lit "1 Subject,Approved k1").
Proof.
  destruct (@validated_article Toy.ext no_milter _ _ (@sqlite_storage Toy.ext)
              (@sqlite_auth Toy.ext true) default_config approved_article 100 moderated_stores moderated_stores)
    as (_ & _ & _ & _ & all & _ & Hg); [vm_compute; reflexivity|].
  destruct (Hg (lit "misc.mod")) as (_ & _ & Hm).
  { exists (lit "misc.a, misc.mod"), (lit " misc.mod"). split; [reflexivity|].
    split; [vm_compute; right; left; reflexivity|]. split; [reflexivity|discriminate]. }
  destruct Hm as (a & Ha & (i & m & Hi & Hmod) & Hall); [vm_compute; reflexivity|].
  destruct (Hall i m Hi Hmod) as (sig & a' & key & Hs & Ha' & Hk & Hv).
  destruct i as [|i]; [|destruct i; discriminate Hi].
  assert (m = lit "mod") as -> by (vm_compute in Hi; injection Hi as <-; reflexivity).
  assert (sig = lit "1 Subject,Approved k1") as -> by (vm_compute in Hs; injection Hs as <-; reflexivity).
  exists a', key. split; [etrans; [exact Ha|exact Ha']|]. split; [exact Hk|exact Hv].
Defined.

Lemma unmoderated_validation_witness :
  @comprehensive_validate_article Toy.ext no_milter _ _ (@sqlite_storage Toy.ext)
    (@sqlite_auth Toy.ext true) default_config plain_article 100 news_stores = (Ret tt, news_stores).
Proof.
  assert (Hg : extract_newsgroups plain_article = [lit "misc.a"]) by (vm_compute; reflexivity).
  apply (@unmoderated_validation Toy.ext no_milter _ _ (@sqlite_storage Toy.ext)
           (@sqlite_auth Toy.ext true)).
  - intros g. rewrite Hg. intros [<-|[]]. vm_compute. reflexivity.
  - rewrite Hg. split; [vm_compute; reflexivity|]. split.
    + intros g [<-|[]]. vm_compute. reflexivity.
    + exists [lit "misc.a"]. split; [vm_compute; reflexivity|]. auto.
Defined.
