(* ===== verification/CustomFilters.v ===== *)
(** * CustomFilters: the example of filters of one's own
    ([examples/filters/custom_filters.rs])

    Two filters beside the library's, a chain that has them between the library's filters,
    and the program that runs the chain on two articles.  Unicode's [to_lowercase] is a
    parameter. *)

From stdpp Require Import base numbers list gmap strings relations.
From Stdlib Require Import NArith ZArith Lia.
From S2P Require Import Prelude Text Externals Message Config Settings Limits Auth SqliteAuth Storage SqliteStorage Control Milter Filters.
Local Open Scope N_scope.

Class Lowercase : Type := { to_lowercase : str -> str }.

(** [str::contains]. *)
Fixpoint contains (needle s : str) : bool :=
  starts_with needle s || match s with [] => false | _ :: s => contains needle s end.

(** The boxed filters of a chain: the library's, and the example's two. *)
Inductive CustomFilter : Type :=
| Library (f : Filter)
| ProfanityFilter (blocked_words : list str)
| RequiredHeaderFilter (required_header : str).

Definition custom_filter_name (f : CustomFilter) : str :=
  match f with
  | Library f => filter_name f
  | ProfanityFilter _ => lit "ProfanityFilter"
  | RequiredHeaderFilter _ => lit "RequiredHeaderFilter"
  end.

Definition create_custom_filter_chain : list CustomFilter :=
  [Library HeaderFilter; Library SizeFilter;
   ProfanityFilter [lit "spam"; lit "scam"]; RequiredHeaderFilter (lit "X-Site-Policy");
   Library GroupExistenceFilter; Library ModerationFilter].

(** What [create_example_config] hands to the TOML parser, read. *)
Definition example_settings : RawConfig :=
  mkRawConfig (Some (lit ":119")) (Some (lit "test.local")) (Some (lit "sqlite:///:memory:"))
    (Some (lit "sqlite:///:memory:")) (Some (lit "sqlite:///:memory:")) None (Some 600) [] None None None None
    (Some 100) (Some 1) None [] [] None None None None.

Definition create_example_config (m : Machine) : result Config := settings m example_settings.

Definition bad_article : Message :=
  mkMessage [(lit "From", lit "user@example.com"); (lit "Subject", lit "This is spam content");
             (lit "Newsgroups", lit "alt.test")] (lit "Article body").
Definition good_article : Message :=
  mkMessage [(lit "From", lit "user@example.com"); (lit "Subject", lit "This is a good article");
             (lit "Newsgroups", lit "alt.test"); (lit "X-Site-Policy", lit "accepted")] (lit "Article body").

Section CustomFilters.
Context {X : Ext} {Net : MilterNet} {Low : Lowercase} {S A : Type} `{Storage S} `{AuthProvider A}.

Section Article.
Context (c : Config) (article : Message) (size : N).
Implicit Types t : Stores S A.

Definition blocked_word (blocked_words : list str) : option str :=
  match get_header_value article (lit "Subject") with
  | Some subject => find_first (fun w => contains (to_lowercase w) (to_lowercase subject)) blocked_words
  | None => None
  end.

Definition validate_profanity (blocked_words : list str) : M (Stores S A) unit :=
  match blocked_word blocked_words with
  | Some w => mfail (lit "Subject contains blocked word: " ++ w)
  | None => mreturn tt
  end.

Definition validate_required_header (required_header : str) : M (Stores S A) unit :=
  if has_header article required_header then mreturn tt
  else mfail (lit "Missing required header: " ++ required_header).

Definition validate_custom (f : CustomFilter) : M (Stores S A) unit :=
  match f with
  | Library f => validate_filter c article size f
  | ProfanityFilter ws => validate_profanity ws
  | RequiredHeaderFilter h => validate_required_header h
  end.

Definition validate_custom_chain (chain : list CustomFilter) : M (Stores S A) unit := mfor chain validate_custom.

(** The example's chain lets an article through exactly if the server's own validation does,
    its subject has none of the two words and it has the header; and with the same effect. *)
Lemma custom_chain_accepts t t' :
  validate_custom_chain create_custom_filter_chain t = (Ret tt, t') <->
  comprehensive_validate_article c article size t = (Ret tt, t')
  /\ blocked_word [lit "spam"; lit "scam"] = None /\ has_header article (lit "X-Site-Policy") = true.
Proof.
  unfold validate_custom_chain, create_custom_filter_chain, comprehensive_validate_article, validate_chain,
    default_chain, add_filter. cbn [app mfor validate_custom validate_filter].
  unfold mbind' at 1 7. destruct (validate_header article t) as [[[]|e| |] t1]; [|naive_solver..].
  unfold mbind' at 1 6. destruct (validate_size c article size t1) as [[[]|e| |] t2]; [|naive_solver..].
  unfold mbind' at 1, validate_profanity.
  destruct (blocked_word [lit "spam"; lit "scam"]) as [w|]; [unfold mfail; naive_solver|].
  unfold mreturn at 1, mbind' at 1, validate_required_header.
  destruct (has_header article (lit "X-Site-Policy")); [|unfold mfail; naive_solver].
  unfold mreturn at 1. naive_solver.
Qed.
End Article.

(** What [example_usage] prints. *)
Definition example_usage (c : Config) : M (Stores S A) (list str) :=
  (bad <-- mcatch (validate_custom_chain c bad_article 100 create_custom_filter_chain) ;;;
   good <-- mcatch (validate_custom_chain c good_article 100 create_custom_filter_chain) ;;;
   mreturn
     [match bad with
      | Ok tt => lit "Article passed validation (unexpected)"
      | Err e => lit "Article failed validation: " ++ e
      end;
      match good with
      | Ok tt => lit "Article passed validation"
      | Err e => lit "Article failed validation: " ++ e
      end])%m.
End CustomFilters.

(** On the empty databases of the example neither article passes. *)
Definition ascii_lowercase : Lowercase := {| to_lowercase := to_ascii_lowercase |}.
Example example_prints (m : Machine) :
  (fun c => fst (@example_usage Toy.ext no_milter ascii_lowercase _ _ (@sqlite_storage Toy.ext)
                   (@sqlite_auth Toy.ext true) c (mkStores empty_db empty_auth_db)))
    <$> create_example_config m
  = Ok (Ret [lit "Article failed validation: Subject contains blocked word: spam";
             lit "Article failed validation: group does not exist"]).
Proof. vm_compute. reflexivity. Qed.
