(* ===== verification/Retention.v ===== *)
(** * Retention: expiry of articles ([retention.rs]) *)

From stdpp Require Import base numbers list gmap strings sorting.
From Stdlib Require Import NArith ZArith Lia.
From S2P Require Import Prelude Text Externals Message Config Storage SqliteStorage Control.
Local Open Scope N_scope.

Section Retention.
Context {X : Ext} {S : Type} `{Storage S}.

Definition parse_expires_header (msg : Message) : option Z :=
  match get_header_value msg (lit "Expires") with
  | None => None
  | Some v => match parse_from_rfc2822 v with
              | Some t => Some t
              | None => parse_from_rfc3339 v
              end
  end.

(** A subtraction that leaves chrono's range panics: the earliest instant it holds. *)
Context (min_instant : Z).
Definition instant_sub (now d : Z) : outcome Z :=
  if (min_instant <=? now - d)%Z then Ret (now - d)%Z else Panic.

Definition cleanup_group_by_retention (c : Config) (group : str) (now : Z) : M S unit :=
  (retention <-- mout (retention_for_group c group) ;;;
   match retention with
   | Some d =>
       if (0 <? Z.quot d ns_per_sec)%Z then
         cutoff <-- mout (instant_sub now d) ;;;
         r <-- mcatch (purge_group_before group cutoff) ;;;
         match r with
         | Ok tt => mreturn tt
         | Err e => mfail (lit "Failed to purge old articles from group '" ++ group ++ lit "': " ++ e)
         end
       else mreturn tt
   | None => mreturn tt
   end)%m.

Definition is_expired (article : Message) (now : Z) : bool :=
  match parse_expires_header article with Some t => (t <=? now)%Z | None => false end.

(** One turn over an identifier of the group's list: 1 when the article was deleted. *)
Definition expire_article (now : Z) (id : str) : M S N :=
  (r <-- mgets (get_article_by_id id) ;;;
   match r with
   | Ok (Some article) =>
       if is_expired article now then
         d <-- mcatch (delete_article_by_id id) ;;;
         mreturn (if is_ok d then 1 else 0)
       else mreturn 0
   | Ok None => mreturn 0
   | Err _ => mreturn 0
   end)%m.

Fixpoint expire_articles (now : Z) (ids : list (result str)) (count : N) : M S N :=
  match ids with
  | [] => mreturn count
  | Err e :: _ => mfail e
  | Ok id :: ids => (n <-- expire_article now id ;;; expire_articles now ids (count + n))%m
  end.

(** The list of identifiers is read before anything is deleted. *)
Definition cleanup_group_by_expires_header (group : str) (now : Z) : M S N :=
  (ids <-- mgets (list_article_ids group) ;;; expire_articles now ids 0)%m.

(** Errors within a group are logged and the next group is cleaned. *)
Definition cleanup_group (c : Config) (now : Z) (group : str) : M S unit :=
  (_ <-- mcatch (cleanup_group_by_retention c group now) ;;;
   _ <-- mcatch (cleanup_group_by_expires_header group now) ;;;
   mreturn tt)%m.

Definition cleanup_expired_articles (c : Config) (now : Z) : M S unit :=
  (groups <-- mgets list_groups ;;;
   mfor_stream groups (cleanup_group c now) ;;;
   purge_orphan_messages)%m.
End Retention.

(** ** What a pass leaves alone: whatever purging and deleting do *)
Section Keeps.
Context {X : Ext} {S : Type} `{Storage S} (I : S -> Prop).
Hypothesis purge_keeps : forall g t, keeps I (purge_group_before g t).
Hypothesis delete_keeps : forall i, keeps I (delete_article_by_id i).
Context (min_instant : Z) (c : Config) (now : Z).

Lemma expire_articles_keeps ids n : keeps I (expire_articles now ids n).
Proof.
  revert n. induction ids as [|[id|e] ids IH]; intros n; cbn [expire_articles];
    [apply keeps_ret| |apply keeps_fail].
  apply keeps_bind; [|intros k; apply IH]. unfold expire_article.
  apply keeps_bind; [apply keeps_gets|]. intros [[a|]|e]; [|apply keeps_ret..].
  destruct (is_expired a now); [|apply keeps_ret].
  apply keeps_bind; [apply keeps_catch, delete_keeps|intros r; apply keeps_ret].
Qed.

Lemma cleanup_retention_keeps g : keeps I (cleanup_group_by_retention min_instant c g now).
Proof.
  unfold cleanup_group_by_retention.
  apply keeps_bind; [apply keeps_out|intros [d|]; [|apply keeps_ret]].
  destruct (0 <? Z.quot d ns_per_sec)%Z; [|apply keeps_ret].
  apply keeps_bind; [apply keeps_out|intros cutoff].
  apply keeps_bind; [apply keeps_catch, purge_keeps|intros [[]|e]; [apply keeps_ret|apply keeps_fail]].
Qed.

Lemma cleanup_group_keeps g : keeps I (cleanup_group min_instant c now g).
Proof.
  unfold cleanup_group. apply keeps_bind; [apply keeps_catch, cleanup_retention_keeps|].
  intros _. apply keeps_bind; [apply keeps_catch|intros _; apply keeps_ret].
  unfold cleanup_group_by_expires_header.
  apply keeps_bind; [apply keeps_gets|intros ids; apply expire_articles_keeps].
Qed.

Lemma cleanup_keeps : keeps I purge_orphan_messages ->
  keeps I (cleanup_expired_articles min_instant c now).
Proof.
  intros Ho. unfold cleanup_expired_articles. apply keeps_bind; [apply keeps_gets|intros groups].
  apply keeps_bind; [apply keeps_for_stream, cleanup_group_keeps|intros _; exact Ho].
Qed.
End Keeps.

(** ** A retention pass over the SQLite store *)
Section Pass.
Context {X : Ext} (min_instant : Z) (c : Config) (now : Z).
Implicit Types db : Db.

(** What a pass removes: rows past their group's period, and articles whose
    Expires has passed. *)
Definition too_old (g : str) (t : Z) : Prop :=
  exists d, retention_for_group c g = Ret (Some d) /\ (0 < Z.quot d ns_per_sec)%Z
            /\ (t < timestamp (now - d))%Z.
Definition expires_at (a : Message) (t : Z) : Prop :=
  exists v, get_header_value a (lit "Expires") = Some v
    /\ (parse_from_rfc2822 v = Some t \/ (parse_from_rfc2822 v = None /\ parse_from_rfc3339 v = Some t)).
Definition expired_in (db : Db) (id : str) : Prop :=
  exists a, ss_get_article_by_id id db = Ok (Some a) /\ exists t, expires_at a t /\ (t <= now)%Z.

Lemma is_expired_spec a : is_expired a now = true <-> exists t, expires_at a t /\ (t <= now)%Z.
Proof.
  unfold is_expired, parse_expires_header, expires_at. destruct (get_header_value a (lit "Expires")) as [v|].
  2: { split; [done|]. intros (t & (v & [=] & _) & _). }
  destruct (parse_from_rfc2822 v) as [t|] eqn:E2.
  { split; [intros Ht; exists t; split; [eauto|lia]|].
    intros (u & (w & [= <-] & [Hu|[Hu _]]) & Hle); rewrite E2 in Hu; [injection Hu as <-; lia|done]. }
  destruct (parse_from_rfc3339 v) as [t|] eqn:E3.
  - split; [intros Ht; exists t; split; [eauto|lia]|].
    intros (u & (w & [= <-] & [Hu|[_ Hu]]) & Hle); [congruence|]. rewrite E3 in Hu. injection Hu as <-. lia.
  - split; [done|]. intros (u & (w & [= <-] & [Hu|[_ Hu]]) & _); congruence.
Qed.

(** The rows that have to go: those of a listed group past its period, and those of an
    expired article that is in a listed group within its period. *)
Definition listed (db : Db) (g : str) : Prop := is_Some (db_groups db !! g).
Definition expired_listed (db : Db) (id : str) : Prop :=
  expired_in db id
  /\ exists g n t, db_group_articles db !! (g, n) = Some (id, t) /\ listed db g /\ ~ too_old g t.
Definition due (db : Db) (k : str * Z) (id : str) (t : Z) : Prop :=
  (listed db (fst k) /\ too_old (fst k) t) \/ expired_listed db id.

(** Only what has to go goes: a row that is due - with all the others of its article, where
    that has expired - and a message no row names any more. *)
Record cleans (db db' : Db) : Prop := {
  cl_rows : db_group_articles db' ⊆ db_group_articles db;
  cl_messages : db_messages db' ⊆ db_messages db;
  cl_groups : db_groups db' = db_groups db;
  cl_overview : db_overview db' = db_overview db;
  cl_due : forall k id t, db_group_articles db !! k = Some (id, t) -> db_group_articles db' !! k = None ->
    (listed db (fst k) /\ too_old (fst k) t) \/ (expired_listed db id /\ is_referenced id db' = false);
  cl_unnamed : forall id, is_Some (db_messages db !! id) -> db_messages db' !! id = None ->
    is_referenced id db' = false;
}.

Lemma expired_mono db db' id : db_messages db' ⊆ db_messages db -> expired_in db' id -> expired_in db id.
Proof.
  intros Hm (a & Hg & He). exists a. split; [|done]. unfold ss_get_article_by_id in *.
  destruct (db_messages db' !! id) as [row|] eqn:E; [|done].
  by rewrite (lookup_weaken _ _ _ _ E Hm).
Qed.

Lemma unnamed_mono db db' id : db_group_articles db' ⊆ db_group_articles db ->
  is_referenced id db = false -> is_referenced id db' = false.
Proof.
  intros Hg Hf. destruct (is_referenced id db') eqn:E; [|done].
  apply is_referenced_true in E as (k & t & Hl). exfalso.
  by eapply is_referenced_false, (lookup_weaken _ _ _ _ Hl Hg).
Qed.

Lemma expired_listed_mono db db' id : cleans db db' -> expired_listed db' id -> expired_listed db id.
Proof.
  intros Hc (He & g & n & t & Hl & Hg & Ht). split; [by eapply expired_mono, He; apply Hc|].
  exists g, n, t. split; [exact (lookup_weaken _ _ _ _ Hl (cl_rows _ _ Hc))|]. split; [|done].
  unfold listed in *. by rewrite <- (cl_groups _ _ Hc).
Qed.

#[local] Instance cleans_preorder : PreOrder cleans.
Proof.
  split.
  - intros db. split; try done; intros; [congruence|].
    match goal with Hx : is_Some _ |- _ => destruct Hx; congruence end.
  - intros x y z Hxy Hyz. pose proof Hxy as [A1 A2 A3 A4 A5 A6]. pose proof Hyz as [B1 B2 B3 B4 B5 B6]. split.
    + by etrans.
    + by etrans.
    + congruence.
    + congruence.
    + intros k id t Hx Hz. destruct (db_group_articles y !! k) as [[i u]|] eqn:Ey.
      * pose proof (lookup_weaken _ _ _ _ Ey A1) as Hx'. rewrite Hx in Hx'. injection Hx' as <- <-.
        destruct (B5 k id t Ey Hz) as [[Hg Ht]|[He Hr]].
        { left. split; [|done]. unfold listed in *. by rewrite <- A3. }
        right. split; [by eapply expired_listed_mono|done].
      * destruct (A5 k id t Hx Ey) as [|[He Hr]]; [by left|]. right. split; [done|]. by eapply unnamed_mono.
    + intros id Hx Hz. destruct (db_messages y !! id) as [row|] eqn:Ey; [by apply B6; eauto|].
      eapply unnamed_mono; [exact B1|]. by apply A6.
Qed.

Lemma cleans_purge g d db : listed db g ->
  retention_for_group c g = Ret (Some d) -> (0 < Z.quot d ns_per_sec)%Z ->
  cleans db (snd (ss_purge_group_before g (now - d) db)).
Proof.
  intros Hg Hd Hpos. unfold ss_purge_group_before, mmodify. cbn [snd].
  split; try done; [apply map_filter_subseteq| |intros id [row Hr] Hn; simpl in Hn; congruence].
  intros [h n] id t Hl Hn. left. destruct (str_eqb h g && (t <? timestamp (now - d)))%Z eqn:Ep.
  - apply andb_prop in Ep as [->%str_eqb_eq Ht]. split; [done|]. exists d. split_and!; [done|done|lia].
  - exfalso. assert (db_group_articles (delete_group_articles (fun k v =>
      str_eqb k.1 g && (v.2 <? timestamp (now - d)))%Z db) !! (h, n) = Some (id, t)) as Hc;
      [|congruence]. by apply delete_rows_lookup.
Qed.

(** Deleting an article takes all its rows and its message. *)
Lemma delete_rows id db : let db' := snd (ss_delete_article_by_id id db) in
  is_referenced id db' = false
  /\ (forall k v, db_group_articles db' !! k = Some v <-> db_group_articles db !! k = Some v /\ fst v <> id)
  /\ db_messages db' = delete id (db_messages db)
  /\ db_groups db' = db_groups db /\ db_overview db' = db_overview db.
Proof.
  unfold ss_delete_article_by_id, mbind', mmodify. cbn [snd]. set (db1 := delete_group_articles _ db).
  assert (Hr : is_referenced id db1 = false).
  { destruct (is_referenced id db1) eqn:E; [|done].
    apply is_referenced_true in E as (k & t & [_ Hf]%delete_rows_lookup). by rewrite str_eqb_refl in Hf. }
  rewrite Hr. split; [exact Hr|]. split; [|done]. intros k [i t].
  change (db_group_articles (set_messages (delete id) db1)) with (db_group_articles db1).
  unfold db1. rewrite delete_rows_lookup. simpl.
  assert (str_eqb i id = false <-> i <> id); [|tauto].
  split; [intros E ->; by rewrite str_eqb_refl in E|]. intros Hne. by apply bool_decide_eq_false.
Qed.

(** An expiry from what is left of [db0]. *)
Lemma expire_article_cleans db0 id db : cleans db0 db ->
  (exists g n t, db_group_articles db0 !! (g, n) = Some (id, t) /\ listed db0 g /\ ~ too_old g t) ->
  cleans db0 (snd (expire_article now id db)).
Proof.
  intros Hc Hrow. unfold expire_article, mbind' at 1, mgets. simpl.
  destruct (ss_get_article_by_id id db) as [[a|]|] eqn:Eg; [|exact Hc..].
  destruct (is_expired a now) eqn:Ee; [|exact Hc].
  assert (Hx : expired_listed db0 id).
  { split; [|done]. eapply expired_mono; [apply Hc|]. exists a. split; [done|]. by apply is_expired_spec. }
  assert (Hs : snd ((d <-- mcatch (ss_delete_article_by_id id) ;;; mreturn (if is_ok d then 1 else 0))%m db)
               = snd (ss_delete_article_by_id id db)) by reflexivity.
  rewrite Hs. destruct (delete_rows id db) as (Hr & Hl & Hm & Hgr & Ho).
  destruct (snd (ss_delete_article_by_id id db)) as [ms ga gr ov] eqn:Ed. simpl in Hm, Hgr, Ho, Hl.
  set (db' := mkDb ms ga gr ov) in *.
  assert (Hga : db_group_articles db' ⊆ db_group_articles db).
  { apply map_subseteq_spec. intros k v Hk. by apply Hl in Hk as [Hk _]. }
  destruct Hc as [C1 C2 C3 C4 C5 C6]. split.
  - by etrans.
  - simpl. rewrite Hm. etrans; [apply delete_subseteq|done].
  - simpl. congruence.
  - simpl. congruence.
  - intros k i t H0 Hn. destruct (db_group_articles db !! k) as [[j u]|] eqn:Ek.
    + pose proof (lookup_weaken _ _ _ _ Ek C1) as H0'. rewrite H0 in H0'. injection H0' as <- <-. right.
      destruct (decide (i = id)) as [->|Hne]; [by split|].
      assert (Hk : ga !! k = Some (i, t)) by (by apply Hl). simpl in Hn. congruence.
    + destruct (C5 k i t H0 Ek) as [|[He Hf]]; [by left|]. right. split; [done|]. by eapply unnamed_mono.
  - intros i H0 Hn. simpl in Hn. rewrite Hm in Hn. apply lookup_delete_None in Hn as [<-|Hn]; [done|].
    eapply unnamed_mono; [exact Hga|]. by apply C6.
Qed.

(** The passes keep the store well formed. *)
Lemma db_purge_keeps g t : keeps db_wf (purge_group_before g t).
Proof. apply keeps_modify. intros db. apply db_wf_delete_rows. Qed.
Lemma db_delete_keeps i : keeps db_wf (delete_article_by_id i).
Proof. apply ss_delete_article_keeps. Qed.

(** The time arithmetic of the group's retention stays in chrono's range. *)
Definition retention_in_range (g : str) : Prop :=
  exists o, retention_for_group c g = Ret o
    /\ forall d, o = Some d -> (min_instant <= now - d)%Z.

Lemma cleanup_retention_done g db : listed db g -> retention_in_range g ->
  exists db', cleanup_group_by_retention min_instant c g now db = (Ret tt, db') /\ cleans db db'
    /\ forall n id t, db_group_articles db' !! (g, n) = Some (id, t) -> ~ too_old g t.
Proof.
  intros Hg (o & Ho & Hr). unfold cleanup_group_by_retention, mbind' at 1, mout at 1. rewrite Ho.
  destruct o as [d|].
  - destruct (Z.ltb_spec 0 (Z.quot d ns_per_sec)) as [Hd|Hd].
    + unfold mbind' at 1, mout, instant_sub. specialize (Hr d eq_refl).
      destruct (Z.leb_spec min_instant (now - d)); [|lia].
      eexists. split; [reflexivity|]. split; [by apply cleans_purge|].
      intros n id t Hl. apply delete_rows_lookup in Hl as [_ Hp]. simpl in Hp.
      rewrite str_eqb_refl in Hp. simpl in Hp. intros (d' & Hd' & _ & Ht).
      rewrite Ho in Hd'. injection Hd' as <-. lia.
    + eexists. split; [reflexivity|]. split; [reflexivity|]. intros n id t _ (d' & Hd' & Hp & _).
      rewrite Ho in Hd'. injection Hd' as <-. lia.
  - eexists. split; [reflexivity|]. split; [reflexivity|]. intros n id t _ (d' & Hd' & _). congruence.
Qed.

Lemma expire_article_done id db : db_wf db ->
  exists n db', expire_article now id db = (Ret n, db')
    /\ forall k t, db_group_articles db' !! k = Some (id, t) -> ~ expired_in db' id.
Proof.
  intros Hwf. unfold expire_article, mbind' at 1, mgets. simpl.
  destruct (ss_get_by_id_total id db Hwf) as [o Ho]. rewrite Ho.
  destruct o as [a|].
  - destruct (is_expired a now) eqn:Ee.
    + exists 1, (snd (ss_delete_article_by_id id db)). split; [reflexivity|].
      intros k t Hl. exfalso. unfold ss_delete_article_by_id, mbind', mmodify in Hl. cbn [snd] in Hl.
      assert (Hl' : db_group_articles (delete_group_articles (fun _ v => str_eqb v.1 id) db) !! k
                    = Some (id, t)) by (by destruct (is_referenced id _)).
      apply delete_rows_lookup in Hl' as [_ Hp]. simpl in Hp. by rewrite str_eqb_refl in Hp.
    + exists 0, db. split; [reflexivity|]. intros k t _ (b & Hb & Hx%is_expired_spec). congruence.
  - exists 0, db. split; [reflexivity|]. intros k t _ (b & Hb & _). congruence.
Qed.

(** What is only taken away from. *)
Definition smaller (db db' : Db) : Prop :=
  db_group_articles db' ⊆ db_group_articles db /\ db_messages db' ⊆ db_messages db.
#[local] Instance smaller_preorder : PreOrder smaller.
Proof. split; [by intros db; split|]. intros x y z [] []. split; by etrans. Qed.

Lemma expire_article_smaller id db : smaller db (snd (expire_article now id db)).
Proof.
  unfold expire_article, mbind' at 1, mgets. simpl.
  destruct (ss_get_article_by_id id db) as [[a|]|]; [|reflexivity..].
  destruct (is_expired a now); [|reflexivity].
  change (snd ((d <-- mcatch (ss_delete_article_by_id id) ;;; mreturn (if is_ok d then 1 else 0))%m db))
    with (snd (ss_delete_article_by_id id db)).
  destruct (delete_rows id db) as (_ & Hl & Hm & _). split; [|rewrite Hm; apply delete_subseteq].
  apply map_subseteq_spec. intros k v Hk. by apply Hl in Hk as [Hk _].
Qed.

(** Every article a list of identifiers names is looked at. *)
Lemma expire_articles_done db0 ids n db : db_wf db -> cleans db0 db ->
  (forall id, In id ids -> exists g n t, db_group_articles db0 !! (g, n) = Some (id, t) /\ listed db0 g /\ ~ too_old g t) ->
  exists m db', expire_articles now (Ok <$> ids) n db = (Ret m, db') /\ cleans db0 db' /\ smaller db db'
    /\ forall k id t, In id ids -> db_group_articles db' !! k = Some (id, t) -> ~ expired_in db' id.
Proof.
  revert n db. induction ids as [|i ids IH]; intros n db Hwf Hc Hin; csimpl.
  { exists n, db. by split_and!; [| | |intros ? ? ? []]. }
  destruct (expire_article_done i db Hwf) as (j & db1 & E1 & H1).
  assert (Hwf1 : db_wf db1).
  { pose proof (expire_articles_keeps db_wf db_delete_keeps now [Ok i] 0 db (Ret (0 + j)) db1 Hwf) as Hk. apply Hk.
    cbn [expire_articles]. by rewrite (mbind_Ret _ _ _ _ _ E1). }
  assert (Hc1 : cleans db0 db1).
  { pose proof (expire_article_cleans db0 i db Hc (Hin i (or_introl eq_refl))) as Hc1. by rewrite E1 in Hc1. }
  pose proof (expire_article_smaller i db) as Hs1. rewrite E1 in Hs1.
  destruct (IH (n + j) db1 Hwf1 Hc1) as (m & db2 & E2 & Hc2 & Hs2 & H2); [intros id Hid; apply Hin; by right|].
  exists m, db2. split; [by rewrite (mbind_Ret _ _ _ _ _ E1)|]. split; [done|]. split; [by etrans|].
  intros k id t [<-|Hid] Hl; [|by eapply H2].
  intros He. eapply (H1 k t); [exact (lookup_weaken _ _ _ _ Hl (proj1 Hs2))|]. by eapply expired_mono; [apply Hs2|].
Qed.

Lemma cleanup_group_done g db : db_wf db -> listed db g -> retention_in_range g ->
  exists db', cleanup_group min_instant c now g db = (Ret tt, db') /\ cleans db db'
    /\ forall n id t, db_group_articles db' !! (g, n) = Some (id, t) ->
         ~ too_old g t /\ ~ expired_in db' id.
Proof.
  intros Hwf Hg Hr. unfold cleanup_group.
  destruct (cleanup_retention_done g db Hg Hr) as (db1 & E1 & Hc1 & H1).
  assert (Hwf1 : db_wf db1) by exact (cleanup_retention_keeps db_wf db_purge_keeps min_instant c now g _ _ _ Hwf E1).
  set (ids := (fun r => fst (snd r)) <$> group_rows_by_number g db1).
  destruct (expire_articles_done db1 ids 0 db1 Hwf1 (reflexivity db1)) as (m & db2 & E2 & Hc2 & Hs2 & H2).
  { intros id Hid. apply elem_of_list_In, list_elem_of_fmap in Hid as ([n [i t]] & -> & Hrow%elem_rows_by_number).
    exists g, n, t. split; [done|]. split; [|by eapply H1]. unfold listed. by rewrite (cl_groups _ _ Hc1). }
  assert (Hc : mcatch (cleanup_group_by_retention min_instant c g now) db = (Ret (Ok tt), db1))
    by (unfold mcatch; by rewrite E1).
  rewrite (mbind_Ret _ _ _ _ _ Hc).
  assert (Hx : cleanup_group_by_expires_header g now db1 = (Ret m, db2)).
  { unfold cleanup_group_by_expires_header, mbind', mgets. rewrite <- E2. f_equal.
    simpl. unfold ss_list_article_ids, ids. by rewrite <- list_fmap_compose. }
  assert (Hc3 : mcatch (cleanup_group_by_expires_header g now) db1 = (Ret (Ok m), db2))
    by (unfold mcatch; by rewrite Hx).
  rewrite (mbind_Ret _ _ _ _ _ Hc3). exists db2. split; [reflexivity|]. split; [by etrans|].
  intros n id t Hl. pose proof (lookup_weaken _ _ _ _ Hl (cl_rows _ _ Hc2)) as Hl1. split; [by eapply H1|].
  apply (H2 (g, n) id t); [|exact Hl]. apply elem_of_list_In, list_elem_of_fmap.
  exists (n, (id, t)). split; [done|]. by apply elem_rows_by_number.
Qed.

(** Cleaned groups stay clean while the others are cleaned. *)
Definition group_clean (db : Db) (g : str) : Prop :=
  forall n id t, db_group_articles db !! (g, n) = Some (id, t) -> ~ too_old g t /\ ~ expired_in db id.

Lemma group_clean_mono db db' g : cleans db db' -> group_clean db g -> group_clean db' g.
Proof.
  intros Hx Hc n id t Hl. destruct (Hc n id t (lookup_weaken _ _ _ _ Hl (cl_rows _ _ Hx))) as [H1 H2].
  split; [done|]. intros He. apply H2, (expired_mono db db'); [apply Hx|done].
Qed.

Lemma cleanup_groups_done gs db : db_wf db -> (forall g, g ∈ gs -> listed db g /\ retention_in_range g) ->
  exists db', mfor gs (cleanup_group min_instant c now) db = (Ret tt, db')
    /\ cleans db db' /\ forall g, g ∈ gs -> group_clean db' g.
Proof.
  revert db. induction gs as [|g gs IH]; intros db Hwf Hr.
  { exists db. split; [done|]. split; [reflexivity|]. by intros g ?%elem_of_nil. }
  destruct (Hr g) as [Hg Hrg]; [left|].
  destruct (cleanup_group_done g db Hwf Hg Hrg) as (db1 & E1 & Hc1 & H1).
  pose proof (cleanup_group_keeps db_wf db_purge_keeps db_delete_keeps min_instant c now g _ _ _ Hwf E1) as Hwf1.
  destruct (IH db1 Hwf1) as (db2 & E2 & Hc2 & H2).
  { intros h Hh. destruct (Hr h) as [Hl Hrh]; [by right|]. split; [|done].
    unfold listed in *. by rewrite (cl_groups _ _ Hc1). }
  exists db2. split; [cbn [mfor]; by rewrite (mbind_Ret _ _ _ _ _ E1)|].
  split; [by etrans|]. intros h [->|Hh]%elem_of_cons; [|by apply H2].
  by eapply group_clean_mono.
Qed.

(** What is left when the listed groups are clean: the rows that are not due. *)
Lemma cleaned_rows db db' k id t : db_wf db' -> cleans db db' ->
  (forall g, listed db g -> group_clean db' g) -> (forall i, is_referenced i db' = true ->
     db_messages db' !! i = db_messages db !! i) ->
  db_group_articles db' !! k = Some (id, t) <-> db_group_articles db !! k = Some (id, t) /\ ~ due db k id t.
Proof.
  intros Hwf Hc Hclean Hmsg. split.
  - intros Hl. split; [exact (lookup_weaken _ _ _ _ Hl (cl_rows _ _ Hc))|]. intros [[Hg Ht]|[He (h & m & u & Hu & Hh & Hn)]].
    + destruct k as [g n]. by destruct (Hclean g Hg n id t Hl).
    + assert (Hr : is_referenced id db' = true) by (apply is_referenced_true; eauto).
      assert (He' : expired_in db' id).
      { destruct He as (a & Ha & Hx). exists a. split; [|done]. unfold ss_get_article_by_id in *. by rewrite (Hmsg id Hr). }
      destruct (db_group_articles db' !! (h, m)) as [v|] eqn:Ev.
      * pose proof (lookup_weaken _ _ _ _ Ev (cl_rows _ _ Hc)) as Hv. rewrite Hu in Hv. injection Hv as <-.
        by destruct (Hclean h Hh m id u Ev).
      * destruct (cl_due _ _ Hc _ _ _ Hu Ev) as [[_ Ht]|[_ Hf]]; [done|congruence].
  - intros [Hl Hd]. destruct (db_group_articles db' !! k) as [v|] eqn:Ev.
    + pose proof (lookup_weaken _ _ _ _ Ev (cl_rows _ _ Hc)) as Hv. congruence.
    + exfalso. apply Hd. destruct (cl_due _ _ Hc _ _ _ Hl Ev) as [?|[? _]]; [by left|by right].
Qed.

(** C25: a retention pass over a well-formed store comes to its end, whatever the
    configuration, as long as its dates are in chrono's range, and the tables it leaves are
    known row by row: of the rows of the groups exactly those are gone that are due - a row of
    a listed group past the period of the group, and every row, in whatever group, of an
    article whose Expires has passed and which is in a listed group within its period; a
    message stays exactly when a row that is left names it, as it was; groups and overview
    lines are untouched. *)
Theorem retention_pass (db : Db) :
  db_wf db -> (forall g, listed db g -> retention_in_range g) ->
  exists db', cleanup_expired_articles min_instant c now db = (Ret tt, db')
    /\ (forall k id t, db_group_articles db' !! k = Some (id, t)
          <-> db_group_articles db !! k = Some (id, t) /\ ~ due db k id t)
    /\ (forall id row, db_messages db' !! id = Some row
          <-> db_messages db !! id = Some row /\ exists k t, db_group_articles db' !! k = Some (id, t))
    /\ db_groups db' = db_groups db /\ db_overview db' = db_overview db.
Proof.
  intros Hwf Hr. unfold cleanup_expired_articles, mbind' at 1, mgets.
  set (gs := fst <$> groups_by_name db).
  assert (Hgs : forall g, g ∈ gs <-> listed db g).
  { intros g. unfold gs, groups_by_name. rewrite merge_sort_Permutation, list_elem_of_fmap. split.
    - intros ([h row] & -> & Hin%elem_of_map_to_list). by exists row.
    - intros [row Hrow]. exists (g, row). split; [done|]. by apply elem_of_map_to_list. }
  destruct (cleanup_groups_done gs db Hwf) as (db1 & E1 & Hc & Hd); [intros g Hg%Hgs; split; [done|by apply Hr]|].
  assert (E : mfor_stream (list_groups db) (cleanup_group min_instant c now) db = (Ret tt, db1)).
  { rewrite <- E1, <- mfor_stream_Ok. f_equal. unfold gs. simpl. unfold ss_list_groups.
    by rewrite <- list_fmap_compose. }
  assert (Hwf1 : db_wf db1).
  { refine (keeps_for db_wf gs _ _ _ _ _ Hwf E1). intros g.
    exact (cleanup_group_keeps db_wf db_purge_keeps db_delete_keeps min_instant c now g). }
  assert (Hmsg : forall id row, db_messages (delete_orphans db1) !! id = Some row
            <-> db_messages db !! id = Some row /\ exists k t, db_group_articles (delete_orphans db1) !! k = Some (id, t)).
  { intros id row. rewrite delete_orphans_lookup, is_referenced_true.
    change (db_group_articles (delete_orphans db1)) with (db_group_articles db1). split.
    - intros [Hm Hn]. split; [exact (lookup_weaken _ _ _ _ Hm (cl_messages _ _ Hc))|done].
    - intros [Hm Hn]. split; [|done]. destruct (db_messages db1 !! id) as [r|] eqn:Er.
      + pose proof (lookup_weaken _ _ _ _ Er (cl_messages _ _ Hc)). congruence.
      + pose proof (cl_unnamed _ _ Hc id (ex_intro _ row Hm) Er) as Hf.
        apply is_referenced_true in Hn. congruence. }
  rewrite (mbind_Ret _ _ _ _ _ E). exists (delete_orphans db1). split; [reflexivity|].
  split; [|split; [exact Hmsg|split; [apply Hc|apply Hc]]].
  intros k id t. change (db_group_articles (delete_orphans db1)) with (db_group_articles db1).
  apply cleaned_rows; [exact Hwf1|exact Hc|intros g Hg; by apply Hd, Hgs|].
  intros i [j [t' Hl]]%is_referenced_true. destruct (wf_reference _ Hwf1 _ _ _ Hl) as [row Hrow].
  rewrite Hrow. symmetry. exact (lookup_weaken _ _ _ _ Hrow (cl_messages _ _ Hc)).
Qed.
End Pass.

(** ** A concrete pass: one group whose articles live a day *)
Definition day_config : Config :=
  mkConfig (lit ":119") (lit "localhost") [] [] [] [] 600 [] None None None None 1000 1 1
    [mkGroupRule (Some (lit "misc.a")) None (Some 1%Z) None] [] [] false false
    (mkUserLimitsConfig true 0 None None).
Definition day_db : Db := snd (ss_add_group 0 (lit "misc.a") false db_one).
Definition two_days : Z := (172800 * ns_per_sec)%Z.

Lemma day_db_wf : @db_wf Toy.ext day_db.
Proof. apply db_wf_groups, db_one_wf. Qed.

Example day_pass_rows :
  fst <$> map_to_list (db_group_articles
    (snd (@cleanup_expired_articles Toy.ext Db (@sqlite_storage Toy.ext) 0 day_config two_days day_db)))
  = [(lit "misc.b", 1%Z)].
Proof. vm_compute. reflexivity. Qed.

Lemma retention_pass_witness :
  exists db', @cleanup_expired_articles Toy.ext Db (@sqlite_storage Toy.ext) 0 day_config two_days day_db
              = (Ret tt, db')
    /\ db_group_articles db' !! (lit "misc.a", 1%Z) = None /\ is_Some (db_messages db' !! lit "<1@x>").
Proof.
  destruct (@retention_pass Toy.ext 0 day_config two_days day_db)
    as (db' & E & H & Hm & _).
  - apply day_db_wf.
  - intros g [row Hg].
    assert (Hd : db_groups day_db = {[lit "misc.a" := mkGroupRow 0 0 []]}) by (vm_compute; reflexivity).
    rewrite Hd in Hg. apply lookup_singleton_Some in Hg as [Hg _].
    subst g. exists (Some (86400 * ns_per_sec)%Z). split; [vm_compute; reflexivity|].
    intros d E. injection E as <-. vm_compute. discriminate.
  - assert (Hold : listed day_db (lit "misc.a") /\ @too_old Toy.ext day_config two_days (lit "misc.a") 1%Z).
    { split; [vm_compute; eauto|]. exists (86400 * ns_per_sec)%Z. split; [vm_compute; reflexivity|].
      split; vm_compute; reflexivity. }
    exists db'. split; [exact E|]. split.
    + destruct (db_group_articles db' !! (lit "misc.a", 1%Z)) as [[id t]|] eqn:El; [|reflexivity].
      exfalso. destruct (proj1 (H _ _ _) El) as [Hl Hn]. apply Hn. left.
      vm_compute in Hl. injection Hl as <- <-. exact Hold.
    + assert (Hrow : is_Some (db_messages day_db !! lit "<1@x>")) by (vm_compute; eauto).
      destruct Hrow as [row Hrow]. exists row. apply Hm. split; [exact Hrow|].
      exists (lit "misc.b", 1%Z), 1%Z. apply H. split; [vm_compute; reflexivity|].
      intros [[[r Hr] _]|[(a & Ha & u & (v & Hv & _) & _) _]]; [vm_compute in Hr; discriminate Hr|].
      vm_compute in Ha. injection Ha as <-. vm_compute in Hv. discriminate Hv.
Defined.
