(* ===== verification/Queue.v ===== *)
(** * Queue: the article queue and its workers ([queue.rs])

    The bounded channel: what is in it, and the submissions that wait for room.
    [submit] comes back once its article is in the channel; the queue object holds both
    ends, so the channel is never closed. *)

From stdpp Require Import base numbers list gmap strings relations.
From Stdlib Require Import NArith ZArith Lia.
From S2P Require Import Prelude Text Externals Message Config Limits Auth SqliteAuth Storage SqliteStorage Control Milter Filters.
Local Open Scope N_scope.

Record QueuedArticle := mkQueuedArticle {
  qa_message : Message;
  qa_size : N;
  qa_is_control : bool;
  qa_already_validated : bool;
}.

Record ArticleQueue := mkArticleQueue {
  q_capacity : nat;
  q_items : list QueuedArticle;
  q_waiting : list QueuedArticle;
}.

Definition new_queue (capacity : nat) : ArticleQueue := mkArticleQueue capacity [] [].

(** [send_async]: into the channel when there is room, else behind those that wait. *)
Definition submit (a : QueuedArticle) (q : ArticleQueue) : ArticleQueue :=
  if (length (q_items q) <? q_capacity q)%nat
  then mkArticleQueue (q_capacity q) (q_items q ++ [a]) (q_waiting q)
  else mkArticleQueue (q_capacity q) (q_items q) (q_waiting q ++ [a]).

Definition submit_all (l : list QueuedArticle) (q : ArticleQueue) : ArticleQueue :=
  foldl (fun q a => submit a q) q l.
Lemma submit_all_app l k q : submit_all (l ++ k) q = submit_all k (submit_all l q).
Proof. apply foldl_app. Qed.

(** [recv_async]: the oldest article; the first that waits takes the room.  A channel of
    capacity 0 hands over from the submission that waits. *)
Definition receive (q : ArticleQueue) : option QueuedArticle * ArticleQueue :=
  match q_items q with
  | [] => match q_waiting q with
          | [] => (None, q)
          | w :: ws => (Some w, mkArticleQueue (q_capacity q) [] ws)
          end
  | a :: items =>
      (Some a, match q_waiting q with
               | [] => mkArticleQueue (q_capacity q) items []
               | w :: ws => mkArticleQueue (q_capacity q) (items ++ [w]) ws
               end)
  end.

Definition queue_is_empty (q : ArticleQueue) : bool := match q_items q with [] => true | _ => false end.
Definition queue_len (q : ArticleQueue) : nat := length (q_items q).

Section Worker.
Context {X : Ext} {Net : MilterNet} {S A : Type} `{Storage S} `{AuthProvider A}.

(** The filter chain of the configuration, the default one when it is invalid. *)
Definition configured_chain (c : Config) : FilterChain :=
  match create_filter_chain (cfg_filters c) with
  | inr chain => chain
  | inl _ => default_chain
  end.

(** Store the article unless one of its Message-ID is there. *)
Definition store_new (now : Z) (article : Message) : M (Stores S A) unit :=
  (let message_id := default [] (get_header_value article (lit "Message-ID")) in
   known <-- (if str_eqb message_id [] then mreturn None
              else ask_storage (get_article_by_id message_id)) ;;;
   match known with
   | Some _ => mreturn tt
   | None => on_storage (store_article now article)
   end)%m.

Definition process_article (now : Z) (c : Config) (q : QueuedArticle) : M (Stores S A) unit :=
  (let article := qa_message q in
   handled <-- (if qa_is_control q then handle_control now article c else mreturn false) ;;;
   if handled then mreturn tt
   else
     (if qa_already_validated q then mreturn tt
      else validate_chain c article (qa_size q) (configured_chain c)) ;;;
     store_new now article)%m.

(** One turn of [worker_task]: a failure is only logged. *)
Definition worker_step (now : Z) (c : Config) (q : ArticleQueue) (t : Stores S A)
  : ArticleQueue * Stores S A :=
  match receive q with
  | (Some a, q') => (q', snd (mcatch (process_article now c a) t))
  | (None, q') => (q', t)
  end.
End Worker.

(** ** The channel *)

(** A history: articles submitted, articles received, in order. *)
Inductive queue_step : list QueuedArticle * list QueuedArticle * ArticleQueue ->
                       list QueuedArticle * list QueuedArticle * ArticleQueue -> Prop :=
| queue_submit sent got q a : queue_step (sent, got, q) (sent ++ [a], got, submit a q)
| queue_receive sent got q a q' :
    receive q = (Some a, q') -> queue_step (sent, got, q) (sent, got ++ [a], q').

Definition queue_inv (s : list QueuedArticle * list QueuedArticle * ArticleQueue) : Prop :=
  let '(sent, got, q) := s in
  sent = got ++ q_items q ++ q_waiting q
  /\ (length (q_items q) <= q_capacity q)%nat
  /\ (q_waiting q <> [] -> length (q_items q) = q_capacity q).

Lemma queue_step_inv s s' : queue_step s s' -> queue_inv s -> queue_inv s'.
Proof.
  intros Hs. destruct Hs as [sent got q a|sent got q a q' E]; intros (Hseq & Hcap & Hw); simpl in *.
  - unfold submit. destruct (Nat.ltb_spec (length (q_items q)) (q_capacity q)) as [Hlt|Hge]; simpl.
    + assert (Hno : q_waiting q = []).
      { destruct (q_waiting q); [done|]. assert (length (q_items q) = q_capacity q) by by apply Hw. lia. }
      rewrite Hno in *. rewrite Hseq, !app_nil_r. rewrite <- app_assoc. split_and!; try done.
      rewrite length_app. simpl. lia.
    + split_and!; [by rewrite Hseq, <- !app_assoc|lia|]. intros _. lia.
  - unfold receive in E. destruct (q_items q) as [|b items] eqn:Ei.
    { destruct (q_waiting q) as [|w ws] eqn:Ew; [done|]. injection E as -> <-. simpl in *.
      split_and!; [by rewrite Hseq, <- !app_assoc|lia|]. intros _. by apply Hw. }
    injection E as -> <-. destruct (q_waiting q) as [|w ws] eqn:Ew; simpl in *.
    + split_and!; [by rewrite Hseq, <- !app_assoc|lia|done].
    + split_and!.
      * rewrite Hseq, <- !app_assoc. done.
      * rewrite length_app. simpl. lia.
      * intros _. rewrite length_app. simpl. assert (S (length items) = q_capacity q) by by apply Hw. lia.
Qed.

(** Whatever the order of submissions and workers, articles come out of the
    queue in the order they were submitted, none is lost and none comes twice; the
    channel never holds more than its capacity, and a submission waits only while it is full. *)
Theorem queue_fifo (capacity : nat) (sent got : list QueuedArticle) (q : ArticleQueue) :
  rtc queue_step ([], [], new_queue capacity) (sent, got, q) ->
  sent = got ++ q_items q ++ q_waiting q
  /\ (length (q_items q) <= q_capacity q)%nat
  /\ (q_waiting q <> [] -> length (q_items q) = q_capacity q).
Proof.
  intros Hr. change (queue_inv (sent, got, q)).
  remember (([] : list QueuedArticle), ([] : list QueuedArticle), new_queue capacity) as s0 eqn:E0.
  assert (H0 : queue_inv s0) by (subst; simpl; split_and!; [done|lia|done]). clear E0.
  induction Hr as [|s s' s'' Hs Hr IH]; [done|]. apply IH. by eapply queue_step_inv.
Qed.

(** ** What a worker stores *)
Section Stored.
Context {X : Ext} {Net : MilterNet} {S A : Type} `{Storage S} `{!StorageLaws S} `{AuthProvider A}.
Implicit Types t : Stores S A.

(** A validated article that is no control message. *)
Definition ready (q : QueuedArticle) : Prop :=
  qa_is_control q = false /\ qa_already_validated q = true.

Lemma process_ready now c q t : ready q ->
  process_article now c q t = store_new now (qa_message q) t.
Proof. intros [Hc Hv]. unfold process_article. by rewrite Hc, Hv. Qed.

Lemma store_new_id now q t id : extract_message_id (qa_message q) = Some id -> id <> [] ->
  store_new now (qa_message q) t
  = (known <-- ask_storage (get_article_by_id id) ;;;
     match known with
     | Some _ => mreturn tt
     | None => on_storage (store_article now (qa_message q))
     end)%m t.
Proof.
  intros Hid Hne. unfold store_new.
  change (get_header_value (qa_message q) (lit "Message-ID")) with (extract_message_id (qa_message q)).
  rewrite Hid. change (default [] (Some id)) with id. destruct (str_eqb id []) eqn:E; [|done].
  by apply str_eqb_eq in E.
Qed.

Lemma process_known now c q t id a : ready q ->
  extract_message_id (qa_message q) = Some id -> id <> [] ->
  get_article_by_id id (sto_storage t) = Ok (Some a) -> process_article now c q t = (Ret tt, t).
Proof.
  intros Hq Hid Hne Hg. rewrite process_ready, (store_new_id now q t id) by done.
  unfold mbind', ask_storage. by rewrite Hg.
Qed.

Lemma process_new now c q t t' id : ready q -> st_wf (sto_storage t) ->
  extract_message_id (qa_message q) = Some id -> id <> [] ->
  get_article_by_id id (sto_storage t) = Ok None -> process_article now c q t = (Ret tt, t') ->
  get_article_by_id id (sto_storage t') = Ok (Some (qa_message q)) /\ sto_auth t' = sto_auth t.
Proof.
  intros Hq Hwf Hid Hne Hg E. rewrite process_ready, (store_new_id now q t id) in E by done.
  unfold mbind', ask_storage in E. rewrite Hg in E. cbn [outcome_of] in E.
  unfold on_storage, mzoom in E.
  destruct (store_article now (qa_message q) (sto_storage t)) as [o s] eqn:Es.
  injection E as -> <-. split; [|done]. by eapply store_then_get.
Qed.

(** C20: processing a validated article that is not a control message, over
    any store that keeps the contract: an article whose Message-ID is known changes nothing; a
    new one can be read under its Message-ID once the processing has succeeded,
    the accounts are untouched, and processing it again changes nothing more. *)
Theorem process_article_once (now later : Z) (c : Config) (q : QueuedArticle) (t : Stores S A) (id : str) :
  ready q -> st_wf (sto_storage t) ->
  extract_message_id (qa_message q) = Some id -> id <> [] ->
  (forall a, get_article_by_id id (sto_storage t) = Ok (Some a) ->
     process_article now c q t = (Ret tt, t))
  /\ (forall t', get_article_by_id id (sto_storage t) = Ok None ->
       process_article now c q t = (Ret tt, t') ->
       get_article_by_id id (sto_storage t') = Ok (Some (qa_message q))
       /\ sto_auth t' = sto_auth t
       /\ process_article later c q t' = (Ret tt, t')).
Proof.
  intros Hq Hwf Hid Hne. split; [intros a; by apply process_known|].
  intros t' Hg E. destruct (process_new now c q t t' id Hq Hwf Hid Hne Hg E) as [Hget Ha].
  split; [exact Hget|]. split; [exact Ha|]. by apply (process_known later c q t' id (qa_message q)).
Qed.
End Stored.

Definition queued_plain : QueuedArticle := mkQueuedArticle plain_article 10 false true.

Lemma queue_fifo_witness :
  queue_is_empty (snd (receive (submit queued_plain (new_queue 1)))) = true
  /\ [queued_plain] = [] ++ q_items (submit queued_plain (new_queue 1))
       ++ q_waiting (submit queued_plain (new_queue 1)).
Proof.
  split; [reflexivity|].
  apply (queue_fifo 1 [queued_plain] [] (submit queued_plain (new_queue 1))).
  apply rtc_once. apply (queue_submit [] []).
Defined.

Lemma process_article_once_witness :
  let t' := snd (@process_article Toy.ext no_milter _ _ (@sqlite_storage Toy.ext)
                   (@sqlite_auth Toy.ext true) 0 default_config queued_plain news_stores) in
  @ss_get_article_by_id Toy.ext (lit "<p@x>") (sto_storage t') = Ok (Some plain_article).
Proof.
  intros t'.
  destruct (@process_article_once Toy.ext no_milter _ _ (@sqlite_storage Toy.ext)
              (@sqlite_storage_laws Toy.ext Toy.json_laws) (@sqlite_auth Toy.ext true)
              0 1 default_config queued_plain news_stores (lit "<p@x>")) as [_ H].
  - split; reflexivity.
  - apply (@db_wf_groups Toy.ext). apply db_wf_empty.
  - vm_compute. reflexivity.
  - discriminate.
  - apply (H t'); vm_compute; reflexivity.
Defined.
