(* ===== verification/Workers.v ===== *)
(** * Workers: the pool that empties the queue ([queue.rs])

    The workers of [WorkerPool::start] and everything else that runs beside them, one turn of
    any of them at a time: an idle worker takes the oldest article of the channel, a worker
    finishes the article it has, or another task submits articles and changes the stores.
    The effect of processing is that of [process_article] on the stores as they are when it
    finishes. *)

From stdpp Require Import base numbers list gmap strings.
From Stdlib Require Import NArith ZArith Lia.
From S2P Require Import Prelude Text Externals Message Config Limits Auth SqliteAuth Storage SqliteStorage Control Milter Filters Queue.
Local Open Scope nat_scope.

Inductive Worker : Type :=
| Idle
| Busy (a : QueuedArticle).

Record Pool (S A : Type) := mkPool {
  po_queue : ArticleQueue;
  po_workers : list Worker;
  po_stores : Stores S A;
}.
Arguments mkPool {S A}.
Arguments po_queue {S A}.
Arguments po_workers {S A}.
Arguments po_stores {S A}.

(** Who has the turn; a worker finishes at an instant and with the configuration of then. *)
Inductive Turn (S A : Type) : Type :=
| Takes (worker : nat)
| Finishes (worker : nat) (now : Z) (c : Config)
| Others (submitted : list QueuedArticle) (t : Stores S A).
Arguments Takes {S A}.
Arguments Finishes {S A}.
Arguments Others {S A}.

Section Workers.
Context {X : Ext} {Net : MilterNet} {S A : Type} `{Storage S} `{AuthProvider A}.

Definition start (capacity worker_count : nat) (t : Stores S A) : Pool S A :=
  mkPool (new_queue capacity) (replicate worker_count Idle) t.

(** A worker whose processing panics or never comes back does not finish. *)
Definition pool_turn (l : Turn S A) (p : Pool S A) : option (Pool S A) :=
  match l with
  | Takes i =>
      match po_workers p !! i, receive (po_queue p) with
      | Some Idle, (Some a, q) => Some (mkPool q (<[i := Busy a]> (po_workers p)) (po_stores p))
      | _, _ => None
      end
  | Finishes i now c =>
      match po_workers p !! i with
      | Some (Busy a) =>
          match mcatch (process_article now c a) (po_stores p) with
          | (Ret _, t) => Some (mkPool (po_queue p) (<[i := Idle]> (po_workers p)) t)
          | _ => None
          end
      | _ => None
      end
  | Others l t => Some (mkPool (submit_all l (po_queue p)) (po_workers p) t)
  end.

(** ** What one turn does to the queue and to a worker *)
Implicit Types p : Pool S A.

Definition channel_ok (q : ArticleQueue) : Prop :=
  length (q_items q) <= q_capacity q /\ (q_waiting q <> [] -> length (q_items q) = q_capacity q).
(** In the channel or waiting to be, with that many articles ahead. *)
Definition in_line (a : QueuedArticle) (ahead : nat) (q : ArticleQueue) : Prop :=
  (q_items q ++ q_waiting q) !! ahead = Some a.
Definition has_turn (i : nat) (l : Turn S A) : Prop :=
  match l with Takes j | Finishes j _ _ => j = i | _ => False end.
Definition nothing_for (i : nat) p : Prop :=
  po_workers p !! i = Some Idle /\ fst (receive (po_queue p)) = None.

Lemma submit_line q b : channel_ok q ->
  channel_ok (submit b q) /\ q_items (submit b q) ++ q_waiting (submit b q) = (q_items q ++ q_waiting q) ++ [b].
Proof.
  intros [Hc Hw]. unfold submit. destruct (Nat.ltb_spec (length (q_items q)) (q_capacity q)) as [Hlt|Hge]; simpl.
  - assert (q_waiting q = []) as ->.
    { destruct (q_waiting q); [done|]. assert (length (q_items q) = q_capacity q) by by apply Hw. lia. }
    rewrite !app_nil_r. split; [|done]. split; simpl; [rewrite length_app; simpl; lia|done].
  - rewrite app_assoc. split; [|done]. split; simpl; lia.
Qed.

Lemma submit_all_line l q : channel_ok q ->
  channel_ok (submit_all l q)
  /\ q_items (submit_all l q) ++ q_waiting (submit_all l q) = (q_items q ++ q_waiting q) ++ l.
Proof.
  revert q. induction l as [|b l IH]; intros q Hq; simpl; [by rewrite app_nil_r|].
  destruct (submit_line q b Hq) as [Hc Hl]. destruct (IH _ Hc) as [Hc' Hl']. split; [done|].
  by rewrite Hl', Hl, <- app_assoc.
Qed.

Lemma receive_line q b q' : channel_ok q -> receive q = (Some b, q') ->
  channel_ok q' /\ q_items q ++ q_waiting q = b :: q_items q' ++ q_waiting q'.
Proof.
  intros [Hc Hw]. unfold receive. destruct (q_items q) as [|c items] eqn:Ei.
  - destruct (q_waiting q) as [|w ws] eqn:Ew; [done|]. intros E. injection E as -> <-. simpl in *.
    split; [|done]. split; simpl; [lia|]. intros _. by apply Hw.
  - intros E. injection E as -> <-. destruct (q_waiting q) as [|w ws]; simpl in *.
    + split; [|done]. split; simpl; [lia|done].
    + assert (Datatypes.S (length items) = q_capacity q) by by apply Hw.
      rewrite <- app_assoc. split; [|done]. split; simpl; rewrite length_app; simpl; lia.
Qed.

Lemma receive_some q a k : in_line a k q -> fst (receive q) <> None.
Proof.
  unfold in_line, receive. destruct (q_items q) as [|b items]; [|done].
  destruct (q_waiting q) as [|w ws]; done.
Qed.

(** A turn keeps the article in line, at most one place nearer, or gives it to a worker;
    only the worker whose turn it is changes. *)
Lemma turn_line l p p' a k : pool_turn l p = Some p' -> channel_ok (po_queue p) -> in_line a k (po_queue p) ->
  match l with
  | Takes i => match k with
               | 0 => po_workers p' !! i = Some (Busy a)
               | Datatypes.S k' => in_line a k' (po_queue p')
               end
  | _ => in_line a k (po_queue p')
  end.
Proof.
  intros E Hc Hin. unfold in_line in *. destruct l as [i|i now c|l t]; simpl in E.
  - destruct (po_workers p !! i) as [[|b0]|] eqn:Ew; try done.
    destruct (receive (po_queue p)) as [[b|] q'] eqn:Er; [|done]. injection E as <-. simpl.
    destruct (receive_line _ _ _ Hc Er) as [_ Hl]. rewrite Hl in Hin. destruct k as [|k]; simpl in Hin; [|done].
    injection Hin as ->. apply list_lookup_insert_eq. by eapply lookup_lt_Some.
  - destruct (po_workers p !! i) as [[|b]|]; try done.
    destruct (mcatch _ _) as [[] t]; try done. injection E as <-. exact Hin.
  - injection E as <-. simpl. destruct (submit_all_line l (po_queue p) Hc) as [_ ->].
    apply lookup_app_l_Some. exact Hin.
Qed.

Lemma turn_channel l p p' : pool_turn l p = Some p' -> channel_ok (po_queue p) -> channel_ok (po_queue p').
Proof.
  intros E Hc. destruct l as [i|i now c|l t]; simpl in E.
  - destruct (po_workers p !! i) as [[|b0]|]; try done.
    destruct (receive (po_queue p)) as [[b|] q'] eqn:Er; [|done]. injection E as <-. simpl.
    by eapply receive_line.
  - destruct (po_workers p !! i) as [[|b]|]; try done.
    destruct (mcatch _ _) as [[] t]; try done. by injection E as <-.
  - injection E as <-. by apply submit_all_line.
Qed.

Lemma turn_worker l p p' i : pool_turn l p = Some p' -> ~ has_turn i l ->
  po_workers p' !! i = po_workers p !! i.
Proof.
  intros E Hi. destruct l as [j|j now c|l t]; simpl in *.
  - destruct (po_workers p !! j) as [[|b0]|]; try done.
    destruct (receive (po_queue p)) as [[b|] q'] eqn:Er; [|done]. injection E as <-. simpl.
    by apply list_lookup_insert_ne.
  - destruct (po_workers p !! j) as [[|b]|]; try done.
    destruct (mcatch _ _) as [[] t]; try done. injection E as <-. simpl. by apply list_lookup_insert_ne.
  - by injection E as <-.
Qed.

Lemma turn_own l p p' i : pool_turn l p = Some p' -> has_turn i l ->
  match l with
  | Takes _ => po_workers p !! i = Some Idle /\ exists b, po_workers p' !! i = Some (Busy b)
  | _ => (exists b, po_workers p !! i = Some (Busy b)) /\ po_workers p' !! i = Some Idle
  end.
Proof.
  intros E Hi. destruct l as [j|j now c|l t]; simpl in *; try done; subst j.
  - destruct (po_workers p !! i) as [[|b0]|] eqn:Ew; try done.
    destruct (receive (po_queue p)) as [[b|] q'] eqn:Er; [|done]. injection E as <-. simpl.
    split; [done|]. exists b. apply list_lookup_insert_eq. by eapply lookup_lt_Some.
  - destruct (po_workers p !! i) as [[|b]|] eqn:Ew; try done.
    destruct (mcatch _ _) as [[] t]; try done. injection E as <-. simpl. split; [by eexists|].
    apply list_lookup_insert_eq. by eapply lookup_lt_Some.
Qed.

(** ** Runs without end *)
Section Run.
Context (run : nat -> Pool S A) (turns : nat -> Turn S A).
Hypothesis step : forall n, pool_turn (turns n) (run n) = Some (run (Datatypes.S n)).
(** Every worker has its turn again and again, or an empty channel to wait at: none is
    starved, and the processing of every article comes to an end. *)
Hypothesis fair : forall i n, i < length (po_workers (run n)) ->
  exists d, has_turn i (turns (n + d)) \/ nothing_for i (run (n + d)).
Hypothesis channel0 : channel_ok (po_queue (run 0)).
Hypothesis a_worker : 0 < length (po_workers (run 0)).

Lemma run_channel n : channel_ok (po_queue (run n)).
Proof. induction n as [|n IH]; [done|]. by eapply turn_channel. Qed.

Lemma run_workers n : length (po_workers (run n)) = length (po_workers (run 0)).
Proof.
  induction n as [|n IH]; [done|]. rewrite <- IH. pose proof (step n) as E.
  destruct (turns n) as [j|j now c|l t]; simpl in E.
  - destruct (po_workers (run n) !! j) as [[|b0]|]; try done.
    destruct (receive _) as [[b|] q]; [|done]. injection E as <-. apply length_insert.
  - destruct (po_workers (run n) !! j) as [[|b]|]; try done.
    destruct (mcatch _ _) as [[] t]; try done. injection E as <-. apply length_insert.
  - by injection E as <-.
Qed.

Definition busy (i n : nat) : nat :=
  match po_workers (run n) !! i with Some (Busy _) => 1 | _ => 0 end.
(** The article has a worker, or its place in line and the first worker are nearer to it. *)
Definition nearer (a : QueuedArticle) (n k b : nat) : Prop :=
  exists n', n <= n' /\ ((exists i, po_workers (run n') !! i = Some (Busy a))
    \/ exists k', in_line a k' (po_queue (run n')) /\ 2 * k' + busy 0 n' < 2 * k + b).

Lemma nearer_later a n k b : nearer a (Datatypes.S n) k b -> nearer a n k b.
Proof. intros (n' & Hn & Hx). exists n'. split; [lia|done]. Qed.

Lemma own_turn_nearer a n k : in_line a k (po_queue (run n)) -> has_turn 0 (turns n) ->
  nearer a n k (busy 0 n).
Proof.
  intros Hl Ht. pose proof (turn_line _ _ _ a k (step n) (run_channel n) Hl) as Hline.
  pose proof (turn_own _ _ _ 0 (step n) Ht) as Hown. exists (Datatypes.S n). split; [lia|].
  unfold busy. destruct (turns n) as [i|i now c|l t]; simpl in Ht; try done; subst i.
  - destruct Hown as [-> [b Hb]]. destruct k as [|k]; [left; by exists 0|].
    right. exists k. split; [done|]. rewrite Hb. lia.
  - destruct Hown as [[b ->] ->]. right. exists k. split; [done|]. lia.
Qed.

Lemma other_turn a n k : in_line a k (po_queue (run n)) -> ~ has_turn 0 (turns n) ->
  nearer a n k (busy 0 n)
  \/ (in_line a k (po_queue (run (Datatypes.S n))) /\ busy 0 (Datatypes.S n) = busy 0 n).
Proof.
  intros Hl Ht. pose proof (turn_line _ _ _ a k (step n) (run_channel n) Hl) as Hline.
  pose proof (turn_worker _ _ _ 0 (step n) Ht) as Hw.
  assert (Hb : busy 0 (Datatypes.S n) = busy 0 n) by (unfold busy; by rewrite Hw).
  destruct (turns n) as [i|i now c|l t]; [|by right..].
  left. exists (Datatypes.S n). split; [lia|]. destruct k as [|k]; [left; by exists i|].
  right. exists k. split; [done|]. lia.
Qed.

Lemma progress d : forall a n k, in_line a k (po_queue (run n)) ->
  has_turn 0 (turns (n + d)) \/ nothing_for 0 (run (n + d)) -> nearer a n k (busy 0 n).
Proof.
  induction d as [|d IH]; intros a n k Hl Hx.
  - rewrite Nat.add_0_r in Hx. destruct Hx as [Ht|[_ Hn]]; [by apply own_turn_nearer|].
    by apply receive_some in Hl.
  - assert (Hd : has_turn 0 (turns n) \/ ~ has_turn 0 (turns n)).
    { destruct (turns n) as [i|i now c|l t]; simpl; auto; destruct (decide (i = 0)); auto. }
    destruct Hd as [Ht|Ht]; [by apply own_turn_nearer|].
    destruct (other_turn a n k Hl Ht) as [|[Hl' Hb]]; [done|]. rewrite <- Hb. apply nearer_later.
    apply IH; [done|]. by replace (Datatypes.S n + d) with (n + Datatypes.S d) by lia.
Qed.

Lemma eventually_taken a : forall m n k, 2 * k + busy 0 n < m -> in_line a k (po_queue (run n)) ->
  exists n' i, n <= n' /\ po_workers (run n') !! i = Some (Busy a).
Proof.
  induction m as [|m IH]; intros n k Hm Hl; [lia|].
  destruct (fair 0 n) as [d Hd]; [by rewrite run_workers|].
  destruct (progress d a n k Hl Hd) as (n' & Hn & [[i Hi]|(k' & Hl' & Hk)]); [by exists n', i|].
  destruct (IH n' k') as (n2 & i & Hn2 & Hi); [lia|done|]. exists n2, i. split; [lia|done].
Qed.

Lemma eventually_finished a i : forall d n, po_workers (run n) !! i = Some (Busy a) ->
  has_turn i (turns (n + d)) \/ nothing_for i (run (n + d)) ->
  exists m now c, n <= m /\ turns m = Finishes i now c /\ po_workers (run m) !! i = Some (Busy a).
Proof.
  assert (Hown : forall n, po_workers (run n) !! i = Some (Busy a) -> has_turn i (turns n) ->
    exists now c, turns n = Finishes i now c).
  { intros n Hb Ht. pose proof (turn_own _ _ _ i (step n) Ht) as Ho.
    destruct (turns n) as [j|j now c|l t]; simpl in Ht; try done; subst j; [|by eexists _, _].
    destruct Ho as [Ho _]. congruence. }
  induction d as [|d IH]; intros n Hb Hx.
  - rewrite Nat.add_0_r in Hx. destruct Hx as [Ht|[Hi _]]; [|congruence].
    destruct (Hown n Hb Ht) as (now & c & Hn). by exists n, now, c.
  - assert (Hd : has_turn i (turns n) \/ ~ has_turn i (turns n)).
    { destruct (turns n) as [j|j now c|l t]; simpl; auto; destruct (decide (j = i)); auto. }
    destruct Hd as [Ht|Ht].
    + destruct (Hown n Hb Ht) as (now & c & Hn). by exists n, now, c.
    + destruct (IH (Datatypes.S n)) as (m & now & c & Hm & Hx').
      * by rewrite (turn_worker _ _ _ i (step n) Ht).
      * by replace (Datatypes.S n + d) with (n + Datatypes.S d) by lia.
      * exists m, now, c. split; [lia|done].
Qed.

Lemma finish_stores m i now c a : turns m = Finishes i now c -> po_workers (run m) !! i = Some (Busy a) ->
  po_stores (run (Datatypes.S m)) = snd (process_article now c a (po_stores (run m))).
Proof.
  intros Ht Hb. pose proof (step m) as E. rewrite Ht in E. simpl in E. rewrite Hb in E.
  unfold mcatch in E. destruct (process_article now c a (po_stores (run m))) as [[] t]; try done;
    by injection E as <-.
Qed.

Lemma submitted_in_line n l k a t : turns n = Others (l ++ a :: k) t ->
  exists j, in_line a j (po_queue (run (Datatypes.S n))).
Proof.
  intros Ht. pose proof (step n) as E. rewrite Ht in E. simpl in E. injection E as <-. simpl.
  exists (length ((q_items (po_queue (run n)) ++ q_waiting (po_queue (run n))) ++ l)).
  unfold in_line. destruct (submit_all_line (l ++ a :: k) (po_queue (run n)) (run_channel n)) as [_ ->].
  rewrite (app_assoc _ l). by apply list_lookup_middle.
Qed.

Lemma submitted_finished n l k a t : turns n = Others (l ++ a :: k) t ->
  exists m i now c, n < m /\ turns m = Finishes i now c /\ po_workers (run m) !! i = Some (Busy a).
Proof.
  intros Ht. destruct (submitted_in_line n l k a t Ht) as [j Hj].
  destruct (eventually_taken a _ _ _ (Nat.lt_succ_diag_r _) Hj) as (n' & i & Hn & Hi).
  destruct (fair i n') as [d Hd].
  { apply lookup_lt_Some in Hi. done. }
  destruct (eventually_finished a i d n' Hi Hd) as (m & now & c & Hm & Hf & Hb).
  exists m, i, now, c. split; [lia|done].
Qed.
End Run.
End Workers.

Section Processed.
Context {X : Ext} {Net : MilterNet} {S A : Type} `{Storage S} `{!StorageLaws S} `{AuthProvider A}.

(** A worker that has processed an article that is ready leaves one of its Message-ID in the store. *)
Lemma processed_readable now c (a : QueuedArticle) (st st' : Stores S A) id :
  ready a -> extract_message_id (qa_message a) = Some id -> id <> [] -> st_wf (sto_storage st) ->
  process_article now c a st = (Ret tt, st') ->
  exists b, get_article_by_id id (sto_storage st') = Ok (Some b).
Proof.
  intros Hr Hid Hne Hwf E.
  destruct (get_article_by_id id (sto_storage st)) as [[b|]|e] eqn:Eg.
  - exists b. rewrite (process_known now c a _ id b Hr Hid Hne Eg) in E. by injection E as <-.
  - destruct (process_new now c a _ st' id Hr Hwf Hid Hne Eg E) as [Hg _]. eauto.
  - rewrite process_ready, (store_new_id now a _ id) in E by done.
    unfold mbind', ask_storage in E. by rewrite Eg in E.
Qed.
End Processed.
