(* ===== verification/Context.v ===== *)
(** * Context: what a command handler works on ([handlers/mod.rs], [handlers/utils.rs])

    [HandlerContext] as a record: the connection, the session, the two stores,
    the usage tracker, the configuration, the article queue and the clock, whose readings
    are an arbitrary sequence.  Handlers are computations on it; [net], [stores],
    [with_tracker] run a computation of a component on its part. *)

From stdpp Require Import base numbers list gmap strings.
From Stdlib Require Import NArith ZArith Lia.
From S2P Require Import Prelude Text Externals Message Config Limits Auth Tracker Storage Responses Session Wire Control Milter Filters Queue.
Local Open Scope N_scope.

Record Ctx (S A : Type) := mkCtx {
  cx_conn : Conn;
  cx_session : Session;
  cx_stores : Stores S A;
  cx_tracker : UsageTracker;
  cx_config : Config;
  cx_queue : ArticleQueue;
  cx_clock : nat -> Z;
  cx_tick : nat;
}.
Arguments mkCtx {S A}.
Arguments cx_conn {S A}.
Arguments cx_session {S A}.
Arguments cx_stores {S A}.
Arguments cx_tracker {S A}.
Arguments cx_config {S A}.
Arguments cx_queue {S A}.
Arguments cx_clock {S A}.
Arguments cx_tick {S A}.

Section Lifts.
Context {S A : Type}.
Implicit Types c : Ctx S A.

Definition set_conn (x : Conn) c : Ctx S A :=
  mkCtx x (cx_session c) (cx_stores c) (cx_tracker c) (cx_config c) (cx_queue c) (cx_clock c) (cx_tick c).
Definition set_session (x : Session) c : Ctx S A :=
  mkCtx (cx_conn c) x (cx_stores c) (cx_tracker c) (cx_config c) (cx_queue c) (cx_clock c) (cx_tick c).
Definition set_stores (x : Stores S A) c : Ctx S A :=
  mkCtx (cx_conn c) (cx_session c) x (cx_tracker c) (cx_config c) (cx_queue c) (cx_clock c) (cx_tick c).
Definition set_tracker (x : UsageTracker) c : Ctx S A :=
  mkCtx (cx_conn c) (cx_session c) (cx_stores c) x (cx_config c) (cx_queue c) (cx_clock c) (cx_tick c).
Definition set_queue (x : ArticleQueue) c : Ctx S A :=
  mkCtx (cx_conn c) (cx_session c) (cx_stores c) (cx_tracker c) (cx_config c) x (cx_clock c) (cx_tick c).

Definition net {B} (m : M Conn B) : M (Ctx S A) B := mzoom cx_conn set_conn m.
Definition stores {B} (m : M (Stores S A) B) : M (Ctx S A) B := mzoom cx_stores set_stores m.
Definition session {B} (f : Session -> B) : M (Ctx S A) B := mgets (fun c => f (cx_session c)).
Definition update_session (f : Session -> Session) : M (Ctx S A) unit :=
  mmodify (fun c => set_session (f (cx_session c)) c).
Definition storage_gets {B} (f : S -> B) : M (Ctx S A) B :=
  mgets (fun c => f (sto_storage (cx_stores c))).
Definition ask {B} (f : S -> result B) : M (Ctx S A) B := stores (ask_storage f).

(** [Utc::now()]. *)
Definition now : M (Ctx S A) Z := fun c =>
  (Ret (cx_clock c (cx_tick c)),
   mkCtx (cx_conn c) (cx_session c) (cx_stores c) (cx_tracker c) (cx_config c) (cx_queue c)
     (cx_clock c) (Datatypes.S (cx_tick c))).

Definition with_tracker {B} (f : A -> UsageTracker -> outcome B * UsageTracker) : M (Ctx S A) B :=
  fun c => let '(o, t) := f (sto_auth (cx_stores c)) (cx_tracker c) in (o, set_tracker t c).

Definition write (s : str) : M (Ctx S A) unit := net (write_simple s).
Definition submit_article (a : QueuedArticle) : M (Ctx S A) unit :=
  mmodify (fun c => set_queue (submit a (cx_queue c)) c).
End Lifts.

(** ** Article queries ([handlers/utils.rs]) *)
Inductive ArticleQueryError : Type :=
| NoGroup
| InvalidId
| RangeEmpty
| NotFoundByNumber
| MessageIdNotFound
| NoCurrentArticle.

Definition article_error_response (e : ArticleQueryError) : str :=
  match e with
  | NoGroup => RESP_412_NO_GROUP
  | InvalidId => RESP_501_INVALID_ID
  | RangeEmpty => RESP_423_RANGE_EMPTY
  | NotFoundByNumber => RESP_423_NO_ARTICLE_NUM
  | MessageIdNotFound => RESP_430_NO_ARTICLE
  | NoCurrentArticle => RESP_420_NO_CURRENT
  end.

Inductive ArticleOperation : Type := Full | Headers | Body | Stat.

Definition operation_code (o : ArticleOperation) : N :=
  match o with Full => 220 | Headers => 221 | Body => 222 | Stat => 223 end.
Definition response_suffix (o : ArticleOperation) : str :=
  match o with
  | Full => lit "article follows"
  | Headers => lit "article headers follow"
  | Body => lit "article body follows"
  | Stat => lit "article exists"
  end.

(** The bytes an operation is charged. *)
Definition header_size (a : Message) : N :=
  foldl (fun n kv => n + (utf8_len (fst kv) + 2 + utf8_len (snd kv) + 2)) 0 (headers a).
Definition article_size (o : ArticleOperation) (a : Message) : N :=
  match o with
  | Full => header_size a + 2 + utf8_len (body a) + 5
  | Headers => header_size a + 3
  | Body => utf8_len (body a) + 5
  | Stat => 0
  end.

Section Utils.
Context {X : Ext} {Net : MilterNet} {S A : Type} `{Storage S} `{AuthProvider A}.

Definition metadata_value (msg : Message) (name : str) (s : S) : option str :=
  if str_eqb name (lit ":bytes") then
    match extract_message_id msg with
    | Some id =>
        match get_message_size id s with
        | Ok (Some n) => Some (show_N n)
        | _ => Some (show_N (utf8_len (body msg)))
        end
    | None => Some (show_N (utf8_len (body msg)))
    end
  else if str_eqb name (lit ":lines") then Some (show_N (line_count (body msg)))
  else None.

(** The loop over the numbers of a range: what is found is selected. *)
Fixpoint resolve_numbers (group : str) (nums : list N) (acc : list (N * Message))
  : M (Ctx S A) (ArticleQueryError + list (N * Message)) :=
  match nums with
  | [] => mreturn (match acc with [] => inl NotFoundByNumber | _ => inr acc end)
  | n :: nums =>
      (r <-- storage_gets (get_article_by_number group n) ;;;
       match r with
       | Err _ => mreturn (inl NotFoundByNumber)
       | Ok (Some article) =>
           update_session (set_current_article n) ;;;
           resolve_numbers group nums (acc ++ [(n, article)])
       | Ok None => resolve_numbers group nums acc
       end)%m
  end.

(** [parse_range(..).await.map_err(..)]: its error becomes a value, its panic does not. *)
Definition range_numbers (group spec : str) : M (Ctx S A) (result (list N)) :=
  (o <-- storage_gets (parse_range group spec) ;;; mcatch (mout o))%m.

Definition resolve_articles (arg : option str)
  : M (Ctx S A) (ArticleQueryError + list (N * Message)) :=
  (sess <-- session id ;;;
   match arg with
   | Some arg =>
       if is_angle arg then
         r <-- storage_gets (get_article_by_id arg) ;;;
         mreturn (match r with
                  | Ok (Some article) => inr [(0, article)]
                  | _ => inl MessageIdNotFound
                  end)
       else
         match current_group sess with
         | Some group =>
             r <-- range_numbers group arg ;;;
             match r with
             | Err _ => mreturn (inl RangeEmpty)
             | Ok [] => mreturn (inl RangeEmpty)
             | Ok nums => resolve_numbers group nums []
             end
         | None => mreturn (inl (match parse_u64 arg with Some _ => NoGroup | None => InvalidId end))
         end
   | None =>
       match current_group sess, current_article sess with
       | Some group, Some num =>
           r <-- storage_gets (get_article_by_number group num) ;;;
           mreturn (match r with
                    | Ok (Some article) => inr [(num, article)]
                    | _ => inl NoCurrentArticle
                    end)
       | None, _ => mreturn (inl NoGroup)
       | Some _, None => mreturn (inl NoCurrentArticle)
       end
   end)%m.

Definition handle_article_error (e : ArticleQueryError) : M (Ctx S A) unit :=
  write (article_error_response e).

(** [check_bandwidth] and [record_bandwidth] for a user, at the current time. *)
Definition bandwidth_check (u : str) (bytes : N) : M (Ctx S A) LimitCheckResult :=
  (t <-- now ;;; with_tracker (check_bandwidth t u bytes))%m.
Definition bandwidth_record (u : str) (bytes : N) (up : bool) : M (Ctx S A) unit :=
  (t <-- now ;;; with_tracker (fun _ tr => (Ret tt, record_bandwidth t u bytes up tr)))%m.

(** What an operation sends after the status line. *)
Definition send_content (o : ArticleOperation) (a : Message) : M (Ctx S A) unit :=
  match o with
  | Full => (net (send_headers a) ;;; net (write_all RESP_CRLF) ;;; net (send_body (body a)) ;;;
             net (write_all RESP_DOT_CRLF))%m
  | Headers => (net (send_headers a) ;;; net (write_all RESP_DOT_CRLF))%m
  | Body => (net (send_body (body a)) ;;; net (write_all RESP_DOT_CRLF))%m
  | Stat => mreturn tt
  end.

Definition status_line (o : ArticleOperation) (num : N) (a : Message) : str :=
  show_N (operation_code o) ++ lit " " ++ show_N num ++ lit " "
  ++ default [] (extract_message_id a) ++ lit " " ++ response_suffix o ++ crlf.

(** The loop over the articles; the first one over the limit ends it. *)
Fixpoint send_articles (o : ArticleOperation) (user : option str) (l : list (N * Message))
  : M (Ctx S A) unit :=
  match l with
  | [] => mreturn tt
  | (num, a) :: l =>
      (let charged := match user with
                      | Some u => if 0 <? article_size o a then Some u else None
                      | None => None
                      end in
       r <-- match charged with
             | Some u => bandwidth_check u (article_size o a)
             | None => mreturn Allowed
             end ;;;
       if decide (r = BandwidthExceeded) then write RESP_403_BANDWIDTH_EXCEEDED
       else
         net (write_all (status_line o num a)) ;;;
         send_content o a ;;;
         match charged with
         | Some u => bandwidth_record u (article_size o a) false
         | None => mreturn tt
         end ;;;
         send_articles o user l)%m
  end.

Definition handle_article_operation (o : ArticleOperation) (user : option str) (args : list str)
  : M (Ctx S A) unit :=
  (r <-- resolve_articles (head args) ;;;
   match r with
   | inr articles => send_articles o user articles
   | inl e => handle_article_error e
   end)%m.

Definition check_bandwidth_rejected (size : N) : M (Ctx S A) bool :=
  (user <-- session limited_user ;;;
   match user with
   | Some u =>
       r <-- bandwidth_check u size ;;;
       if decide (r = BandwidthExceeded)
       then write RESP_403_BANDWIDTH_EXCEEDED ;;; mreturn true
       else mreturn false
   | None => mreturn false
   end)%m.

Definition record_bandwidth_usage (size : N) (up : bool) : M (Ctx S A) unit :=
  (user <-- session limited_user ;;;
   match user with
   | Some u => bandwidth_record u size up
   | None => mreturn tt
   end)%m.
End Utils.

Lemma range_numbers_ret {S A} `{Storage S} g spec l (c : Ctx S A) :
  parse_range g spec (sto_storage (cx_stores c)) = Ret l -> range_numbers g spec c = (Ret (Ok l), c).
Proof. intros E. unfold range_numbers, mbind', storage_gets, mgets. by rewrite E. Qed.
Lemma range_numbers_panic {S A} `{Storage S} g spec (c : Ctx S A) :
  parse_range g spec (sto_storage (cx_stores c)) = Panic -> range_numbers g spec c = (Panic, c).
Proof. intros E. unfold range_numbers, mbind', storage_gets, mgets. by rewrite E. Qed.

(** ** What a command may do to its context

    One relation for every handler: the input is consumed, the output grows, the
    settings stay; a session becomes authenticated, or an administrator's, only on the word
    of the authentication back end; the accounts change but for stored keys not at all, and a
    well-formed store stays so.  Every handler but AUTHINFO keeps more: who the client is,
    and the number of connections counted for each user ([steady]). *)
Section Served.
Context {X : Ext} {Net : MilterNet} {S A : Type} `{Storage S} `{!StorageLaws S} `{AuthProvider A}.

Definition stores_served (t t' : Stores S A) : Prop :=
  (st_wf (sto_storage t) -> st_wf (sto_storage t')) /\ rtc key_update (sto_auth t) (sto_auth t').

#[export] Instance stores_served_preorder : PreOrder stores_served.
Proof.
  split; [by intros t; split|]. intros t1 t2 t3 [H1 H2] [H3 H4]. split; [auto|by etrans].
Qed.

(** Articles are only added to the queue, and as validated. *)
Definition queue_served (q q' : ArticleQueue) : Prop :=
  exists l, Forall (fun a => qa_already_validated a = true) l /\ q' = submit_all l q.
Definition queued (q : ArticleQueue) : list QueuedArticle := q_items q ++ q_waiting q.

(** The tracker keeps its defaults, and caches only limits the back end has. *)
Definition tracker_served (a : A) (t t' : UsageTracker) : Prop :=
  defaults t' = defaults t /\
  forall u l, limits_cache t' !! u = Some l -> limits_cache t !! u = Some l \/
    exists a', rtc key_update a a' /\ get_user_limits u a' = Ok (Some l).

(** The session after, given the accounts before. *)
Record session_served (a : A) (s s' : Session) : Prop := {
  same_tls : is_tls s' = is_tls s;
  same_insecure : allow_auth_insecure s' = allow_auth_insecure s;
  same_anonymous : allow_anonymous_posting s' = allow_anonymous_posting s;
  auth_verified : authenticated s' = true -> authenticated s = true \/
    (can_authenticate s = true /\
     exists u p a', rtc key_update a a' /\ verify_user u p a' = Ok true);
  admin_verified : s_is_admin s' = true -> s_is_admin s = true \/
    exists u a', rtc key_update a a' /\ is_admin u a' = Ok true;
}.

Record served (c c' : Ctx S A) : Prop := {
  srv_input : exists l, c_in (cx_conn c) = l ++ c_in (cx_conn c');
  srv_end : c_end (cx_conn c') = c_end (cx_conn c);
  srv_output : exists l, c_out (cx_conn c') = c_out (cx_conn c) ++ l;
  srv_config : cx_config c' = cx_config c;
  srv_stores : stores_served (cx_stores c) (cx_stores c');
  srv_queue : queue_served (cx_queue c) (cx_queue c');
  srv_tracker : tracker_served (sto_auth (cx_stores c)) (cx_tracker c) (cx_tracker c');
  srv_session : session_served (sto_auth (cx_stores c)) (cx_session c) (cx_session c');
}.

(** Who the client is, and what it may do. *)
Record session_steady (s s' : Session) : Prop := {
  std_tls : is_tls s' = is_tls s;
  std_insecure : allow_auth_insecure s' = allow_auth_insecure s;
  std_anonymous : allow_anonymous_posting s' = allow_anonymous_posting s;
  std_authenticated : authenticated s' = authenticated s;
  std_username : username s' = username s;
  std_admin : s_is_admin s' = s_is_admin s;
}.

Record steady (c c' : Ctx S A) : Prop := {
  std_served : served c c';
  std_connections : connections (cx_tracker c') = connections (cx_tracker c);
  std_session : session_steady (cx_session c) (cx_session c');
}.

Lemma queue_served_refl q : queue_served q q.
Proof. by exists []. Qed.

Lemma queue_served_submit q a : qa_already_validated a = true -> queue_served q (submit a q).
Proof. intros Ha. exists [a]. by split; [constructor|]. Qed.

Lemma queue_served_trans q1 q2 q3 : queue_served q1 q2 -> queue_served q2 q3 -> queue_served q1 q3.
Proof.
  intros (l & Hl & ->) (k & Hk & ->). exists (l ++ k). split; [by apply Forall_app|].
  by rewrite submit_all_app.
Qed.

(** What is queued was queued before or is marked as validated. *)
Lemma queue_served_in q q' a : queue_served q q' ->
  In a (queued q') -> In a (queued q) \/ qa_already_validated a = true.
Proof.
  intros (l & Hl & ->). revert q. induction Hl as [|b l Hb Hl IH]; intros q; [by left|]. simpl.
  intros Ha. destruct (IH _ Ha) as [Hq|]; [|by right]. revert Hq. unfold queued, submit.
  destruct (_ <? _)%nat; simpl; rewrite !in_app_iff; simpl; intuition (subst; auto).
Qed.

Lemma tracker_served_refl a t : tracker_served a t t.
Proof. split; [done|]. by left. Qed.

Lemma tracker_served_trans a a' t1 t2 t3 : rtc key_update a a' ->
  tracker_served a t1 t2 -> tracker_served a' t2 t3 -> tracker_served a t1 t3.
Proof.
  intros Ha [D1 C1] [D2 C2]. split; [congruence|]. intros u l Hl.
  destruct (C2 u l Hl) as [Hl2|(b & Hb & Hg)]; [by apply C1|]. right. exists b. by split; [etrans|].
Qed.

Lemma session_served_refl a s : session_served a s s.
Proof. split; auto. Qed.

Lemma session_served_trans a a' s1 s2 s3 : rtc key_update a a' ->
  session_served a s1 s2 -> session_served a' s2 s3 -> session_served a s1 s3.
Proof.
  intros Ha [] []. split; try congruence.
  - intros Hs. destruct (auth_verified1 Hs) as [Hs2|(Hc & u & p & b & Hb & Hv)]; [auto|].
    right. split; [unfold can_authenticate in *; congruence|]. exists u, p, b. by split; [etrans|].
  - intros Hs. destruct (admin_verified1 Hs) as [Hs2|(u & b & Hb & Hv)]; [auto|].
    right. exists u, b. by split; [etrans|].
Qed.

#[export] Instance served_preorder : PreOrder served.
Proof.
  split.
  - intros c. split; try done;
      [by exists []|exists []; by rewrite app_nil_r|apply queue_served_refl|apply tracker_served_refl
      |apply session_served_refl].
  - intros c1 c2 c3 [[i1 I1] E1 [o1 O1] C1 T1 Q1 K1 S1] [[i2 I2] E2 [o2 O2] C2 T2 Q2 K2 S2]. split.
    + exists (i1 ++ i2). by rewrite I1, I2, app_assoc.
    + congruence.
    + exists (o1 ++ o2). by rewrite O2, O1, app_assoc.
    + congruence.
    + by etrans.
    + by eapply queue_served_trans.
    + eapply tracker_served_trans; [apply T1|done|done].
    + eapply session_served_trans; [apply T1|done|done].
Qed.

#[export] Instance session_steady_preorder : PreOrder session_steady.
Proof. split; [by intros s; split|]. intros s1 s2 s3 [] []. split; congruence. Qed.

Lemma session_steady_served a s s' : session_steady s s' -> session_served a s s'.
Proof. intros []. split; try done; intros; left; congruence. Qed.

#[export] Instance steady_preorder : PreOrder steady.
Proof.
  split; [by intros c; split|]. intros c1 c2 c3 [H1 C1 S1] [H2 C2 S2]. split; [by etrans|congruence|by etrans].
Qed.

Lemma steady_moves {B} (m : M (Ctx S A) B) : moves steady m -> moves served m.
Proof. intros Hm c o c' E. apply std_served. by eapply Hm. Qed.

(** A context that differs in what [served] does not look at. *)
Lemma served_same c c' : cx_conn c' = cx_conn c -> cx_session c' = cx_session c ->
  cx_stores c' = cx_stores c -> cx_config c' = cx_config c ->
  queue_served (cx_queue c) (cx_queue c') ->
  tracker_served (sto_auth (cx_stores c)) (cx_tracker c) (cx_tracker c') -> served c c'.
Proof.
  intros H1 H2 H3 H4 H5 H6. split; rewrite ?H1, ?H2, ?H3; try done;
    [by exists []|exists []; by rewrite app_nil_r|apply session_served_refl].
Qed.

(** The same for the parts. *)
Record conn_served (c c' : Conn) : Prop := {
  cn_input : exists l, c_in c = l ++ c_in c';
  cn_end : c_end c' = c_end c;
  cn_output : exists l, c_out c' = c_out c ++ l;
}.

#[export] Instance conn_served_preorder : PreOrder conn_served.
Proof.
  split.
  - intros c. split; [by exists []|done|exists []; by rewrite app_nil_r].
  - intros c1 c2 c3 [[i1 I1] E1 [o1 O1]] [[i2 I2] E2 [o2 O2]]. split.
    + exists (i1 ++ i2). by rewrite I1, I2, app_assoc.
    + congruence.
    + exists (o1 ++ o2). by rewrite O2, O1, app_assoc.
Qed.

Lemma set_conn_served c k : conn_served (cx_conn c) k -> steady c (set_conn k c).
Proof.
  intros []. split; [|done|done]. split; simpl; try done;
    [apply queue_served_refl|apply tracker_served_refl|apply session_served_refl].
Qed.

Lemma write_all_served s : moves conn_served (write_all s).
Proof.
  intros c o c' E. injection E as _ <-. split; [by exists []|done|by exists s].
Qed.

Lemma take_line_split l : fst (fst (take_line l)) ++ snd (take_line l) = l.
Proof.
  induction l as [|x l IH]; [done|]. cbn [take_line]. destruct (is_LF x); [done|].
  destruct (take_line l) as [[a b] r]. simpl in *. by f_equal.
Qed.

Lemma conn_read_line_served : moves conn_served conn_read_line.
Proof.
  intros c o c'. unfold conn_read_line, read_line_in.
  pose proof (take_line_split (c_in c)) as Hl. destruct (take_line (c_in c)) as [[l b] r].
  simpl in Hl. intros E.
  assert (c' = mkConn r (c_end c) (c_out c)) as ->.
  { destruct b, (c_end c), (decode l); injection E as _ <-; reflexivity. }
  split; simpl; [by exists l|done|exists []; by rewrite app_nil_r].
Qed.

Lemma read_message_served : moves conn_served read_message.
Proof.
  assert (Hl : forall fuel msg, moves conn_served (read_message_loop fuel msg)).
  { induction fuel as [|fuel IH]; intros msg; [apply moves_out, _|].
    cbn [read_message_loop]. apply moves_bind; [apply _|apply conn_read_line_served|].
    intros line. destruct (_ || _); [apply moves_ret, _|]. destruct (starts_with _ _); apply IH. }
  intros c. exact (Hl _ _ c).
Qed.

Lemma net_steady {B} (m : M Conn B) : moves conn_served m -> moves steady (net (S:=S) (A:=A) m).
Proof.
  intros Hm c o c'. unfold net, mzoom. destruct (m (cx_conn c)) as [o1 conn] eqn:E.
  intros E1. injection E1 as _ <-. apply set_conn_served. by eapply Hm.
Qed.

Lemma stores_steady {B} (m : M (Stores S A) B) :
  moves stores_served m -> moves steady (stores m).
Proof.
  intros Hm c o c'. unfold stores, mzoom. destruct (m (cx_stores c)) as [o1 t] eqn:E.
  intros E1. injection E1 as _ <-. split; [|done|done]. split; simpl; try done;
    [by exists []|exists []; by rewrite app_nil_r|by eapply Hm|apply queue_served_refl
    |apply tracker_served_refl|apply session_served_refl].
Qed.

Lemma update_session_served f :
  (forall a s, session_served a s (f s)) -> moves served (update_session (S:=S) (A:=A) f).
Proof.
  intros Hf c o c' E. injection E as _ <-. split; simpl; try done;
    [by exists []|exists []; by rewrite app_nil_r|apply queue_served_refl|apply tracker_served_refl].
Qed.

Lemma update_session_steady f :
  (forall s, session_steady s (f s)) -> moves steady (update_session (S:=S) (A:=A) f).
Proof.
  intros Hf c o c' E. split; [|by injection E as _ <-..].
  refine (update_session_served f _ _ _ _ E). intros a s. by apply session_steady_served.
Qed.

Lemma now_steady : moves steady (now (S:=S) (A:=A)).
Proof.
  intros c o c' E. injection E as _ <-. split; [|done|done].
  apply served_same; [done..|apply queue_served_refl|apply tracker_served_refl].
Qed.

(** Methods of the tracker. *)
Lemma effective_served u auth t : tracker_served auth t (snd (get_effective_limits u auth t)).
Proof.
  unfold get_effective_limits. destruct (limits_cache t !! u); [apply tracker_served_refl|].
  destruct (get_user_limits u auth) as [[l|]|e] eqn:E; [|apply tracker_served_refl..].
  split; [done|]. intros v k. simpl. intros [[<- <-]|[_ Hl]]%lookup_insert_Some; [|by left].
  right. by exists auth.
Qed.

Lemma effective_connections u auth t : connections (snd (get_effective_limits u auth t)) = connections t.
Proof.
  unfold get_effective_limits. destruct (limits_cache t !! u); [done|].
  by destruct (get_user_limits u auth) as [[l|]|e].
Qed.

Definition method_served (f : A -> UsageTracker -> UsageTracker) : Prop :=
  forall auth t, tracker_served auth t (f auth t).
Definition method_steady (f : A -> UsageTracker -> UsageTracker) : Prop :=
  method_served f /\ forall auth t, connections (f auth t) = connections t.

Lemma with_tracker_served {B} (f : A -> UsageTracker -> outcome B * UsageTracker) :
  method_served (fun a t => snd (f a t)) -> moves served (with_tracker (S:=S) f).
Proof.
  intros Hf c o c'. unfold with_tracker. specialize (Hf (sto_auth (cx_stores c)) (cx_tracker c)).
  simpl in Hf. destruct (f _ _) as [r t]. intros E. injection E as _ <-.
  apply served_same; [done..|apply queue_served_refl|exact Hf].
Qed.

Lemma with_tracker_steady {B} (f : A -> UsageTracker -> outcome B * UsageTracker) :
  method_steady (fun a t => snd (f a t)) -> moves steady (with_tracker (S:=S) f).
Proof.
  intros [Hf Hc] c o c' E. split; [by eapply with_tracker_served| |];
    unfold with_tracker in E; specialize (Hc (sto_auth (cx_stores c)) (cx_tracker c)); simpl in Hc;
    destruct (f _ _) as [r t]; by injection E as _ <-.
Qed.

(** A method whose answer is passed on. *)
Lemma answer_served {B} (f : A -> UsageTracker -> B * UsageTracker) :
  method_served (fun a t => snd (f a t)) ->
  moves served (with_tracker (S:=S) (fun a t => let '(r, t) := f a t in (Ret r, t))).
Proof.
  intros Hf. apply with_tracker_served. intros a t. specialize (Hf a t). simpl in *. by destruct (f a t).
Qed.

Lemma answer_steady {B} (f : A -> UsageTracker -> B * UsageTracker) :
  method_steady (fun a t => snd (f a t)) ->
  moves steady (with_tracker (S:=S) (fun a t => let '(r, t) := f a t in (Ret r, t))).
Proof.
  intros [Hf Hc]. apply with_tracker_steady. split; intros a t; [specialize (Hf a t)|specialize (Hc a t)];
    simpl in *; by destruct (f a t).
Qed.

Lemma submit_steady a : qa_already_validated a = true ->
  moves steady (submit_article (S:=S) (A:=A) a).
Proof.
  intros Ha c o c' E. injection E as _ <-. split; [|done|done].
  apply served_same; [done..| |apply tracker_served_refl]. by apply queue_served_submit.
Qed.

Lemma gets_steady {B} (f : Ctx S A -> B) : moves steady (mgets f).
Proof. by apply moves_gets, _. Qed.

Lemma ask_steady {B} (f : S -> result B) : moves steady (ask (S:=S) (A:=A) f).
Proof.
  apply stores_steady, moves_same; [apply _|]. by intros t.
Qed.

Lemma write_steady s : moves steady (write (S:=S) (A:=A) s).
Proof. apply net_steady, write_all_served. Qed.

Lemma set_current_article_steady n s : session_steady s (set_current_article n s).
Proof. by split. Qed.

Lemma check_bandwidth_method now u n :
  method_steady (fun a t => snd (check_bandwidth now u n a t)).
Proof.
  split; intros auth t; unfold check_bandwidth;
    pose proof (effective_served u auth t) as Hs; pose proof (effective_connections u auth t) as Hc;
    destruct (get_effective_limits u auth t) as [l t']; simpl in *;
    destruct (ul_bandwidth_limit l); try done; by destruct (roll_window _ _ _).
Qed.

Lemma record_bandwidth_method now u n up :
  method_steady (fun _ t => record_bandwidth now u n up t).
Proof. split; intros auth t; [|done]. split; [done|]. by left. Qed.

Lemma can_post_method u : method_steady (fun a t => snd (tracker_can_post u a t)).
Proof.
  split; intros auth t; unfold tracker_can_post; pose proof (effective_served u auth t) as Hs;
    pose proof (effective_connections u auth t) as Hc; by destruct (get_effective_limits u auth t).
Qed.

Lemma try_connect_method u : method_served (fun a t => snd (try_connect u a t)).
Proof.
  intros auth t. unfold try_connect. pose proof (effective_served u auth t) as Hs.
  destruct (get_effective_limits u auth t) as [l t']. by destruct (connect_entry _ _ _).
Qed.

Lemma load_user_method now u : method_served (fun a t => load_user now u a t).
Proof.
  intros auth t. unfold load_user. destruct (get_user_usage u auth); (split; [done|by left]).
Qed.

Lemma disconnect_method u : method_served (fun _ t => disconnect u t).
Proof.
  intros auth t. destruct (disconnect_counters u t) as [m ->]. split; [done|by left].
Qed.
End Served.

Lemma range_numbers_steady {S A} `{Storage S} `{!StorageLaws S} `{AuthProvider A} g spec :
  moves steady (range_numbers (S:=S) (A:=A) g spec).
Proof. apply moves_bind; [apply _|apply gets_steady|]. intros o. apply moves_catch, moves_out, _. Qed.
(** One step of a proof that a handler moves along [steady]. *)
Create HintDb steady.
#[export] Hint Resolve range_numbers_steady write_steady gets_steady ask_steady now_steady submit_steady
  write_all_served read_message_served : steady.

Ltac steady_step :=
  lazymatch goal with
  | |- moves _ (mbind' _ _) => apply moves_bind; [apply _| |intros ?]
  | |- moves _ (mfor _ _) => apply moves_for; [apply _|intros ?]
  | |- moves _ (mreturn _) => apply moves_ret, _
  | |- moves _ (mfail _) => apply moves_fail, _
  | |- moves _ (mcatch _) => apply moves_catch
  | |- moves _ (net _) => apply net_steady
  | |- moves _ (match ?x with _ => _ end) => destruct x
  | |- moves _ (session _) => apply gets_steady
  | |- moves _ (storage_gets _) => apply gets_steady
  end.
Ltac steady := repeat first [solve [eauto with steady] | steady_step].
