(* ===== verification/ArticleHandlers.v ===== *)
(** * ArticleHandlers: ARTICLE, HEAD, BODY, STAT, HDR, XPAT, OVER
    ([handlers/article.rs]) *)

From stdpp Require Import base numbers list gmap strings.
From Stdlib Require Import NArith ZArith Lia.
From S2P Require Import Prelude Text Externals Message Wildmat Config Limits Auth SqliteAuth Tracker Storage SqliteStorage Responses Session Wire Control Milter Filters Queue Context.
Local Open Scope N_scope.

Section Handlers.
Context {X : Ext} {Net : MilterNet} {S A : Type} `{Storage S} `{AuthProvider A}.

(** The handlers the macro [article_handler] makes. *)
Definition article_handler (o : ArticleOperation) (args : list str) : M (Ctx S A) unit :=
  (user <-- session limited_user ;;; handle_article_operation o user args)%m.
Definition ArticleHandler : list str -> M (Ctx S A) unit := article_handler Full.
Definition HeadHandler : list str -> M (Ctx S A) unit := article_handler Headers.
Definition BodyHandler : list str -> M (Ctx S A) unit := article_handler Body.
Definition StatHandler : list str -> M (Ctx S A) unit := article_handler Stat.

Definition sanitize_header_value (val : str) : str :=
  List.filter (fun c => negb (c =? CR) && negb (c =? LF)) (replace_char TAB SP val).

Definition get_field_value (article : Message) (field : str) (s : S) : option str :=
  if starts_with (lit ":") field then metadata_value article field s
  else get_header_value article field.

Fixpoint collect_numbers (group field : str) (nums : list N) (acc : list (N * option str))
  : M (Ctx S A) (ArticleQueryError + list (N * option str)) :=
  match nums with
  | [] => mreturn (match acc with [] => inl NotFoundByNumber | _ => inr acc end)
  | n :: nums =>
      (r <-- storage_gets (get_article_by_number group n) ;;;
       match r with
       | Err _ => mreturn (inl NotFoundByNumber)
       | Ok (Some article) =>
           v <-- storage_gets (get_field_value article field) ;;;
           collect_numbers group field nums (acc ++ [(n, v)])
       | Ok None => collect_numbers group field nums acc
       end)%m
  end.

Definition collect_header_values (field : str) (range_or_msgid : option str)
  : M (Ctx S A) (ArticleQueryError + list (N * option str)) :=
  (sess <-- session id ;;;
   match range_or_msgid with
   | Some arg =>
       if is_angle arg then
         r <-- storage_gets (get_article_by_id arg) ;;;
         match r with
         | Ok (Some article) =>
             v <-- storage_gets (get_field_value article field) ;;;
             mreturn (inr [(0, v)])
         | _ => mreturn (inl MessageIdNotFound)
         end
       else
         match current_group sess with
         | Some group =>
             r <-- range_numbers group arg ;;;
             match r with
             | Err _ => mreturn (inl RangeEmpty)
             | Ok [] => mreturn (inl RangeEmpty)
             | Ok nums => collect_numbers group field nums []
             end
         | None =>
             mreturn (inl (if forallb (fun c => is_ascii_digit c || (c =? ch "-")) arg
                           then NoGroup else InvalidId))
         end
   | None =>
       match current_group sess, current_article sess with
       | Some group, Some num =>
           r <-- storage_gets (get_article_by_number group num) ;;;
           match r with
           | Ok (Some article) =>
               v <-- storage_gets (get_field_value article field) ;;;
               mreturn (inr [(num, v)])
           | _ => mreturn (inl NoCurrentArticle)
           end
       | None, _ => mreturn (inl NoGroup)
       | Some _, None => mreturn (inl NoCurrentArticle)
       end
   end)%m.

Definition handle_all_headers (args : list str) : M (Ctx S A) unit :=
  (r <-- resolve_articles (args !! 1%nat) ;;;
   match r with
   | inl e => handle_article_error e
   | inr articles =>
       net (write_all RESP_225_HEADERS) ;;;
       mfor articles (fun na =>
         mfor (headers (snd na)) (fun kv =>
           net (write_all (show_N (fst na) ++ lit " " ++ fst kv ++ lit ": "
                             ++ sanitize_header_value (snd kv) ++ crlf)))) ;;;
       net (write_all RESP_DOT_CRLF)
   end)%m.

Definition HdrHandler (args : list str) : M (Ctx S A) unit :=
  match args with
  | [] => write RESP_501_NOT_ENOUGH
  | field :: _ =>
      if str_eqb field (lit ":") then handle_all_headers args
      else
        (r <-- collect_header_values field (args !! 1%nat) ;;;
         match r with
         | inr values => net (write_response_with_values RESP_225_HEADERS values)
         | inl e => handle_article_error e
         end)%m
  end.

Definition XPatHandler (args : list str) : M (Ctx S A) unit :=
  match args with
  | field :: range_or_msgid :: (_ :: _) as patterns =>
      let patterns := drop 2 args in
      (r <-- collect_header_values field (Some range_or_msgid) ;;;
       match r with
       | inl e => handle_article_error e
       | inr values =>
           write RESP_221_HEADER_FOLLOWS ;;;
           mfor values (fun nv =>
             match snd nv with
             | Some v =>
                 if existsb (fun pat => wildmat pat v) patterns
                 then net (write_all (show_N (fst nv) ++ lit " " ++ v ++ crlf))
                 else mreturn tt
             | None => mreturn tt
             end) ;;;
           net (write_all RESP_DOT_CRLF)
       end)%m
  | _ => write RESP_501_NOT_ENOUGH
  end.

Definition OverHandler (args : list str) : M (Ctx S A) unit :=
  (r <-- resolve_articles (head args) ;;;
   match r with
   | inl e => handle_article_error e
   | inr articles =>
       net (write_all RESP_224_OVERVIEW) ;;;
       mfor articles (fun na =>
         line <-- ask (fun s => generate_overview_line (fun i => get_message_size i s)
                                 (fst na) (snd na)) ;;;
         net (write_all (line ++ crlf))) ;;;
       net (write_all RESP_DOT_CRLF)
   end)%m.
End Handlers.
