(* ===== verification/GroupHandlers.v ===== *)
(** * GroupHandlers: GROUP, LIST, LISTGROUP, NEXT, LAST, NEWGROUPS, NEWNEWS
    ([handlers/group.rs]) *)

From stdpp Require Import base numbers list gmap strings.
From Stdlib Require Import NArith ZArith Lia Sorted.
From S2P Require Import Prelude Text Externals Message Wildmat Config Limits Auth SqliteAuth Tracker Storage SqliteStorage Responses Session Wire Control Milter Filters Queue Context.
Local Open Scope N_scope.

Inductive NavigationDirection : Type := Next | Previous.
Definition error_response (d : NavigationDirection) : str :=
  match d with Next => RESP_421_NO_NEXT | Previous => RESP_422_NO_PREV end.

(** [iter().position(|&n| n == x)]. *)
Fixpoint position (x : N) (l : list N) : option nat :=
  match l with
  | [] => None
  | y :: l => if y =? x then Some O
              else match position x l with Some i => Some (S i) | None => None end
  end.

Section Handlers.
Context {X : Ext} {Net : MilterNet} {S A : Type} `{Storage S} `{AuthProvider A}.

Definition GroupHandler (args : list str) : M (Ctx S A) unit :=
  match args with
  | group_name :: _ =>
      (known <-- ask (group_exists group_name) ;;;
       if negb known then write RESP_411_NO_SUCH_GROUP
       else
         nums <-- ask (fun s => try_collect (list_article_numbers group_name s)) ;;;
         (let count := N.of_nat (length nums) in
          let high := default 0 (last nums) in
          let low := default 0 (head nums) in
          update_session (select_group group_name (head nums)) ;;;
          write (lit "211 " ++ show_N count ++ lit " " ++ show_N low ++ lit " " ++ show_N high
                   ++ lit " " ++ group_name ++ crlf)))%m
  | [] => write RESP_501_NOT_ENOUGH
  end.

(** Lowest and highest number of a group, read in one pass. *)
Definition low_high (nums : list N) : N * N := (default 0 (head nums), default 0 (last nums)).

Definition list_active_group (pattern : option str) (group : str) : M (Ctx S A) unit :=
  if match pattern with Some pat => negb (wildmat group pat) | None => false end
  then mreturn tt
  else
    (nums <-- ask (fun s => try_collect (list_article_numbers group s)) ;;;
     let '(low, high) := low_high nums in
     net (write_all group) ;;; net (write_all (lit " ")) ;;; net (write_all (show_N high)) ;;;
     net (write_all (lit " ")) ;;; net (write_all (show_N low)) ;;;
     net (write_all (lit " y" ++ crlf)))%m.

Definition handle_list_active (pattern : option str) : M (Ctx S A) unit :=
  (write RESP_215_LIST_FOLLOWS ;;;
   groups <-- storage_gets list_groups ;;;
   mfor_stream groups (list_active_group pattern) ;;;
   net (write_all RESP_DOT_CRLF))%m.

Definition handle_list_newsgroups : M (Ctx S A) unit :=
  (write RESP_215_DESCRIPTIONS ;;;
   groups <-- storage_gets list_groups_with_descriptions ;;;
   mfor_stream groups (fun gd => net (write_all (fst gd ++ lit " " ++ snd gd ++ crlf))) ;;;
   net (write_all RESP_DOT_CRLF))%m.

Definition handle_list_active_times : M (Ctx S A) unit :=
  (write RESP_215_INFO_FOLLOWS ;;;
   groups <-- storage_gets list_groups_with_times ;;;
   mfor_stream groups (fun gt =>
     net (write_all (fst gt ++ lit " " ++ show_Z (snd gt) ++ lit " -" ++ crlf))) ;;;
   net (write_all RESP_DOT_CRLF))%m.

Definition handle_list_overview_fmt : M (Ctx S A) unit :=
  (net (write_all RESP_215_OVERVIEW_FMT) ;;;
   mfor get_overview_format_lines (fun l => net (write_all l)) ;;;
   net (write_all RESP_DOT_CRLF))%m.

Definition handle_list_headers : M (Ctx S A) unit :=
  net (write_lines [RESP_215_METADATA; RESP_COLON; RESP_LINES; RESP_BYTES; RESP_DOT_CRLF]).

Definition ListHandler (args : list str) : M (Ctx S A) unit :=
  match args with
  | keyword :: _ =>
      if str_eqb keyword (lit "ACTIVE") then handle_list_active (args !! 1%nat)
      else if str_eqb keyword (lit "NEWSGROUPS") then handle_list_newsgroups
      else if str_eqb keyword (lit "ACTIVE.TIMES") then handle_list_active_times
      else if str_eqb keyword (lit "OVERVIEW.FMT") then handle_list_overview_fmt
      else if str_eqb keyword (lit "HEADERS") then handle_list_headers
      else if str_eqb keyword (lit "DISTRIB.PATS") then write RESP_503_NOT_SUPPORTED
      else write RESP_501_UNKNOWN_KEYWORD
  | [] => handle_list_active None
  end.

Definition ListGroupHandler (args : list str) : M (Ctx S A) unit :=
  (sess <-- session id ;;;
   match match args with name :: _ => Some name | [] => current_group sess end with
   | None => write RESP_412_NO_GROUP
   | Some group_name =>
       write RESP_211_LISTGROUP ;;;
       nums <-- storage_gets (list_article_numbers group_name) ;;;
       mfor_stream nums (fun n => net (write_all (show_N n)) ;;; net (write_all crlf)) ;;;
       net (write_all RESP_DOT_CRLF)
   end)%m.

Definition navigate_article (d : NavigationDirection) : M (Ctx S A) unit :=
  (sess <-- session id ;;;
   match current_group sess, current_article sess with
   | Some group, Some current =>
       nums <-- ask (fun s => try_collect (list_article_numbers group s)) ;;;
       match position current nums with
       | None => write (error_response d)
       | Some pos =>
           let new_pos := match d with Next => (pos + 1)%nat | Previous => (pos - 1)%nat end in
           match nums !! new_pos with
           | Some new_num =>
               r <-- ask (get_article_by_number group new_num) ;;;
               match r with
               | Some article =>
                   update_session (set_current_article new_num) ;;;
                   write (lit "223 " ++ show_N new_num ++ lit " "
                            ++ default [] (extract_message_id article)
                            ++ lit " article exists" ++ crlf)
               | None => write (error_response d)
               end
           | None => write (error_response d)
           end
       end
   | _, _ => write RESP_412_NO_GROUP
   end)%m.

Definition NextHandler (args : list str) : M (Ctx S A) unit := navigate_article Next.
Definition LastHandler (args : list str) : M (Ctx S A) unit := navigate_article Previous.

(** The date arguments of NEWGROUPS and NEWNEWS: the instant, or the response. *)
Definition parse_since (date time : str) (zone : option str) : str + Z :=
  match zone with
  | Some arg =>
      if negb (eq_ignore_ascii_case arg (lit "GMT")) then inl RESP_501_INVALID_ARG
      else match parse_datetime date time true with
           | Ok t => inr t
           | Err _ => inl RESP_501_INVALID_DATE
           end
  | None => match parse_datetime date time false with
            | Ok t => inr t
            | Err _ => inl RESP_501_INVALID_DATE
            end
  end.

Definition NewGroupsHandler (args : list str) : M (Ctx S A) unit :=
  match args with
  | date :: time :: _ =>
      match parse_since date time (args !! 2%nat) with
      | inl response => write response
      | inr since =>
          (write RESP_231_NEWGROUPS ;;;
           groups <-- storage_gets (list_groups_since since) ;;;
           mfor_stream groups (fun g => net (write_all g) ;;; net (write_all crlf)) ;;;
           net (write_all RESP_DOT_CRLF))%m
      end
  | _ => write RESP_501_NOT_ENOUGH
  end.

(** The group name is the pattern and the pattern the text. *)
Definition newnews_group (pattern : str) (since : Z) (group : str) : M (Ctx S A) unit :=
  if wildmat group pattern then
    (ids <-- storage_gets (list_article_ids_since group since) ;;;
     mfor_stream ids (fun i => net (write_all i) ;;; net (write_all crlf)))%m
  else mreturn tt.

Definition NewNewsHandler (args : list str) : M (Ctx S A) unit :=
  match args with
  | pattern :: date :: time :: _ =>
      match parse_since date time (args !! 3%nat) with
      | inl response => write response
      | inr since =>
          (write RESP_230_NEWNEWS ;;;
           groups <-- storage_gets list_groups ;;;
           mfor_stream groups (newnews_group pattern since) ;;;
           net (write_all RESP_DOT_CRLF))%m
      end
  | _ => write RESP_501_NOT_ENOUGH
  end.
End Handlers.
