(* ===== verification/PostHandlers.v ===== *)
(** * PostHandlers: POST, IHAVE, CHECK, TAKETHIS
    ([handlers/post.rs], [handlers/streaming.rs]) *)

From stdpp Require Import base numbers list gmap strings.
From Stdlib Require Import NArith ZArith Lia.
From S2P Require Import Prelude Text Externals Message Config Limits Auth SqliteAuth Tracker Storage SqliteStorage Responses Session Wire Control Milter Filters Queue Context.
Local Open Scope N_scope.

Section Handlers.
Context {X : Ext} {Net : MilterNet} {S A : Type} `{Storage S} `{AuthProvider A}.

(** The headers every received article is given. *)
Definition complete_article (t : Z) (c : Config) (a : Message) : Message :=
  escape_message_id_header (ensure_date t (ensure_message_id a (cfg_site_name c))).

Definition config : M (Ctx S A) Config := mgets cx_config.

Definition complete (a : Message) : M (Ctx S A) Message :=
  (c <-- config ;;; t <-- now ;;; mreturn (complete_article t c a))%m.

Definition validate (a : Message) (size : N) : M (Ctx S A) (result unit) :=
  (c <-- config ;;; mcatch (stores (comprehensive_validate_article c a size)))%m.

Definition store (a : Message) : M (Ctx S A) (result unit) :=
  (t <-- now ;;; mcatch (stores (on_storage (store_article t a))))%m.

Definition control (a : Message) : M (Ctx S A) bool :=
  (c <-- config ;;; t <-- now ;;; stores (handle_control t a c))%m.

(** POST, once the client may post: read, validate, queue. *)
Definition receive_post : M (Ctx S A) unit :=
  (write RESP_340_SEND_ARTICLE ;;;
   msg <-- net read_message ;;;
   match parse_message msg with
   | None => write RESP_441_POSTING_FAILED
   | Some message =>
       let is_control := is_control_message message in
       message <-- complete message ;;;
       let size := utf8_len msg in
       rejected <-- check_bandwidth_rejected size ;;;
       if rejected then mreturn tt
       else
         valid <-- validate message size ;;;
         match valid with
         | Err _ => write RESP_441_POSTING_FAILED
         | Ok tt =>
             submit_article (mkQueuedArticle message size is_control true) ;;;
             record_bandwidth_usage size true ;;;
             write RESP_240_ARTICLE_RECEIVED
         end
   end)%m.

Definition PostHandler (args : list str) : M (Ctx S A) unit :=
  (sess <-- session id ;;;
   if negb (session_can_post sess) then
     if negb (is_tls sess) then write RESP_483_SECURE_REQ
     else write (to_response (NAuth Required))
   else
     disabled <-- match limited_user sess with
                  | Some u =>
                      r <-- with_tracker (fun auth tr =>
                              let '(r, tr) := tracker_can_post u auth tr in (Ret r, tr)) ;;;
                      mreturn (bool_decide (r = PostingDisabled))
                  | None => mreturn false
                  end ;;;
     if disabled then write RESP_440_POST_PROHIBITED else receive_post)%m.

(** IHAVE and TAKETHIS, once the article is parsed: [accepted] and [refused]
    are their responses. *)
Definition transfer (accepted refused : str) (msg : str) (article : Message) : M (Ctx S A) unit :=
  (let is_control := is_control_message article in
   article <-- complete article ;;;
   if is_control then
     handled <-- control article ;;;
     write (if handled then accepted else refused)
   else
     let size := utf8_len msg in
     rejected <-- check_bandwidth_rejected size ;;;
     if rejected then mreturn tt
     else
       valid <-- validate article size ;;;
       match valid with
       | Err _ => write refused
       | Ok tt =>
           stored <-- store article ;;;
           match stored with
           | Err _ => write refused
           | Ok tt =>
               submit_article (mkQueuedArticle article size false true) ;;;
               record_bandwidth_usage size true ;;;
               write accepted
           end
       end)%m.

Definition IHaveHandler (args : list str) : M (Ctx S A) unit :=
  match args with
  | [] => write RESP_501_MSGID_REQUIRED
  | id :: _ =>
      (known <-- ask (get_article_by_id id) ;;;
       match known with
       | Some _ => write RESP_435_NOT_WANTED
       | None =>
           write RESP_335_SEND_IT ;;;
           msg <-- net read_message ;;;
           match parse_message msg with
           | None => write RESP_437_REJECTED
           | Some article => transfer RESP_235_TRANSFER_OK RESP_437_REJECTED msg article
           end
       end)%m
  end.

Definition CheckHandler (args : list str) : M (Ctx S A) unit :=
  match args with
  | [] => write RESP_501_MSGID_REQUIRED
  | id :: _ =>
      (known <-- ask (get_article_by_id id) ;;;
       write (streaming_response (match known with Some _ => 438 | None => 238 end) id))%m
  end.

Definition TakeThisHandler (args : list str) : M (Ctx S A) unit :=
  match args with
  | [] => write RESP_501_MSGID_REQUIRED
  | id :: _ =>
      (msg <-- net read_message ;;;
       match parse_message msg with
       | None => write (streaming_response 439 id)
       | Some article =>
           known <-- ask (get_article_by_id id) ;;;
           match known with
           | Some _ => write (streaming_response 439 id)
           | None => transfer (streaming_response 239 id) (streaming_response 439 id) msg article
           end
       end)%m
  end.
End Handlers.
