(* ===== verification/Server.v ===== *)
(** * Server: AUTHINFO, MODE, the information commands, dispatch and the
    connection loop ([handlers/auth.rs], [handlers/info.rs], [handlers/mod.rs], [lib.rs]) *)

From stdpp Require Import base numbers list gmap strings.
From Stdlib Require Import NArith ZArith Lia.
From S2P Require Import Prelude Text Externals Message Config Limits Auth SqliteAuth Tracker Storage SqliteStorage Responses Session Wire Control Milter Filters Queue Context ArticleHandlers GroupHandlers PostHandlers.
Local Open Scope N_scope.

Section Server.
Context {X : Ext} {Net : MilterNet} {S A : Type} `{Storage S} `{AuthProvider A}.

(** ** AUTHINFO and MODE *)

(** The branch of AUTHINFO PASS for a user whose password is right. *)
Definition login (username : str) : M (Ctx S A) unit :=
  (admin <-- mcatch (stores (ask_auth (is_admin username))) ;;;
   let admin := match admin with Ok b => b | Err _ => false end in
   refused <-- (if admin then mreturn false
                else
                  r <-- with_tracker (fun auth tr =>
                          let '(r, tr) := try_connect username auth tr in (Ret r, tr)) ;;;
                  if decide (r = ConnectionLimitExceeded) then mreturn true
                  else
                    t <-- now ;;;
                    with_tracker (fun auth tr => (Ret tt, load_user t username auth tr)) ;;;
                    mreturn false) ;;;
   if refused then write RESP_481_CONN_LIMIT
   else
     update_session (authenticate_with_admin username admin) ;;;
     write RESP_281_AUTH_OK)%m.

Definition AuthInfoHandler (args : list str) : M (Ctx S A) unit :=
  (sess <-- session id ;;;
   if negb (can_authenticate sess) then write RESP_483_SECURE_REQ
   else match args with
   | [] => write RESP_501_NOT_ENOUGH
   | keyword :: rest =>
       let keyword := to_ascii_uppercase keyword in
       if str_eqb keyword (lit "USER") then
         match rest with
         | [] => write RESP_501_NOT_ENOUGH
         | u :: _ => update_session (set_pending_username u) ;;; write RESP_381_PASSWORD_REQ
         end
       else if str_eqb keyword (lit "PASS") then
         match rest with
         | [] => write RESP_501_NOT_ENOUGH
         | password :: _ =>
             match pending_username sess with
             | Some username =>
                 ok <-- stores (ask_auth (verify_user username password)) ;;;
                 if ok then login username else write RESP_481_AUTH_REJECTED
             | None => write RESP_481_AUTH_REJECTED
             end
         end
       else write RESP_501_SYNTAX
   end)%m.

Definition ModeHandler (args : list str) : M (Ctx S A) unit :=
  match args with
  | [] => write RESP_501_MISSING_MODE
  | mode :: _ =>
      let mode := to_ascii_uppercase mode in
      if str_eqb mode (lit "READER") then
        (can <-- session session_can_post ;;;
         write (if can then RESP_200_POSTING_ALLOWED else RESP_201_POSTING_PROHIBITED))%m
      else if str_eqb mode (lit "STREAM") then write RESP_203_STREAMING
      else write RESP_501_UNKNOWN_MODE
  end.

(** ** Information *)
Definition DateHandler (args : list str) : M (Ctx S A) unit :=
  (t <-- now ;;; write (lit "111 " ++ format_utc t (lit "%Y%m%d%H%M%S") ++ crlf))%m.

Definition HelpHandler (args : list str) : M (Ctx S A) unit :=
  (net (write_all RESP_100_HELP_FOLLOWS) ;;; net (write_all RESP_HELP_TEXT) ;;;
   net (write_all RESP_DOT_CRLF))%m.

Definition capabilities (s : Session) : list str :=
  [RESP_101_CAPABILITIES; RESP_CAP_VERSION; RESP_CAP_IMPLEMENTATION; RESP_CAP_READER]
  ++ (if session_can_post s then [RESP_CAP_POST] else [])
  ++ (if can_authenticate s && negb (is_authenticated s) then [RESP_CAP_AUTHINFO] else [])
  ++ [RESP_CAP_NEWNEWS; RESP_CAP_IHAVE; RESP_CAP_STREAMING; RESP_CAP_OVER; RESP_CAP_HDR;
      RESP_CAP_LIST; RESP_DOT_CRLF].

Definition CapabilitiesHandler (args : list str) : M (Ctx S A) unit :=
  (sess <-- session id ;;; mfor (capabilities sess) (fun l => net (write_all l)))%m.

Definition QuitHandler (args : list str) : M (Ctx S A) unit :=
  (write RESP_205_CLOSING ;;; mfail (lit "Connection closed by QUIT command"))%m.

(** ** Dispatch *)
Definition handlers : list (str * (list str -> M (Ctx S A) unit)) :=
  [(lit "ARTICLE", ArticleHandler); (lit "HEAD", HeadHandler); (lit "BODY", BodyHandler);
   (lit "STAT", StatHandler); (lit "GROUP", GroupHandler); (lit "LIST", ListHandler);
   (lit "LISTGROUP", ListGroupHandler); (lit "NEXT", NextHandler); (lit "LAST", LastHandler);
   (lit "NEWGROUPS", NewGroupsHandler); (lit "NEWNEWS", NewNewsHandler); (lit "HDR", HdrHandler);
   (lit "XPAT", XPatHandler); (lit "OVER", OverHandler); (lit "XOVER", OverHandler);
   (lit "POST", PostHandler); (lit "IHAVE", IHaveHandler); (lit "CHECK", CheckHandler);
   (lit "TAKETHIS", TakeThisHandler); (lit "AUTHINFO", AuthInfoHandler); (lit "MODE", ModeHandler);
   (lit "CAPABILITIES", CapabilitiesHandler); (lit "DATE", DateHandler); (lit "HELP", HelpHandler);
   (lit "QUIT", QuitHandler)].

Definition dispatch_command (cmd : Command) : M (Ctx S A) unit :=
  match find_first (fun nh => str_eqb (to_ascii_uppercase (cmd_name cmd)) (fst nh)) handlers with
  | Some (_, handler) => handler (cmd_args cmd)
  | None => net (write_all RESP_500_UNKNOWN_CMD)
  end.

(** ** The connection loop ([handle_client]) *)

(** A line with the idle timeout: a silent client ends the loop. *)
Definition read_command_line : M (Ctx S A) (option str) := fun c =>
  match conn_read_line (cx_conn c) with
  | (Ret l, conn) => (Ret (Some l), set_conn conn c)
  | (Fail e, conn) => (Fail e, set_conn conn c)
  | (Panic, conn) => (Panic, set_conn conn c)
  | (Stuck, conn) => (Ret None, set_conn conn c)
  end.

Definition trim_eol (l : str) : str := trim_end_matches (fun ch => (ch =? CR) || (ch =? LF)) l.

(** One turn: whether the loop goes on. *)
Definition client_turn : M (Ctx S A) bool :=
  (read <-- read_command_line ;;;
   match read with
   | None => mreturn false
   | Some [] => mreturn false
   | Some line =>
       match parse_command (trim_eol line) with
       | None => net (write_all RESP_500_SYNTAX) ;;; mreturn true
       | Some (_, cmd) =>
           if str_eqb (cmd_name cmd) (lit "QUIT")
           then net (write_all RESP_205_CLOSING) ;;; mreturn false
           else _ <-- mcatch (dispatch_command cmd) ;;; mreturn true
       end
   end)%m.

Fixpoint client_loop (fuel : nat) : M (Ctx S A) unit :=
  match fuel with
  | O => mout Stuck
  | Datatypes.S fuel =>
      (go_on <-- client_turn ;;; if go_on then client_loop fuel else mreturn tt)%m
  end.

(** After the loop the connection of a limited user is given back. *)
Definition client_done : M (Ctx S A) unit :=
  (user <-- session limited_user ;;;
   match user with
   | Some u => with_tracker (fun _ tr => (Ret tt, disconnect u tr))
   | None => mreturn tt
   end)%m.

Definition greeting : M (Ctx S A) unit :=
  (can <-- session session_can_post ;;;
   net (write_all (if can then RESP_200_READY else RESP_201_READY_NO_POST)))%m.

(** Every turn that goes on has read a line, so the length of the input is fuel enough. *)
Definition handle_client : M (Ctx S A) unit :=
  (greeting ;;;
   n <-- mgets (fun c => length (c_in (cx_conn c))) ;;;
   client_loop (Datatypes.S n) ;;;
   client_done)%m.

(** The context a new connection starts with. *)
Definition new_client (conn : Conn) (tls : bool) (st : Stores S A) (tr : UsageTracker) (c : Config)
    (q : ArticleQueue) (clock : nat -> Z) : Ctx S A :=
  mkCtx conn (new_session tls (cfg_allow_auth_insecure_connections c) (cfg_allow_anonymous_posting c))
    st tr c q clock 0.
End Server.
