(* ===== verification/Served.v ===== *)
(** * Served: what holds of every command and of whole connections

    Each handler moves its context along the relation [served] of [Context.v];
    the theorems about whole connections follow by induction on the loop. *)

From stdpp Require Import base numbers list gmap strings relations.
From Stdlib Require Import NArith ZArith Lia.
From S2P Require Import Prelude Text Externals Message Config Limits Auth SqliteAuth Tracker Storage SqliteStorage Responses Session Wire Control Milter Filters Queue Context ArticleHandlers GroupHandlers PostHandlers Server.
Local Open Scope N_scope.

Section Commands.
Context {X : Ext} {Net : MilterNet} {S A : Type} `{Storage S} `{!StorageLaws S} `{AuthProvider A}.

(** ** The parts *)
Lemma mfor_write_served {B} (l : list B) (f : B -> M Conn unit) :
  (forall b, moves conn_served (f b)) -> moves conn_served (mfor l f).
Proof. intros Hf. apply moves_for; [apply _|exact Hf]. Qed.

Lemma send_headers_served a : moves conn_served (send_headers a).
Proof. unfold send_headers. steady. Qed.
Lemma send_body_served b : moves conn_served (send_body b).
Proof. unfold send_body. steady. Qed.
Lemma write_values_served r vs : moves conn_served (write_response_with_values r vs).
Proof. unfold write_response_with_values. steady. Qed.
Lemma write_lines_served ls : moves conn_served (write_lines ls).
Proof. unfold write_lines. steady. Qed.
Hint Resolve send_headers_served send_body_served write_values_served write_lines_served : steady.

Lemma resolve_numbers_steady g nums acc :
  moves steady (resolve_numbers (S:=S) (A:=A) g nums acc).
Proof.
  revert acc. induction nums as [|n nums IH]; intros acc; cbn [resolve_numbers]; steady.
  apply update_session_steady, set_current_article_steady.
Qed.
Hint Resolve resolve_numbers_steady : steady.

Lemma resolve_articles_steady arg : moves steady (resolve_articles (S:=S) (A:=A) arg).
Proof. unfold resolve_articles. steady. Qed.
Hint Resolve resolve_articles_steady : steady.

Lemma bandwidth_check_steady u n : moves steady (bandwidth_check (S:=S) (A:=A) u n).
Proof. unfold bandwidth_check. steady. apply with_tracker_steady, check_bandwidth_method. Qed.
Lemma bandwidth_record_steady u n b : moves steady (bandwidth_record (S:=S) (A:=A) u n b).
Proof. unfold bandwidth_record. steady. apply with_tracker_steady. exact (record_bandwidth_method _ _ _ _). Qed.
Hint Resolve bandwidth_check_steady bandwidth_record_steady : steady.

Lemma send_content_steady o a : moves steady (send_content (S:=S) (A:=A) o a).
Proof. unfold send_content. steady. Qed.
Hint Resolve send_content_steady : steady.

Lemma send_articles_steady o u l : moves steady (send_articles (S:=S) (A:=A) o u l).
Proof. induction l as [|[n a] l IH]; cbn [send_articles]; steady. Qed.
Hint Resolve send_articles_steady : steady.

Lemma handle_operation_steady o u args :
  moves steady (handle_article_operation (S:=S) (A:=A) o u args).
Proof. unfold handle_article_operation, handle_article_error. steady. Qed.
Hint Resolve handle_operation_steady : steady.

Lemma rejected_steady n : moves steady (check_bandwidth_rejected (S:=S) (A:=A) n).
Proof. unfold check_bandwidth_rejected. steady. Qed.
Lemma record_usage_steady n b : moves steady (record_bandwidth_usage (S:=S) (A:=A) n b).
Proof. unfold record_bandwidth_usage. steady. Qed.
Hint Resolve rejected_steady record_usage_steady : steady.

(** ** The stores *)
Lemma only_keys_served {B} (m : M (Stores S A) B) : moves only_keys m -> moves stores_served m.
Proof. intros Hm t o t' E. destruct (Hm _ _ _ E) as [Hs Hk]. unfold stores_served. rewrite Hs. by split. Qed.

Lemma on_storage_served {B} (m : M S B) : keeps st_wf m -> moves stores_served (on_storage (A:=A) m).
Proof.
  intros Hm t o t'. unfold on_storage, mzoom. destruct (m (sto_storage t)) as [o1 s] eqn:E.
  intros E1. injection E1 as _ <-. split; [|done]. intros Hwf. by eapply Hm.
Qed.

Lemma validate_served c a n :
  moves stores_served (comprehensive_validate_article (S:=S) (A:=A) c a n).
Proof.
  apply only_keys_served, comprehensive_moves.
Qed.

Lemma handle_control_served t a c : moves stores_served (handle_control (S:=S) (A:=A) t a c).
Proof.
  assert (Hdel : forall i, moves stores_served (on_storage (A:=A) (delete_article_by_id (S:=S) i)))
    by (intros i; apply on_storage_served, delete_keeps_wf).
  assert (Hsigned : forall cmd, moves stores_served (handle_signed (S:=S) (A:=A) t a c cmd)).
  { intros cmd. unfold handle_signed. apply moves_bind; [apply _|apply moves_lift, _|intros h].
    apply moves_bind; [apply _|apply only_keys_served, ask_auth_moves|intros adm].
    apply moves_bind; [apply _|destruct adm; [apply moves_ret, _|apply moves_fail, _]|intros _].
    apply moves_bind; [apply _|apply moves_lift, _|intros [[v s] d]].
    apply moves_bind; [apply _|apply only_keys_served, verify_pgp_moves|intros _].
    apply moves_bind; [apply _| |intros _; apply moves_ret, _].
    destruct cmd; simpl; [apply Hdel|apply on_storage_served, add_group_keeps_wf|].
    apply on_storage_served, remove_group_keeps_wf. }
  unfold handle_control. destruct (get_header_value a (lit "Control")); [|apply moves_ret, _].
  apply moves_bind; [apply _|apply moves_lift, _|intros cmd].
  destruct cmd as [i| |]; [|apply Hsigned..].
  destruct (get_header_value a (lit "Cancel-Key")); [|apply Hsigned]. unfold handle_cancel_key.
  apply moves_bind; [apply _|apply only_keys_served, ask_storage_moves|intros [orig|]];
    [|apply moves_ret, _].
  destruct (get_header_value orig (lit "Cancel-Lock")); [|apply moves_ret, _].
  destruct (verify_cancel _ _); [|apply moves_ret, _].
  apply moves_bind; [apply _|apply Hdel|intros _; apply moves_ret, _].
Qed.

Lemma config_steady : moves steady (config (S:=S) (A:=A)).
Proof. apply gets_steady. Qed.
Hint Resolve config_steady : steady.

Lemma complete_steady a : moves steady (complete (S:=S) (A:=A) a).
Proof. unfold complete. steady. Qed.

Lemma validate_cmd_steady a n : moves steady (validate (S:=S) (A:=A) a n).
Proof. unfold validate. steady. apply stores_steady, validate_served. Qed.

Lemma store_cmd_steady a : moves steady (store (S:=S) (A:=A) a).
Proof. unfold store. steady. apply stores_steady, on_storage_served, store_keeps_wf. Qed.

Lemma control_cmd_steady a : moves steady (control (S:=S) (A:=A) a).
Proof. unfold control. steady. apply stores_steady, handle_control_served. Qed.

Lemma read_steady : moves steady (net (S:=S) (A:=A) read_message).
Proof. apply net_steady, read_message_served. Qed.
Hint Resolve complete_steady validate_cmd_steady store_cmd_steady control_cmd_steady read_steady : steady.

(** ** The handlers *)
Lemma article_handler_steady o args : moves steady (article_handler (S:=S) (A:=A) o args).
Proof. unfold article_handler. steady. Qed.

Lemma collect_numbers_steady g f nums acc :
  moves steady (collect_numbers (S:=S) (A:=A) g f nums acc).
Proof. revert acc. induction nums as [|n nums IH]; intros acc; cbn [collect_numbers]; steady. Qed.
Hint Resolve collect_numbers_steady : steady.

Lemma collect_steady f r : moves steady (collect_header_values (S:=S) (A:=A) f r).
Proof. unfold collect_header_values. steady. Qed.
Hint Resolve collect_steady : steady.

Lemma hdr_steady args : moves steady (HdrHandler (S:=S) (A:=A) args).
Proof. unfold HdrHandler, handle_all_headers, handle_article_error. steady. Qed.

Lemma xpat_steady args : moves steady (XPatHandler (S:=S) (A:=A) args).
Proof. unfold XPatHandler, handle_article_error. steady. Qed.

Lemma over_steady args : moves steady (OverHandler (S:=S) (A:=A) args).
Proof. unfold OverHandler, handle_article_error. steady. Qed.

Lemma mfor_stream_steady {B} (l : list (result B)) (f : B -> M (Ctx S A) unit) :
  (forall b, moves steady (f b)) -> moves steady (mfor_stream l f).
Proof.
  intros Hf. induction l as [|[b|e] l IH]; cbn [mfor_stream]; steady.
Qed.

Lemma group_steady args : moves steady (GroupHandler (S:=S) (A:=A) args).
Proof.
  unfold GroupHandler. steady. apply update_session_steady. intros s. by split.
Qed.

Lemma list_active_steady p : moves steady (handle_list_active (S:=S) (A:=A) p).
Proof.
  unfold handle_list_active. steady. apply mfor_stream_steady. intros g.
  unfold list_active_group, low_high. steady.
Qed.
Hint Resolve list_active_steady : steady.

Lemma list_steady args : moves steady (ListHandler (S:=S) (A:=A) args).
Proof.
  unfold ListHandler, handle_list_newsgroups, handle_list_active_times, handle_list_overview_fmt,
    handle_list_headers.
  steady; apply mfor_stream_steady; intros x; steady.
Qed.

Lemma listgroup_steady args : moves steady (ListGroupHandler (S:=S) (A:=A) args).
Proof. unfold ListGroupHandler. steady; apply mfor_stream_steady; intros x; steady. Qed.

Lemma navigate_steady d : moves steady (navigate_article (S:=S) (A:=A) d).
Proof.
  unfold navigate_article. steady; apply update_session_steady, set_current_article_steady.
Qed.

Lemma newgroups_steady args : moves steady (NewGroupsHandler (S:=S) (A:=A) args).
Proof. unfold NewGroupsHandler. steady; apply mfor_stream_steady; intros x; steady. Qed.

Lemma newnews_steady args : moves steady (NewNewsHandler (S:=S) (A:=A) args).
Proof.
  unfold NewNewsHandler. steady; apply mfor_stream_steady; intros g. unfold newnews_group.
  steady; apply mfor_stream_steady; intros x; steady.
Qed.

Lemma receive_post_steady : moves steady (receive_post (S:=S) (A:=A)).
Proof. unfold receive_post. steady. Qed.
Hint Resolve receive_post_steady : steady.

Lemma post_steady args : moves steady (PostHandler (S:=S) (A:=A) args).
Proof. unfold PostHandler. steady. apply answer_steady, can_post_method. Qed.

Lemma transfer_steady acc ref msg a : moves steady (transfer (S:=S) (A:=A) acc ref msg a).
Proof. unfold transfer. steady. Qed.
Hint Resolve transfer_steady : steady.

Lemma ihave_steady args : moves steady (IHaveHandler (S:=S) (A:=A) args).
Proof. unfold IHaveHandler. steady. Qed.
Lemma check_steady args : moves steady (CheckHandler (S:=S) (A:=A) args).
Proof. unfold CheckHandler. steady. Qed.
Lemma takethis_steady args : moves steady (TakeThisHandler (S:=S) (A:=A) args).
Proof. unfold TakeThisHandler. steady. Qed.

(** ** Logging in *)

(** How a login ends: an administrator takes no slot; another user has one, or is refused. *)
Inductive logged_in (u : str) (c : Ctx S A) : Ctx S A -> Prop :=
| login_admin c' :
    is_admin u (sto_auth (cx_stores c)) = Ok true ->
    steady (set_session (authenticate_with_admin u true (cx_session c)) c) c' -> logged_in u c c'
| login_refused tr c' :
    try_connect u (sto_auth (cx_stores c)) (cx_tracker c) = (ConnectionLimitExceeded, tr) ->
    steady (set_tracker tr c) c' -> logged_in u c c'
| login_allowed tr t c' :
    try_connect u (sto_auth (cx_stores c)) (cx_tracker c) = (Allowed, tr) ->
    steady (set_session (authenticate_with_admin u false (cx_session c))
              (set_tracker (load_user t u (sto_auth (cx_stores c)) tr) c)) c' -> logged_in u c c'.

Lemma try_connect_answer u auth t r t' : try_connect u auth t = (r, t') ->
  r = Allowed \/ r = ConnectionLimitExceeded.
Proof.
  unfold try_connect, connect_entry. destruct (get_effective_limits u auth t) as [l t1].
  destruct (ul_max_connections l) as [k|]; [destruct (_ <=? _)|]; intros [= <- _]; auto.
Qed.

Lemma login_cases u c o c' : login u c = (o, c') -> logged_in u c c'.
Proof.
  unfold login, mbind' at 1.
  set (admin := match is_admin u (sto_auth (cx_stores c)) with Ok b => b | Err _ => false end).
  assert (Hq : mcatch (stores (ask_auth (is_admin u))) c = (Ret (is_admin u (sto_auth (cx_stores c))), c)).
  { unfold mcatch, stores, mzoom, ask_auth. destruct (is_admin u _); by destruct c. }
  rewrite Hq. cbv zeta. fold admin. clear Hq. destruct admin eqn:Ha.
  - intros E. apply login_admin; [unfold admin in Ha; by destruct (is_admin u _); simplify_eq|].
    exact (write_steady _ _ _ _ E).
  - unfold mbind' at 1 2, with_tracker at 1.
    destruct (try_connect u _ _) as [r tr] eqn:Et. pose proof (try_connect_answer _ _ _ _ _ Et) as Hr.
    destruct Hr as [->| ->]; [rewrite decide_False by done|rewrite decide_True by done].
    + intros E. refine (login_allowed u c tr (cx_clock c (cx_tick c)) c' Et _).
      etrans; [|refine (write_steady _ _ _ _ E)]. split; [|done|by split].
      split; simpl; try done; [by exists []|exists []; by rewrite app_nil_r|apply queue_served_refl
        |apply tracker_served_refl|apply session_served_refl].
    + intros E. refine (login_refused u c tr c' Et _). exact (write_steady _ _ _ _ E).
Qed.

Lemma logged_in_served u p c c' :
  can_authenticate (cx_session c) = true ->
  verify_user u p (sto_auth (cx_stores c)) = Ok true ->
  logged_in u c c' -> served c c'.
Proof.
  intros Hcan Hver Hl.
  assert (Hex : exists v q a', rtc key_update (sto_auth (cx_stores c)) a' /\ verify_user v q a' = Ok true)
    by (by exists u, p, (sto_auth (cx_stores c))).
  destruct Hl as [c' Ha [Hs _ _]|tr c' Et [Hs _ _]|tr t c' Et [Hs _ _]]; (etrans; [|exact Hs]); clear Hs.
  - split; simpl; try done; [by exists []|exists []; by rewrite app_nil_r|apply queue_served_refl
      |apply tracker_served_refl|]. split; try done; [by right|]. intros _. right. by exists u, (sto_auth (cx_stores c)).
  - pose proof (try_connect_method u (sto_auth (cx_stores c)) (cx_tracker c)) as Hm. simpl in Hm. rewrite Et in Hm.
    apply served_same; [done..|apply queue_served_refl|exact Hm].
  - pose proof (try_connect_method u (sto_auth (cx_stores c)) (cx_tracker c)) as Hm. simpl in Hm. rewrite Et in Hm.
    split; simpl; try done; [by exists []|exists []; by rewrite app_nil_r|apply queue_served_refl
      | |by split; simpl; auto].
    eapply tracker_served_trans; [constructor|exact Hm|]. exact (load_user_method _ _ _ _).
Qed.

(** What AUTHINFO does: nothing to speak of, a new user name (only AUTHINFO USER), or a login. *)
Definition names_user (args : list str) : bool :=
  str_eqb (to_ascii_uppercase (default [] (head args))) (lit "USER").

Inductive authinfo_does (c : Ctx S A) : bool -> Ctx S A -> Prop :=
| authinfo_nothing b c' : steady c c' -> authinfo_does c b c'
| authinfo_user u c' :
    steady (set_session (set_pending_username u (cx_session c)) c) c' -> authinfo_does c true c'
| authinfo_pass b u p c' :
    can_authenticate (cx_session c) = true -> pending_username (cx_session c) = Some u ->
    verify_user u p (sto_auth (cx_stores c)) = Ok true -> logged_in u c c' -> authinfo_does c b c'.

Lemma authinfo_cases args c o c' : AuthInfoHandler args c = (o, c') ->
  authinfo_does c (names_user args) c'.
Proof.
  assert (Hn : forall b r, (write r : M (Ctx S A) unit) c = (o, c') -> authinfo_does c b c')
    by (intros b r E; constructor; exact (write_steady _ _ _ _ E)).
  unfold AuthInfoHandler, mbind' at 1, session, mgets. cbn [id].
  destruct (can_authenticate (cx_session c)) eqn:Hcan; cbn [negb]; [|apply Hn].
  destruct args as [|keyword rest]; [apply Hn|]. unfold names_user. cbn [head default from_option].
  destruct (str_eqb _ (lit "USER")).
  { destruct rest as [|u rest]; [apply Hn|]. intros E. apply (authinfo_user c u).
    exact (write_steady _ _ _ _ E). }
  destruct (str_eqb _ (lit "PASS")); [|apply Hn].
  destruct rest as [|p rest]; [apply Hn|].
  destruct (pending_username (cx_session c)) as [u|] eqn:Hu; [|apply Hn].
  unfold mbind' at 1.
  assert (Hq : stores (ask_auth (verify_user u p)) c
               = (outcome_of (verify_user u p (sto_auth (cx_stores c))), c))
    by (unfold stores, mzoom, ask_auth; by destruct c).
  rewrite Hq. destruct (verify_user u p (sto_auth (cx_stores c))) as [[]|] eqn:Ev; cbn [outcome_of].
  - intros E. apply login_cases in E. by apply (authinfo_pass c false u p).
  - apply Hn.
  - intros [= _ <-]. by constructor.
Qed.

Lemma mode_steady args : moves steady (ModeHandler (S:=S) (A:=A) args).
Proof. unfold ModeHandler. steady. Qed.
Lemma date_steady args : moves steady (DateHandler (S:=S) (A:=A) args).
Proof. unfold DateHandler. steady. Qed.
Lemma help_steady args : moves steady (HelpHandler (S:=S) (A:=A) args).
Proof. unfold HelpHandler. steady. Qed.
Lemma capabilities_steady args : moves steady (CapabilitiesHandler (S:=S) (A:=A) args).
Proof. unfold CapabilitiesHandler. steady. Qed.
Lemma quit_steady args : moves steady (QuitHandler (S:=S) (A:=A) args).
Proof. unfold QuitHandler. steady. Qed.

Definition is_authinfo (cmd : Command) : bool :=
  str_eqb (to_ascii_uppercase (cmd_name cmd)) (lit "AUTHINFO").

(** Every command but AUTHINFO is steady. *)
Lemma dispatch_cases cmd :
  if is_authinfo cmd then dispatch_command (S:=S) (A:=A) cmd = AuthInfoHandler (cmd_args cmd)
  else moves steady (dispatch_command (S:=S) (A:=A) cmd).
Proof.
  destruct (is_authinfo cmd) eqn:Ec.
  - unfold is_authinfo in Ec. apply str_eqb_eq in Ec. unfold dispatch_command. rewrite Ec. reflexivity.
  - unfold dispatch_command. destruct (find_first _ _) as [[n h]|] eqn:E; [|steady].
    apply find_first_Some in E as [Hin Hn]. simpl in Hn. unfold handlers in Hin.
    repeat (destruct Hin as [Hin|Hin]; [injection Hin as <- <-;
      first [exfalso; exact (eq_true_false_abs _ Hn Ec)
            |apply article_handler_steady|apply group_steady|apply list_steady|apply listgroup_steady
            |apply navigate_steady|apply newgroups_steady|apply newnews_steady|apply hdr_steady
            |apply xpat_steady|apply over_steady|apply post_steady|apply ihave_steady
            |apply check_steady|apply takethis_steady|apply mode_steady
            |apply capabilities_steady|apply date_steady|apply help_steady|apply quit_steady]|]).
    done.
Qed.

Lemma authinfo_does_served (c c' : Ctx S A) b : authinfo_does c b c' -> served c c'.
Proof.
  intros [b1 c1 Hs|u c1 Hs|b1 u p c1 Hc Hu Hv Hl].
  - exact (std_served _ _ Hs).
  - etrans; [|exact (std_served _ _ Hs)].
    refine (update_session_served (set_pending_username u) _ c (Ret tt) _ eq_refl).
    intros a s. by split; auto.
  - by eapply logged_in_served.
Qed.

Lemma dispatch_served cmd : moves served (dispatch_command (S:=S) (A:=A) cmd).
Proof.
  pose proof (dispatch_cases cmd) as Hc. destruct (is_authinfo cmd); [|by apply steady_moves].
  rewrite Hc. intros c o c' E. apply authinfo_cases in E. by eapply authinfo_does_served.
Qed.

End Commands.

(** ** The connection loop *)
Section Connections.
Context {X : Ext} {Net : MilterNet} {S A : Type} `{Storage S} `{!StorageLaws S} `{AuthProvider A}.

Lemma read_command_line_spec (c : Ctx S A) o c' : read_command_line c = (o, c') ->
  (exists k, c' = set_conn k c /\ conn_served (cx_conn c) k)
  /\ forall x l, o = Ret (Some (x :: l)) ->
       fst (conn_read_line (cx_conn c)) = Ret (x :: l)
       /\ (length (c_in (cx_conn c')) < length (c_in (cx_conn c)))%nat.
Proof.
  unfold read_command_line.
  pose proof (conn_read_line_served (cx_conn c)) as Hs.
  unfold conn_read_line, read_line_in in *.
  pose proof (take_line_split (c_in (cx_conn c))) as Hl.
  destruct (take_line (c_in (cx_conn c))) as [[l b] r]. cbn [fst snd] in Hl.
  set (k := mkConn r (c_end (cx_conn c)) (c_out (cx_conn c))) in *.
  assert (Hk : conn_served (cx_conn c) k).
  { destruct b, (c_end (cx_conn c)), (decode l); by eapply Hs. }
  intros E.
  assert (c' = set_conn k c) as ->.
  { destruct b, (c_end (cx_conn c)), (decode l); by injection E as _ <-. }
  split; [by exists k|]. intros x t ->. split.
  { destruct b, (c_end (cx_conn c)), (decode l) as [t'|]; try discriminate E;
      injection E as E; simpl; by rewrite E. }
  simpl. rewrite <- Hl, length_app.
  assert (l <> []); [|destruct l; simpl; [done|lia]].
  intros ->. cbn [decode] in E. destruct b, (c_end (cx_conn c)); by injection E.
Qed.

Lemma read_command_line_steady : moves steady (read_command_line (S:=S) (A:=A)).
Proof.
  intros c o c' E. apply read_command_line_spec in E as [(k & -> & Hk) _]. by apply set_conn_served.
Qed.

(** The command the next line holds. *)
Definition next_command (k : Conn) : option Command :=
  match fst (conn_read_line k) with
  | Ret (x :: l) => match parse_command (trim_eol (x :: l)) with Some (_, cmd) => Some cmd | None => None end
  | _ => None
  end.

(** The connection once its next line is read. *)
Definition after_line (k : Conn) : Conn := snd (conn_read_line k).

Lemma after_line_out k : c_out (after_line k) = c_out k.
Proof. unfold after_line, conn_read_line. by destruct (read_line_in _ _) as [[] rest]. Qed.

Lemma read_command_line_after (c : Ctx S A) x l : fst (conn_read_line (cx_conn c)) = Ret (x :: l) ->
  read_command_line c = (Ret (Some (x :: l)), set_conn (after_line (cx_conn c)) c).
Proof.
  unfold read_command_line, after_line. destruct (conn_read_line (cx_conn c)) as [o k]. simpl. by intros ->.
Qed.

(** The command of a turn is handled after its line is read. *)
Lemma client_turn_command (c : Ctx S A) cmd : next_command (cx_conn c) = Some cmd ->
  cmd_name cmd <> lit "QUIT" ->
  client_turn c = (_ <-- mcatch (dispatch_command cmd) ;;; mreturn true)%m
                    (set_conn (after_line (cx_conn c)) c).
Proof.
  unfold next_command. destruct (fst (conn_read_line (cx_conn c))) as [[|x l]|e| |] eqn:El; try done.
  destruct (parse_command _) as [[r cmd']|] eqn:Ep; [|done]. intros [= ->] Hq.
  unfold client_turn. rewrite (mbind_Ret _ _ _ _ _ (read_command_line_after c x l El)).
  cbv beta iota. rewrite Ep.
  by destruct (str_eqb (cmd_name cmd) (lit "QUIT")) eqn:Eq; [apply str_eqb_eq in Eq|].
Qed.

Lemma command_caught (m : M (Ctx S A) unit) c : snd ((_ <-- mcatch m ;;; mreturn true)%m c) = snd (m c).
Proof. unfold mbind', mcatch. by destruct (m c) as [[] c1]. Qed.

(** A turn is steady, or it is an AUTHINFO. *)
Lemma client_turn_cases (c : Ctx S A) o c' : client_turn c = (o, c') -> steady c c' \/
  exists cmd k, next_command (cx_conn c) = Some cmd /\ is_authinfo cmd = true
    /\ conn_served (cx_conn c) k /\ authinfo_does (set_conn k c) (names_user (cmd_args cmd)) c'.
Proof.
  unfold client_turn, mbind' at 1. intros E. destruct (read_command_line c) as [ol c1] eqn:E1.
  pose proof (read_command_line_steady _ _ _ E1) as H1.
  apply read_command_line_spec in E1 as [(k & -> & Hk) Hline].
  destruct ol as [[[|x l]|]|e| |]; try (injection E as _ <-; by left).
  destruct (Hline x l eq_refl) as [Hread _].
  destruct (parse_command _) as [[r cmd]|] eqn:Ep.
  2: { left. etrans; [exact H1|]. refine (moves_bind steady _ _ _ _ _ _ _ E).
       - apply net_steady, write_all_served.
       - intros _. apply moves_ret, _. }
  destruct (str_eqb _ _).
  { left. etrans; [exact H1|]. refine (moves_bind steady _ _ _ _ _ _ _ E).
    - apply net_steady, write_all_served.
    - intros _. apply moves_ret, _. }
  pose proof (dispatch_cases (S:=S) (A:=A) cmd) as Hd. destruct (is_authinfo cmd) eqn:Ea.
  - right. exists cmd, k. split; [unfold next_command; by rewrite Hread, Ep|].
    split; [done|]. split; [done|]. unfold mbind', mcatch in E. rewrite Hd in E.
    destruct (AuthInfoHandler (cmd_args cmd) _) as [oa c2] eqn:Eh. apply authinfo_cases in Eh.
    destruct oa; by injection E as _ <-.
  - left. etrans; [exact H1|]. refine (moves_bind steady _ _ _ _ _ _ _ E).
    + by apply moves_catch.
    + intros _. apply moves_ret, _.
Qed.

Lemma client_turn_served : moves served (client_turn (S:=S) (A:=A)).
Proof.
  intros c o c' E. apply client_turn_cases in E as [Hs|(cmd & k & _ & _ & Hk & Ha)]; [by apply std_served|].
  etrans; [|exact (authinfo_does_served _ _ _ Ha)]. by apply std_served, set_conn_served.
Qed.

Lemma served_input_le (c c' : Ctx S A) : served c c' ->
  (length (c_in (cx_conn c')) <= length (c_in (cx_conn c)))%nat.
Proof. intros [[l Hl] _ _ _ _ _ _ _]. rewrite Hl, length_app. lia. Qed.

(** A turn after which the loop goes on has read something. *)
Lemma client_turn_consumes (c c' : Ctx S A) : client_turn c = (Ret true, c') ->
  (length (c_in (cx_conn c')) < length (c_in (cx_conn c)))%nat.
Proof.
  unfold client_turn. intros E. apply mbind_inv in E as (line & c1 & E1 & E).
  apply read_command_line_spec in E1 as [_ Hlt].
  destruct line as [[|x l]|]; [done| |done]. destruct (Hlt x l eq_refl) as [_ Hlt'].
  assert (Hm : served c1 c'); [|apply served_input_le in Hm; lia].
  destruct (parse_command _) as [[r cmd]|].
  - destruct (str_eqb _ _).
    + by apply mbind_inv in E as ([] & c2 & _ & E2).
    + apply mbind_inv in E as (res & c2 & E2 & E3). injection E3 as <-.
      eapply moves_catch; [apply dispatch_served|exact E2].
  - apply mbind_inv in E as ([] & c2 & E2 & E3). injection E3 as <-.
    apply std_served. eapply net_steady; [apply write_all_served|exact E2].
Qed.

Lemma client_loop_served fuel : moves served (client_loop (S:=S) (A:=A) fuel).
Proof.
  induction fuel as [|fuel IH]; cbn [client_loop]; [apply moves_out, _|].
  apply moves_bind; [apply _|apply client_turn_served|intros [|]; [exact IH|apply moves_ret, _]].
Qed.

Lemma client_done_served : moves served (client_done (S:=S) (A:=A)).
Proof.
  unfold client_done. apply moves_bind; [apply _|apply steady_moves, gets_steady|intros [u|]; [|apply moves_ret, _]].
  apply with_tracker_served. exact (disconnect_method _).
Qed.

(** Turns that went on. *)
Definition turn (c c' : Ctx S A) : Prop := client_turn c = (Ret true, c').

(** How the loop ends, given the last turn. *)
Definition last_turn (o : outcome bool) : option (outcome unit) :=
  match o with
  | Ret true => None
  | Ret false => Some (Ret tt)
  | Fail e => Some (Fail e)
  | Panic => Some Panic
  | Stuck => Some Stuck
  end.

(** C21: the loop of a connection comes to an end by itself: after at most as many
    turns as the client sent characters there is a last turn, and the loop ends as
    that turn did: normally after QUIT, the end of the input or the idle timeout, with an
    error when a line cannot be read, and not at all only when a command itself waits
    for ever. *)
Theorem client_loop_ends (fuel : nat) (c : Ctx S A) :
  (length (c_in (cx_conn c)) < fuel)%nat ->
  exists n c1 t o c2, nsteps turn n c c1 /\ (n <= length (c_in (cx_conn c)))%nat
    /\ client_turn c1 = (t, c2) /\ last_turn t = Some o /\ client_loop fuel c = (o, c2).
Proof.
  revert c. induction fuel as [|fuel IH]; intros c Hf; [lia|]. cbn [client_loop].
  unfold mbind'. destruct (client_turn c) as [t c2] eqn:E.
  destruct t as [[|]|e| |].
  - pose proof (client_turn_consumes _ _ E) as Hlt.
    destruct (IH c2) as (n & c3 & t & o & c4 & Hn & Hle & Et & Ho & El); [lia|].
    exists (Datatypes.S n), c3, t, o, c4. split; [|split; [lia|done]].
    by apply nsteps_l with c2.
  - exists 0%nat, c, (Ret false), (Ret tt), c2. split_and!; [constructor|lia|done..].
  - exists 0%nat, c, (Fail e), (Fail e), c2. split_and!; [constructor|lia|done..].
  - exists 0%nat, c, Panic, Panic, c2. split_and!; [constructor|lia|done..].
  - exists 0%nat, c, Stuck, Stuck, c2. split_and!; [constructor|lia|done..].
Qed.

(** Whatever a client sends, when its connection ends: the article store is
    well formed and the accounts differ from those before in stored keys only; the client
    counts as authenticated only on a connection that allows it, for a password the
    back end verified, and as an administrator only on the back end's word; what it was
    sent begins with the greeting, its input was read in order, and every article it
    queued is marked as validated, so that the workers apply no filter to it. *)
Theorem connection_safe (conn : Conn) (tls : bool) (st : Stores S A) (tr : UsageTracker)
    (cfg : Config) (q : ArticleQueue) (clock : nat -> Z) (o : outcome unit) (c' : Ctx S A) :
  st_wf (sto_storage st) ->
  handle_client (new_client conn tls st tr cfg q clock) = (o, c') ->
  st_wf (sto_storage (cx_stores c')) /\ rtc key_update (sto_auth st) (sto_auth (cx_stores c'))
  /\ (is_authenticated (cx_session c') = true ->
      (tls || cfg_allow_auth_insecure_connections cfg) = true
      /\ exists u p a, rtc key_update (sto_auth st) a /\ verify_user u p a = Ok true)
  /\ (s_is_admin (cx_session c') = true ->
      exists u a, rtc key_update (sto_auth st) a /\ is_admin u a = Ok true)
  /\ (exists l, c_out (cx_conn c')
      = c_out conn ++ (if cfg_allow_anonymous_posting cfg then RESP_200_READY
                       else RESP_201_READY_NO_POST) ++ l)
  /\ (exists l, c_in conn = l ++ c_in (cx_conn c'))
  /\ cx_config c' = cfg
  /\ (forall a, In a (queued (cx_queue c')) -> In a (queued q) \/ qa_already_validated a = true).
Proof.
  intros Hwf E. set (c := new_client conn tls st tr cfg q clock) in *.
  pose (w := if cfg_allow_anonymous_posting cfg then RESP_200_READY else RESP_201_READY_NO_POST).
  fold w. set (c1 := set_conn (wrote w conn) c).
  assert (Hs : served c1 c').
  { assert (Hg : greeting c = (Ret tt, c1)).
    { unfold c1, w. cbn. by destruct (cfg_allow_anonymous_posting cfg). }
    unfold handle_client in E. rewrite (mbind_Ret _ _ _ _ _ Hg) in E.
    refine (moves_bind served _ _ _ _ c1 o c' E); [apply steady_moves, gets_steady|].
    intros n. apply moves_bind; [apply _|apply client_loop_served|].
    intros _. apply client_done_served. }
  clearbody w. subst c1.
  destruct Hs as [[i Hi] _ [out Hout] Hcfg [Hst Hk] Hq _ Hse]. simpl in *.
  destruct Hse as [_ _ _ Hauth Hadm]. simpl in *.
  split; [auto|]. split; [done|]. split.
  { intros Ha. destruct (Hauth Ha) as [|[Hcan Hex]]; [done|]. by split. }
  split; [intros Ha; by destruct (Hadm Ha)|].
  split; [exists out; by rewrite Hout, <- app_assoc|]. split; [by exists i|]. split; [done|].
  intros a. by apply queue_served_in.
Qed.

(** The connection of a limited user is given back when the client closes it or falls
    silent, but not when reading a command line fails: then the count of the user's
    connections stays as it was. *)
Theorem connection_given_back (c : Ctx S A) (u : str) (fuel : nat) :
  limited_user (cx_session c) = Some u -> c_in (cx_conn c) = [] -> (0 < fuel)%nat ->
  (client_loop fuel ;;; client_done)%m c
  = match c_end (cx_conn c) with
    | IoError => (Fail (lit "stream did not contain valid UTF-8"), c)
    | _ => (Ret tt, set_tracker (disconnect u (cx_tracker c)) c)
    end.
Proof.
  intros Hu Hin Hf. destruct fuel as [|fuel]; [lia|]. destruct c as [[i e out] s st tr cf q cl n].
  simpl in *. subst i. destruct e; cbn; rewrite ?Hu; reflexivity.
Qed.
End Connections.

(** ** Concrete connections *)
Definition bob_stores : Stores Db AuthDb := mkStores news_db bob_db.
Definition bob_login : str :=
  lit "AUTHINFO USER bob" ++ crlf ++ lit "AUTHINFO PASS pw" ++ crlf.
Definition bob_session : Session := authenticate (lit "bob") (new_session true false false).

Definition connect_bob (text : str) (e : InEnd) (tr : UsageTracker) : Ctx Db AuthDb :=
  new_client (mkConn (input text) e []) true bob_stores tr default_config (new_queue 10) (fun _ => 0%Z).
Definition serve_toy : M (Ctx Db AuthDb) unit :=
  @handle_client Toy.ext no_milter _ _ (@sqlite_storage Toy.ext) (@sqlite_auth Toy.ext true).

Example bob_logs_in :
  fst (serve_toy (connect_bob bob_login Eof tracker0)) = Ret tt
  /\ c_out (cx_conn (snd (serve_toy (connect_bob bob_login Eof tracker0))))
     = RESP_201_READY_NO_POST ++ RESP_381_PASSWORD_REQ ++ RESP_281_AUTH_OK
  /\ connections (cx_tracker (snd (serve_toy (connect_bob bob_login Eof tracker0)))) = ∅.
Proof. vm_compute. split_and!; reflexivity. Qed.

(** The connection breaks: bob's only slot stays taken and his next login is refused. *)
Example bob_locked_out :
  let broken := snd (serve_toy (connect_bob bob_login IoError tracker0)) in
  c_out (cx_conn (snd (serve_toy (connect_bob bob_login Eof (cx_tracker broken)))))
  = RESP_201_READY_NO_POST ++ RESP_381_PASSWORD_REQ ++ RESP_481_CONN_LIMIT.
Proof. vm_compute. reflexivity. Qed.

(** Logging in again over the same connection takes a second slot; one is given back. *)
Example login_twice_counts_twice :
  let tr := new_tracker (mkUserLimitsConfig true 5 None None) in
  let amy := lit "AUTHINFO USER amy" ++ crlf ++ lit "AUTHINFO PASS pw" ++ crlf
             ++ lit "AUTHINFO PASS pw" ++ crlf in
  let auth := snd (@sq_add_user_with_key Toy.ext true 7 (lit "amy") (lit "pw") None empty_auth_db) in
  let c := snd (serve_toy (new_client (mkConn (input amy) Eof []) true (mkStores news_db auth) tr
                 default_config (new_queue 10) (fun _ => 0%Z))) in
  connection_count (lit "amy") (cx_tracker c) = 1.
Proof. vm_compute. reflexivity. Qed.

Definition bob_client : Ctx Db AuthDb := connect_bob bob_login Eof tracker0.

Lemma client_loop_ends_witness : exists n c1 t o c2,
  nsteps (@turn Toy.ext no_milter _ _ (@sqlite_storage Toy.ext) (@sqlite_auth Toy.ext true)) n bob_client c1
  /\ (n <= 37)%nat
  /\ @client_turn Toy.ext no_milter _ _ (@sqlite_storage Toy.ext) (@sqlite_auth Toy.ext true) c1 = (t, c2)
  /\ last_turn t = Some o
  /\ @client_loop Toy.ext no_milter _ _ (@sqlite_storage Toy.ext) (@sqlite_auth Toy.ext true) 38 bob_client = (o, c2).
Proof.
  exact (@client_loop_ends Toy.ext no_milter _ _ (@sqlite_storage Toy.ext)
           (@sqlite_storage_laws Toy.ext Toy.json_laws) (@sqlite_auth Toy.ext true) 38 bob_client
           ltac:(vm_compute; lia)).
Defined.

Lemma connection_safe_witness :
  is_authenticated (cx_session (snd (serve_toy bob_client))) = true
  /\ exists u p a, rtc (@key_update _ (@sqlite_auth Toy.ext true)) bob_db a
       /\ @verify_user _ (@sqlite_auth Toy.ext true) u p a = Ok true.
Proof.
  assert (Hb : is_authenticated (cx_session (snd (serve_toy bob_client))) = true) by (vm_compute; reflexivity).
  split; [exact Hb|].
  destruct (@connection_safe Toy.ext no_milter _ _ (@sqlite_storage Toy.ext)
              (@sqlite_storage_laws Toy.ext Toy.json_laws) (@sqlite_auth Toy.ext true)
              (mkConn (input bob_login) Eof []) true bob_stores tracker0 default_config (new_queue 10)
              (fun _ => 0%Z) (fst (serve_toy bob_client)) (snd (serve_toy bob_client)))
    as (_ & _ & Hauth & _).
  - apply (@db_wf_groups Toy.ext). apply db_wf_empty.
  - apply surjective_pairing.
  - exact (proj2 (Hauth Hb)).
Defined.

Lemma connection_given_back_witness :
  let c := @set_session Db AuthDb bob_session (connect_bob [] IoError
             (snd (@try_connect _ (@sqlite_auth Toy.ext true) (lit "bob") bob_db tracker0))) in
  connection_count (lit "bob") (cx_tracker (snd (mbind'
    (@client_loop Toy.ext no_milter _ _ (@sqlite_storage Toy.ext) (@sqlite_auth Toy.ext true) 1)
    (fun _ => client_done) c))) = 1.
Proof.
  intros c.
  rewrite (@connection_given_back Toy.ext no_milter _ _ (@sqlite_storage Toy.ext)
             (@sqlite_auth Toy.ext true) c (lit "bob") 1);
    [vm_compute; reflexivity|reflexivity|reflexivity|lia].
Defined.
