(* ===== verification/Turns.v ===== *)
(** * Turns: the commands cut at their calls ([handlers/], [lib.rs])

    Every command of a connection as a task ([Tasks.v]): a turn is one call of the article
    store, the authentication back end, the usage tracker or the queue, one read or write of
    the connection, or one look at the session or the configuration.  Between two turns
    anybody else may have changed what is shared; whatever they did, each turn moves it along
    the relation [told]. *)

From stdpp Require Import base numbers list gmap strings relations.
From Stdlib Require Import NArith ZArith Lia.
From S2P Require Import Prelude Tasks Text Externals Message Config Limits Auth SqliteAuth Tracker Storage SqliteStorage Responses Session Wire Control Milter Filters Queue Context ArticleHandlers GroupHandlers PostHandlers Server Served.
Local Open Scope N_scope.

(** ** What a client sends *)

(** The input is read by whole lines. *)
Definition reads_on (l l' : list (option char)) : Prop :=
  exists pre, l = pre ++ l' /\ (pre = [] \/ last pre = Some (Some LF) \/ l' = []).

#[export] Instance reads_on_preorder : PreOrder reads_on.
Proof.
  split; [by intros l; exists []; auto|]. intros l1 l2 l3 (p & -> & Hp) (q & -> & Hq).
  exists (p ++ q). split; [by rewrite <- app_assoc|]. destruct Hq as [->|[Hq|Hq]]; [|right; left; by rewrite last_app, Hq|by auto].
  rewrite app_nil_r. destruct Hp as [?|[?|?]]; auto.
Qed.

(** A line of it, the last of which may lack its end. *)
Definition line_of (text : list (option char)) (line : str) : Prop :=
  exists before after, text = before ++ input line ++ after /\ line <> []
    /\ (before = [] \/ last before = Some (Some LF))
    /\ ((exists x, line = x ++ [LF] /\ LF ∉ x) \/ (LF ∉ line /\ after = [])).

Lemma decode_Some l s : decode l = Some s -> l = input s.
Proof.
  revert s. induction l as [|[c|] l IH]; intros s; cbn [decode]; [by intros [= <-]| |done].
  destruct (decode l) as [t|]; [|done]. intros [= <-]. unfold input. csimpl. f_equal. by apply IH.
Qed.

Lemma take_line_shape l : let '(a, b, r) := take_line l in
  if b then exists x, a = x ++ [Some LF] /\ Some LF ∉ x else r = [] /\ Some LF ∉ a.
Proof.
  induction l as [|c l IH]; cbn [take_line]; [split; [done|apply not_elem_of_nil]|].
  destruct (is_LF c) eqn:Ec.
  - exists []. split; [|apply not_elem_of_nil]. destruct c as [c|]; [|done]. simpl in *. apply N.eqb_eq in Ec. by subst.
  - destruct (take_line l) as [[a b] r].
    assert (Hc : Some LF <> c) by (intros <-; discriminate Ec). destruct b.
    + destruct IH as (x & -> & Hx). exists (c :: x). split; [done|]. rewrite elem_of_cons. tauto.
    + destruct IH as [-> Ha]. split; [done|]. rewrite elem_of_cons. tauto.
Qed.

Lemma input_LF x : Some LF ∉ input x -> LF ∉ x.
Proof. intros Hx Hin. apply Hx. unfold input. by apply list_elem_of_fmap_2. Qed.

(** Reading a line. *)
Lemma conn_read_line_reads k o k' : conn_read_line k = (o, k') ->
  reads_on (c_in k) (c_in k') /\ forall x l, o = Ret (x :: l) -> line_of (c_in k) (x :: l).
Proof.
  unfold conn_read_line, read_line_in. pose proof (take_line_split (c_in k)) as Hs.
  pose proof (take_line_shape (c_in k)) as Hl. destruct (take_line (c_in k)) as [[a b] r]. simpl in Hs.
  intros E. assert (Hk : c_in k' = r) by (destruct b, (c_end k), (decode a); by injection E as _ <-).
  rewrite Hk, <- Hs. split.
  - exists a. split; [done|]. destruct b; [|right; right; apply Hl]. destruct Hl as (x & -> & _). rewrite last_snoc. auto.
  - intros x l ->.
    assert (Ha : decode a = Some (x :: l)) by (destruct b, (c_end k), (decode a); by simplify_eq/=).
    apply decode_Some in Ha as ->. exists [], r. split_and!; [done..|by left|]. destruct b.
    + left. destruct Hl as (y & Hy & Hn). unfold input in Hy.
      apply fmap_app_inv in Hy as (l1 & l2 & -> & Hl2 & El). rewrite El. exists l1.
      destruct l2 as [|z [|? ?]]; simplify_eq/=. split; [done|]. by apply input_LF.
    + right. destruct Hl as [-> Hn]. split; [by apply input_LF|done].
Qed.

Lemma read_message_reads k o k' : read_message k = (o, k') -> reads_on (c_in k) (c_in k').
Proof.
  assert (Hl : forall fuel msg, moves (fun k k' => reads_on (c_in k) (c_in k')) (read_message_loop fuel msg)).
  { assert (Hp : PreOrder (fun k k' : Conn => reads_on (c_in k) (c_in k'))).
    { split; [by intros ?|]. intros ? ? ? H1 H2. by etrans. }
    induction fuel as [|fuel IH]; intros msg; [apply moves_out, _|].
    cbn [read_message_loop]. apply moves_bind; [apply _|by intros c o1 c1 [H1 _]%conn_read_line_reads|].
    intros line. destruct (_ || _); [apply moves_ret, _|]. destruct (starts_with _ _); apply IH. }
  exact (Hl _ _ k o k').
Qed.

Lemma line_of_later text l line : reads_on text l -> line_of l line -> line_of text line.
Proof.
  intros (pre & -> & Hp) (before & after & -> & Hne & Hb & Hl). exists (pre ++ before), after.
  rewrite <- app_assoc. split_and!; try done. destruct Hb as [->|Hb]; [|right; by rewrite last_app, Hb].
  rewrite app_nil_r. destruct Hp as [?|[?|Hp]]; [auto..|]. destruct line; [done|]. by destruct after.
Qed.

(** The client names itself, or gives a password, with AUTHINFO. *)
Definition says_auth (text : list (option char)) (keyword value : str) : Prop :=
  exists line r cmd kw rest, line_of text line /\ parse_command (trim_eol line) = Some (r, cmd)
    /\ to_ascii_uppercase (cmd_name cmd) = lit "AUTHINFO"
    /\ cmd_args cmd = kw :: value :: rest /\ to_ascii_uppercase kw = keyword.

(** ** What is known *)
Section Worlds.
Context {X : Ext} {Net : MilterNet} {S A : Type} `{Storage S} `{AuthProvider A}.

(** What an article was checked for, with stores and a configuration among those seen: its
    required headers; the limits and the existence of its newsgroups; for each that is moderated
    an approval by one of its moderators, with that moderator's signature. *)
Definition approved_at (seen : Stores S A -> Prop) (c : Config) (a : Message) (g : str) : Prop :=
  exists t t' i m sig key, seen t /\ seen t'
    /\ header_values (lit "Approved") a !! i = Some m /\ is_moderator m g (sto_auth t) = Ok true
    /\ header_values (lit "X-PGP-Sig") a !! i = Some sig /\ key_of c m (sto_auth t') key
    /\ signs (mkMessage (filter (fun kv => to_ascii_lowercase (fst kv) <> lit "approved") (headers a)
                           ++ [(lit "Approved", m)]) (body a)) key sig.

Definition acceptable (seen : Stores S A -> Prop) (configs : Config -> Prop) (a : Message) (size : N) : Prop :=
  exists c, configs c
    /\ (exists v, In v (header_values (lit "From") a)) /\ (exists v, In v (header_values (lit "Subject") a))
    /\ (exists g, names_group g a)
    /\ forall g, names_group g a ->
         (exists limit, governs gr_max_article_bytes c g limit /\ forall max, limit = Some max -> size <= max)
         /\ (exists t all, seen t /\ try_collect (list_groups (sto_storage t)) = Ok all /\ In g all)
         /\ exists t, seen t /\ (is_group_moderated g (sto_storage t) = Ok false \/ approved_at seen c a g).

(** The client named [u] and gave a password that the back end found right; the accounts of
    [u] said it is an administrator. *)
Definition logs_in (text : list (option char)) (seen : Stores S A -> Prop) (u : str) : Prop :=
  exists p t, says_auth text (lit "USER") u /\ says_auth text (lit "PASS") p
    /\ seen t /\ verify_user u p (sto_auth t) = Ok true.
Definition administers (seen : Stores S A -> Prop) (u : str) : Prop :=
  exists t, seen t /\ is_admin u (sto_auth t) = Ok true.

(** What holds all along: the laws of the store; the stores and configurations the turns
    find; whether the connection may be logged in over, and what its client sends in all.  In an
    open world nothing of this is known. *)
Record World := mkWorld {
  w_laws : StorageLaws S;
  w_open : bool;
  w_stores : Stores S A -> Prop;
  w_config : Config -> Prop;
  w_policy : bool;
  w_input : list (option char);
}.

Definition sure (w : World) (P : Prop) : Prop := w_open w = true \/ P.

Lemma sure_mono w (P Q : Prop) : (P -> Q) -> sure w P -> sure w Q.
Proof. unfold sure. tauto. Qed.
Lemma sure_and w (P Q : Prop) : sure w P -> sure w Q -> sure w (P /\ Q).
Proof. unfold sure. tauto. Qed.

(** A session: named, authenticated and an administrator's by what its client sent only. *)
Record session_known (w : World) (s : Session) : Prop := {
  sn_policy : can_authenticate s = w_policy w;
  sn_named u : username s = Some u -> says_auth (w_input w) (lit "USER") u;
  sn_authenticated : authenticated s = true -> w_policy w = true /\ exists u, logs_in (w_input w) (w_stores w) u;
  sn_admin : s_is_admin s = true -> exists u, logs_in (w_input w) (w_stores w) u /\ administers (w_stores w) u;
}.

Definition stores_told (w : World) (t t' : Stores S A) : Prop := @stores_served S A _ (w_laws w) _ t t'.
Definition stores_known (w : World) (t : Stores S A) : Prop := sure w (w_stores w t).

Definition knows (w : World) (c : Ctx S A) : Prop :=
  sure w (w_stores w (cx_stores c) /\ w_config w (cx_config c) /\ reads_on (w_input w) (c_in (cx_conn c))
          /\ session_known w (cx_session c)).

Record same_policy (s s' : Session) : Prop := {
  sp_tls : is_tls s' = is_tls s;
  sp_insecure : allow_auth_insecure s' = allow_auth_insecure s;
  sp_anonymous : allow_anonymous_posting s' = allow_anonymous_posting s;
}.

(** What a turn of a command does: it reads on by whole lines, adds to the queue only what
    was accepted, and leaves the session as its client's words allow. *)
Record told (w : World) (c c' : Ctx S A) : Prop := {
  td_config : cx_config c' = cx_config c;
  td_stores : stores_told w (cx_stores c) (cx_stores c');
  td_input : reads_on (c_in (cx_conn c)) (c_in (cx_conn c'));
  td_queue : exists l, cx_queue c' = submit_all l (cx_queue c)
    /\ Forall (fun q => sure w (acceptable (w_stores w) (w_config w) (qa_message q) (qa_size q))) l;
  td_policy : same_policy (cx_session c) (cx_session c');
  td_session : sure w (session_known w (cx_session c'));
}.

(** A command, cut into turns. *)
Notation CommandTurns K m := (Cut knows told K m).
Notation StoreTurns K m := (Cut stores_known stores_told K m).

Lemma knows_session w c : knows w c -> sure w (session_known w (cx_session c)).
Proof. apply sure_mono. tauto. Qed.
Lemma knows_stores w c : knows w c -> stores_known w (cx_stores c).
Proof. apply sure_mono. tauto. Qed.

(** A call that leaves the queue and the session alone. *)
Record apart (c c' : Ctx S A) : Prop := {
  ap_config : cx_config c' = cx_config c;
  ap_queue : cx_queue c' = cx_queue c;
  ap_session : cx_session c' = cx_session c;
  ap_input : reads_on (c_in (cx_conn c)) (c_in (cx_conn c'));
}.

Lemma apart_told w c c' : knows w c -> stores_told w (cx_stores c) (cx_stores c') -> apart c c' -> told w c c'.
Proof.
  intros Hk Hs [Hc Hq Hse Hi]. split; try done.
  - exists []. by split; [|constructor].
  - by rewrite Hse.
  - rewrite Hse. by apply knows_session.
Qed.

Lemma told_refl w c : knows w c -> told w c c.
Proof. intros Hk. by apply apart_told; [|split|]. Qed.

(** A change of the session only; an article submitted. *)
Lemma session_told w (c : Ctx S A) s' : same_policy (cx_session c) s' -> sure w (session_known w s') ->
  told w c (set_session s' c).
Proof.
  intros Hp Hs. split; simpl; [done|by split|reflexivity|exists []; by split; [|constructor]|done|done].
Qed.

Lemma submit_told w (c : Ctx S A) q : knows w c ->
  sure w (acceptable (w_stores w) (w_config w) (qa_message q) (qa_size q)) -> told w c (set_queue (submit q (cx_queue c)) c).
Proof.
  intros Hk Hq. split; simpl; [done|by split|reflexivity|exists [q]; split; [done|by constructor]|by split|].
  by apply knows_session.
Qed.

Definition plain_call {K B} (m : M (Ctx S A) B) (Hm : forall L : StorageLaws S, moves (@served S A _ L _) m)
    (Ha : moves apart m) : CommandTurns K m :=
  cut_call _ _ m (fun w s o s' _ Hs E =>
    apart_told w s s' Hs (@srv_stores S A _ (w_laws w) _ s s' (Hm (w_laws w) s o s' E)) (Ha s o s' E)).

Definition steady_call {K B} (m : M (Ctx S A) B)
    (Hm : forall L : StorageLaws S, moves (@steady S A _ L _) m) (Ha : moves apart m) : CommandTurns K m :=
  plain_call m (fun L => steady_moves m (Hm L)) Ha.

Lemma gets_apart {B} (f : Ctx S A -> B) : moves apart (mgets f).
Proof. by intros c o c' [= _ <-]. Qed.
Lemma ask_apart {B} (f : S -> result B) : moves apart (ask (A:=A) f).
Proof.
  intros c o c'. unfold ask, stores, mzoom, ask_storage. destruct c. by intros [= _ <-].
Qed.
Lemma now_apart : moves apart (now (S:=S) (A:=A)).
Proof. by intros c o c' [= _ <-]. Qed.
Lemma tracker_apart {B} (f : A -> UsageTracker -> outcome B * UsageTracker) : moves apart (with_tracker (S:=S) f).
Proof. intros c o c'. unfold with_tracker. destruct (f _ _). by intros [= _ <-]. Qed.
Lemma net_apart {B} (m : M Conn B) : moves (fun k k' => reads_on (c_in k) (c_in k')) m -> moves apart (net (S:=S) (A:=A) m).
Proof.
  intros Hm c o c'. unfold net, mzoom. destruct (m (cx_conn c)) as [o1 k] eqn:E. intros [= _ <-].
  split; try done. by eapply Hm.
Qed.

Definition store_call {K B} (m : M (Stores S A) B)
    (Hm : forall L : StorageLaws S, moves (@stores_served S A _ L _) m) : StoreTurns K m :=
  cut_call _ _ m (fun w s o s' _ _ E => Hm (w_laws w) s o s' E).

Definition stores_cut {K B} {m : M (Stores S A) B} (cm : StoreTurns K m) : CommandTurns K (stores m).
Proof.
  refine (cut_zoom cx_stores set_stores _ _ _ _ _ _ _ _ _ cm).
  - by intros [].
  - done.
  - done.
  - intros w c. apply knows_stores.
  - intros w c t Hk Ht. by apply apart_told.
Defined.
End Worlds.
Notation CommandTurns K m := (Cut knows told K m).
Notation StoreTurns K m := (Cut stores_known stores_told K m).
Definition any_world {S A} `{Storage S} (w : World (S:=S) (A:=A)) : Prop := True.

#[export] Instance reads_on_conn_preorder : PreOrder (fun k k' : Conn => reads_on (c_in k) (c_in k')).
Proof. split; [by intros k|]. intros k1 k2 k3 H1 H2. by etrans. Qed.

(** Writing reads nothing. *)
Lemma write_all_reads s : moves (fun k k' => reads_on (c_in k) (c_in k')) (write_all s).
Proof. by intros k o k' [= _ <-]. Qed.
Create HintDb reads.
#[export] Hint Resolve write_all_reads : reads.
Ltac speaks := repeat first
  [ solve [eauto with reads]
  | lazymatch goal with
    | |- moves _ (mbind' _ _) => apply moves_bind; [apply _| |intros ?]
    | |- moves _ (mfor _ _) => apply moves_for; [apply _|intros ?]
    | |- moves _ (mreturn _) => apply moves_ret, _
    | |- moves _ (match ?x with _ => _ end) => destruct x
    end ].

(** ** The stores: control messages and validation *)
Section StoreCalls.
Context {X : Ext} {Net : MilterNet} {S A : Type} `{Storage S} `{AuthProvider A}.
Context (K : World (S:=S) (A:=A) -> Prop).

Definition ask_storage_turns {B} (f : S -> result B) : StoreTurns K (ask_storage (A:=A) f) :=
  store_call _ (fun L => only_keys_served _ (ask_storage_moves f)).
Definition ask_auth_turns {B} (f : A -> result B) : StoreTurns K (ask_auth (S:=S) f) :=
  store_call _ (fun L => only_keys_served _ (ask_auth_moves f)).
Definition update_key_turns u k : StoreTurns K (on_auth (S:=S) (update_pgp_key u k)) :=
  store_call _ (fun L => only_keys_served _ (update_key_moves u k)).

Definition store_article_turns t a : StoreTurns K (on_storage (A:=A) (store_article (S:=S) t a)) :=
  store_call _ (fun L => on_storage_served _ (store_keeps_wf t a)).
Definition delete_turns i : StoreTurns K (on_storage (A:=A) (delete_article_by_id (S:=S) i)) :=
  store_call _ (fun L => on_storage_served _ (delete_keeps_wf i)).
Definition add_group_turns t g m : StoreTurns K (on_storage (A:=A) (add_group (S:=S) t g m)) :=
  store_call _ (fun L => on_storage_served _ (add_group_keeps_wf t g m)).
Definition remove_group_turns g : StoreTurns K (on_storage (A:=A) (remove_group (S:=S) g)) :=
  store_call _ (fun L => on_storage_served _ (remove_group_keeps_wf g)).

Hint Resolve ask_storage_turns ask_auth_turns update_key_turns store_article_turns delete_turns
  add_group_turns remove_group_turns : cuts.

Definition verify_pgp_turns msg u v s d ks : StoreTurns K (verify_pgp (S:=S) (A:=A) msg u v s d ks).
Proof. unfold verify_pgp. cut_calls. Defined.
Hint Resolve verify_pgp_turns : cuts.

Definition run_control_turns t cmd : StoreTurns K (run_control_command (S:=S) (A:=A) t cmd).
Proof. unfold run_control_command. cut_calls. Defined.
Hint Resolve run_control_turns : cuts.

Definition handle_signed_turns t msg c cmd : StoreTurns K (handle_signed (S:=S) (A:=A) t msg c cmd).
Proof. unfold handle_signed. cut_calls. Defined.
Hint Resolve handle_signed_turns : cuts.

Definition handle_control_turns t msg c : StoreTurns K (handle_control (S:=S) (A:=A) t msg c).
Proof. unfold handle_control, handle_cancel_key. cut_calls. Defined.

Definition collect_moderators_turns g approved sigs :
  StoreTurns K (collect_moderators (S:=S) (A:=A) g approved sigs).
Proof.
  revert sigs. induction approved as [|a l IH]; intros sigs; cbn [collect_moderators]; cut_calls.
Defined.
Hint Resolve collect_moderators_turns : cuts.

Definition check_approvals_turns c a moderators sigs :
  StoreTurns K (check_approvals (S:=S) (A:=A) c a moderators sigs).
Proof.
  revert sigs. induction moderators as [|m l IH]; intros [|s sigs]; cbn [check_approvals];
    unfold check_approval; cut_calls.
Defined.
Hint Resolve check_approvals_turns : cuts.

Definition moderate_group_turns c a g : StoreTurns K (moderate_group (S:=S) (A:=A) c a g).
Proof. unfold moderate_group. cut_calls. Defined.
Hint Resolve moderate_group_turns : cuts.

Definition validate_filter_turns c a n f : StoreTurns K (validate_filter (S:=S) (A:=A) c a n f).
Proof.
  destruct f; cbn [validate_filter];
    unfold validate_header, validate_size, validate_groups, validate_moderation, validate_milter; cut_calls.
Defined.
Hint Resolve validate_filter_turns : cuts.

Definition validate_chain_turns c a n chain : StoreTurns K (validate_chain (S:=S) (A:=A) c a n chain).
Proof. unfold validate_chain. cut_calls. Defined.

(** A worker on an article. *)
Definition store_new_turns t a : StoreTurns K (store_new (S:=S) (A:=A) t a).
Proof. unfold store_new. cut_calls. Defined.

Definition process_article_turns t c q : StoreTurns K (process_article (S:=S) (A:=A) t c q).
Proof.
  unfold process_article. cbv zeta.
  refine (cut_bind _ _ _ (fun handled => _)).
  - destruct (qa_is_control q); [apply handle_control_turns|apply cut_ret].
  - destruct handled; [apply cut_ret|]. refine (cut_bind _ _ _ (fun _ => _)).
    + destruct (qa_already_validated q); [apply cut_ret|apply validate_chain_turns].
    + apply store_new_turns.
Defined.
End StoreCalls.

Tactic Notation "open_cut" := cbn [cut_task cut_bind cut_ret cut_out cut_catch cut_zoom cut_lift cut_fail cut_heed cut_known].
Tactic Notation "open_cut" "in" hyp(H) :=
  cbn [cut_task cut_bind cut_ret cut_out cut_catch cut_zoom cut_lift cut_fail cut_heed cut_known] in H.

(** ** A validation among others

    Whatever becomes of the stores between its turns, an article that the validation accepts
    is [acceptable]. *)
Section Validation.
Context {X : Ext} {Net : MilterNet} {S A : Type} `{Storage S} `{AuthProvider A}.
Context (K : World (S:=S) (A:=A) -> Prop) (seen : Stores S A -> Prop).

Lemma ran_for {B} (l : list B) {f : B -> M (Stores S A) unit} (cf : forall b, StoreTurns K (f b)) :
  ran seen (cut_task (cut_for _ _ l cf)) (Ret tt) -> forall b, In b l -> ran seen (cut_task (cf b)) (Ret tt).
Proof.
  induction l as [|b l IH]; [done|]. cbn [cut_for]. open_cut. intros (u & H1 & H2)%ran_followed. destruct u.
  intros b' [<-|Hin]; [done|by apply IH].
Qed.

Lemma ran_ask_storage {B} (f : S -> result B) b : ran seen (cut_task (ask_storage_turns K f)) (Ret b) ->
  exists t, seen t /\ f (sto_storage t) = Ok b.
Proof.
  intros (t & Ht & E)%ran_one_turn. exists t. split; [done|]. unfold ask_storage in E.
  destruct (f (sto_storage t)) as [b'|e]; [by injection E as ->|done].
Qed.
Lemma ran_ask_auth {B} (f : A -> result B) b : ran seen (cut_task (ask_auth_turns K f)) (Ret b) ->
  exists t, seen t /\ f (sto_auth t) = Ok b.
Proof.
  intros (t & Ht & E)%ran_one_turn. exists t. split; [done|]. unfold ask_auth in E.
  destruct (f (sto_auth t)) as [b'|e]; [by injection E as ->|done].
Qed.

Lemma ran_lift {B} (r : result B) b : ran seen (Ended (outcome_of r)) (Ret b) -> r = Ok b.
Proof. intros E%ran_out. destruct r as [b'|e]; [by injection E as ->|done]. Qed.

Lemma ran_verify_pgp msg user v s d ks : ran seen (cut_task (verify_pgp_turns K msg user v s d ks)) (Ret tt) ->
  exists t key, seen t /\ (get_pgp_key user (sto_auth t) = Ok (Some key) \/ discover_key ks user = Ok (Some key))
    /\ verifies msg key v s d = true.
Proof.
  unfold verify_pgp_turns. open_cut. intros (stored & (t & Ht & Ek)%ran_ask_auth & Hr)%ran_followed.
  exists t. destruct (match stored with Some _ => _ | None => _ end) eqn:Ev.
  { destruct stored as [key|]; [|done]. by exists key; split_and!; [|left|]. }
  open_cut in Hr. apply ran_followed in Hr as (disc & Ed%ran_lift & Hr).
  destruct disc as [key|]; [|by destruct stored; apply ran_out in Hr].
  open_cut in Hr. apply ran_followed in Hr as (r & Et%ran_lift & Hr). exists key. split_and!; [done|by right|].
  unfold verifies. rewrite Et. destruct r as [[]|e]; [done|]. by apply ran_out in Hr.
Qed.

(** Among the approvals by moderators, with the signatures at their places. *)
Lemma ran_collect g approved sigs ms ss : ran seen (cut_task (collect_moderators_turns K g approved sigs)) (Ret (ms, ss)) ->
  (length ss <= length ms)%nat
  /\ (ms <> [] -> (length ms <= length ss)%nat -> exists i m sig t, approved !! i = Some m /\ sigs !! i = Some sig
        /\ seen t /\ is_moderator m g (sto_auth t) = Ok true /\ In (m, sig) (zip ms ss)).
Proof.
  revert sigs ms ss. induction approved as [|a approved IH]; intros sigs ms ss.
  { intros Hr%ran_out. injection Hr as -> ->. by split. }
  cbn [collect_moderators_turns list_rect]. open_cut.
  intros (b & (t & Ht & Em)%ran_ask_auth & Hr)%ran_followed.
  apply ran_followed in Hr as ([ms1 ss1] & H1%IH & H2%ran_out). destruct H1 as [Hlen H1]. destruct b; cbn [fst snd] in H2.
  - destruct sigs as [|s sigs]; injection H2 as -> ->; cbn [length]; (split; [lia|]); [lia|]. intros _ _.
    exists 0%nat, a, s, t. split_and!; try done. by left.
  - injection H2 as -> ->. split; [done|]. intros Hne Hl. destruct (H1 Hne Hl) as (i & m & sig & t' & E1 & E2 & H3).
    exists (Datatypes.S i), m, sig, t'. split; [done|]. split; [by destruct sigs|done].
Qed.

Lemma ran_approvals c a ms ss : ran seen (cut_task (check_approvals_turns K c a ms ss)) (Ret tt) ->
  forall m sig, In (m, sig) (zip ms ss) -> exists t key, seen t /\ key_of c m (sto_auth t) key
    /\ signs (approved_message a m) key sig.
Proof.
  revert ss. induction ms as [|m ms IH]; intros [|s ss] Hr m' sig' Hin; try done.
  cbn [check_approvals_turns list_rect] in Hr. open_cut in Hr.
  apply ran_followed in Hr as ([] & H1 & H2). destruct Hin as [[= <- <-]|Hin]; [|by eapply IH].
  apply ran_followed in H1 as ([[v h] d] & Es%ran_lift & Hv%ran_verify_pgp).
  destruct Hv as (t & key & Ht & Hk & Hv). exists t, key. split_and!; [done|by apply discovered_key|by eapply verified_signs].
Qed.

Lemma ran_moderate c a g : ran seen (cut_task (moderate_group_turns K c a g)) (Ret tt) ->
  exists t, seen t /\ (is_group_moderated g (sto_storage t) = Ok false \/ approved_at seen c a g).
Proof.
  unfold moderate_group_turns. open_cut. intros (b & (t & Ht & Em)%ran_ask_storage & Hr)%ran_followed.
  exists t. split; [done|]. destruct b; [|by left]. right.
  open_cut in Hr. apply ran_followed in Hr as ([ms ss] & Hc%ran_collect & Hr). destruct Hc as [_ Hc].
  case_bool_decide as Hne; [by apply ran_out in Hr|].
  destruct (length ss <? length ms)%nat eqn:Hlen; [by apply ran_out in Hr|]. apply Nat.ltb_ge in Hlen.
  destruct (Hc Hne Hlen) as (i & m & sig & t1 & E1 & E2 & Ht1 & Hm & Hz).
  destruct (ran_approvals _ _ _ _ Hr _ _ Hz) as (t2 & key & Ht2 & Hk & Hs). rewrite approved_only in Hs.
  rewrite !get_header_values_eq in *. by exists t1, t2, i, m, sig, key.
Qed.

Lemma ran_validation c a n (configs : Config -> Prop) : configs c ->
  ran seen (cut_task (validate_chain_turns K c a n default_chain)) (Ret tt) -> acceptable seen configs a n.
Proof.
  intros Hc Hr. exists c. split; [done|].
  assert (Hf := ran_for default_chain (validate_filter_turns K c a n) Hr).
  assert (Hh := Hf HeaderFilter ltac:(by left)).
  assert (Hs := Hf SizeFilter ltac:(by right; left)).
  assert (Hg := Hf GroupExistenceFilter ltac:(by do 2 right; left)).
  assert (Hm := Hf ModerationFilter ltac:(by do 3 right; left)). clear Hr Hf.
  unfold validate_filter_turns, validate_filter, validate_header, validate_size, validate_groups, validate_moderation in *.
  destruct (required_headers_missing a) eqn:Er; [by apply ran_out in Hh|].
  unfold required_headers_missing in Er. rewrite !orb_false_iff, !negb_false_iff, !has_header_eq in Er.
  destruct Er as [[Hfrom Hsub] Hne]. apply bool_decide_eq_false in Hne. split; [done|]. split; [done|]. split.
  { destruct (extract_newsgroups a) as [|g l] eqn:El; [done|]. exists g. apply names_group_iff. rewrite El. by left. }
  intros g Hin%names_group_iff. split; [|split].
  - exists (max_size_for_group c g). split; [apply max_size_for_group_governs|]. intros max Hmax.
    apply (fun H => ran_for _ _ H g Hin) in Hs. cbv beta in Hs.
    assert (El : too_large c n g = (max <? n)) by (unfold too_large; by rewrite Hmax).
    destruct (too_large c n g); [by apply ran_out in Hs|]. by apply N.ltb_ge.
  - open_cut in Hg. apply ran_followed in Hg as (all & (t & Ht & Ea)%ran_ask_storage & Hg).
    exists t, all. split; [done|]. split; [done|]. apply (fun H => ran_for _ _ H g Hin) in Hg. cbv beta in Hg.
    destruct (existsb (str_eqb g) all) eqn:Ex; [|by apply ran_out in Hg].
    apply existsb_exists in Ex as (h & Hh' & ->%str_eqb_eq). done.
  - by apply (fun H => ran_for _ _ H g Hin) in Hm; apply ran_moderate in Hm.
Qed.
End Validation.

(** ** The calls of a command *)
Section Calls.
Context {X : Ext} {Net : MilterNet} {S A : Type} `{Storage S} `{AuthProvider A}.
Context (K : World (S:=S) (A:=A) -> Prop).

Definition write_turns s : CommandTurns K (write (S:=S) (A:=A) s) :=
  steady_call _ (fun L => write_steady s) (net_apart _ (write_all_reads s)).
Definition gets_turns {B} (f : Ctx S A -> B) : CommandTurns K (mgets f) :=
  steady_call _ (fun L => gets_steady f) (gets_apart f).
Definition session_turns {B} (f : Session -> B) : CommandTurns K (session (S:=S) (A:=A) f) := gets_turns _.
Definition storage_gets_turns {B} (f : S -> B) : CommandTurns K (storage_gets (A:=A) f) := gets_turns _.
Definition config_turns : CommandTurns K (config (S:=S) (A:=A)) := gets_turns _.
Definition ask_turns {B} (f : S -> result B) : CommandTurns K (ask (A:=A) f) :=
  steady_call _ (fun L => ask_steady f) (ask_apart f).
Definition now_turns : CommandTurns K (now (S:=S) (A:=A)) := steady_call _ (fun L => now_steady) now_apart.

Definition net_call {B} (m : M Conn B) (Hm : moves conn_served m)
    (Hr : moves (fun k k' => reads_on (c_in k) (c_in k')) m) : CommandTurns K (net (S:=S) (A:=A) m) :=
  steady_call _ (fun L => net_steady m Hm) (net_apart m Hr).
Definition write_all_turns s : CommandTurns K (net (S:=S) (A:=A) (write_all s)) :=
  net_call _ (write_all_served s) (write_all_reads s).
Definition send_headers_turns a : CommandTurns K (net (S:=S) (A:=A) (send_headers a)).
Proof. apply (net_call _ (send_headers_served a)). unfold send_headers. speaks. Defined.
Definition send_body_turns b : CommandTurns K (net (S:=S) (A:=A) (send_body b)).
Proof. apply (net_call _ (send_body_served b)). unfold send_body. speaks. Defined.
Definition write_values_turns r vs : CommandTurns K (net (S:=S) (A:=A) (write_response_with_values r vs)).
Proof. apply (net_call _ (write_values_served r vs)). unfold write_response_with_values. speaks. Defined.
Definition write_lines_turns ls : CommandTurns K (net (S:=S) (A:=A) (write_lines ls)).
Proof. apply (net_call _ (write_lines_served ls)). unfold write_lines. speaks. Defined.
Definition read_message_turns : CommandTurns K (net (S:=S) (A:=A) read_message) :=
  net_call _ read_message_served read_message_reads.

(** A change of the session that is neither a login nor a new name. *)
Definition session_call f (Hf : forall s, session_steady s (f s)) : CommandTurns K (update_session (S:=S) (A:=A) f).
Proof.
  refine (cut_call _ _ _ (fun w c o c' _ Hk E => _)). destruct (Hf (cx_session c)) as [H1 H2 H3 H4 H5 H6].
  injection E as _ <-. apply session_told; [by split|].
  eapply sure_mono; [|exact (knows_session _ _ Hk)]. intros [K1 K2 K3 K4].
  split; rewrite ?H4, ?H5, ?H6; try done. unfold can_authenticate in *. by rewrite H1, H2.
Defined.
Definition select_article_turns n : CommandTurns K (update_session (S:=S) (A:=A) (set_current_article n)) :=
  session_call _ (set_current_article_steady n).
Definition select_group_turns g n : CommandTurns K (update_session (S:=S) (A:=A) (select_group g n)) :=
  session_call (select_group g n) (fun s => ltac:(by split)).

(** A user is named by the client. *)
Definition name_user_turns u (Hu : forall w, K w -> sure w (says_auth (w_input w) (lit "USER") u)) :
  CommandTurns K (update_session (S:=S) (A:=A) (set_pending_username u)).
Proof.
  refine (cut_call _ _ _ (fun w c o c' Hw Hk E => _)).
  injection E as _ <-. apply session_told; [by split|].
  destruct (Hu w Hw) as [?|Hn]; [by left|]. eapply sure_mono; [|exact (knows_session _ _ Hk)]. intros [K1 K2 K3 K4].
  split; simpl; try done. by intros v [= <-].
Defined.

Definition can_post_turns u : CommandTurns K (with_tracker (S:=S) (A:=A) (fun auth tr =>
  let '(r, tr) := tracker_can_post u auth tr in (Ret r, tr))) :=
  steady_call _ (fun L => answer_steady _ (can_post_method u)) (tracker_apart _).
Definition check_bandwidth_turns t u n : CommandTurns K (with_tracker (S:=S) (A:=A) (check_bandwidth t u n)) :=
  steady_call _ (fun L => with_tracker_steady _ (check_bandwidth_method t u n)) (tracker_apart _).
Definition record_bandwidth_turns t u n up : CommandTurns K (with_tracker (S:=S) (A:=A) (fun _ tr =>
  (Ret tt, record_bandwidth t u n up tr))).
Proof.
  apply steady_call; [|apply tracker_apart]. intros L. apply with_tracker_steady. exact (record_bandwidth_method t u n up).
Defined.
Definition try_connect_turns u : CommandTurns K (with_tracker (S:=S) (A:=A) (fun auth tr =>
  let '(r, tr) := try_connect u auth tr in (Ret r, tr))) :=
  plain_call _ (fun L => answer_served _ (try_connect_method u)) (tracker_apart _).
Definition load_user_turns t u : CommandTurns K (with_tracker (S:=S) (A:=A) (fun auth tr =>
  (Ret tt, load_user t u auth tr))).
Proof.
  apply plain_call; [|apply tracker_apart]. intros L. apply with_tracker_served. exact (load_user_method t u).
Defined.
Definition disconnect_turns u : CommandTurns K (with_tracker (S:=S) (A:=A) (fun _ tr =>
  (Ret tt, disconnect u tr))).
Proof.
  apply plain_call; [|apply tracker_apart]. intros L. apply with_tracker_served. exact (disconnect_method u).
Defined.

(** Only what was accepted is submitted. *)
Definition submit_turns a n b (Ha : forall w, K w -> sure w (acceptable (w_stores w) (w_config w) a n)) :
  CommandTurns K (submit_article (S:=S) (A:=A) (mkQueuedArticle a n b true)).
Proof.
  refine (cut_call _ _ _ (fun w c o c' Hw Hk E => _)). injection E as _ <-. apply submit_told; [done|by apply Ha].
Defined.

Definition complete_turns a : CommandTurns K (complete (S:=S) (A:=A) a).
Proof. exact (cut_bind _ _ config_turns (fun c => cut_bind _ _ now_turns (fun t => cut_ret _ _ _ _))). Defined.
End Calls.
#[export] Hint Resolve write_turns gets_turns session_turns storage_gets_turns config_turns ask_turns now_turns
  check_bandwidth_turns : cuts.

(** The parts that transfers share are cut once, whatever is known when they begin. *)
Section Parts.
Context {X : Ext} {Net : MilterNet} {S A : Type} `{Storage S} `{AuthProvider A}.

Definition validation_cut a n : CommandTurns any_world (validate (S:=S) (A:=A) a n).
Proof.
  refine (cut_bind _ _ (config_turns _) (fun c => cut_catch _ _ (stores_cut _))). apply validate_chain_turns.
Defined.
Definition storing_cut a : CommandTurns any_world (store (S:=S) (A:=A) a).
Proof.
  refine (cut_bind _ _ (now_turns _) (fun t => cut_catch _ _ (stores_cut _))). apply store_article_turns.
Defined.
Definition controlling_cut a : CommandTurns any_world (control (S:=S) (A:=A) a).
Proof.
  refine (cut_bind _ _ (config_turns _) (fun c => cut_bind _ _ (now_turns _) (fun t => stores_cut _))).
  apply handle_control_turns.
Defined.
Definition charging_cut n : CommandTurns any_world (check_bandwidth_rejected (S:=S) (A:=A) n).
Proof. unfold check_bandwidth_rejected, bandwidth_check. cut_calls. Defined.

Context (K : World (S:=S) (A:=A) -> Prop).
Definition validate_turns a n : CommandTurns K (validate (S:=S) (A:=A) a n) :=
  cut_known _ _ (fun _ _ => I) (validation_cut a n).
Definition store_turns a : CommandTurns K (store (S:=S) (A:=A) a) := cut_known _ _ (fun _ _ => I) (storing_cut a).
Definition control_turns a : CommandTurns K (control (S:=S) (A:=A) a) := cut_known _ _ (fun _ _ => I) (controlling_cut a).
Definition check_rejected_turns n : CommandTurns K (check_bandwidth_rejected (S:=S) (A:=A) n) :=
  cut_known _ _ (fun _ _ => I) (charging_cut n).

(** What is accepted was checked. *)
Lemma heed_validate a n w v : ran (knows w) (cut_task (validate_turns a n)) (Ret v) -> v = Ok tt ->
  sure w (acceptable (w_stores w) (w_config w) a n).
Proof.
  intros Hr ->. unfold sure. destruct (w_open w) eqn:Eo; [by left|]. right.
  unfold validate_turns, validation_cut in Hr. open_cut in Hr.
  apply ran_followed in Hr as (c & (x & Hx & [= <-])%ran_one_turn & Hr).
  assert (Hc : forall P, sure w P -> P) by (intros P [E|HP]; [by rewrite Eo in E|done]).
  apply ran_caught in Hr. unfold stores_cut in Hr. open_cut in Hr. apply ran_zoomed in Hr.
  eapply ran_validation; [by apply (Hc _ Hx)|]. eapply ran_weaken; [|exact Hr].
  intros t (y & Hy & ->). by apply (Hc _ Hy).
Qed.
End Parts.

#[export] Hint Resolve write_turns gets_turns session_turns storage_gets_turns config_turns ask_turns now_turns
  write_all_turns send_headers_turns send_body_turns write_values_turns write_lines_turns read_message_turns
  select_article_turns select_group_turns can_post_turns check_bandwidth_turns
  record_bandwidth_turns try_connect_turns load_user_turns disconnect_turns check_rejected_turns validate_turns
  store_turns control_turns complete_turns : cuts.

(** Cutting where the verdict of the validation is heeded. *)
Ltac cut_heeding := repeat
  lazymatch goal with
  | |- Cut _ _ _ (mbind' (validate ?a ?n) _) =>
      refine (cut_heed _ _ (fun w v => v = Ok tt -> sure w (acceptable (w_stores w) (w_config w) a n)) (validate_turns _ a n)
                (fun w v _ => heed_validate _ a n w v) _); intros ?
  | |- Cut _ _ _ (submit_article _) => refine (submit_turns _ _ _ _ _); tauto
  | |- _ => first [cut_step | solve [eauto with cuts] | solve [refine (cut_known _ _ (fun w Hw => proj1 Hw) _); eauto with cuts]]
  end.

(** ** The commands *)
Section Commands.
Context {X : Ext} {Net : MilterNet} {S A : Type} `{Storage S} `{AuthProvider A}.
Context (K : World (S:=S) (A:=A) -> Prop).

Definition resolve_numbers_turns g nums acc : CommandTurns K (resolve_numbers (S:=S) (A:=A) g nums acc).
Proof. revert acc. induction nums as [|n nums IH]; intros acc; cbn [resolve_numbers]; cut_calls. Defined.
Hint Resolve resolve_numbers_turns : cuts.

Definition range_numbers_turns g spec : CommandTurns K (range_numbers (S:=S) (A:=A) g spec).
Proof. unfold range_numbers. cut_calls. Defined.
Hint Resolve range_numbers_turns : cuts.

Definition resolve_articles_turns arg : CommandTurns K (resolve_articles (S:=S) (A:=A) arg).
Proof. unfold resolve_articles. cut_calls. Defined.
Hint Resolve resolve_articles_turns : cuts.

Definition bandwidth_check_turns u n : CommandTurns K (bandwidth_check (S:=S) (A:=A) u n).
Proof. unfold bandwidth_check. cut_calls. Defined.
Definition bandwidth_record_turns u n up : CommandTurns K (bandwidth_record (S:=S) (A:=A) u n up).
Proof. unfold bandwidth_record. cut_calls. Defined.
Hint Resolve bandwidth_check_turns bandwidth_record_turns : cuts.

Definition send_content_turns o a : CommandTurns K (send_content (S:=S) (A:=A) o a).
Proof. unfold send_content. cut_calls. Defined.
Hint Resolve send_content_turns : cuts.

Definition send_articles_turns o u l : CommandTurns K (send_articles (S:=S) (A:=A) o u l).
Proof. induction l as [|[n a] l IH]; cbn [send_articles]; cut_calls. Defined.
Hint Resolve send_articles_turns : cuts.

Definition record_usage_turns n up : CommandTurns K (record_bandwidth_usage (S:=S) (A:=A) n up).
Proof. unfold record_bandwidth_usage. cut_calls. Defined.
Hint Resolve record_usage_turns : cuts.

Definition article_handler_turns o args : CommandTurns K (article_handler (S:=S) (A:=A) o args).
Proof. unfold article_handler, handle_article_operation, handle_article_error. cut_calls. Defined.

Definition collect_numbers_turns g f nums acc : CommandTurns K (collect_numbers (S:=S) (A:=A) g f nums acc).
Proof. revert acc. induction nums as [|n nums IH]; intros acc; cbn [collect_numbers]; cut_calls. Defined.
Hint Resolve collect_numbers_turns : cuts.

Definition collect_header_values_turns f r : CommandTurns K (collect_header_values (S:=S) (A:=A) f r).
Proof. unfold collect_header_values. cut_calls. Defined.
Hint Resolve collect_header_values_turns : cuts.

Definition hdr_turns args : CommandTurns K (HdrHandler (S:=S) (A:=A) args).
Proof. unfold HdrHandler, handle_all_headers, handle_article_error. cut_calls. Defined.
Definition xpat_turns args : CommandTurns K (XPatHandler (S:=S) (A:=A) args).
Proof. unfold XPatHandler, handle_article_error. cut_calls. Defined.
Definition over_turns args : CommandTurns K (OverHandler (S:=S) (A:=A) args).
Proof. unfold OverHandler, handle_article_error. cut_calls. Defined.

Definition group_turns args : CommandTurns K (GroupHandler (S:=S) (A:=A) args).
Proof. unfold GroupHandler. cut_calls. Defined.
Definition list_active_turns p : CommandTurns K (handle_list_active (S:=S) (A:=A) p).
Proof. unfold handle_list_active, list_active_group, low_high. cut_calls. Defined.
Hint Resolve list_active_turns : cuts.
Definition list_turns args : CommandTurns K (ListHandler (S:=S) (A:=A) args).
Proof.
  unfold ListHandler, handle_list_newsgroups, handle_list_active_times, handle_list_overview_fmt, handle_list_headers.
  cut_calls.
Defined.
Definition listgroup_turns args : CommandTurns K (ListGroupHandler (S:=S) (A:=A) args).
Proof. unfold ListGroupHandler. cut_calls. Defined.
Definition navigate_turns d : CommandTurns K (navigate_article (S:=S) (A:=A) d).
Proof. unfold navigate_article. cut_calls. Defined.
Definition newgroups_turns args : CommandTurns K (NewGroupsHandler (S:=S) (A:=A) args).
Proof. unfold NewGroupsHandler. cut_calls. Defined.
Definition newnews_turns args : CommandTurns K (NewNewsHandler (S:=S) (A:=A) args).
Proof. unfold NewNewsHandler, newnews_group. cut_calls. Defined.

Definition receive_post_turns : CommandTurns K (receive_post (S:=S) (A:=A)).
Proof. unfold receive_post. cut_heeding. Defined.
Hint Resolve receive_post_turns : cuts.
Definition post_turns args : CommandTurns K (PostHandler (S:=S) (A:=A) args).
Proof. unfold PostHandler. cut_calls. Defined.
Definition transfer_turns acc ref msg a : CommandTurns K (transfer (S:=S) (A:=A) acc ref msg a).
Proof. unfold transfer. cut_heeding. Defined.
Hint Resolve transfer_turns : cuts.
Definition ihave_turns args : CommandTurns K (IHaveHandler (S:=S) (A:=A) args).
Proof. unfold IHaveHandler. cut_calls. Defined.
Definition check_turns args : CommandTurns K (CheckHandler (S:=S) (A:=A) args).
Proof. unfold CheckHandler. cut_calls. Defined.
Definition takethis_turns args : CommandTurns K (TakeThisHandler (S:=S) (A:=A) args).
Proof. unfold TakeThisHandler. cut_calls. Defined.

Definition mode_turns args : CommandTurns K (ModeHandler (S:=S) (A:=A) args).
Proof. unfold ModeHandler. cut_calls. Defined.
Definition date_turns args : CommandTurns K (DateHandler (S:=S) (A:=A) args).
Proof. unfold DateHandler. cut_calls. Defined.
Definition help_turns args : CommandTurns K (HelpHandler (S:=S) (A:=A) args).
Proof. unfold HelpHandler. cut_calls. Defined.
Definition capabilities_turns args : CommandTurns K (CapabilitiesHandler (S:=S) (A:=A) args).
Proof. unfold CapabilitiesHandler. cut_calls. Defined.
Definition quit_turns args : CommandTurns K (QuitHandler (S:=S) (A:=A) args).
Proof. unfold QuitHandler. cut_calls. Defined.
End Commands.
#[export] Hint Resolve article_handler_turns hdr_turns xpat_turns over_turns group_turns list_turns
  listgroup_turns navigate_turns newgroups_turns newnews_turns post_turns ihave_turns check_turns
  takethis_turns mode_turns date_turns help_turns capabilities_turns quit_turns : cuts.

(** ** Logging in: what a turn learns, the later ones rely on *)
Section Login.
Context {X : Ext} {Net : MilterNet} {S A : Type} `{Storage S} `{AuthProvider A}.
Notation World := (World (S:=S) (A:=A)).
Implicit Types K : World -> Prop.

(** An answer of the back end. *)
Lemma ask_auth_answer {B} (f : A -> result B) (c : Ctx S A) :
  stores (ask_auth f) c = (outcome_of (f (sto_auth (cx_stores c))), c).
Proof. unfold stores, mzoom, ask_auth. by destruct c. Qed.

Definition right_password u p (w : World) (ok : bool) : Prop :=
  ok = true -> sure w (exists t, w_stores w t /\ verify_user u p (sto_auth t) = Ok true).
Definition administrator u (w : World) (r : result bool) : Prop := r = Ok true -> sure w (administers (w_stores w) u).

Lemma learn_password K u p w (c : Ctx S A) o c' : K w -> knows w c ->
  stores (ask_auth (verify_user u p)) c = (o, c') ->
  told w c c' /\ forall ok, o = Ret ok -> right_password u p w ok.
Proof.
  intros _ Hk. rewrite ask_auth_answer. intros [= <- <-]. split; [by apply told_refl|].
  intros ok E ->. eapply sure_mono; [|exact Hk]. intros (Hs & _). exists (cx_stores c). split; [exact Hs|].
  destruct (verify_user u p _) as [b|e]; [by injection E as ->|discriminate E].
Qed.

Lemma learn_admin K u w (c : Ctx S A) o c' : K w -> knows w c ->
  mcatch (stores (ask_auth (is_admin u))) c = (o, c') ->
  told w c c' /\ forall r, o = Ret r -> administrator u w r.
Proof.
  intros _ Hk. unfold mcatch. rewrite ask_auth_answer. intros E.
  assert (c' = c /\ o = Ret (is_admin u (sto_auth (cx_stores c)))) as [-> ->]
    by (destruct (is_admin u _); by injection E as <- <-).
  split; [by apply told_refl|]. intros r [= <-] Hr. eapply sure_mono; [|exact Hk]. intros (Hs & _). by exists (cx_stores c).
Qed.

Lemma learn_session K w (c : Ctx S A) o c' : K w -> knows w c -> session id c = (o, c') ->
  told w c c' /\ forall s, o = Ret s -> sure w (session_known w s).
Proof.
  intros _ Hk [= <- <-]. split; [by apply told_refl|]. intros s [= <-]. by apply knows_session.
Qed.

(** The session of a user who logs in, over a connection that may be logged in over. *)
Definition authenticate_turns K u admin
    (HK : forall w, K w -> sure w (w_policy w = true /\ logs_in (w_input w) (w_stores w) u
                                   /\ (admin = true -> administers (w_stores w) u))) :
  CommandTurns K (update_session (S:=S) (A:=A) (authenticate_with_admin u admin)).
Proof.
  refine (cut_call _ _ _ (fun w c o c' Hw Hk E => _)). injection E as _ <-. apply session_told; [by split|].
  destruct (HK w Hw) as [?|(Hp & Hl & Ha)]; [by left|]. eapply sure_mono; [|exact (knows_session _ _ Hk)].
  intros [K1 K2 K3 K4]. split; simpl; [done| |by eauto|by eauto].
  intros v [= <-]. by destruct Hl as (p & t & Hu & _).
Defined.

Definition login_turns K u (HK : forall w, K w -> sure w (w_policy w = true /\ logs_in (w_input w) (w_stores w) u)) :
  CommandTurns K (login (S:=S) (A:=A) u).
Proof.
  unfold login. refine (cut_learn _ _ (administrator u) (fun w s o s' => learn_admin K u w s o s') (fun r => _)).
  cbv zeta. refine (cut_bind _ _ _ (fun refused => _)); [cut_calls|].
  destruct refused; [apply write_turns|]. refine (cut_bind _ _ _ (fun _ => write_turns _ _)).
  apply authenticate_turns. intros w [Hw Hr]. destruct (HK w Hw) as [?|[Hp Hl]]; [by left|].
  destruct (match r with Ok b => b | Err _ => false end) eqn:Eb.
  - assert (r = Ok true) as -> by (destruct r; congruence). eapply sure_mono; [|exact (Hr eq_refl)]. auto.
  - right. by split_and!.
Defined.

(** The client sent this command. *)
Definition said (w : World) (name : str) (args : list str) : Prop :=
  exists line r cmd, line_of (w_input w) line /\ parse_command (trim_eol line) = Some (r, cmd)
    /\ to_ascii_uppercase (cmd_name cmd) = name /\ cmd_args cmd = args.

Lemma said_auth w kw v rest keyword : said w (lit "AUTHINFO") (kw :: v :: rest) ->
  str_eqb (to_ascii_uppercase kw) keyword = true -> says_auth (w_input w) keyword v.
Proof.
  intros (line & r & cmd & H1 & H2 & H3 & H4) E%str_eqb_eq. by exists line, r, cmd, kw, rest.
Qed.

Definition authinfo_turns K args (HK : forall w, K w -> sure w (said w (lit "AUTHINFO") args)) :
  CommandTurns K (AuthInfoHandler (S:=S) (A:=A) args).
Proof.
  unfold AuthInfoHandler.
  refine (cut_learn _ _ (fun w s => sure w (session_known w s)) (fun w s o s' => learn_session K w s o s') (fun sess => _)).
  destruct (can_authenticate sess) eqn:Hc; cbn [negb]; [|apply write_turns].
  destruct args as [|keyword rest]; [apply write_turns|]. cbv zeta.
  destruct (str_eqb _ (lit "USER")) eqn:Eu.
  { destruct rest as [|u rest]; [apply write_turns|]. refine (cut_bind _ _ (name_user_turns _ u _) (fun _ => write_turns _ _)).
    intros w [Hw _]. eapply sure_mono; [|exact (HK w Hw)]. intros Hs. by eapply said_auth. }
  destruct (str_eqb _ (lit "PASS")) eqn:Ep; [|apply write_turns].
  destruct rest as [|password rest]; [apply write_turns|].
  destruct (pending_username sess) as [u|] eqn:Ep2; [|apply write_turns].
  refine (cut_learn _ _ (right_password u password) (fun w s o s' => learn_password _ u password w s o s') (fun ok => _)).
  destruct ok; [|apply write_turns]. apply login_turns. intros w [[Hw Hs] Hv].
  destruct (HK w Hw) as [?|Hsaid]; [by left|]. destruct Hs as [?|Hs]; [by left|].
  eapply sure_mono; [|exact (Hv eq_refl)]. intros (t & Ht & Hvt).
  split; [rewrite <- (sn_policy _ _ Hs); exact Hc|]. exists password, t. split_and!; try done.
  - by apply (sn_named _ _ Hs).
  - by eapply said_auth.
Defined.
End Login.

(** ** Dispatch, the loop, the greeting and the leave-taking *)
Section Connection.
Context {X : Ext} {Net : MilterNet} {S A : Type} `{Storage S} `{AuthProvider A}.
Notation World := (World (S:=S) (A:=A)).
Context (K : World -> Prop).

(** A cut of every handler of the table, for arguments the client sent with its name. *)
Inductive each {B} (P : B -> Type) : list B -> Type :=
| each_nil : each P []
| each_cons b l : P b -> each P l -> each P (b :: l).

Definition heard (name : str) (args : list str) (w : World) : Prop := K w /\ sure w (said w name args).

Lemma auth_heard args w : heard (lit "AUTHINFO") args w -> sure w (said w (lit "AUTHINFO") args).
Proof. by intros []. Qed.

Definition handlers_turns :
  each (fun nh => forall args, CommandTurns (heard (fst nh) args) (snd nh args)) (handlers (S:=S) (A:=A)).
Proof.
  unfold handlers. repeat constructor; intros args; unfold fst, snd;
    first [solve [cut_calls] | exact (authinfo_turns _ args (auth_heard args))].
Defined.

Definition found_turns {B} {P : B -> Type} {K' D} (m : option B -> M (Ctx S A) D) (p : B -> bool)
    (some : forall b, p b = true -> P b -> CommandTurns K' (m (Some b))) (none : CommandTurns K' (m None)) :
  forall l, each P l -> CommandTurns K' (m (find_first p l)).
Proof.
  intros l Hl. induction Hl as [|b l Hb Hl IH]; [exact none|]. unfold find_first in *. cbn [List.find].
  destruct (p b) eqn:Ep; [by apply some|exact IH].
Defined.

Definition dispatch_turns cmd :
  CommandTurns (heard (to_ascii_uppercase (cmd_name cmd)) (cmd_args cmd)) (dispatch_command (S:=S) (A:=A) cmd).
Proof.
  unfold dispatch_command.
  refine (found_turns (fun o => match o with Some (_, handler) => handler (cmd_args cmd)
                                | None => net (write_all RESP_500_UNKNOWN_CMD) end) _ _ _ _ handlers_turns).
  - intros [name handler] Hn h. refine (cut_known _ _ _ (h _)). intros w Hw. simpl in *.
    apply str_eqb_eq in Hn. by rewrite <- Hn.
  - apply write_all_turns.
Defined.

(** The line that was read is one of those the client sends. *)
Lemma learn_line w (c : Ctx S A) o c' : K w -> knows w c -> read_command_line c = (o, c') ->
  told w c c' /\ forall r, o = Ret r -> match r with Some (x :: l) => sure w (line_of (w_input w) (x :: l)) | _ => True end.
Proof.
  intros _ Hk E.
  assert (Hr : exists o1, conn_read_line (cx_conn c) = (o1, cx_conn c') /\ c' = set_conn (cx_conn c') c
    /\ forall l, o = Ret (Some l) -> o1 = Ret l).
  { unfold read_command_line in E. destruct (conn_read_line (cx_conn c)) as [o1 k]. exists o1.
    by destruct o1; injection E as <- <-; split_and!; try done; intros l0 [= ->]. }
  destruct Hr as (o1 & Ek & -> & Ho). destruct (conn_read_line_reads _ _ _ Ek) as [Hread Hline]. split.
  - apply apart_told; [done|by split|by split].
  - intros [[|x l]|] ->; [done| |done]. eapply sure_mono; [|exact Hk]. intros (_ & _ & Hi & _).
    eapply line_of_later; [exact Hi|]. apply Hline, Ho. done.
Qed.

(** The command of a line. *)
Definition parsed_turns K' (o : option (str * Command))
    (Ho : forall r cmd, o = Some (r, cmd) -> forall w, K' w -> heard (to_ascii_uppercase (cmd_name cmd)) (cmd_args cmd) w) :
  CommandTurns K' (match o with
                   | None => net (write_all RESP_500_SYNTAX) ;;; mreturn true
                   | Some (_, cmd) =>
                       if str_eqb (cmd_name cmd) (lit "QUIT")
                       then net (write_all RESP_205_CLOSING) ;;; mreturn false
                       else _ <-- mcatch (dispatch_command (S:=S) (A:=A) cmd) ;;; mreturn true
                   end)%m.
Proof.
  destruct o as [[r cmd]|]; [|cut_calls].
  destruct (str_eqb (cmd_name cmd) (lit "QUIT")); [cut_calls|].
  exact (cut_bind _ _ (cut_catch _ _ (cut_known _ _ (Ho r cmd eq_refl) (dispatch_turns cmd))) (fun _ => cut_ret _ _ _ _)).
Defined.

Lemma line_heard x l r cmd w : parse_command (trim_eol (x :: l)) = Some (r, cmd) ->
  K w /\ sure w (line_of (w_input w) (x :: l)) -> heard (to_ascii_uppercase (cmd_name cmd)) (cmd_args cmd) w.
Proof.
  intros Ep [Hw Hl]. split; [exact Hw|]. eapply sure_mono; [|exact Hl]. intros Hline. by exists (x :: l), r, cmd.
Qed.

Definition client_turn_turns : CommandTurns K (client_turn (S:=S) (A:=A)).
Proof.
  unfold client_turn. refine (cut_learn _ _ _ learn_line (fun r => _)).
  destruct r as [[|x l]|]; [apply cut_ret| |apply cut_ret].
  exact (parsed_turns _ (parse_command (trim_eol (x :: l))) (fun r cmd Ep w => line_heard x l r cmd w Ep)).
Defined.
Definition client_done_turns : CommandTurns K (client_done (S:=S) (A:=A)).
Proof. unfold client_done. cut_calls. Defined.
Definition greeting_turns : CommandTurns K (greeting (S:=S) (A:=A)).
Proof. unfold greeting. cut_calls. Defined.
End Connection.
