(* ===== verification/Replies.v ===== *)
(** * Replies: what the commands answer

    The handlers of [ArticleHandlers.v], [GroupHandlers.v] and [PostHandlers.v] as functions
    of what the stores hold: the bytes a client gets back, the selection a reader is left
    with, and what is queued. *)

From stdpp Require Import base numbers list gmap strings relations.
From Stdlib Require Import NArith ZArith Lia Sorted.
From S2P Require Import Prelude Text Externals Message Wildmat Config Limits Auth SqliteAuth Tracker Storage SqliteStorage Responses Session Wire Control Milter Filters Queue Context ArticleHandlers GroupHandlers PostHandlers Server.
Local Open Scope N_scope.

(** The context after a text is written. *)
Definition replied {S A} (s : str) (c : Ctx S A) : Ctx S A := set_conn (wrote s (cx_conn c)) c.

Section Texts.
Context {S A : Type}.
Implicit Types c : Ctx S A.

Lemma write_replied s c : write s c = (Ret tt, replied s c).
Proof. reflexivity. Qed.

Lemma replied_app s t c : replied t (replied s c) = replied (s ++ t) c.
Proof. unfold replied, set_conn. simpl. by rewrite wrote_app. Qed.

Lemma net_wrote (m : M Conn unit) s c : m (cx_conn c) = (Ret tt, wrote s (cx_conn c)) ->
  net m c = (Ret tt, replied s c).
Proof. unfold net, mzoom. by intros ->. Qed.

(** A text is written, then the rest runs. *)
Lemma then_replied {B} (m : M (Ctx S A) unit) (f : unit -> M (Ctx S A) B) s c : m c = (Ret tt, replied s c) ->
  mbind' m f c = f tt (replied s c).
Proof. apply mbind_Ret. Qed.

Lemma net_write_all s c : net (write_all s) c = (Ret tt, replied s c).
Proof. reflexivity. Qed.

Lemma storage_gets_replied {B} (f : S -> B) s c :
  storage_gets f (replied s c) = (Ret (f (sto_storage (cx_stores c))), replied s c).
Proof. reflexivity. Qed.
End Texts.
Arguments replied : simpl never.

Lemma number_not_angle n s : is_angle (show_N n ++ s) = false.
Proof.
  unfold is_angle, bracketed. pose proof (show_N_digits n) as Hd.
  destruct (show_N n) as [|d t] eqn:Es; [by apply show_N_nonempty in Es|]. simpl in Hd.
  assert (starts_with [ch "<"] ((d :: t) ++ s) = false) as ->; [|done].
  unfold starts_with. cbn [strip_prefix app]. by destruct (N.eqb_spec (ch "<") d) as [<-|].
Qed.

Lemma show_N_not_angle n : is_angle (show_N n) = false.
Proof. rewrite <- (app_nil_r (show_N n)). apply number_not_angle. Qed.

(** ** Retrieving articles *)
Definition content_text (o : ArticleOperation) (a : Message) : str :=
  match o with
  | Full => article_text a ++ RESP_DOT_CRLF
  | Headers => headers_text (headers a) ++ RESP_DOT_CRLF
  | Body => body_text (body a) ++ RESP_DOT_CRLF
  | Stat => []
  end.
Definition operation_reply (o : ArticleOperation) (num : N) (a : Message) : str :=
  status_line o num a ++ content_text o a.

Section Retrieval.
Context {X : Ext} {Net : MilterNet} {S A : Type} `{Storage S} `{!StorageLaws S} `{AuthProvider A}.
Implicit Types c : Ctx S A.

Lemma send_content_replied o a c : send_content o a c = (Ret tt, replied (content_text o a) c).
Proof.
  assert (Hh : forall c, net (send_headers a) c = (Ret tt, replied (headers_text (headers a)) c))
    by (intros c'; apply net_wrote, send_headers_wrote).
  assert (Hb : forall c, net (send_body (body a)) c = (Ret tt, replied (body_text (body a)) c))
    by (intros c'; apply net_wrote, send_body_wrote).
  unfold send_content, content_text, article_text. destruct o.
  - rewrite (then_replied _ _ _ _ (Hh _)), (then_replied _ _ _ _ (net_write_all _ _)).
    rewrite (then_replied _ _ _ _ (Hb _)), net_write_all, !replied_app. by rewrite <- !app_assoc.
  - by rewrite (then_replied _ _ _ _ (Hh _)), net_write_all, replied_app.
  - by rewrite (then_replied _ _ _ _ (Hb _)), net_write_all, replied_app.
  - unfold replied. rewrite wrote_nil. by destruct c.
Qed.

Lemma send_one o num a c :
  send_articles o None [(num, a)] c = (Ret tt, replied (operation_reply o num a) c).
Proof.
  cbn [send_articles]. rewrite (mbind_Ret _ _ c Allowed c) by reflexivity.
  rewrite decide_False by done.
  rewrite (then_replied _ _ _ _ (net_write_all _ _)).
  rewrite (then_replied _ _ _ _ (send_content_replied _ _ _)). by rewrite replied_app.
Qed.

(** What the handler shared by the four commands answers. *)
Lemma retrieval_handled (o : ArticleOperation) c (sess := cx_session c) (s := sto_storage (cx_stores c)) :
  limited_user sess = None ->
  (forall id, is_angle id = true ->
    article_handler o [id] c = (Ret tt, replied
      match get_article_by_id id s with
      | Ok (Some a) => operation_reply o 0 a
      | _ => RESP_430_NO_ARTICLE
      end c))
  /\ (forall g n, n <= u64_max -> current_group sess = Some g ->
       article_handler o [show_N n] c =
       match get_article_by_number g n s with
       | Ok (Some a) =>
           (Ret tt, replied (operation_reply o n a) (set_session (set_current_article n sess) c))
       | _ => (Ret tt, replied RESP_423_NO_ARTICLE_NUM c)
       end)
  /\ article_handler o [] c = (Ret tt, replied
       match current_group sess, current_article sess with
       | Some g, Some n => match get_article_by_number g n s with
                           | Ok (Some a) => operation_reply o n a
                           | _ => RESP_420_NO_CURRENT
                           end
       | Some _, None => RESP_420_NO_CURRENT
       | None, _ => RESP_412_NO_GROUP
       end c).
Proof.
  intros Hu. subst sess s.
  assert (Hop : forall args, article_handler o args c = handle_article_operation o None args c).
  { intros args. unfold article_handler, session, mbind', mgets. by rewrite Hu. }
  split; [|split].
  - intros id Hid. rewrite Hop. unfold handle_article_operation, resolve_articles. cbn [head].
    unfold mbind' at 1, mbind' at 1, session, mgets. rewrite Hid. unfold mbind' at 1, storage_gets, mgets, mreturn.
    destruct (get_article_by_id _ _) as [[a|]|e]; [apply send_one|reflexivity..].
  - intros g n Hn Hg. rewrite Hop. unfold handle_article_operation, resolve_articles. cbn [head].
    unfold mbind' at 1, mbind' at 1, session, mgets. cbn [id].
    assert (is_angle (show_N n) = false) as ->.
    { apply show_N_not_angle. }
    rewrite Hg. rewrite (mbind_Ret _ _ _ _ _ (range_numbers_ret g (show_N n) [n] c (range_of_one g n _ Hn))).
    cbn [resolve_numbers]. unfold mbind' at 1, storage_gets, mgets, mreturn.
    destruct (get_article_by_number _ _ _) as [[a|]|e]; [|reflexivity..].
    unfold mbind' at 1, update_session, mmodify. cbn [app]. apply send_one.
  - rewrite Hop. unfold handle_article_operation, resolve_articles. cbn [head].
    unfold mbind' at 1, mbind' at 1, session, mgets. cbn [id].
    destruct (current_group _) as [g|]; [|reflexivity].
    destruct (current_article _) as [n|]; [|reflexivity].
    unfold mbind' at 1, storage_gets, mgets, mreturn.
    destruct (get_article_by_number _ _ _) as [[a|]|e]; [apply send_one|reflexivity..].
Qed.

(** The replies, as RFC 3977 writes them (6.2.1 to 6.2.4): the code and the number, the
    Message-ID, and the part of the article asked for, ended by a dot. *)
Definition article_reply (o : ArticleOperation) (number message_id : str) (a : Message) : str :=
  let dot := lit "." ++ crlf in
  match o with
  | Full => lit "220 " ++ number ++ lit " " ++ message_id ++ lit " article follows" ++ crlf ++ article_text a ++ dot
  | Headers => lit "221 " ++ number ++ lit " " ++ message_id ++ lit " article headers follow" ++ crlf
               ++ headers_text (headers a) ++ dot
  | Body => lit "222 " ++ number ++ lit " " ++ message_id ++ lit " article body follows" ++ crlf
            ++ body_text (body a) ++ dot
  | Stat => lit "223 " ++ number ++ lit " " ++ message_id ++ lit " article exists" ++ crlf
  end.
Definition retrieval_command (o : ArticleOperation) : str :=
  match o with Full => lit "ARTICLE" | Headers => lit "HEAD" | Body => lit "BODY" | Stat => lit "STAT" end.

Lemma operation_reply_text o n a :
  operation_reply o n a = article_reply o (show_N n) (default [] (extract_message_id a)) a.
Proof. destruct o; unfold operation_reply, status_line, article_reply; by rewrite <- !app_assoc. Qed.

Lemma retrieval_dispatched o args c : dispatch_command (mkCommand (retrieval_command o) args) c = article_handler o args c.
Proof. by destruct o. Qed.

(** C9: the commands ARTICLE, HEAD, BODY and STAT answer a client without limits from the
    store and change nothing else: by Message-ID with the number 0 and the Message-ID asked
    for, and without an argument, the selection stays; by number the article found is
    selected; what is not there is refused with the code of the case. *)
Theorem retrieval_reply (o : ArticleOperation) c (sess := cx_session c) (s := sto_storage (cx_stores c)) :
  st_wf s -> limited_user sess = None ->
  let command args := dispatch_command (mkCommand (retrieval_command o) args) in
  let named a := default [] (extract_message_id a) in
  (forall id, is_angle id = true ->
    command [id] c = (Ret tt, replied
      match get_article_by_id id s with
      | Ok (Some a) => article_reply o (lit "0") id a
      | _ => lit "430 no such article" ++ crlf
      end c))
  /\ (forall g n, n <= u64_max -> current_group sess = Some g ->
       command [show_N n] c =
       match get_article_by_number g n s with
       | Ok (Some a) =>
           (Ret tt, replied (article_reply o (show_N n) (named a) a) (set_session (set_current_article n sess) c))
       | _ => (Ret tt, replied (lit "423 no such article number in this group" ++ crlf) c)
       end)
  /\ command [] c = (Ret tt, replied
       match current_group sess, current_article sess with
       | Some g, Some n => match get_article_by_number g n s with
                           | Ok (Some a) => article_reply o (show_N n) (named a) a
                           | _ => lit "420 no current article selected" ++ crlf
                           end
       | Some _, None => lit "420 no current article selected" ++ crlf
       | None, _ => lit "412 no newsgroup selected" ++ crlf
       end c).
Proof.
  intros Hwf Hu. subst sess s. cbv beta zeta. rewrite retrieval_dispatched.
  destruct (retrieval_handled o c Hu) as (H1 & H2 & H3). splits.
  - intros id Hid. rewrite retrieval_dispatched, (H1 id Hid).
    destruct (get_article_by_id id _) as [[a|]|e] eqn:Ea; [|reflexivity..].
    destruct (by_id_named id _ a Hwf Ea) as [Hm _]. by rewrite operation_reply_text, Hm.
  - intros g n Hn Hg. rewrite retrieval_dispatched, (H2 g n Hn Hg).
    destruct (get_article_by_number g n _) as [[a|]|e]; [|reflexivity..]. by rewrite operation_reply_text.
  - rewrite H3. destruct (current_group _) as [g|]; [|reflexivity]. destruct (current_article _) as [n|]; [|reflexivity].
    destruct (get_article_by_number g n _) as [[a|]|e]; [|reflexivity..]. by rewrite operation_reply_text.
Qed.

(** The context after the bandwidth of a reply is checked, and after it is recorded. *)
Definition checked (tr : UsageTracker) c : Ctx S A :=
  mkCtx (cx_conn c) (cx_session c) (cx_stores c) tr (cx_config c) (cx_queue c) (cx_clock c)
    (Datatypes.S (cx_tick c)).
Definition charged (u : str) (bytes : N) c : Ctx S A :=
  checked (record_bandwidth (cx_clock c (cx_tick c)) u bytes false (cx_tracker c)) c.

(** A limited client is sent the article asked for by Message-ID when its size fits the
    bandwidth of the client, and the size is recorded as downloaded; when it does not fit
    the client is sent the refusal only, and nothing is recorded. *)
Theorem limited_retrieval (o : ArticleOperation) c (u id : str) (a : Message)
    (r : LimitCheckResult) (tr : UsageTracker) :
  limited_user (cx_session c) = Some u -> is_angle id = true ->
  get_article_by_id id (sto_storage (cx_stores c)) = Ok (Some a) -> 0 < article_size o a ->
  check_bandwidth (cx_clock c (cx_tick c)) u (article_size o a) (sto_auth (cx_stores c)) (cx_tracker c)
    = (Ret r, tr) ->
  article_handler o [id] c
  = (Ret tt, if decide (r = BandwidthExceeded)
             then replied RESP_403_BANDWIDTH_EXCEEDED (checked tr c)
             else charged u (article_size o a) (replied (operation_reply o 0 a) (checked tr c))).
Proof.
  intros Hu Hid Hget Hsize Hcheck.
  assert (Hr : resolve_articles (Some id) c = (Ret (inr [(0, a)]), c)).
  { unfold resolve_articles. unfold mbind' at 1, session, mgets. rewrite Hid.
    unfold mbind', storage_gets, mgets, mreturn. by rewrite Hget. }
  unfold article_handler. rewrite (mbind_Ret _ _ c (Some u) c)
    by (unfold session, mgets; by rewrite Hu).
  unfold handle_article_operation. cbn [head]. rewrite (mbind_Ret _ _ _ _ _ Hr).
  cbn [send_articles]. apply N.ltb_lt in Hsize. rewrite Hsize. cbv zeta.
  assert (Hc : bandwidth_check u (article_size o a) c = (Ret r, checked tr c)).
  { unfold bandwidth_check, mbind', now, with_tracker. cbn [cx_stores cx_tracker].
    by rewrite Hcheck. }
  rewrite (mbind_Ret _ _ _ _ _ Hc). destruct (decide _); [reflexivity|].
  rewrite (then_replied _ _ _ _ (net_write_all _ _)).
  rewrite (then_replied _ _ _ _ (send_content_replied _ _ _)), replied_app. reflexivity.
Qed.
End Retrieval.

(** ** Selecting a group and moving in it *)
Section Navigation.
Context {X : Ext} {Net : MilterNet} {S A : Type} `{Storage S} `{!StorageLaws S} `{AuthProvider A}.
Implicit Types c : Ctx S A.

Lemma ask_ok {B} (f : S -> result B) c b : f (sto_storage (cx_stores c)) = Ok b ->
  ask f c = (Ret b, c).
Proof.
  intros E. unfold ask, stores, mzoom, ask_storage. rewrite E. by destruct c.
Qed.

Lemma numbers_collected g c nums : list_article_numbers g (sto_storage (cx_stores c)) = Ok <$> nums ->
  ask (fun s => try_collect (list_article_numbers g s)) c = (Ret nums, c).
Proof. intros E. apply ask_ok. by rewrite E, try_collect_Ok. Qed.

Lemma sorted_bounds (l : list N) n : StronglySorted N.lt l -> In n l ->
  default 0 (head l) <= n <= default 0 (last l).
Proof.
  intros Hl Hn. induction Hl as [|a l Hl IH Ha]; [done|]. rewrite Forall_forall in Ha.
  assert (Hla : a <= default 0 (last (a :: l))).
  { rewrite last_cons. destruct (last l) as [b|] eqn:E; simpl; [|lia].
    apply last_Some_elem_of, Ha in E. lia. }
  destruct Hn as [->|Hn]; [simpl; lia|]. specialize (IH Hn).
  assert (a < n) by by apply Ha, elem_of_list_In.
  rewrite last_cons in *. destruct l; [done|]. simpl in *.
  destruct (last (n0 :: l)) eqn:E; simpl in *; [lia|]. by apply last_None in E.
Qed.

(** C2: GROUP on a group that exists answers "211 count low high name" - the number of its
    articles and the lowest and highest of their numbers, 0 when there is none - and selects the group
    and its first article, changing nothing else of the session; on another name it answers
    411 and leaves the selection; a store that fails ends the command with its error. *)
Theorem group_reply c (g : str) (rest : list str) :
  st_wf (sto_storage (cx_stores c)) ->
  match group_exists g (sto_storage (cx_stores c)) with
  | Ok true => exists nums s,
      list_article_numbers g (sto_storage (cx_stores c)) = Ok <$> nums
      /\ StronglySorted N.lt nums
      /\ dispatch_command (mkCommand (lit "GROUP") (g :: rest)) c
         = (Ret tt, set_session s (set_conn (mkConn (c_in (cx_conn c)) (c_end (cx_conn c))
             (c_out (cx_conn c) ++ lit "211 " ++ show_N (N.of_nat (length nums)) ++ lit " "
                ++ show_N (default 0 (head nums)) ++ lit " " ++ show_N (default 0 (last nums)) ++ lit " " ++ g ++ crlf)) c))
      /\ current_group s = Some g /\ current_article s = head nums
      /\ session_steady (cx_session c) s /\ in_stream_mode s = in_stream_mode (cx_session c)
      /\ forall n, In n nums -> default 0 (head nums) <= n <= default 0 (last nums)
  | Ok false => dispatch_command (mkCommand (lit "GROUP") (g :: rest)) c
      = (Ret tt, set_conn (mkConn (c_in (cx_conn c)) (c_end (cx_conn c))
           (c_out (cx_conn c) ++ lit "411 no such newsgroup" ++ crlf)) c)
  | Err e => dispatch_command (mkCommand (lit "GROUP") (g :: rest)) c = (Fail e, c)
  end.
Proof.
  intros Hwf. change (dispatch_command (mkCommand (lit "GROUP") (g :: rest))) with (GroupHandler (S:=S) (A:=A) (g :: rest)).
  unfold GroupHandler. destruct (group_exists g _) as [[|]|e] eqn:E.
  - destruct (group_listed g _ Hwf E) as (nums & Hn). exists nums, (select_group g (head nums) (cx_session c)).
    pose proof (numbers_increase g _ _ Hwf Hn) as Hsorted.
    split; [done|]. split; [done|]. split; [|split; [done|]; split; [done|]; split; [by split|]; split; [done|]; intros n; by apply sorted_bounds].
    rewrite (mbind_Ret _ _ _ _ _ (ask_ok _ _ _ E)). cbn [negb].
    by rewrite (mbind_Ret _ _ _ _ _ (numbers_collected _ _ _ Hn)).
  - by rewrite (mbind_Ret _ _ _ _ _ (ask_ok _ _ _ E)).
  - apply mbind_Fail. unfold ask, stores, mzoom, ask_storage. rewrite E. by destruct c.
Qed.

Lemma position_split (before after : list N) n : n ∉ before ->
  position n (before ++ n :: after) = Some (length before).
Proof.
  induction before as [|m before IH]; intros Hn; cbn [app position length].
  - by rewrite N.eqb_refl.
  - rewrite not_elem_of_cons in Hn. destruct Hn as [Hm Hn].
    destruct (N.eqb_spec m n); [done|]. by rewrite IH.
Qed.

(** The article a step goes to, given the numbers before and after the current one. *)
Definition step_target (d : NavigationDirection) (before : list N) (cur : N) (after : list N)
  : option N :=
  match d with
  | Next => head after
  | Previous => Some (default cur (last before))
  end.
Definition step_line (n : N) (a : Message) : str :=
  lit "223 " ++ show_N n ++ lit " " ++ default [] (extract_message_id a)
  ++ lit " article exists" ++ crlf.

(** C28: in the selected group NEXT goes to the next higher number that is listed and LAST
    to the next lower one, and the article there is selected and named; at the end NEXT
    answers 421 and leaves the selection, while LAST at the first article answers 223
    for the same article instead of 422. *)
Theorem navigation_reply (d : NavigationDirection) c (g : str) (before after : list N) (cur : N) :
  st_wf (sto_storage (cx_stores c)) ->
  current_group (cx_session c) = Some g -> current_article (cx_session c) = Some cur ->
  list_article_numbers g (sto_storage (cx_stores c)) = Ok <$> (before ++ cur :: after) ->
  exists r, navigate_article d c = (Ret tt, r) /\
  match step_target d before cur after with
  | None => r = replied RESP_421_NO_NEXT c
  | Some n =>
      match get_article_by_number g n (sto_storage (cx_stores c)) with
      | Ok (Some a) => r = replied (step_line n a) (set_session (set_current_article n (cx_session c)) c)
      | _ => r = replied (error_response d) c
      end
  end.
Proof.
  intros Hwf Hg Hcur Hn.
  assert (Hpos : position cur (before ++ cur :: after) = Some (length before)).
  { apply position_split. intros Hin. pose proof (numbers_increase g _ _ Hwf Hn) as Hsorted.
    apply list_elem_of_split in Hin as (l1 & l2 & ->).
    rewrite <- app_assoc in Hsorted. clear -Hsorted. induction l1 as [|x l1 IH]; simpl in Hsorted.
    - inversion Hsorted as [|? ? _ Hf]. rewrite Forall_forall in Hf.
      assert (cur < cur); [apply Hf; set_solver|lia].
    - inversion Hsorted. by apply IH. }
  unfold navigate_article. unfold mbind' at 1, session, mgets. cbn [id].
  rewrite Hg, Hcur. rewrite (mbind_Ret _ _ _ _ _ (numbers_collected _ _ _ Hn)), Hpos. cbv zeta.
  assert (Ht : (before ++ cur :: after) !! match d with
           | Next => (length before + 1)%nat | Previous => (length before - 1)%nat end
           = step_target d before cur after).
  { destruct d; simpl.
    - rewrite lookup_app_r by lia. replace (length before + 1 - length before)%nat with 1%nat by lia.
      simpl. by destruct after.
    - destruct before as [|b before _] using rev_ind; [done|].
      rewrite last_snoc, length_app. simpl.
      replace (length before + 1 - 1)%nat with (length before) by lia.
      rewrite <- app_assoc. by apply list_lookup_middle. }
  rewrite Ht. destruct (step_target d before cur after) as [n|] eqn:Es.
  - destruct (get_by_number_total g n _ _ Hwf Hn) as (r & Hr). rewrite Hr.
    rewrite (mbind_Ret _ _ _ _ _ (ask_ok _ _ _ Hr)). destruct r as [a|]; by eexists.
  - destruct d; [by eexists|done].
Qed.
End Navigation.

(** ** The pattern of NEWNEWS and LIST ACTIVE *)
Section Patterns.
Context {X : Ext} {L : RegexLaws} {Net : MilterNet} {S A : Type} `{Storage S} `{AuthProvider A}.
Implicit Types c : Ctx S A.

Lemma loop_skips (groups : list str) (f : str -> M (Ctx S A) unit) c :
  (forall g, In g groups -> f g c = (Ret tt, c)) -> mfor_stream (Ok <$> groups) f c = (Ret tt, c).
Proof.
  intros Hf. induction groups as [|g gs IH]; csimpl; [done|].
  rewrite (mbind_Ret _ _ _ _ _ (Hf g (or_introl eq_refl))). apply IH. intros g' Hg. apply Hf. by right.
Qed.

(** NEWNEWS and LIST ACTIVE take the name of a group for the pattern and the client's
    pattern for the text: when no group name has special characters, a pattern that is
    not itself the name of a group - every pattern with a wildcard - lists nothing. *)
Theorem pattern_lists_nothing c (pattern date time : str) (groups : list str) (since : Z) :
  list_groups (sto_storage (cx_stores c)) = Ok <$> groups ->
  (forall g, In g groups -> forallb literal_char g = true) -> ~ In pattern groups ->
  parse_since date time None = inr since ->
  NewNewsHandler [pattern; date; time] c
    = (Ret tt, replied (RESP_230_NEWNEWS ++ RESP_DOT_CRLF) c)
  /\ ListHandler [lit "ACTIVE"; pattern] c
    = (Ret tt, replied (RESP_215_LIST_FOLLOWS ++ RESP_DOT_CRLF) c).
Proof.
  intros Hgs Hlit Hp Hsince.
  assert (Hw : forall g, In g groups -> wildmat g pattern = false).
  { intros g Hg. rewrite wildmat_literal by auto. unfold str_eqb.
    apply bool_decide_eq_false. by intros ->. }
  split.
  - unfold NewNewsHandler. cbn [lookup list_lookup]. rewrite Hsince.
    rewrite (then_replied _ _ _ _ (write_replied _ _)).
    rewrite (mbind_Ret _ _ _ _ _ (storage_gets_replied _ _ _)), Hgs.
    rewrite (mbind_Ret _ _ (replied RESP_230_NEWNEWS c) tt (replied RESP_230_NEWNEWS c)).
    + by rewrite net_write_all, replied_app.
    + apply loop_skips. intros g Hg. unfold newnews_group. by rewrite Hw.
  - change (ListHandler [lit "ACTIVE"; pattern] c) with (handle_list_active (Some pattern) c).
    unfold handle_list_active. rewrite (then_replied _ _ _ _ (write_replied _ _)).
    rewrite (mbind_Ret _ _ _ _ _ (storage_gets_replied _ _ _)), Hgs.
    rewrite (mbind_Ret _ _ (replied RESP_215_LIST_FOLLOWS c) tt (replied RESP_215_LIST_FOLLOWS c)).
    + by rewrite net_write_all, replied_app.
    + apply loop_skips. intros g Hg. unfold list_active_group. by rewrite Hw.
Qed.
End Patterns.

(** ** Posting *)
Section Posting.
Context {X : Ext} {Net : MilterNet} {S A : Type} `{Storage S} `{AuthProvider A}.
Implicit Types c : Ctx S A.

(** What is done between the parts of a handler: the clock is read, the tracker consulted,
    keys are stored. *)
Record aside c c' : Prop := {
  as_conn : cx_conn c' = cx_conn c;
  as_session : cx_session c' = cx_session c;
  as_config : cx_config c' = cx_config c;
  as_queue : cx_queue c' = cx_queue c;
  as_stores : only_keys (cx_stores c) (cx_stores c');
}.
#[local] Instance aside_preorder : PreOrder aside.
Proof.
  split; [by intros c; split|]. intros x y z [] []. split; try congruence. by etrans.
Qed.

Lemma now_aside : moves aside (now (S:=S) (A:=A)).
Proof. intros c o c' E. by injection E as _ <-. Qed.

Lemma tracker_aside {B} (f : A -> UsageTracker -> outcome B * UsageTracker) :
  moves aside (with_tracker (S:=S) f).
Proof.
  intros c o c'. unfold with_tracker. destruct (f _ _). intros E. by injection E as _ <-.
Qed.

Lemma check_aside u n : moves aside (bandwidth_check (S:=S) (A:=A) u n).
Proof. apply moves_bind; [apply _|apply now_aside|intros t; apply tracker_aside]. Qed.

Lemma complete_aside a c : exists t c1,
  complete a c = (Ret (complete_article t (cx_config c) a), c1) /\ aside c c1.
Proof. eexists _, _. split; [reflexivity|by split]. Qed.

Lemma rejected_cases n c o c1 : check_bandwidth_rejected n c = (o, c1) ->
  (o = Ret true /\ exists c0, aside c c0 /\ c1 = replied RESP_403_BANDWIDTH_EXCEEDED c0)
  \/ (o <> Ret true /\ aside c c1).
Proof.
  unfold check_bandwidth_rejected, mbind' at 1, session, mgets.
  destruct (limited_user _) as [u|]; [|intros E; injection E as <- <-; by right].
  unfold mbind' at 1. destruct (bandwidth_check u n c) as [r c0] eqn:E. apply check_aside in E.
  destruct r as [r| | |]; [|intros E1; injection E1 as <- <-; by right..].
  destruct (decide _); intros E1; injection E1 as <- <-; [left; eauto|by right].
Qed.

Lemma validate_cases a n c o c1 : validate a n c = (o, c1) ->
  aside c c1 /\ (o = Ret (Ok tt) -> exists t,
    comprehensive_validate_article (cx_config c) a n (cx_stores c) = (Ret tt, t)).
Proof.
  unfold validate, mbind' at 1, config, mgets, mcatch, stores, mzoom.
  destruct (comprehensive_validate_article _ _ _ _) as [r t] eqn:E.
  pose proof (comprehensive_moves _ _ _ _ _ _ E) as Hk.
  intros E1. split; [|intros ->; destruct r as [[]| | |]; try done; by exists t].
  destruct r; injection E1 as _ <-; by split.
Qed.

Lemma record_aside n up c : exists c1, record_bandwidth_usage n up c = (Ret tt, c1) /\ aside c c1.
Proof.
  unfold record_bandwidth_usage, mbind' at 1, session, mgets.
  destruct (limited_user _); eexists; by split.
Qed.

Lemma read_message_quiet : moves (fun k k' : Conn => c_out k' = c_out k) read_message.
Proof.
  assert (Hpre : PreOrder (fun k k' : Conn => c_out k' = c_out k))
    by (split; [done|by intros ? ? ? -> ->]).
  assert (Hline : moves (fun k k' : Conn => c_out k' = c_out k) conn_read_line).
  { intros k o k'. unfold conn_read_line. destruct (read_line_in _ _) as [[] rest];
      intros E; by injection E as _ <-. }
  assert (Hl : forall fuel msg,
    moves (fun k k' : Conn => c_out k' = c_out k) (read_message_loop fuel msg)).
  { induction fuel as [|fuel IH]; intros msg; [by apply moves_out|].
    cbn [read_message_loop]. apply moves_bind; [done|exact Hline|].
    intros line. destruct (_ || _); [by apply moves_ret|]. destruct (starts_with _ _); apply IH. }
  intros k. exact (Hl _ _ k).
Qed.

(** The article was received, passed the validation, is queued and acknowledged. *)
Definition posted c c' (o : outcome unit) : Prop :=
  exists msg conn a t st st',
    read_message (wrote RESP_340_SEND_ARTICLE (cx_conn c)) = (Ret msg, conn)
    /\ parse_message msg = Some a
    /\ sto_storage st = sto_storage (cx_stores c)
    /\ comprehensive_validate_article (cx_config c) (complete_article t (cx_config c) a)
         (utf8_len msg) st = (Ret tt, st')
    /\ cx_queue c' = submit (mkQueuedArticle (complete_article t (cx_config c) a) (utf8_len msg)
                              (is_control_message a) true) (cx_queue c)
    /\ cx_conn c' = wrote RESP_240_ARTICLE_RECEIVED conn /\ o = Ret tt.

(** Nothing was queued, and the client was not told that something was. *)
Definition not_posted c c' : Prop :=
  cx_queue c' = cx_queue c
  /\ exists r, In r [[]; RESP_440_POST_PROHIBITED; RESP_340_SEND_ARTICLE;
                     RESP_340_SEND_ARTICLE ++ RESP_441_POSTING_FAILED;
                     RESP_340_SEND_ARTICLE ++ RESP_403_BANDWIDTH_EXCEEDED]
         /\ c_out (cx_conn c') = c_out (cx_conn c) ++ r.

Lemma not_posted_reply c conn c2 r :
  c_out conn = c_out (cx_conn c) ++ RESP_340_SEND_ARTICLE -> aside (set_conn conn c) c2 ->
  In r [[]; RESP_441_POSTING_FAILED; RESP_403_BANDWIDTH_EXCEEDED] -> not_posted c (replied r c2).
Proof.
  intros Hout [Hc _ _ Hq _] Hin. split; [exact Hq|].
  exists (RESP_340_SEND_ARTICLE ++ r). unfold replied, wrote. simpl. rewrite Hc. simpl.
  rewrite Hout, <- app_assoc. split; [|done].
  destruct Hin as [<-|[<-|[<-|[]]]]; rewrite ?app_nil_r; simpl; auto 6.
Qed.

Lemma not_posted_stop c conn c2 :
  c_out conn = c_out (cx_conn c) ++ RESP_340_SEND_ARTICLE -> aside (set_conn conn c) c2 ->
  not_posted c c2.
Proof.
  intros Hout Hc2. pose proof (not_posted_reply c conn c2 [] Hout Hc2 (or_introl eq_refl)) as Hp.
  unfold replied in Hp. rewrite wrote_nil in Hp. by destruct c2.
Qed.

Lemma not_posted_aside c c1 c' : aside c c1 -> not_posted c1 c' -> not_posted c c'.
Proof.
  intros [H1 _ _ H2 _] (Hq & r & Hr & Ho). split; [congruence|]. exists r. split; [done|]. congruence.
Qed.

(** What POST does with an article that parses. *)
Lemma validated_posts c conn msg a c1 o c' : 
  read_message (wrote RESP_340_SEND_ARTICLE (cx_conn c)) = (Ret msg, conn) ->
  c_out conn = c_out (cx_conn c) ++ RESP_340_SEND_ARTICLE ->
  parse_message msg = Some a -> aside (set_conn conn c) c1 ->
  (exists t, (valid <-- validate (complete_article t (cx_config c) a) (utf8_len msg) ;;;
   match valid with
   | Err _ => write RESP_441_POSTING_FAILED
   | Ok tt =>
       submit_article (mkQueuedArticle (complete_article t (cx_config c) a) (utf8_len msg)
                         (is_control_message a) true) ;;;
       record_bandwidth_usage (utf8_len msg) true ;;;
       write RESP_240_ARTICLE_RECEIVED
   end)%m c1 = (o, c')) ->
  sto_storage (cx_stores c') = sto_storage (cx_stores c) /\ (posted c c' o \/ not_posted c c').
Proof.
  intros Er Hout Ep H1 [t E]. unfold mbind' at 1 in E.
  destruct (validate _ _ c1) as [ov c2] eqn:E2. apply validate_cases in E2 as [H2 Hv].
  assert (H12 : aside (set_conn conn c) c2) by by etrans.
  assert (Hs : sto_storage (cx_stores c2) = sto_storage (cx_stores c)) by exact (proj1 (as_stores _ _ H12)).
  destruct ov as [[[]|e]|e| |].
  2: { rewrite write_replied in E. injection E as _ <-. split; [exact Hs|]. right.
       by apply (not_posted_reply c conn); [..|right; left]. }
  2-4: injection E as _ <-; split; [exact Hs|right; by apply (not_posted_stop c conn)].
  destruct (Hv eq_refl) as [st' Hst']. rewrite (as_config _ _ H1) in Hst'.
  set (art := mkQueuedArticle _ _ _ _) in E.
  assert (Eq : submit_article art c2 = (Ret tt, set_queue (submit art (cx_queue c2)) c2)) by done.
  rewrite (mbind_Ret _ _ _ _ _ Eq) in E.
  destruct (record_aside (utf8_len msg) true (set_queue (submit art (cx_queue c2)) c2)) as (c3 & E3 & H3).
  rewrite (mbind_Ret _ _ _ _ _ E3), write_replied in E. injection E as <- <-.
  destruct H3 as [Hc3 _ _ Hq3 [Hs3 _]]. simpl in Hc3, Hq3, Hs3.
  split; [simpl; congruence|]. left. exists msg, conn, a, t, (cx_stores c1), st'.
  split_and!; [done|done|exact (proj1 (as_stores _ _ H1))|exact Hst'| | |done].
  - change (cx_queue c3 = submit art (cx_queue c)). rewrite Hq3. by rewrite (as_queue _ _ H12).
  - change (wrote RESP_240_ARTICLE_RECEIVED (cx_conn c3) = wrote RESP_240_ARTICLE_RECEIVED conn).
    rewrite Hc3. by rewrite (as_conn _ _ H12).
Qed.

Lemma receive_post_cases c o c' : receive_post c = (o, c') ->
  sto_storage (cx_stores c') = sto_storage (cx_stores c) /\ (posted c c' o \/ not_posted c c').
Proof.
  unfold receive_post. rewrite (then_replied _ _ _ _ (write_replied _ _)).
  destruct (read_message (wrote RESP_340_SEND_ARTICLE (cx_conn c))) as [om conn] eqn:Er.
  pose proof (read_message_quiet _ _ _ Er) as Hout. cbn [wrote c_out] in Hout.
  assert (Hr : net read_message (replied RESP_340_SEND_ARTICLE c) = (om, set_conn conn c)).
  { unfold net, mzoom.
    change (cx_conn (replied RESP_340_SEND_ARTICLE c)) with (wrote RESP_340_SEND_ARTICLE (cx_conn c)).
    by rewrite Er. }
  unfold mbind' at 1. rewrite Hr.
  assert (Hrefl : aside (set_conn conn c) (set_conn conn c)) by done.
  destruct om as [msg|e| |].
  2-4: intros E; injection E as _ <-; split; [done|right; by apply (not_posted_stop c conn)].
  destruct (parse_message msg) as [a|] eqn:Ep.
  2: { rewrite write_replied. intros E. injection E as _ <-. split; [done|]. right.
       by apply (not_posted_reply c conn); [..|right; left]. }
  cbv zeta. destruct (complete_aside a (set_conn conn c)) as (t & c1 & E1 & H1).
  rewrite (mbind_Ret _ _ _ _ _ E1). unfold mbind' at 1.
  destruct (check_bandwidth_rejected (utf8_len msg) c1) as [orej c2] eqn:E2.
  apply rejected_cases in E2 as [[-> (c0 & Hc0 & ->)]|[Hne H2]].
  { intros E. injection E as _ <-. assert (H10 : aside (set_conn conn c) c0) by by etrans.
    split; [exact (proj1 (as_stores _ _ H10))|]. right. by apply (not_posted_reply c conn); [..|right; right; left]. }
  assert (H12 : aside (set_conn conn c) c2) by by etrans.
  destruct orej as [[|]|e| |]; [done| |..].
  2-4: intros E; injection E as _ <-; split;
    [exact (proj1 (as_stores _ _ H12))|right; by apply (not_posted_stop c conn)].
  intros E. apply (validated_posts c conn msg a c2); [done..|]. by exists t.
Qed.

Lemma post_cases c (args : list str) o c' : PostHandler args c = (o, c') ->
  sto_storage (cx_stores c') = sto_storage (cx_stores c) /\
  if session_can_post (cx_session c) then posted c c' o \/ not_posted c c'
  else o = Ret tt /\ c' = replied (if is_tls (cx_session c) then to_response (NAuth Required)
                                  else RESP_483_SECURE_REQ) c.
Proof.
  unfold PostHandler, mbind' at 1, session, mgets. cbn [id].
  destruct (session_can_post _) eqn:Hcan; cbn [negb].
  2: { destruct (is_tls _); cbn [negb]; intros E; by injection E as <- <-. }
  set (m := match limited_user _ with Some _ => _ | None => _ end).
  assert (Hm : exists b c1, m c = (Ret b, c1) /\ aside c c1 /\ cx_conn c1 = cx_conn c).
  { unfold m. destruct (limited_user _) as [u|]; [|by eexists _, _].
    unfold mbind', with_tracker. destruct (tracker_can_post u _ _) as [r tr].
    eexists _, _. by split_and!; [reflexivity|split|]. }
  destruct Hm as (b & c1 & E1 & H1 & Hconn). rewrite (mbind_Ret _ _ _ _ _ E1). destruct b.
  - rewrite write_replied. intros E. injection E as _ <-.
    split; [exact (proj1 (as_stores _ _ H1))|]. right. split; [exact (as_queue _ _ H1)|].
    exists RESP_440_POST_PROHIBITED. split; [by right; left|]. by unfold replied; simpl; rewrite Hconn.
  - intros E. apply receive_post_cases in E as [Hs Hp]. destruct (as_stores _ _ H1) as [Hs1 _].
    split; [congruence|]. destruct Hp as [Hp|Hp]; [left|right; by apply (not_posted_aside c c1)].
    destruct Hp as (msg & conn & a & t & st & st' & Hp).
    exists msg, conn, a, t, st, st'. rewrite <- Hconn, <- (as_config _ _ H1), <- (as_queue _ _ H1), <- Hs1.
    exact Hp.
Qed.

(** POST acknowledges an article exactly when it queues it: a client that may post and
    sends an article that parses and passes the validation has it queued, completed with a
    Message-ID and a date and marked as validated, and gets 240; in every other case the
    queue is left as it was and no 240 is sent.  A client that may not post is refused
    before the article is read.  The article store is not touched. *)
Theorem post_outcome c (args : list str) o c' : PostHandler args c = (o, c') ->
  sto_storage (cx_stores c') = sto_storage (cx_stores c) /\
  if session_can_post (cx_session c) then posted c c' o \/ not_posted c c'
  else o = Ret tt /\ c' = replied (if is_tls (cx_session c) then to_response (NAuth Required)
                                  else RESP_483_SECURE_REQ) c.
Proof. apply post_cases. Qed.
End Posting.

(** ** Concrete runs *)
Definition dotted_article : Message :=
  mkMessage [(lit "From", lit "a@b"); (lit "Subject", lit "t"); (lit "Newsgroups", lit "misc.a");
             (lit "Message-ID", lit "<q@x>")] (lit ".dot" ++ crlf).
Definition two_ops : list StorageOp :=
  [OpAddGroup 0 (lit "misc.a") false; OpStore ns_per_sec plain_article; OpStore ns_per_sec dotted_article].
Definition two_db : Db := @run_storage_ops Toy.ext two_ops empty_db.
Definition two_client (s : Session) (text : str) : Ctx Db AuthDb :=
  mkCtx (mkConn (input text) Eof []) s (mkStores two_db bob_db) tracker0 default_config
    (new_queue 10) (fun _ => 0%Z) 0.
Definition reader : Session := new_session true false true.
Definition at_article (n : N) : Session := set_current_article n (select_group (lit "misc.a") (Some 1) reader).

Lemma two_db_wf : @db_wf Toy.ext two_db.
Proof. apply (@storage_ops_keep Toy.ext Toy.json_laws), db_wf_empty. Qed.

Lemma retrieval_reply_witness :
  c_out (cx_conn (snd (@dispatch_command Toy.ext no_milter Db AuthDb (@sqlite_storage Toy.ext)
                         (@sqlite_auth Toy.ext true) (mkCommand (lit "BODY") [lit "<q@x>"]) (two_client reader []))))
  = lit "222 0 <q@x> article body follows" ++ crlf ++ lit "..dot" ++ crlf ++ lit "." ++ crlf.
Proof.
  destruct (@retrieval_reply Toy.ext no_milter Db AuthDb (@sqlite_storage Toy.ext)
              (@sqlite_storage_laws Toy.ext Toy.json_laws) (@sqlite_auth Toy.ext true)
              Body (two_client reader [])) as [H _]; [exact two_db_wf|reflexivity|].
  specialize (H (lit "<q@x>") eq_refl). cbv beta zeta in H.
  change (lit "BODY") with (retrieval_command Body). rewrite H. vm_compute. reflexivity.
Defined.

Lemma limited_retrieval_witness :
  let c := two_client (authenticate (lit "bob") reader) [] in
  let tr := @load_user _ (@sqlite_auth Toy.ext true) 0 (lit "bob") bob_db tracker0 in
  let c' := snd (@article_handler Db AuthDb (@sqlite_storage Toy.ext)
    (@sqlite_auth Toy.ext true) Full [lit "<q@x>"] (set_tracker tr c)) in
  c_out (cx_conn c') = operation_reply Full 0 dotted_article
  /\ uu_bytes_downloaded (get_usage (lit "bob") (cx_tracker c')) = 6 + 75.
Proof.
  intros c tr c'.
  destruct (@check_bandwidth _ (@sqlite_auth Toy.ext true) 0 (lit "bob") (article_size Full dotted_article)
              bob_db tr) as [r tr'] eqn:E.
  assert (r = Ret Allowed) as -> by (apply (f_equal fst) in E; vm_compute in E; by subst).
  assert (Hc := @limited_retrieval Db AuthDb (@sqlite_storage Toy.ext) (@sqlite_auth Toy.ext true)
             Full (set_tracker tr c) (lit "bob") (lit "<q@x>") dotted_article Allowed tr'
             eq_refl eq_refl ltac:(vm_compute; reflexivity) ltac:(vm_compute; reflexivity) E).
  split; [|vm_compute; reflexivity].
  unfold c'. rewrite Hc. reflexivity.
Defined.

Lemma group_reply_witness :
  c_out (cx_conn (snd (@dispatch_command Toy.ext no_milter Db AuthDb (@sqlite_storage Toy.ext) (@sqlite_auth Toy.ext true)
    (mkCommand (lit "GROUP") [lit "misc.a"]) (two_client reader [])))) = lit "211 2 1 2 misc.a" ++ crlf.
Proof.
  pose proof (@group_reply Toy.ext no_milter Db AuthDb (@sqlite_storage Toy.ext)
    (@sqlite_storage_laws Toy.ext Toy.json_laws) (@sqlite_auth Toy.ext true) (two_client reader []) (lit "misc.a") [] two_db_wf) as G.
  assert (E : @group_exists _ (@sqlite_storage Toy.ext) (lit "misc.a")
                (sto_storage (cx_stores (two_client reader []))) = Ok true) by (vm_compute; reflexivity).
  rewrite E in G. destruct G as (nums & s & Hn & _ & Hr & _).
  rewrite Hr. apply (f_equal try_collect) in Hn. rewrite try_collect_Ok in Hn.
  vm_compute in Hn. injection Hn as <-. vm_compute. reflexivity.
Defined.

Lemma navigation_reply_witness :
  @navigate_article Db AuthDb (@sqlite_storage Toy.ext) Previous (two_client (at_article 1) [])
  = (Ret tt, replied (step_line 1 plain_article)
       (set_session (set_current_article 1 (at_article 1)) (two_client (at_article 1) []))).
Proof.
  destruct (@navigation_reply Db AuthDb (@sqlite_storage Toy.ext)
              (@sqlite_storage_laws Toy.ext Toy.json_laws) Previous (two_client (at_article 1) [])
              (lit "misc.a") [] [2] 1) as (r & E & Hr);
    [exact two_db_wf|reflexivity|reflexivity|vm_compute; reflexivity|].
  rewrite E. f_equal. exact Hr.
Defined.

Lemma pattern_lists_nothing_witness :
  c_out (cx_conn (snd (@NewNewsHandler Toy.ext Db AuthDb (@sqlite_storage Toy.ext)
    [lit "*"; lit "20200101"; lit "000000"] (two_client reader []))))
  = RESP_230_NEWNEWS ++ RESP_DOT_CRLF.
Proof.
  destruct (@parse_since Toy.ext (lit "20200101") (lit "000000") None) as [e|since] eqn:Es;
    [exfalso; vm_compute in Es; discriminate|].
  destruct (@pattern_lists_nothing Toy.ext Toy.regex_laws Db AuthDb (@sqlite_storage Toy.ext)
              (two_client reader []) (lit "*") (lit "20200101") (lit "000000") [lit "misc.a"] since)
    as [H _]; [vm_compute; reflexivity| | |exact Es|].
  - intros g [<-|[]]. reflexivity.
  - intros [Hg|[]]. discriminate Hg.
  - rewrite H. reflexivity.
Defined.

Definition posted_text : str := lit "From: a@b" ++ crlf ++ lit "Subject: s" ++ crlf
  ++ lit "Newsgroups: misc.a" ++ crlf ++ lit "Message-ID: <n@x>" ++ crlf ++ crlf ++ lit "hi" ++ crlf
  ++ lit "." ++ crlf.

Lemma post_outcome_witness :
  let post := @PostHandler Toy.ext no_milter Db AuthDb (@sqlite_storage Toy.ext) (@sqlite_auth Toy.ext true) in
  let c' := snd (post [] (two_client reader posted_text)) in
  queue_len (cx_queue c') = 1%nat
  /\ c_out (cx_conn c') = RESP_340_SEND_ARTICLE ++ RESP_240_ARTICLE_RECEIVED
  /\ sto_storage (cx_stores c') = two_db.
Proof.
  intros post c'.
  destruct (@post_outcome Toy.ext no_milter Db AuthDb (@sqlite_storage Toy.ext) (@sqlite_auth Toy.ext true)
              (two_client reader posted_text) [] (fst (post [] (two_client reader posted_text))) c')
    as [Hs _]; [apply surjective_pairing|].
  split; [vm_compute; reflexivity|]. split; [vm_compute; reflexivity|exact Hs].
Defined.
