(* ===== verification/Company.v ===== *)
(** * Company: POST, IHAVE and TAKETHIS among others ([handlers/post.rs], [handlers/streaming.rs])

    What these commands do when between any two of their turns ([Turns.v]) others may change
    the stores, the queue, the tracker and the configuration in any way; only the
    connection's own input, output and session are left to it. *)

From stdpp Require Import base numbers list gmap strings relations.
From Stdlib Require Import NArith ZArith Lia.
From S2P Require Import Prelude Tasks Text Externals Message Config Limits Auth SqliteAuth Tracker Storage SqliteStorage Responses Session Wire Control Milter Filters Queue Context ArticleHandlers GroupHandlers PostHandlers Server Served Turns Replies.
Local Open Scope N_scope.

Section Company.
Context {X : Ext} {Net : MilterNet} {S A : Type} `{Storage S} `{AuthProvider A}.
Implicit Types c : Ctx S A.
Notation Trace := (list (Ctx S A * Ctx S A)).
Context (K : World (S:=S) (A:=A) -> Prop).

(** What the others leave alone. *)
Record others c c' : Prop := {
  ot_conn : cx_conn c' = cx_conn c;
  ot_session : cx_session c' = cx_session c;
  ot_clock : cx_clock c' = cx_clock c;
  ot_tick : cx_tick c' = cx_tick c;
}.

#[export] Instance others_preorder : PreOrder others.
Proof. split; [by intros c; split|]. intros x y z [] []. split; congruence. Qed.

(** A turn that does not touch the queue; one that does not touch the connection either. *)
Definition quiet (xy : Ctx S A * Ctx S A) : Prop := cx_queue (snd xy) = cx_queue (fst xy).
Definition mute c c' : Prop := cx_conn c' = cx_conn c /\ cx_queue c' = cx_queue c.

Lemma mute_quiet l : Forall (fun xy => mute (fst xy) (snd xy)) l -> Forall quiet l.
Proof. intros Hl. eapply Forall_impl; [exact Hl|]. by intros [x y] [_ Hq]. Qed.

Lemma mute_conn {B} (t : Task (Ctx S A) B) c o c' l : amid others t c o c' l ->
  Forall (fun xy => mute (fst xy) (snd xy)) l -> cx_conn c' = cx_conn c.
Proof.
  intros Hr Hl. assert (Hpre : PreOrder (fun x y : Ctx S A => cx_conn y = cx_conn x))
    by (split; [done|by intros ? ? ? -> ->]).
  refine (amid_keeps others (fun x y => cx_conn y = cx_conn x) t c o c' l _ Hr _); [by intros ? ? []|].
  eapply Forall_impl; [exact Hl|]. by intros [x y] [].
Qed.

(** What a task that is mute comes to. *)
Lemma mute_amid {B} (Q : B -> Prop) (t : Task (Ctx S A) B) c o c' l :
  along (fun _ => True) mute Q t -> amid others t c o c' l ->
  Forall quiet l /\ cx_conn c' = cx_conn c.
Proof.
  intros Ht Hr. pose proof (amid_along _ _ _ _ _ _ _ _ Ht Hr) as Hl.
  split; [by apply mute_quiet|by eapply mute_conn].
Qed.

Lemma mute_call {B} (m : M (Ctx S A) B) : (forall c o c', m c = (o, c') -> mute c c') ->
  along (fun _ => True) mute (fun _ => True) (one_turn m).
Proof. intros Hm. apply along_one_turn. intros c o c' _ E. split; [by eapply Hm|done]. Qed.

Lemma gets_mute {B} (f : Ctx S A -> B) c o c' : mgets f c = (o, c') -> mute c c'.
Proof. by intros [= _ <-]. Qed.
Lemma now_mute c o c' : now c = (o, c') -> mute c c'.
Proof. by intros [= _ <-]. Qed.
Lemma tracker_mute {B} (f : A -> UsageTracker -> outcome B * UsageTracker) c o c' : with_tracker f c = (o, c') -> mute c c'.
Proof. unfold with_tracker. destruct (f _ _). by intros [= _ <-]. Qed.
Lemma stores_mute {B} (t : Task (Stores S A) B) :
  along (fun _ : Ctx S A => True) mute (fun _ => True) (zoomed cx_stores set_stores t).
Proof. by eapply along_zoomed; [| |apply along_any]. Qed.
End Company.

Section Mute.
Context {X : Ext} {Net : MilterNet} {S A : Type} `{Storage S} `{AuthProvider A}.
Context (K : World (S:=S) (A:=A) -> Prop).
Notation is_mute t := (along (fun _ => True) mute (fun _ => True) t).

Lemma config_call_mute : is_mute (cut_task (config_turns K)).
Proof. apply mute_call, gets_mute. Qed.
Lemma session_call_mute {B} (f : Session -> B) : is_mute (cut_task (session_turns K f)).
Proof. apply mute_call, gets_mute. Qed.
Lemma now_call_mute : is_mute (cut_task (now_turns K)).
Proof. apply mute_call, now_mute. Qed.
Lemma can_post_call_mute u : is_mute (cut_task (can_post_turns K u)).
Proof. apply mute_call, tracker_mute. Qed.
Lemma check_call_mute t u n : is_mute (cut_task (check_bandwidth_turns K t u n)).
Proof. apply mute_call, tracker_mute. Qed.
Lemma record_call_mute t u n up : is_mute (cut_task (record_bandwidth_turns K t u n up)).
Proof. apply mute_call, tracker_mute. Qed.
End Mute.

Create HintDb mute.
#[export] Hint Resolve config_call_mute session_call_mute now_call_mute can_post_call_mute check_call_mute
  record_call_mute stores_mute : mute.
Ltac mute_calls := repeat
  lazymatch goal with
  | |- along _ _ _ (followed _ _) => refine (along_followed _ _ (fun _ => True) _ _ _ _ _); [|intros ? _]
  | |- along _ _ _ (caught _) =>
      refine (along_weaken _ _ _ _ _ _ _ (fun _ H => H) (fun _ _ _ H => H) (fun _ _ => I) (along_caught _ _ (fun _ => True) _ _))
  | |- along _ _ _ (Ended _) => constructor; done
  | |- along _ _ _ (cut_task (match ?x with _ => _ end)) => destruct x
  | |- along _ _ _ (match ?x with _ => _ end) => destruct x
  | |- _ => first [solve [eauto with mute] | progress open_cut]
  end.

(** ** What the parts of a command do *)
Section Parts.
Context {X : Ext} {Net : MilterNet} {S A : Type} `{Storage S} `{AuthProvider A}.
Implicit Types c : Ctx S A.
Notation Trace := (list (Ctx S A * Ctx S A)).

(** A state that a turn found. *)
Definition found (l : Trace) c : Prop := exists c', (c, c') ∈ l.

Definition validation (a : Message) (n : N) : Task (Ctx S A) (result unit) := cut_task (validation_cut a n).
Definition storing (a : Message) : Task (Ctx S A) (result unit) := cut_task (storing_cut a).
Definition controlling (a : Message) : Task (Ctx S A) bool := cut_task (controlling_cut a).
Definition charging (n : N) : Task (Ctx S A) bool := cut_task (charging_cut n).

(** The turns of a part, and what it came to. *)
Definition comes_to {B} (t : Task (Ctx S A) B) (o : outcome B) (l : Trace) : Prop := exists c c', amid others t c o c' l.
Definition breaks {B} (t : Task (Ctx S A) B) (l : Trace) : Prop := exists o, comes_to t o l /\ forall b, o <> Ret b.

(** The tracker refuses [n] bytes to the user of the session. *)
Definition over_limit (n : N) (l : Trace) : Prop :=
  exists u v z x, found l v /\ limited_user (cx_session v) = Some u /\ found l z /\ found l x
    /\ fst (check_bandwidth (cx_clock z (cx_tick z)) u n (sto_auth (cx_stores x)) (cx_tracker x)) = Ret BandwidthExceeded.

(** A turn that stores [a]. *)
Definition stores_turn (a : Message) (l : Trace) : Prop :=
  exists t x x', (x, x') ∈ l /\ store_article t a (sto_storage (cx_stores x)) = (Ret tt, sto_storage (cx_stores x')).

(** The article with the headers it lacked, at a time and by a configuration some turns found. *)
Definition completed (a a' : Message) (l : Trace) : Prop :=
  exists z y, found l z /\ found l y /\ a' = complete_article (cx_clock z (cx_tick z)) (cx_config y) a.

(** An article that was received, as the connection was at [k] when it had been read, and
    what becomes of it.  It is refused for the usage of its user, or because the
    validation or the store refuses it; or these accept it, then it is handed to the queue, and
    after turns that neither write nor touch the queue, the last turn writes the
    acknowledgement; or one of the parts breaks, and with it the command. *)
Inductive judged (store_it is_control : bool) (accepted refused : str) (a : Message) (n : N) (k : Conn)
  : outcome unit -> Ctx S A -> Trace -> Prop :=
| judged_over c' l :
    over_limit n l -> Forall quiet l -> cx_conn c' = wrote RESP_403_BANDWIDTH_EXCEEDED k ->
    judged store_it is_control accepted refused a n k (Ret tt) c' l
| judged_rejected e c' lb lv lr :
    comes_to (validation a n) (Ret (Err e)) lv -> Forall quiet (lb ++ lv ++ lr) -> cx_conn c' = wrote refused k ->
    judged store_it is_control accepted refused a n k (Ret tt) c' (lb ++ lv ++ lr)
| judged_unstored e c' lb lv ls lr :
    store_it = true -> comes_to (validation a n) (Ret (Ok tt)) lv -> comes_to (storing a) (Ret (Err e)) ls ->
    Forall quiet (lb ++ lv ++ ls ++ lr) -> cx_conn c' = wrote refused k ->
    judged store_it is_control accepted refused a n k (Ret tt) c' (lb ++ lv ++ ls ++ lr)
| judged_taken lb lv ls x lm y :
    comes_to (validation a n) (Ret (Ok tt)) lv -> (if store_it then stores_turn a ls else ls = []) ->
    Forall quiet (lb ++ lv ++ ls) -> cx_conn x = k ->
    Forall (fun xy => mute (fst xy) (snd xy)) lm -> cx_conn y = k ->
    judged store_it is_control accepted refused a n k (Ret tt) (set_conn (wrote accepted k) y)
      (lb ++ lv ++ ls ++ (x, set_queue (submit (mkQueuedArticle a n is_control true) (cx_queue x)) x)
         :: lm ++ [(y, set_conn (wrote accepted k) y)])
| judged_broken o c' lb lp :
    breaks (charging n) lp \/ breaks (validation a n) lp \/ (store_it = true /\ breaks (storing a) lp) ->
    (forall u, o <> Ret u) -> Forall quiet (lb ++ lp) -> cx_conn c' = k ->
    judged store_it is_control accepted refused a n k o c' (lb ++ lp).

Lemma found_app (l1 l : Trace) c : found l c -> found (l1 ++ l) c.
Proof. intros [c' Hin]. exists c'. apply elem_of_app. by right. Qed.
Lemma found_front (l1 l : Trace) c : found l1 c -> found (l1 ++ l) c.
Proof. intros [c' Hin]. exists c'. apply elem_of_app. by left. Qed.
Lemma found_head (l : Trace) c c' : found ((c, c') :: l) c.
Proof. exists c'. by left. Qed.
Lemma found_tail (l : Trace) c xy : found l c -> found (xy :: l) c.
Proof. intros [c' Hin]. exists c'. by right. Qed.

Lemma over_limit_app n l1 l : over_limit n l -> over_limit n (l1 ++ l).
Proof. intros (u & v & z & x & H1 & H2 & H3 & H4 & H5). exists u, v, z, x. eauto 10 using found_app. Qed.
Lemma over_limit_front n l1 l : over_limit n l1 -> over_limit n (l1 ++ l).
Proof. intros (u & v & z & x & H1 & H2 & H3 & H4 & H5). exists u, v, z, x. eauto 10 using found_front. Qed.

Lemma judged_after s b acc ref a n k o c' l1 l : Forall quiet l1 ->
  judged s b acc ref a n k o c' l -> judged s b acc ref a n k o c' (l1 ++ l).
Proof.
  intros Q Hj. destruct Hj as [c' l H1 H2 H3|e c' lb lv lr H1 H2 H3|e c' lb lv ls lr H1 H2 H3 H4 H5
    |lb lv ls x lm y H1 H2 H3 H4 H5 H6|o c' lb lp H1 H2 H3 H4].
  - apply judged_over; [by apply over_limit_app|by apply Forall_app|done].
  - rewrite app_assoc. eapply judged_rejected; [done| |done]. rewrite <- app_assoc. by apply Forall_app.
  - rewrite app_assoc. eapply judged_unstored; try done. rewrite <- app_assoc. by apply Forall_app.
  - rewrite app_assoc. apply judged_taken; try done. rewrite <- app_assoc. by apply Forall_app.
  - rewrite app_assoc. apply judged_broken; try done. rewrite <- app_assoc. by apply Forall_app.
Qed.
End Parts.

Section Calls.
Context {X : Ext} {Net : MilterNet} {S A : Type} `{Storage S} `{AuthProvider A}.
Implicit Types c : Ctx S A.
Context (K : World (S:=S) (A:=A) -> Prop).

Lemma complete_mute a : along (fun _ => True) mute (fun _ => True) (cut_task (complete_turns K a)).
Proof. unfold complete_turns. mute_calls. Qed.
Lemma validate_mute a n : along (fun _ => True) mute (fun _ => True) (cut_task (validate_turns K a n)).
Proof. unfold validate_turns, validation_cut, stores_cut. mute_calls. Qed.
Lemma control_mute a : along (fun _ => True) mute (fun _ => True) (cut_task (control_turns K a)).
Proof. unfold control_turns, controlling_cut, stores_cut. mute_calls. Qed.
Lemma store_mute a : along (fun _ => True) mute (fun _ => True) (cut_task (store_turns K a)).
Proof. unfold store_turns, storing_cut, stores_cut. mute_calls. Qed.
Lemma record_mute n up : along (fun _ => True) mute (fun _ => True) (cut_task (record_usage_turns K n up)).
Proof. unfold record_usage_turns, bandwidth_record_turns. mute_calls. Qed.

(** A call that always answers. *)
Lemma after_call {B D} (m : M (Ctx S A) B) (k : B -> Task (Ctx S A) D) c o c' l :
  (forall c, exists b c1, m c = (Ret b, c1)) -> amid others (followed (one_turn m) k) c o c' l ->
  exists c1 b c2 l2, others c c1 /\ m c1 = (Ret b, c2) /\ amid others (k b) c2 o c' l2 /\ l = (c1, c2) :: l2.
Proof.
  intros Hm [(b & c2 & l1 & l2 & (c1 & HE & Em & ->)%amid_one_turn & H2 & ->)|
             (o1 & (c1 & HE & Em & ->)%amid_one_turn & Hn & _)]%amid_followed.
  - by exists c1, b, c2, l2.
  - destruct (Hm c1) as (b & c2 & E). rewrite E in Em. injection Em as <- _. by destruct (Hn b).
Qed.

Lemma says s c o c' l : amid others (cut_task (write_turns K s)) c o c' l ->
  o = Ret tt /\ Forall quiet l /\ cx_conn c' = wrote s (cx_conn c)
  /\ exists y, cx_conn y = cx_conn c /\ c' = set_conn (wrote s (cx_conn c)) y /\ l = [(y, c')].
Proof.
  intros (c1 & HE & [= <- <-] & ->)%amid_one_turn. rewrite <- (ot_conn _ _ HE).
  split_and!; [done|by repeat constructor|done|]. by exists c1.
Qed.

Lemma after_saying {D} s (k : unit -> Task (Ctx S A) D) c o c' l :
  amid others (followed (cut_task (write_turns K s)) k) c o c' l ->
  exists c1 l1 l2, Forall quiet l1 /\ cx_conn c1 = wrote s (cx_conn c) /\ amid others (k tt) c1 o c' l2 /\ l = l1 ++ l2.
Proof.
  intros [([] & c1 & l1 & l2 & H1 & H2 & ->)|(o1 & H1 & Hn & _)]%amid_followed; apply says in H1 as (Ho & Hq & Hc & _).
  - by exists c1, l1, l2.
  - by destruct (Hn tt).
Qed.

(** What is read is read from the connection; nothing is written. *)
Lemma read_call_inv c o c' l : amid others (cut_task (read_message_turns K)) c o c' l ->
  Forall quiet l /\ read_message (cx_conn c) = (o, cx_conn c') /\ c_out (cx_conn c') = c_out (cx_conn c).
Proof.
  intros (c1 & HE & E & ->)%amid_one_turn. unfold net, mzoom in E. rewrite (ot_conn _ _ HE) in E.
  destruct (read_message (cx_conn c)) as [o1 k] eqn:Er. injection E as <- <-.
  split_and!; [by repeat constructor|done|]. simpl. exact (read_message_quiet _ _ _ Er).
Qed.

Lemma complete_amid a c o c' l : amid others (cut_task (complete_turns K a)) c o c' l ->
  exists a', o = Ret a' /\ completed a a' l /\ Forall quiet l /\ cx_conn c' = cx_conn c.
Proof.
  intros Hr. destruct (mute_amid _ _ _ _ _ _ (complete_mute a) Hr) as [Hq Hc].
  unfold complete_turns in Hr. cbn [cut_task cut_bind] in Hr.
  apply after_call in Hr as (c1 & cfg & c2 & l2 & _ & [= <- <-] & Hr & ->); [|intros ?; eexists _, _; reflexivity].
  apply after_call in Hr as (c3 & date & c4 & l3 & _ & [= <- <-] & Hr & ->); [|intros ?; eexists _, _; reflexivity].
  inversion Hr; subst. eexists. split_and!; [done| |done..]. exists c3, c1.
  split_and!; [apply found_tail, found_head|apply found_head|done].
Qed.

(** Whether the user may send so much. *)
Lemma rejected_amid n c o c' l : amid others (cut_task (check_rejected_turns K n)) c o c' l ->
  Forall quiet l
  /\ ((o = Ret true /\ cx_conn c' = wrote RESP_403_BANDWIDTH_EXCEEDED (cx_conn c) /\ over_limit n l)
      \/ (o = Ret false /\ cx_conn c' = cx_conn c)
      \/ ((forall b, o <> Ret b) /\ cx_conn c' = cx_conn c)).
Proof.
  unfold check_rejected_turns, charging_cut. open_cut.
  intros (c1 & user & c2 & l2 & HE & [= <- <-] & Hr & ->)%after_call; [|intros ?; eexists _, _; reflexivity].
  pose proof (ot_conn _ _ HE) as C1. change (quiet (c1, c1)) with (cx_queue c1 = cx_queue c1).
  destruct (limited_user (cx_session c1)) as [u|] eqn:Eu.
  2: { open_cut in Hr. inversion Hr; subst. split; [by constructor|]. right. by left. }
  open_cut in Hr.
  assert (Hcheck : forall oc cc lc, amid others (cut_task (bandwidth_check_turns K u n)) c1 oc cc lc ->
    Forall quiet lc /\ cx_conn cc = cx_conn c1 /\ (oc = Ret BandwidthExceeded -> over_limit n ((c1, c1) :: lc))).
  { intros oc cc lc Hb. assert (Hm : along (fun _ : Ctx S A => True) mute (fun _ => True) (cut_task (bandwidth_check_turns K u n)))
      by (unfold bandwidth_check_turns; mute_calls).
    destruct (mute_amid _ _ _ _ _ _ Hm Hb) as [Q C]. split_and!; [done..|]. intros ->.
    unfold bandwidth_check_turns in Hb. open_cut in Hb.
    apply after_call in Hb as (z & t & c3 & l3 & _ & [= <- <-] & Hb & ->); [|intros ?; eexists _, _; reflexivity].
    apply amid_one_turn in Hb as (x & _ & Ex & ->). exists u, c1, z, x.
    split_and!; [apply found_head|done|apply found_tail, found_head|do 2 apply found_tail; apply found_head|].
    unfold with_tracker in Ex. destruct (check_bandwidth _ _ _ _ _) as [oc tr]. by injection Ex as ->. }
  apply amid_followed in Hr as [(r & c2 & l3 & l4 & H1 & Hr & ->)|(o1 & H1 & Hn & Hno)];
    destruct (Hcheck _ _ _ H1) as (Q2 & C2 & Hov); rewrite C1 in C2.
  2: { split; [by constructor|]. right. by right. }
  destruct (decide (r = BandwidthExceeded)) as [->|].
  - open_cut in Hr. apply after_saying in Hr as (c3 & l5 & l6 & Q3 & C3 & Hr & ->). inversion Hr; subst.
    split; [constructor; [done|by rewrite !Forall_app]|]. left. rewrite C3, C2. split_and!; [done..|].
    rewrite app_comm_cons. by apply over_limit_front, Hov.
  - inversion Hr; subst. split; [constructor; [done|by rewrite !Forall_app]|]. right. by left.
Qed.

Lemma record_amid n up c o c' l : amid others (cut_task (record_usage_turns K n up)) c o c' l ->
  o = Ret tt /\ Forall (fun xy => mute (fst xy) (snd xy)) l /\ cx_conn c' = cx_conn c.
Proof.
  intros Hr. pose proof (amid_along _ _ _ _ _ _ _ _ (record_mute n up) Hr) as Hl.
  destruct (mute_amid _ _ _ _ _ _ (record_mute n up) Hr) as [_ Hc]. split; [|done].
  unfold record_usage_turns in Hr. cbn [cut_task cut_bind] in Hr.
  apply after_call in Hr as (c1 & user & c2 & l2 & _ & _ & Hr & ->); [|intros ?; eexists _, _; reflexivity].
  destruct user as [u|]; cbn [cut_task cut_ret cut_out] in Hr; [|by inversion Hr]. unfold bandwidth_record_turns in Hr.
  cbn [cut_task cut_bind] in Hr.
  apply after_call in Hr as (c3 & t & c4 & l3 & _ & _ & Hr & ->); [|intros ?; eexists _, _; reflexivity].
  apply amid_one_turn in Hr as (c5 & _ & [= <- _] & _). done.
Qed.

Lemma store_amid a c c' l : amid others (cut_task (store_turns K a)) c (Ret (Ok tt)) c' l -> stores_turn a l.
Proof.
  unfold store_turns, storing_cut. open_cut. intros Hr.
  apply after_call in Hr as (c1 & t & c2 & l2 & _ & _ & Hr & ->); [|intros ?; eexists _, _; reflexivity].
  unfold stores_cut in Hr. open_cut in Hr. apply amid_caught in Hr as (o & Hr & Ho).
  destruct o as [[]|e| |]; simplify_eq. unfold store_article_turns, store_call, cut_call in Hr.
  cbn [cut_task one_turn zoomed] in Hr. inversion Hr as [|f ? c3 ? ? l3 HE Hr']; subst. clear Hr.
  unfold on_storage, mzoom in *. destruct (store_article t a (sto_storage (cx_stores c3))) as [os s] eqn:Es.
  simpl in *. inversion Hr'; subst. exists t, c3, (set_stores (mkStores s (sto_auth (cx_stores c3))) c3).
  split; [set_solver|done].
Qed.

End Calls.

Section HandingOver.
Context {X : Ext} {Net : MilterNet} {S A : Type} `{Storage S} `{AuthProvider A}.
Implicit Types c : Ctx S A.
Context (Kv Kr : World (S:=S) (A:=A) -> Prop).

(** Handing over and what follows it: the charge and the acknowledgement. *)
Lemma submitted_amid a n b Ha accepted (k : unit -> Task (Ctx S A) unit) c o c' l :
  (forall u, k u = followed (cut_task (record_usage_turns Kr n true)) (fun _ => cut_task (write_turns Kr accepted))) ->
  amid others (followed (cut_task (submit_turns Kv a n b Ha)) k) c o c' l ->
  exists x lm y, l = (x, set_queue (submit (mkQueuedArticle a n b true) (cx_queue x)) x)
                       :: lm ++ [(y, set_conn (wrote accepted (cx_conn c)) y)]
    /\ cx_conn x = cx_conn c /\ Forall (fun xy => mute (fst xy) (snd xy)) lm /\ cx_conn y = cx_conn c
    /\ c' = set_conn (wrote accepted (cx_conn c)) y /\ o = Ret tt.
Proof.
  intros Hk Hr. apply after_call in Hr as (x & [] & c2 & l2 & HE & [= <-] & Hr & ->); [|intros ?; eexists _, _; reflexivity].
  rewrite Hk in Hr. pose proof (ot_conn _ _ HE) as Cx. set (c2 := set_queue _ x) in *.
  assert (C2 : cx_conn c2 = cx_conn c) by exact Cx.
  apply amid_followed in Hr as [([] & c3 & l3 & l4 & H1 & H2 & ->)|(o1 & H1 & Hn & _)];
    apply record_amid in H1 as (Ho & Q3 & C3); [|by destruct (Hn tt)].
  apply says in H2 as (-> & _ & _ & y & Cy & -> & ->). rewrite C3, C2 in *. by exists x, l3, y.
Qed.
End HandingOver.

(** ** What follows once an article is received and completed *)
Section Judging.
Context {X : Ext} {Net : MilterNet} {S A : Type} `{Storage S} `{AuthProvider A}.
Implicit Types c : Ctx S A.
Context (store_it is_control : bool) (accepted refused : str) (a : Message) (n : N).
Context (Kr : World (S:=S) (A:=A) -> Prop).
Notation judged := (judged store_it is_control accepted refused a n).

(** Accepted, and stored when that is to be done: the article is handed over. *)
Lemma handed_over_amid Kv Ha lv ls (k3 : unit -> Task (Ctx S A) unit) k c o c' l :
  (forall u, k3 u = followed (cut_task (record_usage_turns Kr n true)) (fun _ => cut_task (write_turns Kr accepted))) ->
  comes_to (validation a n) (Ret (Ok tt)) lv -> (if store_it then stores_turn a ls else ls = []) ->
  Forall quiet (lv ++ ls) -> cx_conn c = k ->
  amid others (followed (cut_task (submit_turns Kv a n is_control Ha)) k3) c o c' l ->
  judged k o c' (lv ++ ls ++ l).
Proof.
  intros E Hv Hs Q <- Hr. apply (submitted_amid _ Kr _ _ _ _ accepted) in Hr as (x & lm & y & -> & Cx & Hm & Cy & -> & ->);
    [|exact E].
  exact (judged_taken store_it is_control _ _ a _ _ [] lv ls x lm y Hv Hs Q Cx Hm Cy).
Qed.

(** The usage and the validation, before what follows on its acceptance. *)
Lemma judge_amid c o c' l (k1 : bool -> Task (Ctx S A) unit) (k2 : result unit -> Task (Ctx S A) unit) :
  k1 true = Ended (Ret tt) -> k1 false = followed (cut_task (validate_turns Kr a n)) k2 ->
  (forall e, k2 (Err e) = cut_task (write_turns Kr refused)) ->
  (forall c1 lv l', comes_to (validation a n) (Ret (Ok tt)) lv -> Forall quiet lv -> cx_conn c1 = cx_conn c ->
     amid others (k2 (Ok tt)) c1 o c' l' -> judged (cx_conn c) o c' (lv ++ l')) ->
  amid others (followed (cut_task (check_rejected_turns Kr n)) k1) c o c' l -> judged (cx_conn c) o c' l.
Proof.
  intros E1 E2 E3 E4 Hr.
  apply amid_followed in Hr as [(rej & c4 & l7 & l8 & H1 & Hr & ->)|(o1 & H1 & Hn & Hno)].
  2: { pose proof (rejected_amid _ _ _ _ _ _ H1) as (Q4 & Hc). apply (judged_broken _ _ _ _ _ _ _ _ _ []); [|done|done|].
       - left. exists o1. split; [exists c, c'; exact H1|done].
       - destruct Hc as [(-> & _)|[[-> _]|[_ C]]]; [by destruct (Hn true)|by destruct (Hn false)|done]. }
  apply rejected_amid in H1 as (Q4 & [([= ->] & C4 & Hov)|[[[= ->] C4]|[Hno _]]]); [| |by destruct (Hno rej)].
  { rewrite E1 in Hr. inversion Hr; subst. rewrite app_nil_r. by apply judged_over. }
  rewrite E2 in Hr. apply judged_after; [done|].
  apply amid_followed in Hr as [(v & c5 & l9 & l10 & Hv & Hr & ->)|(o1 & Hv & Hn & Hno)];
    destruct (mute_amid _ _ _ _ _ _ (validate_mute Kr _ _) Hv) as [Q5 C5].
  2: { apply (judged_broken _ _ _ _ _ _ _ _ _ []); [|done|done|congruence].
       right. left. exists o1. split; [exists c4, c'; exact Hv|done]. }
  destruct v as [[]|e].
  - apply (E4 c5); [exists c4, c5; exact Hv|done|congruence|done].
  - rewrite E3 in Hr. apply (says Kr) in Hr as (-> & Q6 & C6 & _).
    refine (judged_rejected store_it is_control _ _ a _ _ e _ [] l9 l10 _ _ _);
      [exists c4, c5; exact Hv|by apply (Forall_app quiet l9 l10)|congruence].
Qed.

(** Storing, between the acceptance and the handing over. *)
Lemma store_then_amid lv k c o c' l (k2 : result unit -> Task (Ctx S A) unit) : store_it = true ->
  (forall e, k2 (Err e) = cut_task (write_turns Kr refused)) ->
  (forall c1 ls l', stores_turn a ls -> Forall quiet (lv ++ ls) -> cx_conn c1 = k ->
     amid others (k2 (Ok tt)) c1 o c' l' -> judged k o c' (lv ++ ls ++ l')) ->
  comes_to (validation a n) (Ret (Ok tt)) lv -> Forall quiet lv -> cx_conn c = k ->
  amid others (followed (cut_task (store_turns Kr a)) k2) c o c' l -> judged k o c' (lv ++ l).
Proof.
  intros Es E1 E2 Hv Q C Hr.
  apply amid_followed in Hr as [(st & c6 & l11 & l12 & Hs & Hr & ->)|(o1 & Hs & Hn & Hno)];
    destruct (mute_amid _ _ _ _ _ _ (store_mute Kr _) Hs) as [Q6 C6].
  2: { apply judged_after; [done|]. apply (judged_broken _ _ _ _ _ _ _ _ _ []); [|done|done|congruence].
       right. right. split; [exact Es|]. exists o1. split; [exists c, c'; exact Hs|done]. }
  destruct st as [[]|e].
  - apply (E2 c6); [by eapply store_amid|by apply Forall_app|congruence|done].
  - rewrite E1 in Hr. apply (says Kr) in Hr as (-> & Q7 & C7 & _).
    refine (judged_unstored store_it is_control _ _ a _ _ e _ [] lv l11 l12 Es Hv _ _ _);
      [exists c, c6; exact Hs|rewrite app_nil_l; by rewrite !Forall_app|congruence].
Qed.
End Judging.

(** ** POST *)
Section Posting.
Context {X : Ext} {Net : MilterNet} {S A : Type} `{Storage S} `{AuthProvider A}.
Implicit Types c : Ctx S A.
Context (K : World (S:=S) (A:=A) -> Prop).

(** POST from the state [c]: what it comes to, and by which turns. *)
Inductive posts c : outcome unit -> Ctx S A -> list (Ctx S A * Ctx S A) -> Prop :=
| posts_forbidden c' l :
    session_can_post (cx_session c) = false -> Forall quiet l ->
    cx_conn c' = wrote (if is_tls (cx_session c) then to_response (NAuth Required) else RESP_483_SECURE_REQ) (cx_conn c) ->
    posts c (Ret tt) c' l
| posts_disabled u x c' l :
    session_can_post (cx_session c) = true -> limited_user (cx_session c) = Some u ->
    found l x -> fst (tracker_can_post u (sto_auth (cx_stores x)) (cx_tracker x)) = PostingDisabled ->
    Forall quiet l -> cx_conn c' = wrote RESP_440_POST_PROHIBITED (cx_conn c) ->
    posts c (Ret tt) c' l
| posts_unread o1 o c' l :
    session_can_post (cx_session c) = true ->
    read_message (wrote RESP_340_SEND_ARTICLE (cx_conn c)) = (o1, cx_conn c') ->
    (forall m, o1 <> Ret m) -> (forall u, o <> Ret u) -> Forall quiet l ->
    posts c o c' l
| posts_unparsable msg k c' l :
    session_can_post (cx_session c) = true ->
    read_message (wrote RESP_340_SEND_ARTICLE (cx_conn c)) = (Ret msg, k) -> parse_message msg = None ->
    Forall quiet l -> cx_conn c' = wrote RESP_441_POSTING_FAILED k ->
    posts c (Ret tt) c' l
| posts_received msg k a a' la o c' l :
    session_can_post (cx_session c) = true ->
    read_message (wrote RESP_340_SEND_ARTICLE (cx_conn c)) = (Ret msg, k) -> parse_message msg = Some a ->
    c_out k = c_out (cx_conn c) ++ RESP_340_SEND_ARTICLE ->
    Forall quiet la -> completed a a' la ->
    judged false (is_control_message a) RESP_240_ARTICLE_RECEIVED RESP_441_POSTING_FAILED a' (utf8_len msg) k o c' l ->
    posts c o c' (la ++ l).

Lemma posts_after c c1 o c' l1 l : session_can_post (cx_session c) = true -> cx_session c1 = cx_session c ->
  cx_conn c1 = cx_conn c -> Forall quiet l1 -> posts c1 o c' l -> posts c o c' (l1 ++ l).
Proof.
  intros Hcan Es Ec Q Hp. destruct Hp as [c' l H1 H2 H3|u x c' l H1 H2 H3 H4 H5 H6|o1 o c' l H1 H2 H3 H4 H5
    |msg k c' l H1 H2 H3 H4 H5|msg k a a' la o c' l H1 H2 H3 H4 H5 H6 H7]; rewrite ?Es, ?Ec in *.
  - congruence.
  - eapply posts_disabled; try done; [by apply found_app|by apply Forall_app].
  - eapply posts_unread; try done. by apply Forall_app.
  - eapply posts_unparsable; try done. by apply Forall_app.
  - rewrite app_assoc. eapply posts_received; try done; [by apply Forall_app|].
    destruct H6 as (z & y & Hz & Hy & Ha). exists z, y. eauto using found_app.
Qed.

Lemma receive_post_amid c o c' l : session_can_post (cx_session c) = true ->
  amid others (cut_task (receive_post_turns K)) c o c' l -> posts c o c' l.
Proof.
  intros Hcan. unfold receive_post_turns. open_cut.
  intros (c1 & l1 & l2 & Q1 & C1 & Hr & ->)%(after_saying K).
  apply amid_followed in Hr as [(msg & c2 & l3 & l4 & H1 & Hr & ->)|(o1 & H1 & Hn & Hno)];
    apply read_call_inv in H1 as (Q2 & E2 & O2); rewrite C1 in E2.
  2: { apply (posts_unread _ o1); try done. by apply Forall_app. }
  destruct (parse_message msg) as [a|] eqn:Ea.
  2: { apply (says K) in Hr as (-> & Q3 & C3 & _). apply (posts_unparsable _ msg (cx_conn c2)); try done. by rewrite !Forall_app. }
  open_cut in Hr.
  apply amid_followed in Hr as [(a' & c3 & l5 & l6 & H1 & Hr & ->)|(o1 & H1 & Hn & _)];
    apply complete_amid in H1 as (a1 & Ho & Ha & Q3 & C3); [injection Ho as <-|by destruct (Hn _ Ho)].
  rewrite !app_assoc. apply (posts_received _ msg (cx_conn c2) a a'); try done.
  - by rewrite O2, C1.
  - by rewrite !Forall_app.
  - destruct Ha as (z & y & Hz & Hy & Ha). exists z, y. eauto using found_app.
  - rewrite <- C3. cbv zeta in Hr. refine (judge_amid _ _ _ _ _ _ K _ _ _ _ _ _ eq_refl eq_refl (fun e => eq_refl) _ Hr).
    intros c4 lv l' Hv Q C4 Hr4. open_cut in Hr4.
    eapply (handed_over_amid false _ _ _ _ _ K _ _ lv []); [..|exact Hr4]; [reflexivity|done|done|by rewrite app_nil_r|done].
Qed.

Lemma can_post_amid u c o c' l : amid others (cut_task (can_post_turns K u)) c o c' l ->
  Forall quiet l /\ cx_conn c' = cx_conn c /\ cx_session c' = cx_session c
  /\ exists x, found l x /\ o = Ret (fst (tracker_can_post u (sto_auth (cx_stores x)) (cx_tracker x))).
Proof.
  intros Hr. destruct (mute_amid _ _ _ _ _ _ (can_post_call_mute K u) Hr) as [Q C]. split; [done|]. split; [done|].
  apply amid_one_turn in Hr as (x & HE & E & ->). unfold with_tracker in E.
  destruct (tracker_can_post u _ _) as [r tr] eqn:Et. injection E as <- <-. split; [exact (ot_session _ _ HE)|].
  exists x. split; [apply found_head|]. by rewrite Et.
Qed.

Lemma post_amid args c o c' l : amid others (cut_task (post_turns K args)) c o c' l -> posts c o c' l.
Proof.
  unfold post_turns. open_cut. intros Hr.
  apply after_call in Hr as (c1 & sess & c2 & l2 & HE & [= <- <-] & Hr & ->); [|intros ?; eexists _, _; reflexivity].
  pose proof (ot_conn _ _ HE) as C1. pose proof (ot_session _ _ HE) as S1. change (id (cx_session c1)) with (cx_session c1) in Hr.
  assert (Q1 : Forall quiet [(c1, c1)]) by by repeat constructor. rewrite S1 in Hr.
  destruct (session_can_post (cx_session c)) eqn:Hcan; cbn [negb] in Hr.
  2: { destruct (is_tls (cx_session c)) eqn:Et; cbn [negb] in Hr; apply (says K) in Hr as (-> & Q & C & _); rewrite C1 in C;
         (apply posts_forbidden; [done|by constructor|by rewrite Et]). }
  change ((c1, c1) :: l2) with ([(c1, c1)] ++ l2). rewrite <- S1 in Hcan.
  apply (posts_after _ c1); [congruence|done..|]. open_cut in Hr.
  destruct (limited_user (cx_session c)) as [u|] eqn:Eu; rewrite <- S1 in Eu.
  - open_cut in Hr. apply amid_followed in Hr as [(dis & c3 & l3 & l4 & H1 & Hr & ->)|(o1 & H1 & Hn & Hno)];
      apply amid_followed in H1 as [(r & c4 & l5 & l6 & H1 & H2 & ->)|(o2 & H1 & Hn2 & _)];
      destruct (can_post_amid _ _ _ _ _ H1) as (Q2 & C2 & S2 & x & Hx & Er); simplify_eq; try by destruct (Hn2 _ eq_refl).
    + inversion H2; subst. rewrite app_nil_r. case_bool_decide as Hd.
      * apply (says K) in Hr as (-> & Q & C & _). rewrite C2 in C.
        apply (posts_disabled _ u x); try done; [by apply found_front|by apply Forall_app].
      * apply (posts_after _ c3); [done..|]. apply receive_post_amid; [congruence|exact Hr].
    + inversion H2; subst. by destruct (Hn (bool_decide ((tracker_can_post u (sto_auth (cx_stores x)) (cx_tracker x)).1 = PostingDisabled))).
  - open_cut in Hr. apply receive_post_amid; [done|exact Hr].
Qed.
End Posting.

(** ** IHAVE and TAKETHIS *)
Section Transfers.
Context {X : Ext} {Net : MilterNet} {S A : Type} `{Storage S} `{AuthProvider A}.
Implicit Types c : Ctx S A.
Context (K : World (S:=S) (A:=A) -> Prop).

(** A message a peer sent, the connection at [k] once it was read: a control message is acted
    on; another article is judged, and stored before it is handed over. *)
Inductive received (accepted refused msg : str) (k : Conn) : outcome unit -> Ctx S A -> list (Ctx S A * Ctx S A) -> Prop :=
| received_unparsable c' l :
    parse_message msg = None -> Forall quiet l -> cx_conn c' = wrote refused k ->
    received accepted refused msg k (Ret tt) c' l
| received_control a a' h la lc lr c' :
    parse_message msg = Some a -> is_control_message a = true -> completed a a' la ->
    comes_to (controlling a') (Ret h) lc -> Forall quiet (la ++ lc ++ lr) ->
    cx_conn c' = wrote (if (h : bool) then accepted else refused) k ->
    received accepted refused msg k (Ret tt) c' (la ++ lc ++ lr)
| received_control_broken a a' la lc o c' :
    parse_message msg = Some a -> is_control_message a = true -> completed a a' la ->
    breaks (controlling a') lc -> (forall u, o <> Ret u) -> Forall quiet (la ++ lc) -> cx_conn c' = k ->
    received accepted refused msg k o c' (la ++ lc)
| received_article a a' la o c' l :
    parse_message msg = Some a -> is_control_message a = false -> completed a a' la -> Forall quiet la ->
    judged true false accepted refused a' (utf8_len msg) k o c' l ->
    received accepted refused msg k o c' (la ++ l).

Lemma completed_after a a' (l1 l : list (Ctx S A * Ctx S A)) : completed a a' l -> completed a a' (l1 ++ l).
Proof. intros (z & y & Hz & Hy & Ha). exists z, y. eauto using found_app. Qed.

Lemma received_after acc ref msg k o c' l1 l : Forall quiet l1 ->
  received acc ref msg k o c' l -> received acc ref msg k o c' (l1 ++ l).
Proof.
  intros Q Hr. destruct Hr as [c' l H1 H2 H3|a a' h la lc lr c' H1 H2 H3 H4 H5 H6|a a' la lc o c' H1 H2 H3 H4 H5 H6 H7
    |a a' la o c' l H1 H2 H3 H4 H5].
  - apply received_unparsable; try done. by apply Forall_app.
  - rewrite app_assoc. eapply received_control; try done; [by apply completed_after|].
    rewrite <- app_assoc. by apply Forall_app.
  - rewrite app_assoc. eapply received_control_broken; try done; [by apply completed_after|].
    rewrite <- app_assoc. by apply Forall_app.
  - rewrite app_assoc. eapply received_article; try done; [by apply completed_after|by apply Forall_app].
Qed.

Lemma transfer_amid accepted refused msg a c o c' l : parse_message msg = Some a ->
  amid others (cut_task (transfer_turns K accepted refused msg a)) c o c' l ->
  received accepted refused msg (cx_conn c) o c' l.
Proof.
  intros Hp. unfold transfer_turns. open_cut. intros Hr.
  apply amid_followed in Hr as [(a' & c3 & l5 & l6 & H1 & Hr & ->)|(o1 & H1 & Hn & _)];
    apply complete_amid in H1 as (a1 & Ho & Ha & Q3 & C3); [injection Ho as <-|by destruct (Hn _ Ho)].
  rewrite <- C3. destruct (is_control_message a) eqn:Ectl.
  - open_cut in Hr. apply amid_followed in Hr as [(h & c4 & l7 & l8 & H1 & Hr & ->)|(o1 & H1 & Hn & Hno)];
      destruct (mute_amid _ _ _ _ _ _ (control_mute K _) H1) as [Q4 C4].
    2: { eapply received_control_broken; try done; [|by apply Forall_app]. exists o1. split; [exists c3, c'; exact H1|done]. }
    assert (Hr' : amid others (cut_task (write_turns K (if h then accepted else refused))) c4 o c' l8) by by destruct h.
    apply says in Hr' as (-> & Q5 & C5 & _). rewrite C4 in C5.
    eapply received_control; try done; [exists c3, c4; exact H1|by rewrite !Forall_app].
  - eapply received_article; try done. open_cut in Hr.
    refine (judge_amid true false _ _ _ _ K _ _ _ _ _ _ eq_refl eq_refl (fun e => eq_refl) _ Hr).
    intros c4 lv l' Hv Q C4 Hr4. open_cut in Hr4.
    refine (store_then_amid true false _ _ _ _ K _ _ _ _ _ _ _ eq_refl (fun e => eq_refl) _ Hv Q C4 Hr4).
    intros c5 ls l9 Hs Qs C5 Hr5. open_cut in Hr5.
    eapply (handed_over_amid true _ _ _ _ _ K); [..|exact Hr5]; [reflexivity|done..].
Qed.

Lemma ask_call_inv {B D} (f : S -> result B) (k : B -> Task (Ctx S A) D) c o c' l :
  amid others (followed (cut_task (ask_turns K f)) k) c o c' l ->
  exists c1 l', l = (c1, c1) :: l' /\ cx_conn c1 = cx_conn c
    /\ match f (sto_storage (cx_stores c1)) with
       | Ok b => amid others (k b) c1 o c' l'
       | Err _ => l' = [] /\ c' = c1 /\ forall d, o <> Ret d
       end.
Proof.
  assert (Hask : forall c1, ask f c1 = (outcome_of (f (sto_storage (cx_stores c1))), c1))
    by (intros []; reflexivity).
  intros [(b & c2 & l1 & l2 & (c1 & HE & Em & ->)%amid_one_turn & H2 & ->)|
          (o1 & (c1 & HE & Em & ->)%amid_one_turn & Hn & Hno)]%amid_followed;
    rewrite Hask in Em; injection Em as Eo <-; exists c1; eexists; (split; [reflexivity|]); (split; [exact (ot_conn _ _ HE)|]);
    destruct (f _) as [b'|e]; simpl in Eo; simplify_eq; try done.
  by destruct (Hn b').
Qed.

(** What follows once the article is sent for. *)
Definition sent (accepted refused : str) (k : Conn) (o : outcome unit) c' (l : list (Ctx S A * Ctx S A)) : Prop :=
  match read_message k with
  | (Ret msg, k') => received accepted refused msg k' o c' l
  | (_, k') => (forall u, o <> Ret u) /\ Forall quiet l /\ cx_conn c' = k'
  end.

Lemma ihave_amid id rest c o c' l : amid others (cut_task (ihave_turns K (id :: rest))) c o c' l ->
  exists c1 l', l = (c1, c1) :: l'
    /\ match get_article_by_id id (sto_storage (cx_stores c1)) with
       | Ok None => sent RESP_235_TRANSFER_OK RESP_437_REJECTED (wrote RESP_335_SEND_IT (cx_conn c)) o c' l'
       | Ok (Some _) => o = Ret tt /\ Forall quiet l' /\ cx_conn c' = wrote RESP_435_NOT_WANTED (cx_conn c)
       | Err _ => (forall u, o <> Ret u) /\ l' = [] /\ cx_conn c' = cx_conn c
       end.
Proof.
  unfold ihave_turns. open_cut. intros (c1 & l' & -> & C1 & Hr)%ask_call_inv. exists c1, l'. split; [done|].
  destruct (get_article_by_id id (sto_storage (cx_stores c1))) as [[x|]|e]; [| |by destruct Hr as (-> & -> & ?)].
  - apply (says K) in Hr as (-> & Q & C & _). by rewrite C1 in C.
  - open_cut in Hr. apply (after_saying K) in Hr as (c2 & l1 & l2 & Q2 & C2 & Hr & ->). rewrite C1 in C2.
    rewrite <- C2. unfold sent.
    apply amid_followed in Hr as [(msg & c3 & l3 & l4 & H1 & Hr & ->)|(o1 & H1 & Hn & Hno)];
      apply read_call_inv in H1 as (Q3 & E3 & _); rewrite E3.
    + destruct (parse_message msg) as [a|] eqn:Ea.
      * apply transfer_amid in Hr; [|done]. by repeat apply received_after.
      * apply (says K) in Hr as (-> & Q4 & C4 & _). apply received_unparsable; [done|by rewrite !Forall_app|done].
    + destruct o1 as [m|e| |]; [by destruct (Hn m)|by rewrite Forall_app..].
Qed.

Lemma takethis_amid id rest c o c' l : amid others (cut_task (takethis_turns K (id :: rest))) c o c' l ->
  match read_message (cx_conn c) with
  | (Ret msg, k) =>
      match parse_message msg with
      | None => o = Ret tt /\ Forall quiet l /\ cx_conn c' = wrote (streaming_response 439 id) k
      | Some a => exists l1 c1 l', l = l1 ++ (c1, c1) :: l' /\ Forall quiet l1
          /\ match get_article_by_id id (sto_storage (cx_stores c1)) with
             | Ok None => received (streaming_response 239 id) (streaming_response 439 id) msg k o c' l'
             | Ok (Some _) => o = Ret tt /\ Forall quiet l' /\ cx_conn c' = wrote (streaming_response 439 id) k
             | Err _ => (forall u, o <> Ret u) /\ l' = [] /\ cx_conn c' = k
             end
      end
  | (_, k) => (forall u, o <> Ret u) /\ Forall quiet l /\ cx_conn c' = k
  end.
Proof.
  unfold takethis_turns. open_cut.
  intros [(msg & c1 & l1 & l2 & (Q1 & E1 & _)%read_call_inv & Hr & ->)|(o1 & (Q1 & E1 & _)%read_call_inv & Hn & Hno)]%amid_followed;
    rewrite E1; [|by destruct o1 as [m|e| |]; [destruct (Hn m)|..]].
  destruct (parse_message msg) as [a|] eqn:Ea.
  - open_cut in Hr. apply ask_call_inv in Hr as (c2 & l' & -> & C2 & Hr). exists l1, c2, l'. split_and!; [done..|].
    destruct (get_article_by_id id (sto_storage (cx_stores c2))) as [[x|]|e]; [| |by destruct Hr as (-> & -> & ?)].
    + apply (says K) in Hr as (-> & Q & C & _). by rewrite C2 in C.
    + rewrite <- C2. by apply (transfer_amid _ _ _ a).
  - apply (says K) in Hr as (-> & Q & C & _). by rewrite Forall_app.
Qed.
End Transfers.

Section Claims.
Context {X : Ext} {Net : MilterNet} {S A : Type} `{Storage S} `{AuthProvider A}.
Implicit Types c : Ctx S A.
Context (K : World (S:=S) (A:=A) -> Prop).

(** C3: POST among others: whatever the others do to the stores, the queue, the tracker and
    the configuration between any two of its turns, it ends in one of these ways [posts].  The client
    may not post, and is told so at once; or the tracker says so of its user (440); or its text
    cannot be read to the end, or cannot be parsed (441); or the tracker refuses its size to its
    user (403), or a validation among its turns refuses the article (441) - and then no turn
    touches the queue.  Or it is accepted: then the turns are those of the reading, completion
    and charge, those of a validation that accepts the article the client sent, completed; then one
    turn hands this article to the queue, when nothing but 340 has been said; then turns that neither
    write nor touch the queue; and the last turn writes 240.  Or one of the parts
    breaks, and the command with it, the queue untouched. *)
Theorem post_among_others (args : list str) c (o : outcome unit) c' (l : list (Ctx S A * Ctx S A)) :
  amid others (cut_task (post_turns K args)) c o c' l -> posts c o c' l.
Proof. apply post_amid. Qed.

(** C11: IHAVE and TAKETHIS among others: an article is asked for, or taken, when the store did
    not have its Message-ID at the one turn that looked, and refused when it had.  From then on
    [received], whatever the others do: the text does not parse, and is refused; or it is a control message, and
    answered by what acting on it came to; or the tracker refuses its size (403), or a validation
    or the store among its turns refuses it - and no turn touches the queue; or a validation among
    its turns accepts it, then a turn stores it, then a turn hands it to the queue, then come turns that
    neither write nor touch the queue, and the last turn writes the acknowledgement - also when
    somebody else has stored the same article meanwhile. *)
Theorem transfers_among_others (id : str) (rest : list str) c (o : outcome unit) c' (l : list (Ctx S A * Ctx S A)) :
  (amid others (cut_task (ihave_turns K (id :: rest))) c o c' l ->
   exists c1 l', l = (c1, c1) :: l'
     /\ match get_article_by_id id (sto_storage (cx_stores c1)) with
        | Ok None => sent RESP_235_TRANSFER_OK RESP_437_REJECTED (wrote RESP_335_SEND_IT (cx_conn c)) o c' l'
        | Ok (Some _) => o = Ret tt /\ Forall quiet l' /\ cx_conn c' = wrote RESP_435_NOT_WANTED (cx_conn c)
        | Err _ => (forall u, o <> Ret u) /\ l' = [] /\ cx_conn c' = cx_conn c
        end)
  /\ (amid others (cut_task (takethis_turns K (id :: rest))) c o c' l ->
      match read_message (cx_conn c) with
      | (Ret msg, k) =>
          match parse_message msg with
          | None => o = Ret tt /\ Forall quiet l /\ cx_conn c' = wrote (streaming_response 439 id) k
          | Some a => exists l1 c1 l', l = l1 ++ (c1, c1) :: l' /\ Forall quiet l1
              /\ match get_article_by_id id (sto_storage (cx_stores c1)) with
                 | Ok None => received (streaming_response 239 id) (streaming_response 439 id) msg k o c' l'
                 | Ok (Some _) => o = Ret tt /\ Forall quiet l' /\ cx_conn c' = wrote (streaming_response 439 id) k
                 | Err _ => (forall u, o <> Ret u) /\ l' = [] /\ cx_conn c' = k
                 end
          end
      | (_, k) => (forall u, o <> Ret u) /\ Forall quiet l /\ cx_conn c' = k
      end).
Proof. split; [apply ihave_amid|apply takethis_amid]. Qed.
End Claims.

(** ** Concrete company *)
Module ToyCompany.
#[export] Instance toy_storage : Storage Db := @sqlite_storage Toy.ext.
#[export] Instance toy_auth : AuthProvider AuthDb := @sqlite_auth Toy.ext true.
Notation Ctx := (Ctx Db AuthDb).

(** The rest of what the client of an IHAVE sends. *)
Definition text : str := lit "From: a@b" ++ crlf ++ lit "Subject: t" ++ crlf ++ lit "Newsgroups: misc.a" ++ crlf
  ++ lit "Message-ID: <n@x>" ++ crlf ++ lit "Date: d" ++ crlf ++ crlf ++ lit "hi" ++ crlf ++ lit "." ++ crlf.
Definition sender : Ctx := two_client reader text.
Definition same_article : Message :=
  mkMessage [(lit "From", lit "a@b"); (lit "Subject", lit "t"); (lit "Newsgroups", lit "misc.a");
             (lit "Message-ID", lit "<n@x>"); (lit "Date", lit "d")] (lit "hi" ++ crlf).

(** Somebody else stores the same article; somebody empties the queue. *)
Definition stores_it (c : Ctx) : Ctx :=
  set_stores (mkStores (snd (@ss_store_article Toy.ext ns_per_sec same_article (sto_storage (cx_stores c))))
                (sto_auth (cx_stores c))) c.
Definition drains (c : Ctx) : Ctx := set_queue (new_queue 10) c.
Definition company : list (Ctx -> Ctx) := [id; stores_it; id; drains].

Lemma company_others : Forall (fun e => forall c : Ctx, others c (e c)) company.
Proof. by repeat constructor. Qed.

Definition ihave_task : Task Ctx unit := cut_task (@ihave_turns Toy.ext no_milter Db AuthDb toy_storage toy_auth any_world [lit "<n@x>"]).
Definition post_task : Task Ctx unit := cut_task (@post_turns Toy.ext no_milter Db AuthDb toy_storage toy_auth any_world []).

Lemma in_toy_company {B} (t : Task Ctx B) c o c' l : in_company company t c = (o, c', l) -> amid others t c o c' l.
Proof. intros E. exact (in_company_amid others (Reflexive0:=fun c => reflexivity c) company t c o c' l company_others E). Qed.

Definition numbers (c : Ctx) : list (result N) := @list_article_numbers Db toy_storage (lit "misc.a") (sto_storage (cx_stores c)).

(** A reply tells which answer it was. *)
Lemma no_reply (c : Ctx) (k : Conn) (r s : str) : c_out (cx_conn c) = s -> cx_conn c = wrote r k -> s = c_out k ++ r.
Proof. by intros <- ->. Qed.
End ToyCompany.

Lemma post_among_others_witness :
  let '(o, c', l) := in_company ToyCompany.company ToyCompany.post_task ToyCompany.sender in
  (exists l0 q x lm y, l = l0 ++ (x, set_queue (submit q (cx_queue x)) x) :: lm ++ [(y, c')]
     /\ c_out (cx_conn x) = RESP_340_SEND_ARTICLE)
  /\ c_out (cx_conn c') = RESP_340_SEND_ARTICLE ++ RESP_240_ARTICLE_RECEIVED
  /\ ToyCompany.numbers c' = Ok <$> [1; 2; 3].
Proof.
  destruct (in_company ToyCompany.company ToyCompany.post_task ToyCompany.sender) as [[o c'] l] eqn:E.
  assert (Hout : c_out (cx_conn c') = RESP_340_SEND_ARTICLE ++ RESP_240_ARTICLE_RECEIVED
                 /\ ToyCompany.numbers c' = Ok <$> [1; 2; 3]).
  { assert (Hc : c' = snd (fst (in_company ToyCompany.company ToyCompany.post_task ToyCompany.sender))) by (rewrite E; reflexivity).
    rewrite Hc. vm_compute. split; reflexivity. }
  destruct Hout as [Hout Hn]. split; [|split; [exact Hout|exact Hn]].
  destruct (@post_among_others Toy.ext no_milter Db AuthDb ToyCompany.toy_storage ToyCompany.toy_auth any_world []
              ToyCompany.sender o c' l (ToyCompany.in_toy_company _ _ _ _ _ E))
    as [c' l H1 H2 H3|u x c' l H1 H2 H3 H4 H5 H6|o1 o c' l H1 H2 H3 H4 H5|msg k c' l H1 H2 H3 H4 H5
       |msg k a a' la o c' l H1 H2 H3 H4 H5 H6 H7].
  - pose proof (ToyCompany.no_reply _ _ _ _ Hout H3) as Hr. vm_compute in Hr. discriminate Hr.
  - pose proof (ToyCompany.no_reply _ _ _ _ Hout H6) as Hr. vm_compute in Hr. discriminate Hr.
  - exfalso. vm_compute in H2. injection H2 as Hm _. exact (H3 _ (eq_sym Hm)).
  - exfalso. vm_compute in H2. injection H2 as Hm _. subst msg. vm_compute in H3. discriminate H3.
  - change (c_out (cx_conn ToyCompany.sender)) with ([] : str) in H4.
    destruct H7 as [c' l J1 J2 J3|e c' lb lv lr J1 J2 J3|e c' lb lv ls lr J1 J2 J3 J4 J5
      |lb lv ls x lm y J1 J2 J3 J4 J5 J6|o c' lb lp J1 J2 J3 J4].
    + pose proof (ToyCompany.no_reply _ _ _ _ Hout J3) as Hr. rewrite H4 in Hr. vm_compute in Hr. discriminate Hr.
    + pose proof (ToyCompany.no_reply _ _ _ _ Hout J3) as Hr. rewrite H4 in Hr. vm_compute in Hr. discriminate Hr.
    + discriminate J1.
    + eexists (la ++ lb ++ lv ++ ls), _, x, lm, y. split; [rewrite <- !app_assoc; reflexivity|]. rewrite J4. exact H4.
    + rewrite J4, H4 in Hout. vm_compute in Hout. discriminate Hout.
Defined.

Lemma transfers_among_others_witness :
  let '(o, c', l) := in_company ToyCompany.company ToyCompany.ihave_task ToyCompany.sender in
  (exists c1 l', l = (c1, c1) :: l'
     /\ @get_article_by_id Db ToyCompany.toy_storage (lit "<n@x>") (sto_storage (cx_stores c1)) = Ok None)
  /\ c_out (cx_conn c') = RESP_335_SEND_IT ++ RESP_235_TRANSFER_OK
  /\ ToyCompany.numbers c' = Ok <$> [1; 2; 3; 4].
Proof.
  destruct (in_company ToyCompany.company ToyCompany.ihave_task ToyCompany.sender) as [[o c'] l] eqn:E.
  assert (Hout : c_out (cx_conn c') = RESP_335_SEND_IT ++ RESP_235_TRANSFER_OK
                 /\ ToyCompany.numbers c' = Ok <$> [1; 2; 3; 4]).
  { assert (Hc : c' = snd (fst (in_company ToyCompany.company ToyCompany.ihave_task ToyCompany.sender))) by (rewrite E; reflexivity).
    rewrite Hc. vm_compute. split; reflexivity. }
  destruct Hout as [Hout Hn]. split; [|split; [exact Hout|exact Hn]].
  destruct (@transfers_among_others Toy.ext no_milter Db AuthDb ToyCompany.toy_storage ToyCompany.toy_auth any_world
              (lit "<n@x>") [] ToyCompany.sender o c' l) as [H _].
  destruct (H (ToyCompany.in_toy_company _ _ _ _ _ E)) as (c1 & l' & El & Hc). exists c1, l'. split; [exact El|].
  destruct (@get_article_by_id Db ToyCompany.toy_storage (lit "<n@x>") (sto_storage (cx_stores c1))) as [[a|]|e].
  - exfalso. destruct Hc as (_ & _ & Hc). rewrite Hc in Hout. vm_compute in Hout. discriminate Hout.
  - reflexivity.
  - exfalso. destruct Hc as (_ & _ & Hc). rewrite Hc in Hout. vm_compute in Hout. discriminate Hout.
Defined.
