(* ===== verification/Overviews.v ===== *)
(** * Overviews: what OVER, HDR and XPAT answer, and what a client reads in it
    ([overview.rs], [handlers/article.rs], [handlers/utils.rs])

    All three work on the articles a group has under the numbers of a range: OVER answers
    one line of fields for each, HDR one header, XPAT the lines of HDR that match. *)

From stdpp Require Import base numbers list gmap strings.
From Stdlib Require Import NArith ZArith Lia Sorted.
From S2P Require Import Prelude Text Externals Message Wildmat Config Limits Auth SqliteAuth Tracker Storage SqliteStorage Responses Session Wire Control Milter Filters Queue Context ArticleHandlers GroupHandlers PostHandlers Server Replies.
Local Open Scope N_scope.

(** ** The articles of a range *)
Section Ranges.
Context {X : Ext} {Net : MilterNet} {S A : Type} `{Storage S} `{!StorageLaws S} `{AuthProvider A}.
Implicit Types c : Ctx S A.
Implicit Types rows : list (N * Message).

Definition asked (start : N) (last : option N) (n : N) : bool :=
  (start <=? n) && match last with Some l => n <=? l | None => true end.

(** What a group whose numbers are [nums] has under those of a range, in their order. *)
Record in_range (g : str) (nums : list N) (p : N -> bool) (s : S) rows : Prop := {
  ir_numbers : rows.*1 = List.filter p nums;
  ir_articles : Forall (fun r => get_article_by_number g (fst r) s = Ok (Some (snd r))) rows;
}.

Definition stored_at (g : str) (s : S) (n : N) : option (N * Message) :=
  match get_article_by_number g n s with Ok (Some a) => Some (n, a) | _ => None end.

Lemma stored_at_Some g s n r : stored_at g s n = Some r <->
  fst r = n /\ get_article_by_number g n s = Ok (Some (snd r)).
Proof.
  unfold stored_at. destruct (get_article_by_number g n s) as [[a|]|e], r as [m b]; simpl;
    split; intros E; try done; destruct_and?; by simplify_eq.
Qed.

(** The selection after a loop over some articles. *)
Definition at_last rows c : Ctx S A :=
  match last (rows.*1) with
  | Some n => set_session (set_current_article n (cx_session c)) c
  | None => c
  end.

Lemma at_last_cons n a rows c :
  at_last rows (set_session (set_current_article n (cx_session c)) c) = at_last ((n, a) :: rows) c.
Proof. unfold at_last. rewrite fmap_cons, last_cons. by destruct (last rows.*1). Qed.

Section Numbers.
Context (g : str) (c : Ctx S A).
Hypothesis total : forall n, exists o, get_article_by_number g n (sto_storage (cx_stores c)) = Ok o.

Lemma found_cons n l : exists o, get_article_by_number g n (sto_storage (cx_stores c)) = Ok o
  /\ omap (stored_at g (sto_storage (cx_stores c))) (n :: l)
     = match o with
       | Some a => (n, a) :: omap (stored_at g (sto_storage (cx_stores c))) l
       | None => omap (stored_at g (sto_storage (cx_stores c))) l
       end.
Proof.
  destruct (total n) as [o Ho]. exists o. split; [done|]. csimpl.
  unfold stored_at at 1. rewrite Ho. by destruct o.
Qed.

Lemma resolve_numbers_found l acc c' : sto_storage (cx_stores c') = sto_storage (cx_stores c) ->
  let rows := omap (stored_at g (sto_storage (cx_stores c))) l in
  resolve_numbers g l acc c'
  = (Ret (match acc ++ rows with [] => inl NotFoundByNumber | rs => inr rs end), at_last rows c').
Proof.
  revert acc c'. induction l as [|n l IH]; intros acc c' Hc; [simpl; by rewrite app_nil_r; destruct acc|].
  cbn [resolve_numbers]. unfold mbind' at 1, storage_gets, mgets. rewrite Hc.
  destruct (found_cons n l) as (o & -> & ->).
  destruct o as [a|]; [|by apply IH].
  unfold mbind', update_session, mmodify. rewrite IH by done. by rewrite <- app_assoc, (at_last_cons n a).
Qed.

Lemma collect_numbers_found field l acc :
  let s := sto_storage (cx_stores c) in
  let values := (fun r => (fst r, get_field_value (snd r) field s)) <$> omap (stored_at g s) l in
  collect_numbers g field l acc c
  = (Ret (match acc ++ values with [] => inl NotFoundByNumber | vs => inr vs end), c).
Proof.
  revert acc. induction l as [|n l IH]; intros acc; [simpl; by rewrite app_nil_r; destruct acc|].
  cbn [collect_numbers]. unfold mbind' at 1, storage_gets, mgets. cbv zeta.
  destruct (found_cons n l) as (o & -> & ->).
  destruct o as [a|]; [|by apply IH]. unfold mbind'. rewrite IH, <- app_assoc. reflexivity.
Qed.
End Numbers.

Lemma elem_kept (p : N -> bool) l n : n ∈ List.filter p l <-> n ∈ l /\ p n = true.
Proof. rewrite !elem_of_list_In. apply filter_In. Qed.

Lemma sorted_kept (p : N -> bool) l : StronglySorted N.lt l -> StronglySorted N.lt (List.filter p l).
Proof.
  induction 1 as [|n l Hs IH Hlt]; simpl; [constructor|]. destruct (p n); [|done].
  constructor; [done|]. rewrite Forall_forall in Hlt |- *. intros m [Hm _]%elem_kept. by apply Hlt.
Qed.

(** Which articles a range finds. *)
Lemma found_in_range g nums p s l : st_wf s -> list_article_numbers g s = Ok <$> nums ->
  StronglySorted N.lt l -> (forall n, n ∈ nums -> n ∈ l <-> p n = true) ->
  in_range g nums p s (omap (stored_at g s) l).
Proof.
  intros Hwf Hn Hl Hp. split; [|apply Forall_forall; intros r (n & _ & Hr)%list_elem_of_omap;
    by apply stored_at_Some in Hr as [-> ?]].
  assert (Hin : forall n, n ∈ (omap (stored_at g s) l).*1 <-> n ∈ l /\ n ∈ nums).
  { intros n. rewrite list_elem_of_fmap, (listed_readable g n s nums Hwf Hn). split.
    - intros (r & -> & (m & Hm & Hr)%list_elem_of_omap). apply stored_at_Some in Hr as [<- Hr].
      split; [done|by eexists].
    - intros [Hm [a Ha]]. exists (n, a). split; [done|]. apply list_elem_of_omap.
      exists n. split; [done|]. by apply stored_at_Some. }
  apply (sorted_ext N.lt).
  - clear Hin Hp. induction Hl as [|n l Hl IH Hlt]; csimpl; [constructor|].
    destruct (stored_at g s n) as [r|] eqn:Er; [|done]. apply stored_at_Some in Er as [<- _].
    csimpl. constructor; [done|]. apply Forall_forall. intros m Hm.
    apply list_elem_of_fmap in Hm as (q & -> & (k & Hk & Hq)%list_elem_of_omap).
    apply stored_at_Some in Hq as [-> _]. rewrite Forall_forall in Hlt. by apply Hlt.
  - by apply sorted_kept, (numbers_increase g s).
  - intros n. rewrite Hin, elem_kept. naive_solver.
Qed.

Lemma range_not_angle start last : is_angle (spec_range start last) = false.
Proof. apply number_not_angle. Qed.

(** What a range that finds nothing is answered. *)
Definition nothing_in (start : N) (last : option N) : ArticleQueryError :=
  match last with
  | Some l => if l <? start then RangeEmpty else NotFoundByNumber
  | None => RangeEmpty
  end.

(** Whether the numbers of a range can be collected: an open range has those of the group. *)
Definition collectable (start : N) (last : option N) : bool :=
  match last with Some l => range_fits start l | None => true end.

(** A range of the selected group, as OVER, HDR and XPAT look it up. *)
Lemma range_lookup g nums start last s : st_wf s -> list_article_numbers g s = Ok <$> nums ->
  start <= u64_max -> default 0 last <= u64_max -> collectable start last = true ->
  exists l, parse_range g (spec_range start last) s = Ret l
    /\ in_range g nums (asked start last) s (omap (stored_at g s) l)
    /\ (l = [] -> nothing_in start last = RangeEmpty)
    /\ (l <> [] -> omap (stored_at g s) l = [] -> nothing_in start last = NotFoundByNumber).
Proof.
  intros Hwf Hn Hs Hl Hfit. destruct last as [last|]; simpl in Hl, Hfit.
  - destruct (parse_range_reads g start last nums s Hs Hl Hn) as (_ & _ & Hp & _).
    rewrite Hfit in Hp. destruct Hp as (l & Hp & Hin & Hsort). exists l. split; [done|]. split; [|split].
    + apply found_in_range; try done. intros n _. rewrite Hin. unfold asked.
      rewrite andb_true_iff, !N.leb_le. done.
    + intros ->. simpl. destruct (N.ltb_spec last start); [done|].
      exfalso. apply (not_elem_of_nil start), Hin. lia.
    + intros Hne _. simpl. destruct (N.ltb_spec last start); [|done].
      destruct l as [|n l]; [done|]. exfalso. assert (n ∈ n :: l) as Hx by left. apply Hin in Hx. lia.
  - destruct (parse_range_reads g start 0 nums s Hs ltac:(done) Hn) as (_ & Hp & _).
    exists (List.filter (N.leb start) nums). split; [done|]. split; [|split].
    + apply found_in_range; try done.
      * by apply sorted_kept, (numbers_increase g s).
      * intros n Hin. unfold asked. rewrite elem_kept, andb_true_r. tauto.
    + done.
    + intros Hne Hno. exfalso. apply Hne. destruct (List.filter (N.leb start) nums) as [|n l] eqn:E; [done|].
      assert (Hin : n ∈ nums).
      { assert (Hx : n ∈ n :: l) by left. rewrite <- E in Hx. by apply elem_kept in Hx as [Hx _]. }
      apply (listed_readable g n s nums Hwf Hn) in Hin as [a Ha].
      assert (Hst : stored_at g s n = Some (n, a)) by by apply stored_at_Some.
      csimpl in Hno. by rewrite Hst in Hno.
Qed.

Lemma range_too_long g nums start last s : list_article_numbers g s = Ok <$> nums ->
  start <= u64_max -> default 0 last <= u64_max -> collectable start last = false ->
  parse_range g (spec_range start last) s = Panic.
Proof.
  intros Hn Hs Hl Hfit. destruct last as [last|]; [|done]. simpl in Hl, Hfit.
  destruct (parse_range_reads g start last nums s Hs Hl Hn) as (_ & _ & Hp & _). by rewrite Hfit in Hp.
Qed.

(** *** The fields of an article, as HDR gives them under the names of LIST OVERVIEW.FMT *)
Definition field_name (f : str) : str := default f (strip_suffix_char (ch ":") f).
Definition overview_fields (s : S) (a : Message) : list str :=
  (fun f => default [] (get_field_value a (field_name f) s)) <$> OVERVIEW_FORMAT.
Definition overview_line (s : S) (r : N * Message) : str :=
  join [TAB] (show_N (fst r) :: overview_fields s (snd r)).

Lemma overview_generated g s n a : st_wf s -> get_article_by_number g n s = Ok (Some a) ->
  generate_overview_line (fun i => get_message_size i s) n a = Ok (overview_line s (n, a)).
Proof.
  intros Hwf Ha. destruct (by_number_by_id g n s a Hwf Ha) as (id & Hid).
  destruct (by_id_named id s a Hwf Hid) as (Hm & size & Hsize).
  unfold generate_overview_line, overview_line, overview_fields. rewrite Hm, Hsize.
  assert (Hbytes : get_field_value a (field_name (lit ":bytes")) s = Some (show_N size)).
  { change (get_field_value a (field_name (lit ":bytes")) s) with (metadata_value a (lit ":bytes") s).
    unfold metadata_value. change (str_eqb (lit ":bytes") (lit ":bytes")) with true. cbv iota.
    by rewrite Hm, Hsize. }
  unfold OVERVIEW_FORMAT. cbn [fmap list_fmap fst snd]. rewrite Hbytes. reflexivity.
Qed.

(** What a range of the selected group is resolved to, for OVER and for HDR. *)
Lemma resolved_range g l start last c : let s := sto_storage (cx_stores c) in
  (forall n, exists o, get_article_by_number g n s = Ok o) ->
  current_group (cx_session c) = Some g -> parse_range g (spec_range start last) s = Ret l ->
  (l = [] -> nothing_in start last = RangeEmpty) ->
  (l <> [] -> omap (stored_at g s) l = [] -> nothing_in start last = NotFoundByNumber) ->
  resolve_articles (Some (spec_range start last)) c
  = (Ret (match omap (stored_at g s) l with [] => inl (nothing_in start last) | rs => inr rs end),
     at_last (omap (stored_at g s) l) c).
Proof.
  intros s total Hg Hp Hempty Hnone. unfold resolve_articles, mbind' at 1, session, mgets. cbn [id].
  rewrite range_not_angle, Hg. rewrite (mbind_Ret _ _ _ _ _ (range_numbers_ret g _ l c Hp)).
  destruct l as [|n l]; [by rewrite (Hempty eq_refl)|].
  rewrite (resolve_numbers_found g c total) by done. cbn [app]. fold s.
  destruct (omap (stored_at g s) (n :: l)) eqn:Er; [|done]. by rewrite Hnone.
Qed.

Lemma collected_range g l start last field c : let s := sto_storage (cx_stores c) in
  (forall n, exists o, get_article_by_number g n s = Ok o) ->
  current_group (cx_session c) = Some g -> parse_range g (spec_range start last) s = Ret l ->
  (l = [] -> nothing_in start last = RangeEmpty) ->
  (l <> [] -> omap (stored_at g s) l = [] -> nothing_in start last = NotFoundByNumber) ->
  collect_header_values field (Some (spec_range start last)) c
  = (Ret (match omap (stored_at g s) l with
          | [] => inl (nothing_in start last)
          | rs => inr ((fun r => (fst r, get_field_value (snd r) field s)) <$> rs)
          end), c).
Proof.
  intros s total Hg Hp Hempty Hnone. unfold collect_header_values, mbind' at 1, session, mgets. cbn [id].
  rewrite range_not_angle, Hg. rewrite (mbind_Ret _ _ _ _ _ (range_numbers_ret g _ l c Hp)).
  destruct l as [|n l]; [by rewrite (Hempty eq_refl)|].
  rewrite (collect_numbers_found g c total). cbn [app]. fold s.
  destruct (omap (stored_at g s) (n :: l)) eqn:Er; [|done]. by rewrite Hnone.
Qed.

(** A range that cannot be collected ends the command, and with it the connection. *)
Lemma range_panics g start last field c :
  current_group (cx_session c) = Some g ->
  parse_range g (spec_range start last) (sto_storage (cx_stores c)) = Panic ->
  resolve_articles (Some (spec_range start last)) c = (Panic, c)
  /\ collect_header_values field (Some (spec_range start last)) c = (Panic, c).
Proof.
  intros Hg Hp%range_numbers_panic. unfold resolve_articles, collect_header_values.
  split; unfold mbind' at 1, session, mgets; cbn [id]; rewrite range_not_angle, Hg; unfold mbind'; by rewrite Hp.
Qed.

(** A loop over rows whose turns each answer a text. *)
Lemma mfor_replied {B} (l : list B) (f : B -> M (Ctx S A) unit) (t : B -> str) c s :
  (forall b s, b ∈ l -> f b (replied s c) = (Ret tt, replied (s ++ t b) c)) ->
  mfor l f (replied s c) = (Ret tt, replied (s ++ (l ≫= t)) c).
Proof.
  revert s. induction l as [|b l IH]; intros s Hf; csimpl; [by rewrite app_nil_r|].
  unfold mbind'. rewrite Hf by left. rewrite IH by (intros b' s' Hb; apply Hf; by right).
  by rewrite app_assoc.
Qed.

Definition line_text {B} (f : B -> str) (l : list B) : str := l ≫= fun b => f b ++ crlf.

Lemma join_absent x sep (l : list str) : x ∉ sep -> Forall (fun p => x ∉ p) l -> x ∉ join sep l.
Proof.
  intros Hs Hl Hx. apply join_elem in Hx as [|(p & Hp & Hx)]; [done|].
  rewrite Forall_forall in Hl. by eapply Hl.
Qed.

(** Lines of fields without line breaks are read back exactly when none holds a tab. *)
Lemma read_lines s rows : Forall (fun r => Forall (fun v => LF ∉ v) (overview_fields s (snd r))) rows ->
  split_on TAB <$> lines (line_text (overview_line s) rows)
  = (fun r => show_N (fst r) :: overview_fields s (snd r)) <$> rows
  <-> Forall (fun r => Forall (fun v => TAB ∉ v) (overview_fields s (snd r))) rows.
Proof.
  intros Hlf. unfold line_text. rewrite lines_of_text.
  2: { eapply Forall_impl; [exact Hlf|]. intros r Hr. apply join_absent; [set_solver|].
       constructor; [by apply show_N_absent|done]. }
  rewrite <- list_fmap_compose. clear Hlf. induction rows as [|r rows IH]; [done|].
  csimpl. rewrite Forall_cons, <- IH. clear IH.
  assert (Hr : split_on TAB (overview_line s r) = show_N (fst r) :: overview_fields s (snd r)
               <-> Forall (fun v => TAB ∉ v) (overview_fields s (snd r))).
  { unfold overview_line. rewrite split_join, Forall_cons by done.
    split; [by intros [_ ?]|intros ?; split; [by apply show_N_absent|done]]. }
  rewrite <- Hr. split; [intros [= H1 H2]; by split|intros [H1 H2]; by f_equal].
Qed.

(** C10: OVER on a range of the selected group answers one line for each article the group
    has in it, by number, and selects the last; a line is the number and, between tabs, what
    HDR answers for each field LIST OVERVIEW.FMT announces.  If no field holds a line
    break - no header that was received does - a client reads the lines
    back as these fields exactly when none of them holds a tab, which nothing keeps a header
    from.  A range without articles is refused; a closed one of so many numbers that a [Vec]
    of them would pass [isize::MAX] bytes - 2^60 and more - makes the command panic, which
    ends the connection without an answer. *)
Theorem overview_reply c (g : str) (nums : list N) (start : N) (last : option N) :
  let s := sto_storage (cx_stores c) in
  st_wf s -> current_group (cx_session c) = Some g -> list_article_numbers g s = Ok <$> nums ->
  start <= u64_max -> default 0 last <= u64_max ->
  if collectable start last then
  exists rows, in_range g nums (asked start last) s rows
    /\ OverHandler [spec_range start last] c
       = (Ret tt, match rows with
                  | [] => replied (article_error_response (nothing_in start last)) c
                  | _ => replied (RESP_224_OVERVIEW ++ line_text (overview_line s) rows ++ RESP_DOT_CRLF)
                           (at_last rows c)
                  end)
    /\ (Forall (fun r => Forall (fun v => LF ∉ v) (overview_fields s (snd r))) rows ->
        split_on TAB <$> lines (line_text (overview_line s) rows)
        = (fun r => show_N (fst r) :: overview_fields s (snd r)) <$> rows
        <-> Forall (fun r => Forall (fun v => TAB ∉ v) (overview_fields s (snd r))) rows)
  else OverHandler [spec_range start last] c = (Panic, c).
Proof.
  intros s Hwf Hg Hn Hs Hl. destruct (collectable start last) eqn:Hfit.
  2: { destruct (range_panics g start last [] c Hg (range_too_long g nums start last s Hn Hs Hl Hfit)) as [Hr _].
       unfold OverHandler, mbind'. cbn [head]. by rewrite Hr. }
  assert (total : forall n, exists o, get_article_by_number g n s = Ok o)
    by (intros n; by apply (get_by_number_total g n s nums)).
  destruct (range_lookup g nums start last s Hwf Hn Hs Hl Hfit) as (l & Hp & Hin & Hempty & Hnone).
  exists (omap (stored_at g s) l). split; [done|]. split; [|apply read_lines].
  unfold OverHandler. cbn [head]. rewrite (mbind_Ret _ _ _ _ _ (resolved_range g l start last c total Hg Hp Hempty Hnone)).
  fold s. destruct (omap (stored_at g s) l) as [|r rows] eqn:Er; [reflexivity|].
  rewrite (then_replied _ _ _ _ (net_write_all _ _)).
  erewrite mbind_Ret; [|apply (mfor_replied _ _ (fun r => overview_line s r ++ crlf))].
  - by rewrite net_write_all, replied_app, <- app_assoc.
  - intros [n a] t Hr. pose proof (ir_articles _ _ _ _ _ Hin) as Ha. rewrite Forall_forall in Ha.
    specialize (Ha _ Hr). simpl in Ha.
    rewrite (mbind_Ret _ _ _ (overview_line s (n, a)) (replied t (at_last (r :: rows) c))).
    + by rewrite net_write_all, replied_app.
    + apply ask_ok. rewrite <- (overview_generated g s n a Hwf Ha).
      unfold at_last, replied. by case_match.
Qed.
(** *** One header of each article *)
Definition header_line (nv : N * option str) : str :=
  show_N (fst nv) ++ match snd nv with Some v => lit " " ++ v | None => [] end.
Definition matching (patterns : list str) (nv : N * option str) : bool :=
  match snd nv with Some v => existsb (fun p => wildmat p v) patterns | None => false end.

Lemma values_wrote response values k : write_response_with_values response values k
  = (Ret tt, wrote (response ++ line_text header_line values ++ RESP_DOT_CRLF) k).
Proof.
  unfold write_response_with_values. rewrite (mbind_Ret _ _ k tt (wrote response k)) by done.
  erewrite mbind_Ret; [|apply (mfor_wrote _ _ (fun nv => header_line nv ++ crlf))].
  - change (write_all RESP_DOT_CRLF ?k) with (Ret tt, wrote RESP_DOT_CRLF k). by rewrite !wrote_app.
  - intros [n [v|]] k'; unfold header_line; simpl; by rewrite <- ?app_assoc, ?app_nil_r.
Qed.

Lemma matching_lines patterns values c s :
  mfor values (fun nv => match snd nv with
                         | Some v => if existsb (fun pat => wildmat pat v) patterns
                                     then net (write_all (show_N (fst nv) ++ lit " " ++ v ++ crlf))
                                     else mreturn tt
                         | None => mreturn tt
                         end) (replied s c)
  = (Ret tt, replied (s ++ line_text header_line (List.filter (matching patterns) values)) c).
Proof.
  erewrite mfor_replied with (t := fun nv => if matching patterns nv then header_line nv ++ crlf else []).
  - do 3 f_equal. unfold line_text. induction values as [|nv values IH]; [done|]. csimpl.
    destruct (matching patterns nv); csimpl; by rewrite IH.
  - intros [n [v|]] t _; unfold matching, header_line; cbn [fst snd]; [|by rewrite app_nil_r].
    destruct (existsb _ _); [|by rewrite app_nil_r]. by rewrite net_write_all, replied_app, <- !app_assoc.
Qed.

(** C29: HDR on a range of the selected group answers, for each article the group has in it,
    its number and the header or the metadata asked for (the number alone where there is
    none); XPAT answers those lines of HDR whose value one of the patterns matches, or,
    where HDR refuses the range, refuses it the same way.  Neither moves the selection.  On
    a closed range of 2^60 and more numbers both panic. *)
Theorem header_reply c (g : str) (nums : list N) (start : N) (stop : option N)
    (field pattern : str) (patterns : list str) :
  let s := sto_storage (cx_stores c) in
  st_wf s -> current_group (cx_session c) = Some g -> list_article_numbers g s = Ok <$> nums ->
  start <= u64_max -> default 0 stop <= u64_max -> field <> lit ":" ->
  if collectable start stop then
  exists rows, in_range g nums (asked start stop) s rows
    /\ let values := (fun r => (fst r, get_field_value (snd r) field s)) <$> rows in
       let answer response lines :=
         (Ret tt, replied (match rows with
                           | [] => article_error_response (nothing_in start stop)
                           | _ => response ++ line_text header_line lines ++ RESP_DOT_CRLF
                           end) c) in
       HdrHandler [field; spec_range start stop] c = answer RESP_225_HEADERS values
       /\ XPatHandler (field :: spec_range start stop :: pattern :: patterns) c
          = answer RESP_221_HEADER_FOLLOWS (List.filter (matching (pattern :: patterns)) values)
  else HdrHandler [field; spec_range start stop] c = (Panic, c)
       /\ XPatHandler (field :: spec_range start stop :: pattern :: patterns) c = (Panic, c).
Proof.
  intros s Hwf Hg Hn Hs Hl Hf.
  assert (Hcolon : str_eqb field (lit ":") = false) by by apply bool_decide_eq_false.
  destruct (collectable start stop) eqn:Hfit.
  2: { destruct (range_panics g start stop field c Hg (range_too_long g nums start stop s Hn Hs Hl Hfit)) as [_ Hr].
       unfold HdrHandler, XPatHandler, mbind'. rewrite Hcolon. cbn [lookup list_lookup drop]. by rewrite Hr. }
  assert (total : forall n, exists o, get_article_by_number g n s = Ok o)
    by (intros n; by apply (get_by_number_total g n s nums)).
  destruct (range_lookup g nums start stop s Hwf Hn Hs Hl Hfit) as (l & Hp & Hin & Hempty & Hnone).
  exists (omap (stored_at g s) l). split; [done|]. cbv zeta.
  pose proof (collected_range g l start stop field c total Hg Hp Hempty Hnone) as Hc.
  fold s in Hc. split.
  - unfold HdrHandler. rewrite Hcolon. cbn [lookup list_lookup].
    rewrite (mbind_Ret _ _ _ _ _ Hc). destruct (omap (stored_at g s) l) as [|r rows]; [reflexivity|].
    apply net_wrote, values_wrote.
  - unfold XPatHandler. cbn [drop]. rewrite (mbind_Ret _ _ _ _ _ Hc).
    destruct (omap (stored_at g s) l) as [|r rows]; [reflexivity|].
    rewrite (then_replied _ _ _ _ (write_replied _ _)).
    rewrite (mbind_Ret _ _ _ _ _ (matching_lines _ _ _ _)).
    by rewrite net_write_all, replied_app, <- app_assoc.
Qed.
End Ranges.

(** ** What a received header may hold

    Everything but line breaks: the parser ends a value at CR or LF, and what it does to a
    Message-ID only takes characters away. *)
Definition one_line (s : str) : Prop := Forall (fun x => not_eol x = true) s.

Lemma one_line_LF s : one_line s -> LF ∉ s.
Proof. intros Hs Hin. unfold one_line in Hs. rewrite Forall_forall in Hs. by specialize (Hs _ Hin). Qed.

Lemma span_Forall f s : Forall (fun x => f x = true) (fst (span f s)).
Proof.
  induction s as [|x s IH]; simpl; [constructor|]. destruct (f x) eqn:Ef; [|constructor].
  destruct (span f s). by constructor.
Qed.

Lemma trim_start_Forall (P : char -> Prop) f s : Forall P s -> Forall P (trim_start_matches f s).
Proof. induction 1 as [|x s Hx Hs IH]; simpl; [constructor|]. destruct (f x); [done|by constructor]. Qed.

Lemma trim_Forall (P : char -> Prop) s : Forall P s -> Forall P (trim s).
Proof.
  intros Hs. unfold trim, trim_matches, trim_end_matches. apply Forall_rev, trim_start_Forall, Forall_rev.
  by apply trim_start_Forall.
Qed.

Lemma unescape_loop_Forall (P : char -> Prop) s q b d : Forall P s -> Forall P (unescape_loop s q b d).
Proof.
  assert (Hn : forall n s q b d, (length s <= n)%nat -> Forall P s -> Forall P (unescape_loop s q b d));
    [|by eapply Hn].
  clear. induction n as [|n IH]; intros [|x s] q b d Hlen Hs; try constructor; [simpl in Hlen; lia|].
  simpl in Hlen. inversion Hs as [|? ? Hx Ht]; subst. cbn [unescape_loop].
  repeat match goal with |- Forall P (if ?c then _ else _) => destruct c end;
    repeat constructor; try done; try (apply IH; [lia|done]).
  destruct s as [|y s]; [constructor|]. inversion Ht; subst. constructor; [done|].
  apply IH; [simpl in Hlen; lia|done].
Qed.

Lemma unescape_one_line id : one_line id -> one_line (unescape_message_id id).
Proof.
  intros Hid%trim_Forall. unfold unescape_message_id. destruct (is_angle (trim id)) eqn:Ea; [|done].
  cbn [negb]. apply bracketed_inv in Ea; [|done]. rewrite Ea in Hid.
  inversion Hid as [|? ? _ Hin]; subst. apply Forall_app in Hin as [Hin _].
  apply Forall_app. split; [by repeat constructor|]. apply Forall_app.
  split; [by apply unescape_loop_Forall|by repeat constructor].
Qed.

Lemma continuations_one_line fuel i v i' v' :
  header_continuations fuel i v = Some (i', v') -> one_line v -> one_line v'.
Proof.
  revert i v. induction fuel as [|fuel IH]; intros i v; [done|]. cbn [header_continuations].
  destruct (take_while1 is_space i) as [[w next]|]; [|by intros [= _ <-]].
  pose proof (span_Forall not_eol next) as Hc. unfold take_till_eol.
  destruct (span not_eol next) as [cont next']. destruct (p_crlf next') as [k|]; [|done].
  intros E Hv. apply IH in E; [done|]. repeat (apply Forall_app; split); [done|by repeat constructor|done].
Qed.

Lemma header_line_one_line i r name v : parse_header_line i = Some (r, (name, v)) -> one_line v.
Proof.
  unfold parse_header_line. destruct (take_while1 header_name_char i) as [[n [|x j]]|]; [done| |done].
  destruct (x =? ch ":"); [|done]. pose proof (span_Forall not_eol (space0 j)) as Hv.
  unfold take_till_eol. destruct (span not_eol (space0 j)) as [value k]. simpl in Hv.
  destruct (p_crlf k) as [m|]; [|done].
  destruct (header_continuations _ m value) as [[i' val]|] eqn:Ec; [|done]. intros [= _ _ <-].
  by eapply continuations_one_line.
Qed.

Lemma headers_one_line fuel i rest hs : parse_headers_loop fuel i = Some (rest, hs) ->
  Forall (fun kv => one_line (snd kv)) hs.
Proof.
  revert i rest hs. induction fuel as [|fuel IH]; intros i rest hs; [done|]. cbn [parse_headers_loop].
  destruct (p_crlf i); [intros [= _ <-]; constructor|].
  destruct (parse_header_line i) as [[next [k v]]|] eqn:Eh; [|done].
  destruct (parse_headers_loop fuel next) as [[r l]|] eqn:El; [|done]. intros [= _ <-].
  constructor; [exact (header_line_one_line _ _ _ _ Eh)|exact (IH _ _ _ El)].
Qed.

(** No header of an article that was received holds a line break. *)
Lemma received_one_line text a : parse_message text = Some a ->
  Forall (fun kv => one_line (snd kv)) (headers a).
Proof.
  unfold parse_message, parse_headers. destruct (parse_headers_loop _ text) as [[rest hs]|] eqn:E; [|done].
  intros [= <-]. apply headers_one_line in E. unfold map_header. simpl. apply Forall_fmap.
  eapply Forall_impl; [exact E|]. intros [k v] Hv. simpl in *.
  destruct (is_header _ _); [by apply unescape_one_line|done].
Qed.

(** So the fields of its overview hold none either, if its date and its Message-ID came
    with it. *)
Lemma received_fields {S} `{Storage S} text a (s : S) : parse_message text = Some a ->
  Forall (fun v => LF ∉ v) (overview_fields s a).
Proof.
  intros Hp%received_one_line.
  assert (Hh : forall name, LF ∉ default [] (get_header_value a name)).
  { intros name. unfold get_header_value. destruct (find_first (is_header name) (headers a)) as [kv|] eqn:E.
    - apply find_first_Some in E as [Hin%elem_of_list_In _]. apply one_line_LF. rewrite Forall_forall in Hp.
      by apply Hp.
    - apply not_elem_of_nil. }
  unfold overview_fields, OVERVIEW_FORMAT. cbn [fmap list_fmap].
  assert (Hm : forall name, starts_with (lit ":") name = true -> LF ∉ default [] (get_field_value a name s)).
  { intros name Hn. unfold get_field_value. rewrite Hn. unfold metadata_value.
    repeat case_match; simpl; try (by apply show_N_absent); apply not_elem_of_nil. }
  repeat constructor; try (by apply Hm).
  all: apply Hh.
Qed.

(** ** Concrete replies *)
Module ToyOverview.
#[export] Instance toy_storage : Storage Db := @sqlite_storage Toy.ext.
#[export] Instance toy_laws : StorageLaws Db := @sqlite_storage_laws Toy.ext Toy.json_laws.
#[export] Instance toy_auth : AuthProvider AuthDb := @sqlite_auth Toy.ext true.

Definition client : Ctx Db AuthDb := two_client (at_article 1) [].

Lemma listed : list_article_numbers (lit "misc.a") (sto_storage (cx_stores client)) = Ok <$> [1; 2].
Proof. vm_compute. reflexivity. Qed.

(** An article with a tab in its Subject, as it may be received. *)
Definition tab_text : str := lit "From: a@b" ++ crlf ++ lit "Subject: two" ++ TAB :: lit "fields" ++ crlf
  ++ lit "Newsgroups: misc.a" ++ crlf ++ lit "Message-ID: <t@x>" ++ crlf ++ crlf ++ lit "text" ++ crlf.
Definition tab_article : Message := default (mkMessage [] []) (parse_message tab_text).
Definition tab_db : Db := snd (store_article 0 tab_article two_db).
End ToyOverview.

(** Its overview line has a field too many: a client takes the second half of the Subject
    for the sender. *)
Example tab_shifts_fields :
  fst (@OverHandler Db AuthDb ToyOverview.toy_storage [lit "3"] (set_stores (mkStores ToyOverview.tab_db bob_db) ToyOverview.client)) = Ret tt
  /\ split_on TAB (@overview_line Db ToyOverview.toy_storage ToyOverview.tab_db (3, ToyOverview.tab_article))
     = [lit "3"; lit "two"; lit "fields"; lit "a@b"; []; lit "<t@x>"; []; lit "6"; lit "1"].
Proof. split; vm_compute; reflexivity. Qed.

Lemma overview_reply_witness :
  exists rows, rows.*1 = [1; 2]
    /\ fst (@OverHandler Db AuthDb ToyOverview.toy_storage [spec_range 1 (Some 2)] ToyOverview.client) = Ret tt
    /\ split_on TAB <$> lines (line_text (@overview_line Db ToyOverview.toy_storage two_db) rows)
       = (fun r => show_N (fst r) :: @overview_fields Db ToyOverview.toy_storage two_db (snd r)) <$> rows.
Proof.
  destruct (@overview_reply Db AuthDb ToyOverview.toy_storage ToyOverview.toy_laws
              ToyOverview.client (lit "misc.a") [1; 2] 1 (Some 2)) as (rows & [Hn Ha] & Ho & Hr);
    [exact two_db_wf|reflexivity|exact ToyOverview.listed|by compute|by compute|].
  exists rows. split; [exact Hn|]. split; [rewrite Ho; reflexivity|].
  destruct rows as [|[n a] [|[m b] [|]]]; try discriminate Hn. injection Hn as -> ->.
  inversion Ha as [|? ? Ha1 Ha2]; subst. inversion Ha2 as [|? ? Ha3 _]; subst.
  assert (Ea : a = plain_article) by (vm_compute in Ha1; by injection Ha1 as <-).
  assert (Eb : b = dotted_article) by (vm_compute in Ha3; by injection Ha3 as <-).
  subst a b. apply Hr.
  - repeat constructor; by apply absent_check; vm_compute.
  - repeat constructor; by apply absent_check; vm_compute.
Defined.

Lemma header_reply_witness :
  exists rows, rows.*1 = [1; 2]
    /\ c_out (cx_conn (snd (@XPatHandler Toy.ext Db AuthDb ToyOverview.toy_storage
                              [lit "Subject"; spec_range 1 None; lit "t*"] ToyOverview.client)))
       = RESP_221_HEADER_FOLLOWS
         ++ line_text header_line (List.filter (@matching Toy.ext [lit "t*"])
              ((fun r => (fst r, @get_field_value Db ToyOverview.toy_storage (snd r) (lit "Subject") two_db)) <$> rows))
         ++ RESP_DOT_CRLF.
Proof.
  destruct (@header_reply Toy.ext Db AuthDb ToyOverview.toy_storage ToyOverview.toy_laws
              ToyOverview.client (lit "misc.a") [1; 2] 1 None (lit "Subject") (lit "t*") [])
    as (rows & [Hn Ha] & _ & Hx);
    [exact two_db_wf|reflexivity|exact ToyOverview.listed|by compute|by compute|by vm_compute|].
  exists rows. split; [exact Hn|]. rewrite Hx. destruct rows as [|r rows]; [discriminate Hn|]. reflexivity.
Defined.
