(* ===== verification/Peers.v ===== *)
(** * Peers: synchronisation with peer servers ([peers.rs])

    Peer addresses, the table of peers, the dialogue of one article transfer, and a
    synchronisation pass.  A peer server is code this one only talks to: the class
    [PeerNet] gives what each dialled connection leads to.  The scheduler, which runs the
    job of a peer at its times, and the TLS set-up are outside the model. *)

From stdpp Require Import base numbers list gmap strings.
From Stdlib Require Import NArith ZArith Lia Sorted.
From S2P Require Import Prelude Text Externals Message Wildmat Config Storage SqliteStorage Responses Wire.
Local Open Scope N_scope.

(** ** Peer addresses *)
Record PeerCredentials := mkPeerCredentials { pc_username : str; pc_password : str }.
Record PeerConnectionInfo := mkPeerConnectionInfo {
  pi_host : str; pi_port : N; pi_credentials : option PeerCredentials }.

Definition extract_credentials (addr : str) : option PeerCredentials * str :=
  match rsplit_once (ch "@") addr with
  | None => (None, addr)
  | Some (creds_part, rest) =>
      match split_once (ch ":") creds_part with
      | None => (None, addr)
      | Some (username, password) => (Some (mkPeerCredentials username password), rest)
      end
  end.

Definition parse_ipv6_address (content : str) (default_port : N) : str * N :=
  match split_once (ch "]") content with
  | None => (content, default_port)
  | Some (host, port_part) =>
      (host, default default_port (strip_prefix (lit ":") port_part ≫= parse_u16))
  end.

Definition parse_regular_address (host_port : str) (default_port : N) : str * N :=
  match rsplit_once (ch ":") host_port with
  | None => (host_port, default_port)
  | Some (host, port_str) =>
      if negb (forallb is_ascii_digit port_str) then (host_port, default_port)
      else match parse_u16 port_str with
           | None => (host_port, default_port)
           | Some port => (host, port)
           end
  end.

Definition parse_host_and_port (host_port : str) (default_port : N) : str * N :=
  match strip_prefix (lit "[") host_port with
  | Some content => parse_ipv6_address content default_port
  | None => parse_regular_address host_port default_port
  end.

Definition parse_peer_address (addr : str) (default_port : N) : PeerConnectionInfo :=
  let '(credentials, host_port) := extract_credentials addr in
  let '(host, port) := parse_host_and_port host_port default_port in
  mkPeerConnectionInfo host port credentials.

(** ** The table of peers: sitename to last_sync, in seconds *)
Abbreviation PeerDb := (gmap str Z) (only parsing).

(** [DateTime::from_timestamp(secs, 0)]: none outside chrono's calendar. *)
Definition date_from_timestamp (secs : Z) : option Z :=
  if ((-8334601228800 <=? secs) && (secs <=? 8210266876799))%Z then Some (secs * ns_per_sec)%Z else None.

Definition list_peers (db : PeerDb) : list str := fst <$> map_to_list db.

(** INSERT INTO peers: the site name is the primary key. *)
Definition insert_peer (name : str) : M PeerDb unit := fun db =>
  match db !! name with
  | Some _ => (Fail (lit "UNIQUE constraint failed"), db)
  | None => (Ret tt, <[name := 0%Z]> db)
  end.

Definition sync_config (names : list str) : M PeerDb unit :=
  (existing_peers <-- mgets list_peers ;;;
   mfor names (fun name =>
     if existsb (str_eqb name) existing_peers then mreturn tt else insert_peer name) ;;;
   mfor existing_peers (fun p =>
     if existsb (str_eqb p) names then mreturn tt else mmodify (delete p)))%m.

Definition update_last_sync (name : str) (now : Z) : M PeerDb unit :=
  mmodify (alter (fun _ => timestamp now) name).

Definition get_last_sync (name : str) (db : PeerDb) : option Z :=
  match db !! name with
  | Some ts => if (ts =? 0)%Z then None else date_from_timestamp ts
  | None => None
  end.

(** ** A connection to a peer

    What a peer has said once it was sent a text, and what follows its last byte. *)
Record Remote := mkRemote { remote_says : str -> list (option char); remote_end : InEnd }.

(** The connection each dial leads to, by the number of dials before it, the host and the
    port: TCP, TLS and the certificate check, or the error of the first that fails. *)
Class PeerNet := { peer_dial : nat -> str -> N -> result Remote }.

(** The peer, what was sent to it and how much of what it said is read. *)
Record PeerConnection := mkPeerConnection { pn_remote : Remote; pn_sent : str; pn_read : nat }.

(** [BufReader::read_line] on the connection. *)
Definition read_response : M PeerConnection str := fun c =>
  let r := pn_remote c in
  let available := drop (pn_read c) (remote_says r (pn_sent c)) in
  let '(o, rest) := conn_read_line (mkConn available (remote_end r) []) in
  (o, mkPeerConnection r (pn_sent c) (pn_read c + (length available - length (c_in rest)))).

(** A computation that only writes to the connection. *)
Definition writing {A} : M Conn A -> M PeerConnection A :=
  mzoom (fun c => mkConn [] Eof (pn_sent c))
    (fun w c => mkPeerConnection (pn_remote c) (c_out w) (pn_read c)).

(** [map_err]. *)
Definition map_err {St A} (f : str -> str) (m : M St A) : M St A := fun s =>
  match m s with
  | (Fail e, s') => (Fail (f e), s')
  | r => r
  end.

Definition send_command (command : str) : M PeerConnection unit := writing (write_simple command).

Definition authenticate (creds : PeerCredentials) : M PeerConnection unit :=
  (send_command (lit "AUTHINFO USER " ++ pc_username creds ++ crlf) ;;;
   response <-- read_response ;;;
   if starts_with (lit "381") response then
     send_command (lit "AUTHINFO PASS " ++ pc_password creds ++ crlf) ;;;
     response <-- read_response ;;;
     if negb (starts_with (lit "281") response) then mfail (lit "Authentication failed")
     else mreturn tt
   else if negb (starts_with (lit "281") response) then mfail (lit "Authentication failed")
   else mreturn tt)%m.

Definition address_text (info : PeerConnectionInfo) : str :=
  pi_host info ++ lit ":" ++ show_N (pi_port info).

(** [PeerConnection::connect], once the connection is up. *)
Definition greet (info : PeerConnectionInfo) : M PeerConnection unit :=
  (greeting <-- read_response ;;;
   if negb (starts_with (lit "200") greeting) && negb (starts_with (lit "201") greeting)
   then mfail (lit "Unexpected greeting from " ++ address_text info ++ lit ": " ++ trim greeting)
   else match pi_credentials info with
        | Some creds =>
            map_err (fun e => lit "Authentication failed for " ++ address_text info ++ lit ": " ++ e)
              (authenticate creds)
        | None => mreturn tt
        end)%m.

Definition send_article_content (article : Message) : M PeerConnection unit :=
  (writing (send_headers article) ;;;
   send_command crlf ;;;
   writing (send_body (body article)) ;;;
   send_command (lit "." ++ crlf))%m.

Definition transfer_article (article : Message) (msg_id : str) : M PeerConnection unit :=
  (send_command (lit "IHAVE " ++ msg_id ++ crlf) ;;;
   response <-- read_response ;;;
   if negb (starts_with (lit "335") response) then mreturn tt
   else
     send_article_content article ;;;
     response <-- read_response ;;;
     if negb (starts_with (lit "2") response)
     then mfail (lit "Transfer failed: " ++ trim response)
     else mreturn tt)%m.

(** ** What is sent to a peer *)
Definition is_path : str * str -> bool := is_header (lit "Path").

(** [iter_mut().find(..)] and the assignment to what it finds. *)
Fixpoint prefix_path (site_name : str) (hs : list (str * str)) : list (str * str) :=
  match hs with
  | [] => []
  | kv :: hs => if is_path kv then (fst kv, site_name ++ lit "!" ++ snd kv) :: hs
                else kv :: prefix_path site_name hs
  end.

Definition create_peer_article (orig : Message) (site_name : str) : Message :=
  if existsb is_path (headers orig)
  then mkMessage (prefix_path site_name (headers orig)) (body orig)
  else mkMessage (headers orig ++ [(lit "Path", site_name)]) (body orig).

Definition should_skip_article (article : Message) (peer_sitename : str) : bool :=
  existsb (fun kv => existsb (fun segment => str_eqb (trim segment) peer_sitename)
                       (split_on (ch "!") (snd kv)))
    (List.filter is_path (headers article)).

(** ** A synchronisation pass

    The dials made, each with what was sent over it.  The statistics are counted without
    a bound: a pass of 2^64 articles is out of reach. *)
Record Dialled := mkDialled { dl_host : str; dl_port : N; dl_sent : str }.

Record SyncStats := mkSyncStats {
  ss_groups_processed : N; ss_articles_sent : N; ss_articles_skipped : N; ss_errors : N }.
Record GroupSyncStats := mkGroupSyncStats { gs_sent : N; gs_skipped : N; gs_errors : N }.

Definition merge (s : SyncStats) (other : GroupSyncStats) : SyncStats :=
  mkSyncStats (ss_groups_processed s) (ss_articles_sent s + gs_sent other)
    (ss_articles_skipped s + gs_skipped other) (ss_errors s + gs_errors other).

Inductive ArticleProcessResult : Type := Sent | Skipped.

(** [PeerConfig] is made of the fields of [PeerRule]. *)
Definition PeerConfig : Type := PeerRule.

Section Sync.
Context {X : Ext} {Net : PeerNet} {S : Type} `{Storage S}.

Definition send_article_to_peer (host : str) (article : Message) : M (list Dialled) unit := fun log =>
  match extract_message_id article with
  | None => (Fail (lit "Article missing Message-ID header"), log)
  | Some msg_id =>
      let info := parse_peer_address host 563 in
      let failed e := lit "Failed to connect to peer " ++ host ++ lit ": " ++ e in
      match peer_dial (length log) (pi_host info) (pi_port info) with
      | Err e => (Fail (failed e), log ++ [mkDialled (pi_host info) (pi_port info) []])
      | Ok remote =>
          let '(o, c) := (map_err failed (greet info) ;;; transfer_article article msg_id)%m
                           (mkPeerConnection remote [] 0) in
          (o, log ++ [mkDialled (pi_host info) (pi_port info) (pn_sent c)])
      end
  end.

Definition process_fetched_article (peer : PeerConfig) (site_name : str) (original_article : Message)
  : M (list Dialled) ArticleProcessResult :=
  if should_skip_article original_article (pr_sitename peer) then mreturn Skipped
  else (send_article_to_peer (pr_sitename peer) (create_peer_article original_article site_name) ;;;
        mreturn Sent)%m.

(** The loop over the articles fetched; what was not found is only logged. *)
Fixpoint process_fetched (peer : PeerConfig) (site_name : str) (l : list (result (str * Message)))
    (stats : GroupSyncStats) : M (list Dialled) GroupSyncStats :=
  match l with
  | [] => mreturn stats
  | Err _ :: l =>
      process_fetched peer site_name l
        (mkGroupSyncStats (gs_sent stats) (gs_skipped stats) (gs_errors stats + 1))
  | Ok (_, original_article) :: l =>
      (r <-- mcatch (process_fetched_article peer site_name original_article) ;;;
       process_fetched peer site_name l
         (match r with
          | Ok Sent => mkGroupSyncStats (gs_sent stats + 1) (gs_skipped stats) (gs_errors stats)
          | Ok Skipped => mkGroupSyncStats (gs_sent stats) (gs_skipped stats + 1) (gs_errors stats)
          | Err _ => mkGroupSyncStats (gs_sent stats) (gs_skipped stats) (gs_errors stats + 1)
          end))%m
  end.

Definition process_group_articles (peer : PeerConfig) (s : S) (site_name : str)
    (article_ids : list str) : M (list Dialled) GroupSyncStats :=
  match article_ids with
  | [] => mreturn (mkGroupSyncStats 0 0 0)
  | _ => process_fetched peer site_name (get_articles_by_ids article_ids s) (mkGroupSyncStats 0 0 0)
  end.

Fixpoint sync_groups (peer : PeerConfig) (last_sync : option Z) (s : S) (site_name : str)
    (groups : list (result str)) (stats : SyncStats) : M (list Dialled) SyncStats :=
  match groups with
  | [] => mreturn stats
  | Err e :: _ => mfail e
  | Ok group :: groups =>
      if negb (existsb (fun pattern => wildmat pattern group) (pr_patterns peer))
      then sync_groups peer last_sync s site_name groups stats
      else
        (article_ids <-- mlift (try_collect
                           match last_sync with
                           | Some timestamp => list_article_ids_since group timestamp s
                           | None => list_article_ids group s
                           end) ;;;
         group_stats <-- process_group_articles peer s site_name article_ids ;;;
         let stats := merge stats group_stats in
         sync_groups peer last_sync s site_name groups
           (mkSyncStats (ss_groups_processed stats + 1) (ss_articles_sent stats)
              (ss_articles_skipped stats) (ss_errors stats)))%m
  end.

Definition sync_peer_once (peer : PeerConfig) (db : PeerDb) (s : S) (site_name : str)
  : M (list Dialled) SyncStats :=
  sync_groups peer (get_last_sync (pr_sitename peer) db) s site_name (list_groups s)
    (mkSyncStats 0 0 0 0).

(** The job of [add_peer_job]: one pass over the store as it is then, and whatever it came
    to, the time it ended at as the peer's last synchronisation. *)
Definition peer_job (peer : PeerConfig) (s : S) (site_name : str) (now : Z)
  : M (PeerDb * list Dialled) unit :=
  (db <-- mgets fst ;;;
   _ <-- mcatch (mzoom snd (fun log t => (fst t, log)) (sync_peer_once peer db s site_name)) ;;;
   _ <-- mcatch (mzoom fst (fun db t => (db, snd t)) (update_last_sync (pr_sitename peer) now)) ;;;
   mreturn tt)%m.
End Sync.

(** ** Addresses read as they are written *)
(** A host that is not in brackets, and what follows a bracketed one. *)
Definition plain_host (host : str) : Prop :=
  ch ":" ∉ host /\ ch "@" ∉ host /\ starts_with (lit "[") host = false.

(** A host with its port, or without one. *)
Inductive host_form : str -> option N -> str -> Prop :=
| HostPort host port : plain_host host -> host_form host (Some port) (host ++ lit ":" ++ show_N port)
| HostOnly host : plain_host host -> host_form host None host
| Ipv6Port host port : ch "]" ∉ host -> ch "@" ∉ host ->
    host_form host (Some port) (lit "[" ++ host ++ lit "]:" ++ show_N port)
| Ipv6Only host : ch "]" ∉ host -> ch "@" ∉ host -> host_form host None (lit "[" ++ host ++ lit "]").

Lemma host_form_no_at host port s : host_form host port s -> ch "@" ∉ s.
Proof.
  assert (Hn : forall n, ch "@" ∉ show_N n) by (intros n; by apply show_N_absent).
  intros []; unfold plain_host in *; rewrite ?elem_of_app; set_solver.
Qed.

Lemma parse_host_form host port s default_port :
  host_form host port s -> (forall p, port = Some p -> p <= 65535) ->
  parse_host_and_port s default_port = (host, default default_port port).
Proof.
  intros Hf Hp. unfold parse_host_and_port. destruct Hf as [host port (Hc & _ & Hb)|host (Hc & _ & Hb)|host port Hb Hat|host Hb Hat].
  - assert (Hs : strip_prefix (lit "[") (host ++ lit ":" ++ show_N port) = None).
    { apply strip_prefix_absent. destruct host; [done|]. apply starts_with_plain; [done|simpl; lia]. }
    rewrite Hs. unfold parse_regular_address. change (lit ":" ++ show_N port) with (ch ":" :: show_N port).
    rewrite rsplit_once_app by (by apply show_N_absent). rewrite show_N_digits. simpl negb.
    unfold parse_u16. by rewrite parse_show_uint by (by apply Hp).
  - rewrite strip_prefix_absent by done. unfold parse_regular_address. by rewrite rsplit_once_absent.
  - change (lit "[" ++ host ++ lit "]:" ++ show_N port) with (lit "[" ++ (host ++ ch "]" :: lit ":" ++ show_N port)).
    rewrite strip_prefix_app. unfold parse_ipv6_address.
    assert (split_once (ch "]") (host ++ ch "]" :: lit ":" ++ show_N port) = Some (host, lit ":" ++ show_N port))
      as -> by (by apply split_once_Some).
    rewrite strip_prefix_app. cbn [mbind option_bind]. unfold parse_u16.
    by rewrite parse_show_uint by (by apply Hp).
  - rewrite strip_prefix_app. unfold parse_ipv6_address.
    assert (split_once (ch "]") (host ++ lit "]") = Some (host, [])) as -> by (by apply split_once_Some).
    done.
Qed.

(** A peer address of each documented form ([host], [host:port], [[ipv6]], [[ipv6]:port], each
    with or without [user:password@]) is read as its parts, with the default port where
    it has none. *)
Theorem peer_address_forms (host : str) (port : option N) (s : str) (creds : option (str * str))
    (default_port : N) :
  host_form host port s -> (forall p, port = Some p -> p <= 65535) ->
  (forall u p, creds = Some (u, p) -> ch ":" ∉ u) ->
  parse_peer_address (match creds with
                      | Some (u, p) => u ++ lit ":" ++ p ++ lit "@" ++ s
                      | None => s
                      end) default_port
  = mkPeerConnectionInfo host (default default_port port)
      ((fun up => mkPeerCredentials (fst up) (snd up)) <$> creds).
Proof.
  intros Hf Hp Hu. unfold parse_peer_address, extract_credentials.
  pose proof (host_form_no_at _ _ _ Hf) as Hat. destruct creds as [[u p]|]; cbn [fmap option_fmap option_map fst snd].
  - replace (u ++ lit ":" ++ p ++ lit "@" ++ s) with ((u ++ ch ":" :: p) ++ ch "@" :: s)
      by (by rewrite <- app_assoc).
    rewrite rsplit_once_app by done.
    assert (split_once (ch ":") (u ++ ch ":" :: p) = Some (u, p)) as ->.
    { apply split_once_Some. split; [done|]. by apply (Hu u p). }
    by rewrite (parse_host_form host port s).
  - rewrite rsplit_once_absent by done. by rewrite (parse_host_form host port s).
Qed.

Lemma peer_address_forms_witness :
  parse_peer_address (lit "bob:s3:cret@[2001:db8::1]:1119") 563
    = mkPeerConnectionInfo (lit "2001:db8::1") 1119
        (Some (mkPeerCredentials (lit "bob") (lit "s3:cret")))
  /\ parse_peer_address (lit "news.example.org") 563
    = mkPeerConnectionInfo (lit "news.example.org") 563 None.
Proof.
  split.
  - apply (peer_address_forms (lit "2001:db8::1") (Some 1119) (lit "[2001:db8::1]:1119")
             (Some (lit "bob", lit "s3:cret")) 563).
    + apply (Ipv6Port (lit "2001:db8::1") 1119); by apply absent_check.
    + intros p [= <-]. lia.
    + intros u p [= <- <-]. by apply absent_check.
  - apply (peer_address_forms (lit "news.example.org") None (lit "news.example.org") None 563).
    + apply (HostOnly (lit "news.example.org")). split_and!; [| |reflexivity];
        by apply absent_check.
    + done.
    + done.
Defined.

(** ** The path an article has taken *)
(** The sites an article's path names. *)
Definition path_sites (a : Message) : list str :=
  List.filter is_path (headers a) ≫= (fun kv => trim <$> split_on (ch "!") (snd kv)).

Lemma should_skip_sites a site : should_skip_article a site = existsb (str_eqb site) (path_sites a).
Proof.
  unfold should_skip_article, path_sites. induction (List.filter is_path (headers a)) as [|kv l IH]; [done|].
  cbn [existsb mbind list_bind]. rewrite existsb_app, <- IH. f_equal.
  generalize (split_on (ch "!") kv.2). intros segs. induction segs as [|x l' IH']; [done|].
  cbn [existsb fmap list_fmap]. rewrite IH'. f_equal. unfold str_eqb. apply bool_decide_ext. naive_solver.
Qed.

Lemma prefix_path_filter site hs : existsb is_path hs = true ->
  exists k v l, List.filter is_path hs = (k, v) :: l
    /\ List.filter is_path (prefix_path site hs) = (k, site ++ lit "!" ++ v) :: l.
Proof.
  induction hs as [|[k v] hs IH]; [done|]. cbn [existsb prefix_path List.filter].
  destruct (is_path (k, v)) eqn:E; intros H.
  - exists k, v, (List.filter is_path hs). split; [done|]. cbn [List.filter fst snd].
    change (is_path (k, site ++ lit "!" ++ v)) with (is_path (k, v)). by rewrite E.
  - destruct (IH H) as (k' & v' & l & E1 & E2). exists k', v', l. split; [done|].
    cbn [List.filter]. by rewrite E.
Qed.

Lemma prefix_path_others site hs :
  List.filter (fun kv => negb (is_path kv)) (prefix_path site hs)
  = List.filter (fun kv => negb (is_path kv)) hs.
Proof.
  induction hs as [|[k v] hs IH]; [done|]. cbn [prefix_path].
  destruct (is_path (k, v)) eqn:E; cbn [List.filter fst snd].
  - change (is_path (k, site ++ lit "!" ++ v)) with (is_path (k, v)). by rewrite E.
  - rewrite E. cbn. by rewrite IH.
Qed.

(** The copy of an article for a peer differs in its path only: the path starts with the name
    of this site, and continues as it was.  A site name without exclamation marks
    and surrounding blanks is therefore recognised when the article comes back, as is
    every site already on the path: no other peer's copy is held back. *)
Theorem path_stops_loops (a : Message) (site_name peer : str) :
  ch "!" ∉ site_name -> trim site_name = site_name ->
  let copy := create_peer_article a site_name in
  path_sites copy = site_name :: path_sites a
  /\ should_skip_article copy peer = str_eqb peer site_name || should_skip_article a peer
  /\ body copy = body a
  /\ List.filter (fun kv => negb (is_path kv)) (headers copy)
     = List.filter (fun kv => negb (is_path kv)) (headers a).
Proof.
  intros Hs Ht copy.
  assert (E : path_sites copy = site_name :: path_sites a).
  { unfold copy, create_peer_article, path_sites. destruct (existsb is_path (headers a)) eqn:Ep; cbn [headers].
    - destruct (prefix_path_filter site_name _ Ep) as (k & v & l & -> & ->).
      cbn [mbind list_bind fst snd]. change (lit "!" ++ v) with (ch "!" :: v).
      rewrite split_on_head by done. cbn [fmap list_fmap app]. by rewrite Ht.
    - assert (List.filter is_path (headers a) = []) as E0.
      { induction (headers a) as [|kv l IH]; [done|]. cbn [existsb] in Ep.
        apply orb_false_iff in Ep as [E1 E2]. cbn [List.filter]. rewrite E1. by apply IH. }
      rewrite List.filter_app, E0. cbn [List.filter app]. cbv beta.
      change (is_path (lit "Path", site_name)) with true. cbn [mbind list_bind fst snd app].
      rewrite split_on_absent by done. cbn [fmap list_fmap app]. by rewrite Ht. }
  split; [done|]. split; [by rewrite !should_skip_sites, E|].
  unfold copy, create_peer_article. destruct (existsb is_path (headers a)); cbn [headers body].
  - by rewrite prefix_path_others.
  - split; [done|]. rewrite List.filter_app. cbn [List.filter].
    change (is_path (lit "Path", site_name)) with true. by rewrite app_nil_r.
Qed.

Definition travelled : Message :=
  mkMessage [(lit "Message-ID", lit "<1@x>"); (lit "path", lit "near!far"); (lit "Subject", lit "s")] (lit "hi").

Lemma path_stops_loops_witness :
  path_sites (create_peer_article travelled (lit "here")) = [lit "here"; lit "near"; lit "far"]
  /\ should_skip_article (create_peer_article travelled (lit "here")) (lit "here") = true
  /\ should_skip_article (create_peer_article travelled (lit "here")) (lit "next") = false.
Proof.
  destruct (path_stops_loops travelled (lit "here") (lit "here")) as (E & Hh & _);
    [by apply absent_check|reflexivity|].
  destruct (path_stops_loops travelled (lit "here") (lit "next")) as (_ & Hn & _);
    [by apply absent_check|reflexivity|].
  rewrite E, Hh, Hn. vm_compute. auto.
Defined.

(** ** The table of peers follows the configuration *)
Lemma list_peers_known (db : PeerDb) n : existsb (str_eqb n) (list_peers db) = bool_decide (is_Some (db !! n)).
Proof.
  apply eq_bool_prop_intro. rewrite bool_decide_spec, Is_true_true, existsb_exists.
  unfold list_peers. split.
  - intros (m & Hm & <-%str_eqb_eq). apply elem_of_list_In, list_elem_of_fmap in Hm as ([k v] & -> & Hkv).
    apply elem_of_map_to_list in Hkv. by exists v.
  - intros [v Hv]. exists n. split; [|apply str_eqb_refl]. apply elem_of_list_In, list_elem_of_fmap.
    exists (n, v). split; [done|]. by apply elem_of_map_to_list.
Qed.

(** The new names, inserted one after the other. *)
Definition new_names (known : list str) (names : list str) : list str :=
  List.filter (fun n => negb (existsb (str_eqb n) known)) names.

Lemma new_names_nodup (known names : list str) : NoDup names -> NoDup (new_names known names).
Proof.
  unfold new_names. induction 1 as [|n names Hn _ IH]; cbn [List.filter]; [constructor|].
  destruct (negb _); [|done]. constructor; [|done]. intros Hin. apply Hn.
  apply elem_of_list_In, List.filter_In in Hin as [Hin _]. by apply elem_of_list_In.
Qed.

Definition add_new (known : list str) (name : str) : M PeerDb unit :=
  if existsb (str_eqb name) known then mreturn tt else insert_peer name.

Lemma add_new_ok (known names : list str) (db : PeerDb) :
  NoDup (new_names known names) -> (forall n, n ∈ new_names known names -> db !! n = None) ->
  exists db', mfor names (add_new known) db = (Ret tt, db')
    /\ forall n, db' !! n = if decide (n ∈ new_names known names) then Some 0%Z else db !! n.
Proof.
  revert db. induction names as [|m names IH]; intros db Hnd Hnew; cbn [mfor].
  - exists db. split; [done|]. intros n. rewrite decide_False; [done|]. set_solver.
  - unfold mbind', add_new at 1. unfold new_names in *. cbn [List.filter] in *.
    destruct (existsb (str_eqb m) known) eqn:E; cbn [negb] in *.
    + apply IH; done.
    + apply NoDup_cons in Hnd as [Hm Hnd]. unfold insert_peer. rewrite (Hnew m) by set_solver.
      destruct (IH (<[m := 0%Z]> db)) as (db' & E' & Hl); [done| |].
      { intros n Hn. rewrite lookup_insert_ne by (intros ->; done). apply Hnew. set_solver. }
      exists db'. split; [done|]. intros n. rewrite Hl. destruct (decide (n = m)) as [->|Hne].
      * rewrite lookup_insert_eq, (decide_True (P := m ∈ m :: _)) by set_solver.
        by destruct (decide _).
      * rewrite lookup_insert_ne by done. repeat (destruct (decide _)); set_solver.
Qed.

Lemma add_new_fails (known names : list str) (db : PeerDb) :
  ~ NoDup (new_names known names) \/ (exists n, n ∈ new_names known names /\ is_Some (db !! n)) ->
  exists db', mfor names (add_new known) db = (Fail (lit "UNIQUE constraint failed"), db') /\ db ⊆ db'.
Proof.
  revert db. induction names as [|m names IH]; intros db H; cbn [mfor].
  - destruct H as [H|(n & Hn & _)]; [exfalso; apply H; constructor|set_solver].
  - unfold mbind', add_new at 1. unfold new_names in *. cbn [List.filter] in *.
    destruct (existsb (str_eqb m) known) eqn:E; cbn [negb] in *; [by apply IH|].
    unfold insert_peer. destruct (db !! m) as [ts|] eqn:Em; [by exists db|].
    destruct (IH (<[m := 0%Z]> db)) as (db' & E' & Hsub).
    + destruct H as [H|(n & Hn & Hdb)].
      * rewrite NoDup_cons in H.
        destruct (decide (m ∈ List.filter (fun n => negb (existsb (str_eqb n) known)) names)) as [Hm|Hm].
        -- right. exists m. split; [done|]. by rewrite lookup_insert_eq.
        -- left. tauto.
      * right. exists n. apply elem_of_cons in Hn as [->|Hn]; [destruct Hdb; congruence|].
        split; [done|]. apply lookup_insert_is_Some'. by right.
    + exists db'. split; [done|]. etrans; [by apply insert_subseteq|done].
Qed.

Lemma delete_gone (known names : list str) (db : PeerDb) :
  exists db', mfor known (fun p => if existsb (str_eqb p) names then mreturn tt else mmodify (delete p)) db
              = (Ret tt, db')
    /\ forall n, db' !! n = if decide (n ∈ known /\ n ∉ names) then None else db !! n.
Proof.
  revert db. induction known as [|m known IH]; intros db; cbn [mfor].
  - exists db. split; [done|]. intros n. rewrite decide_False; [done|]. set_solver.
  - assert (Hm : existsb (str_eqb m) names = bool_decide (m ∈ names)).
    { apply eq_bool_prop_intro. rewrite bool_decide_spec, Is_true_true, existsb_exists.
      setoid_rewrite <- elem_of_list_In. split; [by intros (x & Hx & <-%str_eqb_eq)|].
      intros Hin. exists m. split; [done|apply str_eqb_refl]. }
    unfold mbind'. rewrite Hm. destruct (bool_decide (m ∈ names)) eqn:E.
    + apply bool_decide_eq_true in E. destruct (IH db) as (db' & E' & Hl). exists db'. split; [done|].
      intros n. rewrite Hl. repeat (destruct (decide _)); set_solver.
    + apply bool_decide_eq_false in E. destruct (IH (delete m db)) as (db' & E' & Hl).
      exists db'. split; [done|]. intros n. rewrite Hl. destruct (decide (n = m)) as [->|Hne].
      * rewrite lookup_delete_eq, (decide_True (P := m ∈ m :: _ /\ _)) by set_solver.
        by destruct (decide _).
      * rewrite lookup_delete_ne by done. repeat (destruct (decide _)); set_solver.
Qed.

(** Bringing the table in line with the configuration: when no new peer is named twice, the
    table then holds exactly the configured peers, the known ones with the time of their
    last synchronisation and the new ones without; when a new peer is named twice, the second
    insertion fails, and the peers that are no longer configured stay. *)
Theorem sync_config_effect (names : list str) (db : PeerDb) (o : outcome unit) (db' : PeerDb) :
  sync_config names db = (o, db') ->
  (NoDup (new_names (list_peers db) names) /\ o = Ret tt
     /\ forall n, db' !! n = if decide (n ∈ names) then Some (default 0%Z (db !! n)) else None)
  \/ (~ NoDup (new_names (list_peers db) names) /\ o = Fail (lit "UNIQUE constraint failed")
      /\ db ⊆ db').
Proof.
  intros E. unfold sync_config in E. rewrite (mbind_Ret (mgets list_peers) _ _ _ _ eq_refl) in E.
  assert (Hin : forall n, n ∈ new_names (list_peers db) names <-> n ∈ names /\ db !! n = None).
  { intros n. unfold new_names. rewrite !elem_of_list_In, List.filter_In, list_peers_known.
    rewrite negb_true_iff, bool_decide_eq_false, <- eq_None_not_Some. done. }
  destruct (decide (NoDup (new_names (list_peers db) names))) as [Hnd|Hnd]; [left|right].
  - split; [done|]. destruct (add_new_ok (list_peers db) names db Hnd) as (db1 & E1 & H1).
    { intros n Hn. by apply Hin. }
    rewrite (mbind_Ret _ _ _ _ _ E1) in E.
    destruct (delete_gone (list_peers db) names db1) as (db2 & E2 & H2). rewrite E2 in E.
    injection E as <- <-. split; [done|]. intros n. rewrite H2, H1.
    assert (Hk : n ∈ list_peers db <-> is_Some (db !! n)).
    { rewrite elem_of_list_In. pose proof (list_peers_known db n) as Hb.
      rewrite <- (bool_decide_eq_true (is_Some (db !! n))), <- Hb, existsb_exists. split.
      - intros Hn. exists n. split; [done|apply str_eqb_refl].
      - by intros (x & Hx & <-%str_eqb_eq). }
    destruct (db !! n) as [ts|] eqn:Ed; cbn [default from_option].
    + rewrite (decide_False (P := n ∈ new_names _ _)) by (rewrite Hin; naive_solver).
      destruct (decide (n ∈ names)); [rewrite decide_False by tauto; done|].
      by rewrite decide_True by (rewrite Hk; eauto).
    + rewrite (decide_False (P := n ∈ list_peers db /\ _)) by (rewrite Hk; intros [[? ?] _]; done).
      repeat (destruct (decide _)); naive_solver.
  - split; [done|]. destruct (add_new_fails (list_peers db) names db (or_introl Hnd)) as (db1 & E1 & Hsub).
    rewrite (mbind_Fail _ _ _ _ _ E1) in E. by injection E as <- <-.
Qed.

Lemma sync_config_effect_witness :
  (exists db', sync_config [lit "a"; lit "b"] {[lit "a" := 5%Z; lit "c" := 7%Z]} = (Ret tt, db')
     /\ db' !! lit "a" = Some 5%Z /\ db' !! lit "b" = Some 0%Z /\ db' !! lit "c" = None)
  /\ fst (sync_config [lit "b"; lit "b"] ∅) = Fail (lit "UNIQUE constraint failed").
Proof.
  split.
  - destruct (sync_config [lit "a"; lit "b"] {[lit "a" := 5%Z; lit "c" := 7%Z]}) as [o db'] eqn:E.
    destruct (sync_config_effect _ _ _ _ E) as [(_ & -> & H)|(H & _)].
    + exists db'. split; [done|]. rewrite !H. vm_compute. auto.
    + exfalso. apply H. assert (Hd : bool_decide (NoDup [lit "b"]) = true) by (vm_compute; reflexivity).
      by apply bool_decide_eq_true in Hd.
  - destruct (sync_config [lit "b"; lit "b"] ∅) as [o db'] eqn:E.
    destruct (sync_config_effect _ _ _ _ E) as [(H & _)|(_ & -> & _)]; [|done].
    exfalso. assert (Hd : bool_decide (NoDup [lit "b"; lit "b"]) = false) by (vm_compute; reflexivity).
    by apply bool_decide_eq_false in Hd.
Defined.

(** ** The transfer of one article

    A peer that answers with the given lines, then closes. *)
Definition answers_with (answers : list str) : Remote :=
  mkRemote (fun _ => input (concat ((fun a => a ++ crlf) <$> answers))) Eof.

Section Transfer.
Context {X : Ext} {Net : PeerNet}.

(** That peer, once it was sent a text and the first [n] of its answers were read. *)
Definition after_answers (answers : list str) (sent : str) (n : nat) : PeerConnection :=
  mkPeerConnection (answers_with answers) sent
    (length (concat ((fun a => a ++ crlf) <$> take n answers))).

Lemma read_answer answers answer more sent n :
  answers = take n answers ++ answer :: more -> LF ∉ answer ->
  read_response (after_answers answers sent n) = (Ret (answer ++ crlf), after_answers answers sent (S n)).
Proof.
  intros E Hn. unfold after_answers.
  set (f := fun a : str => a ++ crlf).
  assert (Ht : take (S n) answers = take n answers ++ [answer]).
  { rewrite E at 1. assert (length (take n answers) = n \/ take n answers = answers) as [Hl|Hl].
    - rewrite length_take. destruct (decide (n <= length answers)%nat); [left; lia|right].
      apply take_ge. lia.
    - by rewrite take_app_ge, Hl, Nat.sub_succ_l, Nat.sub_diag by lia.
    - exfalso. rewrite Hl in E. apply (f_equal length) in E. rewrite length_app in E. simpl in E. lia. }
  unfold read_response. cbn [pn_remote pn_sent pn_read remote_says remote_end answers_with].
  fold f. rewrite Ht, fmap_app, concat_app. cbn [fmap list_fmap concat]. rewrite app_nil_r.
  assert (Hd : drop (length (concat (f <$> take n answers))) (input (concat (f <$> answers)))
               = input (answer ++ [CR] ++ [LF]) ++ input (concat (f <$> more))).
  { rewrite E at 2. rewrite fmap_app, concat_app, input_app. unfold input at 1.
    rewrite <- (length_fmap Some (concat _)), drop_app_length.
    cbn [fmap list_fmap concat]. by rewrite input_app. }
  rewrite Hd, app_assoc. rewrite read_line_present by set_solver. cbn [c_in].
  rewrite <- app_assoc, !length_app. f_equal. f_equal. unfold input. rewrite !length_fmap. unfold f, crlf.
  rewrite !length_app. simpl. lia.
Qed.
Lemma writing_wrote (m : M Conn unit) text c :
  (forall w, m w = (Ret tt, wrote text w)) ->
  writing m c = (Ret tt, mkPeerConnection (pn_remote c) (pn_sent c ++ text) (pn_read c)).
Proof. intros Hm. unfold writing, mzoom. by rewrite Hm. Qed.

Lemma send_command_wrote text c :
  send_command text c = (Ret tt, mkPeerConnection (pn_remote c) (pn_sent c ++ text) (pn_read c)).
Proof. by apply writing_wrote. Qed.

Lemma send_article_content_wrote a c :
  send_article_content a c
  = (Ret tt, mkPeerConnection (pn_remote c) (pn_sent c ++ article_text a ++ RESP_DOT_CRLF) (pn_read c)).
Proof.
  unfold send_article_content.
  rewrite (mbind_Ret _ _ _ _ _ (writing_wrote _ _ _ (send_headers_wrote a))).
  rewrite (mbind_Ret _ _ _ _ _ (send_command_wrote _ _)).
  rewrite (mbind_Ret _ _ _ _ _ (writing_wrote _ _ _ (send_body_wrote (body a)))).
  rewrite send_command_wrote. cbn [pn_remote pn_sent pn_read]. unfold article_text.
  change RESP_DOT_CRLF with (lit "." ++ crlf). by rewrite <- !app_assoc.
Qed.

Definition ihave_line (msg_id : str) : str := lit "IHAVE " ++ msg_id ++ crlf.
Definition welcome (greeting : str) : bool :=
  starts_with (lit "200") (greeting ++ crlf) || starts_with (lit "201") (greeting ++ crlf).

(** What is left to answer and what is sent, for the answers to the connection, to the offer
    and to the article. *)
Definition transfer_result (host : str) (info : PeerConnectionInfo) (a : Message) (id : str)
    (greeting wanted received : str) : outcome unit * str :=
  if negb (welcome greeting)
  then (Fail (lit "Failed to connect to peer " ++ host ++ lit ": " ++ lit "Unexpected greeting from "
              ++ address_text info ++ lit ": " ++ trim (greeting ++ crlf)), [])
  else if negb (starts_with (lit "335") (wanted ++ crlf)) then (Ret tt, ihave_line id)
  else (if starts_with (lit "2") (received ++ crlf) then Ret tt
        else Fail (lit "Transfer failed: " ++ trim (received ++ crlf)),
        ihave_line id ++ article_text a ++ RESP_DOT_CRLF).

(** Offering an article to a peer without credentials: nothing but the offer is sent to a peer
    that does not answer it with 335, and the transfer counts as done whatever else it
    answers (435, 436 or 400); otherwise the article follows, and the outcome is the peer's
    last answer.  A server that reads what was sent after the offer gets the article. *)
Theorem transfer_outcome (host : str) (a : Message) (id : str) (log : list Dialled)
    (greeting wanted received : str) :
  let info := parse_peer_address host 563 in
  extract_message_id a = Some id -> pi_credentials info = None ->
  peer_dial (length log) (pi_host info) (pi_port info) = Ok (answers_with [greeting; wanted; received]) ->
  LF ∉ greeting -> LF ∉ wanted -> LF ∉ received ->
  let '(o, sent) := transfer_result host info a id greeting wanted received in
  send_article_to_peer host a log = (o, log ++ [mkDialled (pi_host info) (pi_port info) sent])
  /\ (forallb header_ok (headers a) = true ->
      starts_with (lit "335") (wanted ++ crlf) = true -> welcome greeting = true ->
      exists content msg, sent = ihave_line id ++ content
        /\ read_message (mkConn (input content) Eof []) = (Ret msg, mkConn [] Eof [])
        /\ parse_message msg = Some (mkMessage (headers a) (canonical (body a)))).
Proof.
  intros info Hid Hc Hd Hg Hw Hr. unfold transfer_result, send_article_to_peer. rewrite Hid.
  fold info. rewrite Hd. set (answers := [greeting; wanted; received]).
  pose proof (read_answer answers greeting [wanted; received] [] 0 eq_refl Hg) as R0.
  pose proof (read_answer answers wanted [received] (ihave_line id) 1 eq_refl Hw) as R1.
  pose proof (read_answer answers received []
                (ihave_line id ++ article_text a ++ RESP_DOT_CRLF) 2 eq_refl Hr) as R2.
  change (mkPeerConnection (answers_with answers) [] 0) with (after_answers answers [] 0).
  unfold greet, map_err. unfold mbind' at 1. rewrite (mbind_Ret _ _ _ _ _ R0).
  unfold welcome. destruct (starts_with (lit "200") _) eqn:E0, (starts_with (lit "201") _) eqn:E1;
    cbn [negb andb orb]; [..|split; [by rewrite <- ?app_assoc|done]].
  all: rewrite Hc; unfold mreturn at 1; cbv beta iota; unfold transfer_article.
  all: rewrite (mbind_Ret _ _ _ _ _ (send_command_wrote _ (after_answers answers [] 1)));
    change (mkPeerConnection _ _ _) with (after_answers answers (ihave_line id) 1).
  all: rewrite (mbind_Ret _ _ _ _ _ R1).
  all: destruct (starts_with (lit "335") _) eqn:E2; cbn [negb]; [|by split].
  all: rewrite (mbind_Ret _ _ _ _ _ (send_article_content_wrote _ (after_answers answers (ihave_line id) 2)));
    change (mkPeerConnection _ _ _) with
      (after_answers answers (ihave_line id ++ article_text a ++ RESP_DOT_CRLF) 2).
  all: rewrite (mbind_Ret _ _ _ _ _ R2).
  all: split; [by destruct (starts_with (lit "2") _)|].
  all: intros Hok _ _; exists (article_text a ++ RESP_DOT_CRLF), (received_text a); split; [done|].
  all: split; [|by apply parse_message_text].
  all: pose proof (read_article_text a [] Eof [] Hok) as Er; by rewrite app_nil_r in Er.
Qed.
End Transfer.

(** ** What a pass sends *)

(** The texts a connection to a peer may have been sent when it ends. *)
Definition user_line (creds : PeerCredentials) : str := lit "AUTHINFO USER " ++ pc_username creds ++ crlf.
Definition pass_line (creds : PeerCredentials) : str := lit "AUTHINFO PASS " ++ pc_password creds ++ crlf.
Definition login_texts (credentials : option PeerCredentials) : list str :=
  match credentials with
  | None => [[]]
  | Some creds => [[]; user_line creds; user_line creds ++ pass_line creds]
  end.
Definition transfer_texts (info : PeerConnectionInfo) (a : Message) (id : str) : list str :=
  login_texts (pi_credentials info) ≫= (fun l =>
    [l; l ++ ihave_line id; l ++ ihave_line id ++ article_text a ++ RESP_DOT_CRLF]).

(** A dialogue on which the peer never keeps silent: from the text [p] sent before, it ends
    with a value and one of [fin] sent, or with an error and one of [failed] sent. *)
Definition talks {A} (m : M PeerConnection A) (p : str) (failed fin : list str) : Prop :=
  forall c, remote_end (pn_remote c) <> Silent -> pn_sent c = p ->
  exists c', pn_remote c' = pn_remote c
    /\ ((exists a, m c = (Ret a, c') /\ pn_sent c' ∈ fin) \/ (exists e, m c = (Fail e, c') /\ pn_sent c' ∈ failed)).

Lemma talks_bind {A B} (m : M PeerConnection A) (f : A -> M PeerConnection B) p failed mid fin :
  talks m p failed mid -> (forall a q, q ∈ mid -> talks (f a) q failed fin) ->
  talks (mbind' m f) p failed fin.
Proof.
  intros Hm Hf c Hs Hp. destruct (Hm c Hs Hp) as (c1 & Hr & [(a & E & Hq)|(e & E & Hq)]).
  - destruct (Hf a _ Hq c1) as (c2 & Hr2 & H2); [by rewrite Hr|done|]. exists c2.
    split; [by rewrite Hr2|]. by rewrite (mbind_Ret _ _ _ _ _ E).
  - exists c1. split; [done|]. right. exists e. by rewrite (mbind_Fail _ _ _ _ _ E).
Qed.

Lemma talks_ret {A} (a : A) p failed fin : p ∈ fin -> talks (mreturn a) p failed fin.
Proof. intros H c _ <-. exists c. split; [done|]. left. by exists a. Qed.

Lemma talks_fail {A} e p failed fin : p ∈ failed -> talks (mfail (A:=A) e) p failed fin.
Proof. intros H c _ <-. exists c. split; [done|]. right. by exists e. Qed.

Lemma talks_map_err {A} f (m : M PeerConnection A) p failed fin :
  talks m p failed fin -> talks (map_err f m) p failed fin.
Proof.
  intros Hm c Hs Hp. destruct (Hm c Hs Hp) as (c1 & Hr & [(a & E & Hq)|(e & E & Hq)]);
    exists c1; (split; [done|]); unfold map_err; rewrite E; eauto.
Qed.

Lemma talks_read p failed : p ∈ failed -> talks read_response p failed [p].
Proof.
  intros H c Hs <-. unfold read_response, conn_read_line. cbn [c_in c_end c_out].
  destruct (read_line_in _ _) as [r rest] eqn:E. cbn [c_in].
  assert (r <> RPending).
  { unfold read_line_in in E. destruct (take_line _) as [[l b] x].
    destruct b, (remote_end (pn_remote c)), (decode l); by simplify_eq. }
  eexists (mkPeerConnection (pn_remote c) (pn_sent c) _). split; [done|].
  destruct r as [s| |]; [left; exists s|right; eexists|done]; split; [reflexivity|set_solver|reflexivity|done].
Qed.

Lemma talks_send text p failed : talks (send_command text) p failed [p ++ text].
Proof.
  intros c Hs <-. eexists. split; [|left; exists tt; split; [apply send_command_wrote|]]; [done|].
  cbn [pn_sent]. set_solver.
Qed.

Lemma talks_content a p failed :
  talks (send_article_content a) p failed [p ++ article_text a ++ RESP_DOT_CRLF].
Proof.
  intros c Hs <-. eexists. split; [|left; exists tt; split; [apply send_article_content_wrote|]]; [done|].
  cbn [pn_sent]. set_solver.
Qed.

Lemma talks_authenticate creds :
  talks (authenticate creds) [] (login_texts (Some creds)) (login_texts (Some creds)).
Proof.
  assert (H0 : [] ∈ login_texts (Some creds)) by (simpl; set_solver).
  assert (H1 : user_line creds ∈ login_texts (Some creds)) by (simpl; set_solver).
  assert (H2 : user_line creds ++ pass_line creds ∈ login_texts (Some creds)) by (simpl; set_solver).
  unfold authenticate. eapply talks_bind; [apply talks_send|]. intros [] q ->%list_elem_of_singleton.
  change ([] ++ _) with (user_line creds).
  eapply talks_bind; [by apply talks_read|]. intros r q ->%list_elem_of_singleton.
  destruct (starts_with (lit "381") r).
  - eapply talks_bind; [apply talks_send|]. intros [] q ->%list_elem_of_singleton.
    change (lit "AUTHINFO PASS " ++ _ ++ crlf) with (pass_line creds).
    eapply talks_bind; [by apply talks_read|]. intros r' q ->%list_elem_of_singleton.
    destruct (starts_with (lit "281") r'); [by apply talks_ret|by apply talks_fail].
  - destruct (starts_with (lit "281") r); [by apply talks_ret|by apply talks_fail].
Qed.

Lemma login_texts_start credentials : [] ∈ login_texts credentials.
Proof. destruct credentials; simpl; set_solver. Qed.

Lemma talks_greet info :
  talks (greet info) [] (login_texts (pi_credentials info)) (login_texts (pi_credentials info)).
Proof.
  pose proof (login_texts_start (pi_credentials info)) as H0. unfold greet.
  eapply talks_bind; [by apply talks_read|]. intros g q ->%list_elem_of_singleton.
  destruct (_ && _); [by apply talks_fail|].
  destruct (pi_credentials info) as [creds|]; [apply talks_map_err, talks_authenticate|by apply talks_ret].
Qed.

Lemma talks_transfer info a id l : l ∈ login_texts (pi_credentials info) ->
  talks (transfer_article a id) l (transfer_texts info a id) (transfer_texts info a id).
Proof.
  intros Hl. assert (H : forall t, t ∈ [l; l ++ ihave_line id; l ++ ihave_line id ++ article_text a ++ RESP_DOT_CRLF] ->
    t ∈ transfer_texts info a id).
  { intros t Ht. apply list_elem_of_bind. by exists l. }
  assert (H1 : l ++ ihave_line id ∈ transfer_texts info a id) by (apply H; set_solver).
  assert (H2 : l ++ ihave_line id ++ article_text a ++ RESP_DOT_CRLF ∈ transfer_texts info a id)
    by (apply H; set_solver).
  unfold transfer_article. eapply talks_bind; [apply talks_send|]. intros [] q ->%list_elem_of_singleton.
  change (lit "IHAVE " ++ id ++ crlf) with (ihave_line id).
  eapply talks_bind; [by apply talks_read|]. intros r q ->%list_elem_of_singleton.
  destruct (starts_with (lit "335") r); cbn [negb]; [|by apply talks_ret].
  eapply talks_bind; [apply talks_content|]. intros [] q ->%list_elem_of_singleton.
  rewrite <- app_assoc.
  eapply talks_bind; [by apply talks_read|]. intros r' q ->%list_elem_of_singleton.
  destruct (starts_with (lit "2") r'); [by apply talks_ret|by apply talks_fail].
Qed.

Lemma talks_weaken {A} (m : M PeerConnection A) p failed fin failed' :
  talks m p failed fin -> (forall t, t ∈ failed -> t ∈ failed') -> talks m p failed' fin.
Proof.
  intros Hm Hw c Hs Hp. destruct (Hm c Hs Hp) as (c1 & Hr & [?|(e & E & Hq)]); exists c1; eauto 8.
Qed.

Section Passes.
Context {X : Ext} {Net : PeerNet} {S : Type} `{Storage S}.

(** No connection ever falls silent. *)
Definition no_silence : Prop :=
  forall n host port r, peer_dial n host port = Ok r -> remote_end r <> Silent.

(** The dial by which an article is offered: to the peer's address, with texts of the
    dialogue about that article. *)
Definition dial_of (host : str) (a : Message) (d : Dialled) : Prop :=
  let info := parse_peer_address host 563 in
  dl_host d = pi_host info /\ dl_port d = pi_port info
  /\ exists id, extract_message_id a = Some id /\ dl_sent d ∈ transfer_texts info a id.

(** An outcome that is a value or an error. *)
Definition comes_back {A} (o : outcome A) : Prop :=
  match o with Ret _ | Fail _ => True | _ => False end.

Lemma send_article_dials host a log : no_silence ->
  exists o ds, send_article_to_peer host a log = (o, log ++ ds) /\ comes_back o
    /\ Forall2 (dial_of host) (if extract_message_id a then [a] else []) ds.
Proof.
  intros Hns. unfold send_article_to_peer. destruct (extract_message_id a) as [id|] eqn:Eid.
  2: { eexists _, []. rewrite app_nil_r. split; [reflexivity|]. split; [done|]. constructor. }
  set (info := parse_peer_address host 563). cbv zeta.
  set (failed := fun e : str => lit "Failed to connect to peer " ++ host ++ lit ": " ++ e).
  assert (Hsing : forall t, t ∈ transfer_texts info a id ->
    Forall2 (dial_of host) [a] [mkDialled (pi_host info) (pi_port info) t]).
  { intros t Ht. constructor; [|constructor]. unfold dial_of. fold info. split_and!; [done|done|]. by exists id. }
  destruct (peer_dial (length log) (pi_host info) (pi_port info)) as [r|e] eqn:Ed.
  2: { eexists _, [_]. split; [reflexivity|]. split; [done|]. apply Hsing.
       apply list_elem_of_bind. exists []. split; [set_solver|apply login_texts_start]. }
  assert (Ht : talks (map_err failed (greet info) ;;; transfer_article a id)%m []
                 (transfer_texts info a id) (transfer_texts info a id)).
  { eapply talks_bind.
    - apply talks_map_err. eapply talks_weaken; [apply talks_greet|].
      intros t Ht. apply list_elem_of_bind. exists t. split; [set_solver|done].
    - intros [] l Hl. by apply talks_transfer. }
  destruct (Ht (mkPeerConnection r [] 0)) as (c & _ & [(u & E & Hq)|(e & E & Hq)]);
    [by apply (Hns _ _ _ _ Ed)|done|..]; rewrite E; eexists _, [_]; (split; [reflexivity|]); split; auto; done.
Qed.

(** What a peer lacks of one article fetched, of a group, and of the groups of a pass. *)
Definition copies (peer : PeerConfig) (site_name : str) (r : result (str * Message)) : list Message :=
  match r with
  | Ok (_, a) => if should_skip_article a (pr_sitename peer) then []
                 else let copy := create_peer_article a site_name in
                      if extract_message_id copy then [copy] else []
  | Err _ => []
  end.
Definition selects (peer : PeerConfig) (group : str) : bool :=
  existsb (fun pattern => wildmat pattern group) (pr_patterns peer).
Definition ids_listed (last_sync : option Z) (s : S) (group : str) : list (result str) :=
  match last_sync with
  | Some t => list_article_ids_since group t s
  | None => list_article_ids group s
  end.
Definition fetched (last_sync : option Z) (s : S) (group : str) : list (result (str * Message)) :=
  match try_collect (ids_listed last_sync s group) with
  | Ok (i :: ids) => get_articles_by_ids (i :: ids) s
  | _ => []
  end.

Definition skipped (peer : PeerConfig) (r : result (str * Message)) : bool :=
  match r with Ok (_, a) => should_skip_article a (pr_sitename peer) | Err _ => false end.

Definition count {A} (p : A -> bool) (l : list A) : N := N.of_nat (length (List.filter p l)).

Lemma count_app {A} (p : A -> bool) l1 l2 : count p (l1 ++ l2) = count p l1 + count p l2.
Proof. unfold count. rewrite List.filter_app, length_app. lia. Qed.

Lemma process_fetched_dials peer site_name l stats log : no_silence ->
  exists stats' ds, process_fetched peer site_name l stats log = (Ret stats', log ++ ds)
    /\ Forall2 (dial_of (pr_sitename peer)) (l ≫= copies peer site_name) ds
    /\ gs_skipped stats' = gs_skipped stats + count (skipped peer) l
    /\ gs_sent stats' + gs_skipped stats' + gs_errors stats'
       = gs_sent stats + gs_skipped stats + gs_errors stats + N.of_nat (length l).
Proof.
  intros Hns. revert stats log. induction l as [|r l IH]; intros stats log; cbn [process_fetched].
  - exists stats, []. rewrite app_nil_r. split; [done|]. split; [constructor|].
    change (count (skipped peer) []) with 0. cbn [length]. lia.
  - assert (Hgo : forall stats1 ds1 sk,
      Forall2 (dial_of (pr_sitename peer)) (copies peer site_name r) ds1 ->
      gs_skipped stats1 = gs_skipped stats + sk -> sk = (if skipped peer r then 1 else 0) ->
      gs_sent stats1 + gs_skipped stats1 + gs_errors stats1
        = gs_sent stats + gs_skipped stats + gs_errors stats + 1 ->
      exists stats' ds, process_fetched peer site_name l stats1 (log ++ ds1) = (Ret stats', log ++ ds)
        /\ Forall2 (dial_of (pr_sitename peer)) ((r :: l) ≫= copies peer site_name) ds
        /\ gs_skipped stats' = gs_skipped stats + count (skipped peer) (r :: l)
        /\ gs_sent stats' + gs_skipped stats' + gs_errors stats'
           = gs_sent stats + gs_skipped stats + gs_errors stats + N.of_nat (length (r :: l))).
    { intros stats1 ds1 sk Hds Hsk Esk Hsum.
      destruct (IH stats1 (log ++ ds1)) as (stats' & ds & E & Hf & Hs & Ht).
      exists stats', (ds1 ++ ds). rewrite app_assoc. split; [done|].
      split; [by apply Forall2_app|]. change (r :: l) with ([r] ++ l).
      rewrite count_app, length_app. unfold count at 1. cbn [List.filter app length].
      destruct (skipped peer r); cbn [length] in *; lia. }
    destruct r as [[i a]|e].
    2: { destruct (Hgo (mkGroupSyncStats (gs_sent stats) (gs_skipped stats) (gs_errors stats + 1)) [] 0)
           as (stats' & ds & E & Hrest); [constructor|simpl; lia|done|simpl; lia|].
         rewrite app_nil_r in E. by exists stats', ds. }
    unfold process_fetched_article. cbn [copies skipped] in Hgo.
    destruct (should_skip_article a (pr_sitename peer)) eqn:Esk.
    + unfold mbind' at 1, mcatch, mreturn at 1.
      destruct (Hgo (mkGroupSyncStats (gs_sent stats) (gs_skipped stats + 1) (gs_errors stats)) [] 1)
        as (stats' & ds & E & Hrest); [constructor|simpl; lia|done|simpl; lia|].
      rewrite app_nil_r in E. by exists stats', ds.
    + destruct (send_article_dials (pr_sitename peer) (create_peer_article a site_name) log Hns)
        as (o & ds1 & E1 & Hback & Hds1). cbv zeta in Hgo.
      unfold mbind' at 1, mcatch, mbind' at 1. rewrite E1. destruct o as [[]|e| |]; [| |done..]; cbv beta iota.
      * apply (Hgo _ ds1 0); [done|simpl; lia|done|simpl; lia].
      * apply (Hgo _ ds1 0); [done|simpl; lia|done|simpl; lia].
Qed.

Lemma process_group_fetched peer site_name s ids log :
  process_group_articles peer s site_name ids log
  = process_fetched peer site_name
      (match ids with [] => [] | _ => get_articles_by_ids ids s end) (mkGroupSyncStats 0 0 0) log.
Proof. by destruct ids. Qed.

Lemma fetched_ids last_sync s group ids : ids_listed last_sync s group = Ok <$> ids ->
  fetched last_sync s group = match ids with [] => [] | _ => get_articles_by_ids ids s end.
Proof. intros E. unfold fetched. rewrite E, try_collect_Ok. by destruct ids. Qed.

Lemma sync_groups_dials peer last_sync s site_name gs stats log : no_silence ->
  (forall g, g ∈ gs -> exists ids, ids_listed last_sync s g = Ok <$> ids) ->
  let chosen := List.filter (selects peer) gs in
  let found := chosen ≫= fetched last_sync s in
  exists stats' ds, sync_groups peer last_sync s site_name (Ok <$> gs) stats log = (Ret stats', log ++ ds)
    /\ ss_groups_processed stats' = ss_groups_processed stats + N.of_nat (length chosen)
    /\ ss_articles_skipped stats' = ss_articles_skipped stats + count (skipped peer) found
    /\ ss_articles_sent stats' + ss_articles_skipped stats' + ss_errors stats'
       = ss_articles_sent stats + ss_articles_skipped stats + ss_errors stats + N.of_nat (length found)
    /\ Forall2 (dial_of (pr_sitename peer)) (found ≫= copies peer site_name) ds.
Proof.
  intros Hns. revert stats log. induction gs as [|g gs IH]; intros stats log Hids;
    cbv zeta; cbn [fmap list_fmap sync_groups List.filter].
  - exists stats, []. rewrite app_nil_r. cbn [length mbind list_bind]. change (count _ []) with 0. split_and!; [done|lia..|constructor].
  - fold (selects peer g). destruct (selects peer g) eqn:Eg; cbn [negb]; [|apply IH; set_solver].
    destruct (Hids g) as [ids Eids]; [set_solver|].
    fold (ids_listed last_sync s g). rewrite Eids, try_collect_Ok.
    rewrite (mbind_Ret (mlift (Ok ids)) _ _ _ _ eq_refl).
    destruct (process_fetched_dials peer site_name (fetched last_sync s g) (mkGroupSyncStats 0 0 0) log Hns)
      as (gstats & ds1 & E1 & Hf1 & Hs1 & Ht1).
    rewrite (fetched_ids _ _ _ _ Eids), <- process_group_fetched in E1. rewrite (mbind_Ret _ _ _ _ _ E1).
    cbv zeta. destruct (IH (mkSyncStats (ss_groups_processed (merge stats gstats) + 1)
      (ss_articles_sent (merge stats gstats)) (ss_articles_skipped (merge stats gstats))
      (ss_errors (merge stats gstats))) (log ++ ds1)) as (stats' & ds & E & Hg & Hs & Ht & Hf); [set_solver|].
    exists stats', (ds1 ++ ds). rewrite app_assoc. split; [done|].
    cbn [mbind list_bind]. rewrite count_app, bind_app, length_app.
    cbn [merge ss_groups_processed ss_articles_sent ss_articles_skipped ss_errors
         gs_sent gs_skipped gs_errors length] in *.
    split_and!; [lia|lia|lia|]. by apply Forall2_app.
Qed.

(** C19: a pass over a store whose listings do not fail, with a peer that never falls silent,
    comes back.  It dials once for each article it finds in a matching group that is not from
    the peer and has a Message-ID, in order, and on that connection sends texts of the
    dialogue about that article only; every article found is counted once. *)
Theorem sync_pass (peer : PeerConfig) (db : PeerDb) (s : S) (site_name : str) (log : list Dialled)
    (gs : list str) :
  let last_sync := get_last_sync (pr_sitename peer) db in
  no_silence -> list_groups s = Ok <$> gs ->
  (forall g, g ∈ gs -> exists ids, ids_listed last_sync s g = Ok <$> ids) ->
  let found := List.filter (selects peer) gs ≫= fetched last_sync s in
  exists stats ds, sync_peer_once peer db s site_name log = (Ret stats, log ++ ds)
    /\ ss_groups_processed stats = count (selects peer) gs
    /\ ss_articles_skipped stats = count (skipped peer) found
    /\ ss_articles_sent stats + ss_articles_skipped stats + ss_errors stats = N.of_nat (length found)
    /\ Forall2 (dial_of (pr_sitename peer)) (found ≫= copies peer site_name) ds.
Proof.
  intros last_sync Hns Hg Hids found. unfold sync_peer_once. rewrite Hg. fold last_sync.
  destruct (sync_groups_dials peer last_sync s site_name gs (mkSyncStats 0 0 0 0) log Hns Hids)
    as (stats & ds & E & H1 & H2 & H3 & H4).
  exists stats, ds. split; [done|]. cbn [ss_groups_processed ss_articles_sent ss_articles_skipped ss_errors] in *.
  subst found last_sync. unfold count in *. cbv zeta in *. split_and!; [lia|lia|lia|done].
Qed.
End Passes.

(** ** The window of the next pass *)
Section Window.
Context {X : Ext} {Net : PeerNet}.

Lemma sorted_rows_ext {V} (l k : list (Z * V)) :
  StronglySorted Z.lt (fst <$> l) -> StronglySorted Z.lt (fst <$> k) ->
  (forall r, r ∈ l <-> r ∈ k) -> l = k.
Proof.
  revert k. induction l as [|a l IH]; intros [|b k] Hl Hk Hx; csimpl in *; [done|..].
  - exfalso. apply (not_elem_of_nil b), Hx. left.
  - exfalso. apply (not_elem_of_nil a), Hx. left.
  - apply StronglySorted_inv in Hl as [Hl Ha], Hk as [Hk Hb]. rewrite Forall_forall in Ha, Hb.
    assert (Hal : forall r, r ∈ l -> (fst a < fst r)%Z)
      by (intros r Hr; apply Ha, list_elem_of_fmap; eauto).
    assert (Hbk : forall r, r ∈ k -> (fst b < fst r)%Z)
      by (intros r Hr; apply Hb, list_elem_of_fmap; eauto).
    assert (a = b) as <-.
    { pose proof (proj1 (Hx a) (list_elem_of_here _ _)) as H1.
      pose proof (proj2 (Hx b) (list_elem_of_here _ _)) as H2.
      apply elem_of_cons in H1 as [->|H1]; [done|]. apply elem_of_cons in H2 as [->|H2]; [done|].
      specialize (Hal _ H2). specialize (Hbk _ H1). lia. }
    f_equal. apply IH; [done..|]. intros r. specialize (Hx r). rewrite !elem_of_cons in Hx.
    split; intros Hr; [specialize (Hal _ Hr)|specialize (Hbk _ Hr)];
      destruct Hx as [Hx1 Hx2]; [destruct Hx1 as [->|]|destruct Hx2 as [->|]]; auto; lia.
Qed.

Lemma sorted_filter {A} (f : A -> Z) p (l : list A) :
  StronglySorted Z.lt (f <$> l) -> StronglySorted Z.lt (f <$> List.filter p l).
Proof.
  induction l as [|a l IH]; csimpl; [done|]. intros [Hl Ha]%StronglySorted_inv.
  destruct (p a); [|by apply IH]. csimpl. constructor; [by apply IH|].
  rewrite Forall_forall in *. intros x (y & -> & Hy)%list_elem_of_fmap. apply Ha, list_elem_of_fmap.
  exists y. split; [done|]. apply elem_of_list_In, List.filter_In in Hy as [Hy _]. by apply elem_of_list_In.
Qed.

Lemma rows_deleted p g db :
  group_rows_by_number g (delete_group_articles p db)
  = List.filter (fun r => negb (p (g, fst r) (snd r))) (group_rows_by_number g db).
Proof.
  apply sorted_rows_ext; [apply rows_sorted|apply sorted_filter, rows_sorted|].
  intros [n v]. rewrite elem_rows_by_number, delete_rows_lookup, elem_of_list_In, List.filter_In.
  rewrite <- elem_of_list_In, elem_rows_by_number, negb_true_iff. done.
Qed.

(** The store without the rows inserted up to a moment. *)
Definition inserted_after (now : Z) : Db -> Db :=
  delete_group_articles (fun _ v => (snd v <=? timestamp now)%Z).

Lemma listed_after g now since db : timestamp since = timestamp now ->
  ss_list_article_ids_since g since (inserted_after now db) = ss_list_article_ids_since g since db.
Proof.
  intros E. unfold ss_list_article_ids_since, inserted_after. rewrite rows_deleted, E. f_equal.
  induction (group_rows_by_number g db) as [|[n [i t]] l IH]; [done|]. cbn [List.filter fst snd].
  destruct (Z.leb_spec t (timestamp now)), (Z.ltb_spec (timestamp now) t); try lia;
    cbn [negb List.filter fst snd]; [done|]. destruct (Z.ltb_spec (timestamp now) t); [|lia]. by f_equal.
Qed.

(** C39: whatever a pass came to, the job ends by setting the time of the last synchronisation: the
    next pass does what it would do if the articles stored up to that time did not exist.
    So an article whose transfer failed, or that was stored while the pass ran, is not
    offered again. *)
Theorem job_closes_window (peer : PeerConfig) (s1 s2 : Db) (site_name : str) (now : Z) (db db1 : PeerDb)
    (log log1 log2 : list Dialled) :
  let name := pr_sitename peer in
  is_Some (db !! name) -> (0 < timestamp now <= 8210266876799)%Z ->
  peer_job peer s1 site_name now (db, log) = (Ret tt, (db1, log1)) ->
  db1 !! name = Some (timestamp now)
  /\ sync_peer_once peer db1 s2 site_name log2
     = sync_peer_once peer db1 (inserted_after now s2) site_name log2.
Proof.
  intros name [ts Hts] Hr E.
  assert (Hn : db1 !! name = Some (timestamp now)).
  { unfold peer_job in E. rewrite (mbind_Ret (mgets fst) _ _ _ _ eq_refl) in E. cbn [fst] in E.
    apply mbind_inv in E as (r & [db2 log3] & E1 & E).
    assert (db2 = db) as ->.
    { unfold mcatch, mzoom in E1. cbn [fst snd] in E1.
      destruct (sync_peer_once _ _ _ _ _) as [[] ?]; by injection E1 as _ <-. }
    unfold mcatch, mzoom, update_last_sync, mmodify, mbind', mreturn in E. cbn [fst snd] in E.
    injection E as <- _. fold name. rewrite lookup_alter_eq, Hts. done. }
  split; [done|]. unfold sync_peer_once.
  assert (El : get_last_sync (pr_sitename peer) db1 = Some (timestamp now * ns_per_sec)%Z).
  { unfold get_last_sync. fold name. rewrite Hn. destruct (Z.eqb_spec (timestamp now) 0); [lia|].
    unfold date_from_timestamp. destruct (Z.leb_spec (-8334601228800) (timestamp now)); [|lia].
    destruct (Z.leb_spec (timestamp now) 8210266876799); [done|lia]. }
  rewrite El. change (list_groups (inserted_after now s2)) with (list_groups s2).
  generalize (mkSyncStats 0 0 0 0). revert log2.
  induction (list_groups s2) as [|[g|e] gs IH]; intros log2 stats; cbn [sync_groups]; [done| |done].
  destruct (negb _); [apply IH|].
  change (list_article_ids_since g (timestamp now * ns_per_sec)%Z (inserted_after now s2))
    with (ss_list_article_ids_since g (timestamp now * ns_per_sec)%Z (inserted_after now s2)).
  rewrite listed_after by (unfold timestamp, ns_per_sec; by rewrite Z.div_mul).
  apply mbind_ext. intros ids log3.
  change (process_group_articles peer (inserted_after now s2) site_name ids)
    with (process_group_articles peer s2 site_name ids).
  apply mbind_ext. intros gstats log4. apply IH.
Qed.
End Window.

(** A peer that is down at the first dial and accepts articles afterwards. *)
Definition late_peer : PeerNet := {|
  peer_dial := fun n _ _ =>
    match n with
    | O => Err (lit "connection refused")
    | _ => Ok (answers_with [lit "200 ready"; lit "335 send it"; lit "235 ok"])
    end |}.
Definition far : PeerConfig := mkPeerRule (lit "far:119") [lit "*"] None.
Definition far_db : Db :=
  snd ((ss_add_group 0 (lit "misc.a") false ;;; @ss_store_article Toy.ext ns_per_sec art2)%m empty_db).
Definition called : list Dialled := [mkDialled (lit "far") 119 []].

Lemma late_peer_talks : @no_silence late_peer.
Proof. intros [|n] host port r E; [done|]. by injection E as <-. Qed.

Lemma sync_pass_witness : exists stats ds,
  @sync_peer_once Toy.ext late_peer _ (@sqlite_storage Toy.ext) far ∅ far_db (lit "here") called
    = (Ret stats, called ++ ds)
  /\ length ds = 1%nat /\ ss_groups_processed stats = 1
  /\ ss_articles_sent stats + ss_articles_skipped stats + ss_errors stats = 1.
Proof.
  destruct (@sync_pass Toy.ext late_peer _ (@sqlite_storage Toy.ext) far ∅ far_db (lit "here")
              called [lit "misc.a"] late_peer_talks) as (stats & ds & E & H1 & H2 & H3 & H4).
  - vm_compute. reflexivity.
  - intros g ->%list_elem_of_singleton. exists [lit "<2@x>"]. vm_compute. reflexivity.
  - exists stats, ds. split; [exact E|]. apply Forall2_length in H4. rewrite <- H4, H1, H3.
    vm_compute. auto.
Defined.

(** The first job finds the peer down; the article is not offered by the second pass. *)
Lemma job_closes_window_witness :
  let job := @peer_job Toy.ext late_peer _ (@sqlite_storage Toy.ext) far far_db (lit "here")
               (5 * ns_per_sec)%Z ({[lit "far:119" := 0%Z]}, []) in
  exists db1 log1, job = (Ret tt, (db1, log1)) /\ length log1 = 1%nat
  /\ snd (@sync_peer_once Toy.ext late_peer _ (@sqlite_storage Toy.ext) far db1 far_db (lit "here") called)
    = called.
Proof.
  intros job. destruct job as [o [db1 log1]] eqn:E.
  assert (o = Ret tt) as -> by (change o with (fst (o, (db1, log1))); rewrite <- E; vm_compute; reflexivity).
  exists db1, log1. split; [reflexivity|]. split.
  - change log1 with (snd (snd (Ret tt, (db1, log1)))). rewrite <- E. vm_compute. reflexivity.
  - destruct (@job_closes_window Toy.ext late_peer far far_db far_db (lit "here") (5 * ns_per_sec)%Z
                {[lit "far:119" := 0%Z]} db1 [] log1 called) as [Hn ->].
    + vm_compute. eauto.
    + vm_compute. split; [reflexivity|discriminate].
    + exact E.
    + assert (db1 = fst (snd job)) as -> by (rewrite E; reflexivity). vm_compute. reflexivity.
Defined.

Lemma transfer_outcome_witness :
  let '(o, sent) := transfer_result (lit "far:119") (parse_peer_address (lit "far:119") 563) art2
                      (lit "<2@x>") (lit "200 ready") (lit "335 send it") (lit "235 ok") in
  @send_article_to_peer late_peer (lit "far:119") art2 called = (o, called ++ [mkDialled (lit "far") 119 sent])
  /\ o = Ret tt.
Proof.
  pose proof (@transfer_outcome late_peer (lit "far:119") art2 (lit "<2@x>") called
                (lit "200 ready") (lit "335 send it") (lit "235 ok")) as H.
  destruct H as [H _]; try (vm_compute; reflexivity); try by apply absent_check.
  split; [exact H|vm_compute; reflexivity].
Defined.
