(* ===== verification/Admin.v ===== *)
(** * Admin: the administration commands ([main.rs])

    [run_admin] and what it calls, on the two stores and the lines printed.  Parsing the
    command line, opening the stores and reading the file of IMPORT-GROUPS are
    outside: a command is a value, and the file is the list of what its line reader yields.
    The clock readings of one command are taken as one. *)

From stdpp Require Import base numbers list gmap strings sorting.
From Stdlib Require Import NArith ZArith Lia.
From S2P Require Import Prelude Text Externals Message Wildmat Config Limits Auth SqliteAuth Storage SqliteStorage Control.
Local Open Scope N_scope.

Inductive AdminCommand : Type :=
| AddGroup (group : str) (groups : list str)
| RemoveGroup (wildmat : str)
| AddUser (user pass : str) (pgp_key : option str)
| UpdatePassword (user new_pass : str)
| RemoveUser (user : str)
| UpdateKey (user pgp_key : str)
| SetModerated (group moderated : str)
| AddAdmin (user : str)
| RemoveAdmin (user : str)
| AddModerator (user group : str)
| RemoveModerator (user group : str)
| SetLimits (user : str) (allow_posting : option str) (max_connections : option N)
    (bandwidth_limit bandwidth_period : option str)
| ClearLimits (user : str)
| ShowUsage (user : str)
| ResetUsage (user : str)
| ImportGroups (file : list (result str))
| ExportGroups.

(** ** Printing sizes and durations *)

(** [q / 2^k] rounded to the nearest integer, a tie to the even one. *)
Definition round_shift (q k : N) : N :=
  let d := q / 2 ^ k in
  let r := q mod 2 ^ k in
  if 2 ^ k <? 2 * r then d + 1
  else if (2 * r =? 2 ^ k) && N.odd d then d + 1 else d.

(** [n as f64], for a [u64]: 53 bits are kept. *)
Definition as_f64 (n : N) : N :=
  if n <? 2 ^ 53 then n else let e := N.log2 n - 52 in round_shift n e * 2 ^ e.

(** [format!("{:.2}", bytes as f64 / 2^k as f64)]: dividing by a power of two is exact. *)
Definition two_decimals (bytes k : N) : str :=
  let c := round_shift (as_f64 bytes * 100) k in
  show_N (c / 100) ++ lit "." ++ show_N (c mod 100 / 10) ++ show_N (c mod 10).

Definition format_bytes (bytes : N) : str :=
  if 1024 * 1024 * 1024 <=? bytes then two_decimals bytes 30 ++ lit " GB"
  else if 1024 * 1024 <=? bytes then two_decimals bytes 20 ++ lit " MB"
  else if 1024 <=? bytes then two_decimals bytes 10 ++ lit " KB"
  else show_N bytes ++ lit " bytes".

Definition format_duration (secs : N) : str :=
  let whole n := (n <=? secs) && (secs mod n =? 0) in
  if whole 604800 then show_N (secs / 604800) ++ lit " week(s)"
  else if whole 86400 then show_N (secs / 86400) ++ lit " day(s)"
  else if whole 3600 then show_N (secs / 3600) ++ lit " hour(s)"
  else if whole 60 then show_N (secs / 60) ++ lit " minute(s)"
  else show_N secs ++ lit " second(s)".

(** ** Arguments

    [to_lowercase] is Unicode's, but no character outside ASCII has a letter of the words
    compared as its lower case. *)
Definition parse_bool_arg (val : str) : result bool :=
  let v := to_ascii_lowercase val in
  if str_eqb v (lit "true") || str_eqb v (lit "yes") || str_eqb v (lit "1") then Ok true
  else if str_eqb v (lit "false") || str_eqb v (lit "no") || str_eqb v (lit "0") then Ok false
  else Err (lit "Invalid boolean value: '" ++ val ++ lit "'. Use 'true' or 'false'.").

Definition ends_moderated (description : str) : bool :=
  ends_with (lit "(moderated)") (to_ascii_lowercase description).

(** One line of a group file: nothing, a warning, or a group. *)
Inductive GroupLine : Type :=
| Ignored
| EmptyName
| GroupEntry (group_name : str) (moderated : bool) (description : str).

Definition is_blank (c : char) : bool := (c =? SP) || (c =? TAB).

Definition parse_group_line (line : str) : GroupLine :=
  let line := trim_end line in
  if str_eqb line [] || starts_with (lit "#") line then Ignored
  else
    let '(name, desc) := span (fun c => negb (is_blank c)) line in
    let group_name := trim name in
    let description := trim desc in
    if str_eqb group_name [] then EmptyName
    else if ends_moderated description
         then GroupEntry group_name true (trim_end (take (length description - 11) description))
         else GroupEntry group_name false description.

Definition export_line (group description : str) (moderated : bool) : str :=
  if str_eqb description [] then
    if moderated then group ++ [TAB] ++ lit "(Moderated)" else group
  else if moderated && negb (ends_moderated description)
       then group ++ [TAB] ++ description ++ lit " (Moderated)"
       else group ++ [TAB] ++ description.

(** ** The commands

    The stores and the lines printed so far. *)
Record Console (S A : Type) := mkConsole { con_stores : Stores S A; con_out : list str }.
Arguments mkConsole {S A}.
Arguments con_stores {S A}.
Arguments con_out {S A}.

Section Admin.
Context {X : Ext} {S A : Type} `{Storage S} `{AuthProvider A}.

Definition println (line : str) : M (Console S A) unit :=
  mmodify (fun c => mkConsole (con_stores c) (con_out c ++ [line])).
Definition on_stores {B} : M (Stores S A) B -> M (Console S A) B :=
  mzoom con_stores (fun t c => mkConsole t (con_out c)).

(** The warnings of skipped lines go to the error output, which is not modelled. *)
Fixpoint import_lines (now : Z) (line_num : N) (lines : list (result str)) (imported skipped : N)
  : M (Console S A) unit :=
  match lines with
  | [] => println (lit "Imported " ++ show_N imported ++ lit " groups, skipped " ++ show_N skipped ++ lit " lines")
  | Err e :: _ => mfail (lit "Failed to read line " ++ show_N (line_num + 1) ++ lit ": " ++ e)
  | Ok line :: lines =>
      match parse_group_line line with
      | Ignored => import_lines now (line_num + 1) lines imported skipped
      | EmptyName => import_lines now (line_num + 1) lines imported (skipped + 1)
      | GroupEntry group_name moderated description =>
          (on_stores (on_storage (add_group_with_description now group_name moderated description)) ;;;
           import_lines now (line_num + 1) lines (imported + 1) skipped)%m
      end
  end.

Definition import_groups (now : Z) (file : list (result str)) : M (Console S A) unit :=
  import_lines now 0 file 0 0.

Definition export_groups : M (Console S A) unit :=
  (groups <-- on_stores (on_storage (mgets list_groups_with_descriptions)) ;;;
   mfor_stream groups (fun gd =>
     moderated <-- on_stores (ask_storage (is_group_moderated (fst gd))) ;;;
     println (export_line (fst gd) (snd gd) moderated)))%m.

Definition map_or (default_text : str) (show : N -> str) (o : option N) : str :=
  match o with Some n => show n | None => default_text end.

Definition new_limits (existing : UserLimits) (can_post : bool) (max_connections : option N)
    (bandwidth_limit bandwidth_period : option str) : UserLimits :=
  mkUserLimits can_post
    (match max_connections with
     | Some c => if c =? 0 then None else Some c
     | None => ul_max_connections existing
     end)
    (match bandwidth_limit with
     | Some val => if str_eqb val (lit "0") || str_eqb val [] then None else parse_size val
     | None => ul_bandwidth_limit existing
     end)
    (match bandwidth_period with
     | Some val => parse_duration_secs val
     | None => ul_bandwidth_period_secs existing
     end).

Definition show_bool (b : bool) : str := if b then lit "true" else lit "false".

Definition set_limits (user : str) (allow_posting : option str) (max_connections : option N)
    (bandwidth_limit bandwidth_period : option str) : M (Console S A) unit :=
  (existing <-- on_stores (ask_auth (get_user_limits user)) ;;;
   let existing := default default_UserLimits existing in
   can_post <-- mlift (match allow_posting with
                       | Some val => parse_bool_arg val
                       | None => Ok (ul_can_post existing)
                       end) ;;;
   let limits := new_limits existing can_post max_connections bandwidth_limit bandwidth_period in
   on_stores (on_auth (set_user_limits user limits)) ;;;
   println (lit "Limits set for user '" ++ user ++ lit "':") ;;;
   println (lit "  can_post: " ++ show_bool can_post) ;;;
   println (lit "  max_connections: " ++ map_or (lit "unlimited") show_N (ul_max_connections limits)) ;;;
   println (lit "  bandwidth_limit: " ++ map_or (lit "unlimited") format_bytes (ul_bandwidth_limit limits)) ;;;
   println (lit "  bandwidth_period: "
            ++ map_or (lit "absolute") format_duration (ul_bandwidth_period_secs limits)))%m.

(** [DateTime<Utc>]'s [Display]. *)
Definition show_instant (t : Z) : str := format_utc t (lit "%Y-%m-%d %H:%M:%S%.f UTC").

Definition show_usage (user : str) : M (Console S A) unit :=
  (usage <-- on_stores (ask_auth (get_user_usage user)) ;;;
   println (lit "Usage for user '" ++ user ++ lit "':") ;;;
   println (lit "  uploaded: " ++ format_bytes (uu_bytes_uploaded usage)) ;;;
   println (lit "  downloaded: " ++ format_bytes (uu_bytes_downloaded usage)) ;;;
   println (lit "  total: " ++ format_bytes (total_bandwidth usage)) ;;;
   println (match uu_window_start usage with
            | Some ws => lit "  window_start: " ++ show_instant ws
            | None => lit "  window_start: (not set)"
            end))%m.

Definition run_admin (now : Z) (salt : N) (cmd : AdminCommand) : M (Console S A) unit :=
  match cmd with
  | AddGroup group groups =>
      (on_stores (on_storage (add_group now group false)) ;;;
       mfor groups (fun g => on_stores (on_storage (add_group now g false))))%m
  | RemoveGroup wildmat => on_stores (on_storage (remove_groups_by_pattern wildmat))
  | AddUser user pass pgp_key => on_stores (on_auth (add_user_with_key salt user pass pgp_key))
  | UpdatePassword user new_pass => on_stores (on_auth (update_password salt user new_pass))
  | RemoveUser user => on_stores (on_auth (remove_user user))
  | UpdateKey user pgp_key => on_stores (on_auth (update_pgp_key user pgp_key))
  | SetModerated group moderated =>
      (is_moderated <-- mlift (parse_bool_arg moderated) ;;;
       on_stores (on_storage (set_group_moderated group is_moderated)))%m
  | AddAdmin user => on_stores (on_auth (add_admin_without_key user))
  | RemoveAdmin user => on_stores (on_auth (remove_admin user))
  | AddModerator user group => on_stores (on_auth (add_moderator user group))
  | RemoveModerator user group => on_stores (on_auth (remove_moderator user group))
  | SetLimits user allow_posting max_connections bandwidth_limit bandwidth_period =>
      set_limits user allow_posting max_connections bandwidth_limit bandwidth_period
  | ClearLimits user =>
      (on_stores (on_auth (clear_user_limits user)) ;;;
       println (lit "Limits cleared for user '" ++ user ++ lit "' (will use defaults)"))%m
  | ShowUsage user => show_usage user
  | ResetUsage user =>
      (on_stores (on_auth (reset_user_usage now user)) ;;;
       println (lit "Usage counters reset for user '" ++ user ++ lit "'"))%m
  | ImportGroups file => import_groups now file
  | ExportGroups => export_groups
  end.
End Admin.

(** ** A group that is exported and imported *)
Lemma trim_start_shorter f s : (length (trim_start_matches f s) <= length s)%nat
  /\ (length (trim_start_matches f s) = length s -> trim_start_matches f s = s).
Proof.
  induction s as [|c s [IH _]]; [done|]. cbn [trim_start_matches]. destruct (f c); [|done].
  cbn [length]. split; lia.
Qed.

Lemma trim_matches_inv f s : trim_matches f s = s ->
  trim_start_matches f s = s /\ trim_end_matches f s = s.
Proof.
  intros E. destruct (trim_start_shorter f s) as [Hle Heq].
  destruct (trim_start_shorter f (rev (trim_start_matches f s))) as [Hle2 _].
  assert (El : trim_start_matches f s = s).
  { apply Heq. apply (f_equal length) in E. unfold trim_matches, trim_end_matches in E.
    rewrite !length_rev in *. lia. }
  split; [done|]. unfold trim_matches in E. by rewrite El in E.
Qed.

Lemma trim_end_inv f s : s <> [] -> trim_end_matches f s = s -> exists t c, s = t ++ [c] /\ f c = false.
Proof.
  intros Hs E. destruct (exists_last Hs) as (t & c & ->). exists t, c. split; [done|].
  unfold trim_end_matches in E. rewrite rev_app_distr in E. cbn [rev app trim_start_matches] in E.
  destruct (f c); [|done]. exfalso. apply (f_equal length) in E.
  rewrite length_rev, length_app in E. destruct (trim_start_shorter f (rev t)) as [H _].
  rewrite length_rev in H. simpl in E. lia.
Qed.

Lemma trim_end_app f a s : s <> [] -> trim_end_matches f s = s -> trim_end_matches f (a ++ s) = a ++ s.
Proof.
  intros Hs E. destruct (trim_end_inv f s Hs E) as (t & c & -> & Hc). rewrite app_assoc.
  by apply trim_end_snoc.
Qed.

(** A group name as the file format can carry it. *)
Definition name_ok (group : str) : bool :=
  negb (str_eqb group []) && negb (starts_with (lit "#") group)
  && forallb (fun c => negb (is_whitespace c)) group.

(** A description of one line, without surrounding blanks, that does not claim moderation
    itself. *)
Definition description_ok (description : str) : bool :=
  str_eqb (trim description) description && negb (ends_moderated description)
  && negb (existsb (N.eqb LF) description).

Lemma no_blank_trim s : forallb (fun c => negb (is_whitespace c)) s = true -> trim s = s.
Proof.
  intros H. assert (Hs : forall t, forallb (fun c => negb (is_whitespace c)) t = true ->
    trim_start_matches is_whitespace t = t).
  { intros [|c t] Ht; [done|]. cbn in Ht |- *. apply andb_prop in Ht as [Hc _].
    apply negb_true_iff in Hc. by rewrite Hc. }
  unfold trim, trim_matches, trim_end_matches. rewrite (Hs s H), Hs, rev_involutive; [done|].
  rewrite forallb_forall in *. intros c Hc. apply H. by apply in_rev.
Qed.

Lemma parse_entry group d : name_ok group = true -> d <> [] -> trim d = d ->
  parse_group_line (group ++ TAB :: d)
  = if ends_moderated d then GroupEntry group true (trim_end (take (length d - 11) d))
    else GroupEntry group false d.
Proof.
  unfold name_ok. rewrite !andb_true_iff, !negb_true_iff. intros [[Hn Hh] Hw] Hd Ht.
  apply trim_matches_inv in Ht as [Hts Hte]. unfold parse_group_line.
  assert (Hg : group <> []) by (by intros ->).
  replace (trim_end (group ++ TAB :: d)) with (group ++ TAB :: d).
  2: { change (group ++ TAB :: d) with (group ++ [TAB] ++ d). rewrite app_assoc.
       symmetry. by apply trim_end_app. }
  assert (str_eqb (group ++ TAB :: d) [] = false) as ->.
  { apply bool_decide_eq_false. by destruct group. }
  rewrite starts_with_plain; [|done|destruct group; [done|simpl; lia]]. cbn [orb].
  rewrite span_exact; [|clear -Hw|done].
  2: { rewrite forallb_forall in *. intros c Hc. specialize (Hw c Hc). rewrite negb_true_iff in *.
       unfold is_blank. apply orb_false_iff.
       split; apply N.eqb_neq; intros ->; vm_compute in Hw; discriminate. }
  rewrite no_blank_trim by done. rewrite Hn.
  assert (trim (TAB :: d) = d) as ->; [|done].
  unfold trim, trim_matches. cbn [trim_start_matches]. change (is_whitespace TAB) with true. cbv iota.
  by rewrite Hts.
Qed.

(** The line exported for a group is read back as that group. *)
Lemma parse_export_line (group d : str) (moderated : bool) :
  name_ok group = true -> description_ok d = true ->
  parse_group_line (export_line group d moderated) = GroupEntry group moderated d.
Proof.
  intros Hg Hd. unfold description_ok in Hd. apply andb_prop in Hd as [[Ht Hm]%andb_prop _].
  apply str_eqb_eq in Ht. apply negb_true_iff in Hm. unfold export_line.
  destruct (str_eqb d []) eqn:Ed.
  - apply str_eqb_eq in Ed as ->. destruct moderated.
    + change (group ++ [TAB] ++ lit "(Moderated)") with (group ++ TAB :: lit "(Moderated)").
      by rewrite parse_entry.
    + unfold name_ok in Hg. rewrite !andb_true_iff, !negb_true_iff in Hg. destruct Hg as [[Hn Hh] Hw].
      unfold parse_group_line. pose proof (no_blank_trim _ Hw) as Htg.
      apply trim_matches_inv in Htg as [_ Hte]. unfold trim_end. rewrite Hte, Hn, Hh. cbn [orb].
      rewrite <- (app_nil_r group) at 1. rewrite span_exact; [|clear -Hw|done].
      2: { rewrite forallb_forall in *. intros c Hc. specialize (Hw c Hc). rewrite negb_true_iff in *.
           unfold is_blank. apply orb_false_iff.
           split; apply N.eqb_neq; intros ->; vm_compute in Hw; discriminate. }
      rewrite no_blank_trim by done. by rewrite Hn.
  - assert (Hne : d <> []) by (by intros ->). rewrite Hm. cbn [negb]. rewrite andb_true_r.
    destruct moderated.
    + change (group ++ [TAB] ++ d ++ lit " (Moderated)") with (group ++ TAB :: (d ++ lit " (Moderated)")).
      pose proof (trim_matches_inv _ _ Ht) as [Hts Hte].
      rewrite parse_entry; [|done|by destruct d|].
      * assert (ends_moderated (d ++ lit " (Moderated)") = true) as ->.
        { apply ends_with_true. exists (to_ascii_lowercase (d ++ lit " ")).
          unfold to_ascii_lowercase. change (lit " (Moderated)") with (lit " " ++ lit "(Moderated)").
          by rewrite app_assoc, fmap_app. }
        f_equal. change (lit " (Moderated)") with (lit " " ++ lit "(Moderated)"). rewrite app_assoc.
        rewrite length_app. change (length (lit "(Moderated)")) with 11%nat.
        rewrite Nat.add_sub, take_app_length. unfold trim_end. change (lit " ") with [SP].
        by rewrite trim_end_drop.
      * unfold trim, trim_matches. rewrite trim_start_id.
        -- by apply trim_end_app.
        -- destruct d as [|c d]; [done|]. cbn [app]. cbn [trim_start_matches] in Hts.
           destruct (is_whitespace c); [|done]. exfalso. apply (f_equal length) in Hts.
           destruct (trim_start_shorter is_whitespace d) as [H _]. simpl in Hts. lia.
    + change (group ++ [TAB] ++ d) with (group ++ TAB :: d). rewrite parse_entry by done. by rewrite Hm.
Qed.

Lemma lines_lf l s : LF ∉ l -> strip_suffix_char CR l = None -> lines (l ++ LF :: s) = l :: lines s.
Proof.
  intros H Hc. unfold lines. rewrite split_inclusive_lf_line by done. csimpl. f_equal.
  unfold strip_line_end. by rewrite strip_suffix_snoc, Hc.
Qed.

(** A printed line: one line that does not end in a blank. *)
Definition printed_ok (l : str) : Prop := LF ∉ l /\ exists t c, l = t ++ [c] /\ is_whitespace c = false.

Lemma printed_lines ls : (forall l, l ∈ ls -> printed_ok l) ->
  lines (concat ((fun l => l ++ [LF]) <$> ls)) = ls.
Proof.
  induction ls as [|l ls IH]; intros H; [done|]. cbn [fmap list_fmap concat].
  rewrite <- app_assoc. cbn [app]. destruct (H l) as (Hl & t & c & -> & Hc); [set_solver|].
  rewrite lines_lf; [|done|].
  - rewrite IH; [done|set_solver].
  - unfold strip_suffix_char. rewrite rev_app_distr. cbn [rev app].
    destruct (N.eqb_spec c CR) as [->|]; [done|done].
Qed.

Lemma export_line_printed group d moderated : name_ok group = true -> description_ok d = true ->
  printed_ok (export_line group d moderated).
Proof.
  intros Hg Hd. unfold name_ok in Hg. rewrite !andb_true_iff, !negb_true_iff in Hg.
  destruct Hg as [[Hn _] Hw]. unfold description_ok in Hd.
  rewrite !andb_true_iff, !negb_true_iff in Hd. destruct Hd as [[Ht _] Hlf]. apply str_eqb_eq in Ht.
  assert (Hg : LF ∉ group).
  { intros H%elem_of_list_In. rewrite forallb_forall in Hw. apply Hw in H. by vm_compute in H. }
  assert (Hd : LF ∉ d).
  { intros H%elem_of_list_In. assert (existsb (N.eqb LF) d = true); [|congruence].
    apply existsb_exists. by exists LF. }
  assert (Hend : forall s, s <> [] -> trim s = s -> exists t c, s = t ++ [c] /\ is_whitespace c = false).
  { intros s Hs E. apply trim_matches_inv in E as [_ E]. by apply trim_end_inv. }
  assert (Hlast : forall a s, (exists t c, s = t ++ [c] /\ is_whitespace c = false) ->
    exists t c, a ++ s = t ++ [c] /\ is_whitespace c = false).
  { intros a s (t & c & -> & Hc). exists (a ++ t), c. by rewrite app_assoc. }
  assert (Hm : exists t c, lit "(Moderated)" = t ++ [c] /\ is_whitespace c = false).
  { by apply Hend. }
  unfold printed_ok, export_line. destruct (str_eqb d []) eqn:Ed.
  - destruct moderated.
    + split; [rewrite !elem_of_app; set_solver|]. do 2 apply Hlast. done.
    + split; [done|]. apply Hend; [by intros ->|by apply no_blank_trim].
  - assert (Hne : d <> []) by (by intros ->). destruct (moderated && _).
    + split; [rewrite !elem_of_app; set_solver|]. do 3 apply Hlast.
      change (lit " (Moderated)") with (lit " " ++ lit "(Moderated)"). by apply Hlast.
    + split; [rewrite !elem_of_app; set_solver|]. do 2 apply Hlast. by apply Hend.
Qed.

Section Groups.
Context {X : Ext} {A : Type} `{AuthProvider A}.

Definition moderated_row (r : GroupRow) : bool := negb (grp_moderated r =? 0)%Z.
Definition row_line (kv : str * GroupRow) : str :=
  export_line (fst kv) (grp_description (snd kv)) (moderated_row (snd kv)).

Lemma elem_groups_by_name g r db : (g, r) ∈ groups_by_name db <-> db_groups db !! g = Some r.
Proof. unfold groups_by_name. rewrite merge_sort_Permutation. apply elem_of_map_to_list. Qed.

Lemma groups_by_name_nodup db : NoDup (fst <$> groups_by_name db).
Proof. unfold groups_by_name. rewrite merge_sort_Permutation. apply NoDup_fst_map_to_list. Qed.

Lemma export_groups_lines (db : Db) (auth : A) out :
  export_groups (mkConsole (mkStores db auth) out)
  = (Ret tt, mkConsole (mkStores db auth) (out ++ (row_line <$> groups_by_name db))).
Proof.
  unfold export_groups.
  assert (E0 : on_stores (on_storage (mgets list_groups_with_descriptions)) (mkConsole (mkStores db auth) out)
    = (Ret (list_groups_with_descriptions db), mkConsole (mkStores db auth) out)) by reflexivity.
  rewrite (mbind_Ret _ _ _ _ _ E0). clear E0.
  change (list_groups_with_descriptions db)
    with ((fun kv => Ok (fst kv, grp_description (snd kv))) <$> groups_by_name db).
  assert (Hin : forall kv, kv ∈ groups_by_name db -> db_groups db !! fst kv = Some (snd kv)).
  { intros [g r] Hg. by apply elem_groups_by_name. }
  revert out Hin. induction (groups_by_name db) as [|[g r] l IH]; intros out Hin.
  - cbn. by rewrite app_nil_r.
  - cbn [fmap list_fmap mfor_stream fst snd].
    assert (Em : is_group_moderated g db = Ok (moderated_row r)).
    { simpl. unfold ss_is_group_moderated. pose proof (Hin (g, r) (list_elem_of_here _ _)) as Hg.
      cbn in Hg. by rewrite Hg. }
    unfold mbind' at 1. unfold mbind' at 1. unfold on_stores, mzoom, ask_storage. cbn [con_stores sto_storage].
    rewrite Em. cbn [outcome_of]. unfold println, mmodify. cbn [con_stores con_out].
    rewrite IH by set_solver. by rewrite <- app_assoc.
Qed.

Lemma import_lines_groups now n kvs i s (db : Db) (auth : A) out :
  (forall kv, kv ∈ kvs -> parse_group_line (row_line kv)
     = GroupEntry (fst kv) (moderated_row (snd kv)) (grp_description (snd kv))) ->
  NoDup (fst <$> kvs) -> (forall g, g ∈ fst <$> kvs -> db_groups db !! g = None) ->
  exists db' out', import_lines now n (Ok <$> (row_line <$> kvs)) i s (mkConsole (mkStores db auth) out)
      = (Ret tt, mkConsole (mkStores db' auth) out')
    /\ (forall g r, (g, r) ∈ kvs -> db_groups db' !! g
         = Some (mkGroupRow (timestamp now) (i32_of_bool (moderated_row r)) (grp_description r)))
    /\ (forall g, g ∉ fst <$> kvs -> db_groups db' !! g = db_groups db !! g).
Proof.
  revert n i s db out. induction kvs as [|[g r] kvs IH]; intros n i s db out Hp Hnd Hnew.
  - eexists db, _. split; [reflexivity|]. split; [|done]. intros g r H1. by apply not_elem_of_nil in H1.
  - rewrite !fmap_cons in Hnd, Hnew |- *. apply NoDup_cons in Hnd as [Hg Hnd]. cbn [fst] in *.
    rewrite (fmap_cons Ok). cbn [import_lines]. rewrite (Hp (g, r)) by set_solver. cbn [fst snd].
    set (row := mkGroupRow (timestamp now) (i32_of_bool (moderated_row r)) (grp_description r)).
    set (db1 := set_groups (fun m => <[g := row]> m) db).
    assert (E1 : on_stores (on_storage (add_group_with_description now g (moderated_row r) (grp_description r)))
              (mkConsole (mkStores db auth) out) = (Ret tt, mkConsole (mkStores db1 auth) out)).
    { unfold on_stores, on_storage, mzoom. cbn [con_stores sto_storage con_out sto_auth].
      change (add_group_with_description now g (moderated_row r) (grp_description r) db)
        with (ss_add_group_with_description now g (moderated_row r) (grp_description r) db).
      unfold ss_add_group_with_description, mmodify, set_groups, db1, set_groups.
      by rewrite (Hnew g) by set_solver. }
    rewrite (mbind_Ret _ _ _ _ _ E1). clear E1.
    destruct (IH (n + 1) (i + 1) s db1 out) as (db' & out' & E & Hin & Hout).
    + intros kv Hkv. apply Hp. set_solver.
    + done.
    + intros h Hh. simpl. rewrite lookup_insert_ne by (intros ->; done). apply Hnew. set_solver.
    + exists db', out'. split; [exact E|]. split.
      * intros h w [[= -> ->]|Hhw]%elem_of_cons.
        -- rewrite Hout by done. simpl. by rewrite lookup_insert_eq.
        -- by apply Hin.
      * intros h Hh. apply not_elem_of_cons in Hh as [Hne Hh]. rewrite Hout by done.
        simpl. by rewrite lookup_insert_ne by done.
Qed.

(** C33: the groups of a store, exported to a file and imported into an empty store, are there
    again with their moderation and description; only the time of creation is new.
    This holds when names have no blanks and do not start like a comment, and descriptions
    are one line that is trimmed and does not itself end in "(moderated)". *)
Theorem groups_export_import (now : Z) (db : Db) (auth : A) :
  (forall g r, db_groups db !! g = Some r -> name_ok g = true /\ description_ok (grp_description r) = true) ->
  exists printed db' out,
    run_admin now 0 ExportGroups (mkConsole (mkStores db auth) [])
      = (Ret tt, mkConsole (mkStores db auth) printed)
    /\ run_admin now 0 (ImportGroups (Ok <$> lines (concat ((fun l => l ++ [LF]) <$> printed))))
         (mkConsole (mkStores empty_db auth) [])
      = (Ret tt, mkConsole (mkStores db' auth) out)
    /\ forall g, db_groups db' !! g
         = (fun r => mkGroupRow (timestamp now) (i32_of_bool (moderated_row r)) (grp_description r))
             <$> db_groups db !! g.
Proof.
  intros Hok. exists (row_line <$> groups_by_name db).
  assert (Hrows : forall kv, kv ∈ groups_by_name db ->
    name_ok (fst kv) = true /\ description_ok (grp_description (snd kv)) = true).
  { intros [g r] Hg. apply Hok. by apply elem_groups_by_name. }
  rewrite printed_lines.
  2: { intros l (kv & -> & Hkv)%list_elem_of_fmap. destruct (Hrows kv Hkv). by apply export_line_printed. }
  destruct (import_lines_groups now 0 (groups_by_name db) 0 0 empty_db auth []) as (db' & out & E & Hin & Hout).
  - intros kv Hkv. destruct (Hrows kv Hkv). by apply parse_export_line.
  - apply groups_by_name_nodup.
  - intros g _. apply lookup_empty.
  - exists db', out. split; [exact (export_groups_lines db auth [])|]. split; [exact E|].
    intros g. destruct (db_groups db !! g) as [r|] eqn:Eg; cbn [fmap option_fmap option_map].
    + apply Hin. by apply elem_groups_by_name.
    + rewrite Hout; [apply lookup_empty|]. intros ([h r] & -> & Hg)%list_elem_of_fmap.
      apply elem_groups_by_name in Hg. cbn in Eg. congruence.
Qed.
End Groups.

(** ** Setting a user's limits *)
Section SetLimits.
Context {X : Ext} {S : Type} `{Storage S} (fk : bool).

(** SET-LIMITS on the SQLite accounts: a value that is given replaces the stored one (the
    default when none is stored), the others stay, and the limits are what the server reads
    from then on.  A bandwidth limit that is not a size, such as 10T, is accepted and
    means no limit; a posting permission that is not a truth value changes nothing. *)
Theorem set_limits_effect (now : Z) (salt : N) (user : str) (allow : option str)
    (conns : option N) (bw period : option str) (s : S) (db : AuthDb) (out : list str)
    (existing : option UserLimits) :
  has_user user db = true -> sq_get_user_limits user db = Ok existing ->
  let old := default default_UserLimits existing in
  let c := mkConsole (mkStores s db) out in
  let run := @run_admin X S AuthDb _ (sqlite_auth fk) now salt (SetLimits user allow conns bw period) c in
  match match allow with Some v => parse_bool_arg v | None => Ok (ul_can_post old) end with
  | Err e => run = (Fail e, c)
  | Ok can_post =>
      let l := new_limits old can_post conns bw period in
      exists db' out', run = (Ret tt, mkConsole (mkStores s db') out')
        /\ (limits_ok l -> sq_get_user_limits user db' = Ok (Some l))
        /\ (forall v, v <> user -> sq_get_user_limits v db' = sq_get_user_limits v db)
        /\ (forall v, bw = Some v -> parse_size v = None -> ul_bandwidth_limit l = None)
  end.
Proof.
  intros Hu He old c run. unfold run. cbn [run_admin]. unfold set_limits.
  assert (E0 : on_stores (ask_auth (@get_user_limits _ (sqlite_auth fk) user)) c = (Ret existing, c)).
  { unfold on_stores, ask_auth, mzoom. cbn [con_stores sto_auth c].
    change (@get_user_limits _ (sqlite_auth fk) user db) with (sq_get_user_limits user db). by rewrite He. }
  rewrite (mbind_Ret _ _ _ _ _ E0). fold old.
  destruct (match allow with Some v => parse_bool_arg v | None => _ end) as [can_post|e]; [|reflexivity].
  assert (E1 : forall r, (mlift (Ok can_post) : M (Console S AuthDb) bool) r = (Ret can_post, r)) by done.
  rewrite (mbind_Ret _ _ _ _ _ (E1 c)). clear E1. cbv zeta. set (l := new_limits old can_post conns bw period).
  destruct (sq_set_user_limits fk user l db) as [o db'] eqn:Es.
  assert (o = Ok tt) as ->.
  { unfold sq_set_user_limits in Es. rewrite Hu in Es. rewrite andb_false_r in Es. by injection Es. }
  assert (E2 : on_stores (on_auth (@set_user_limits _ (sqlite_auth fk) user l)) c = (Ret tt, mkConsole (mkStores s db') out)).
  { unfold on_stores, on_auth, mzoom. cbn [con_stores sto_auth sto_storage con_out c].
    change (@set_user_limits _ (sqlite_auth fk) user l db) with (sq_set_user_limits fk user l db). by rewrite Es. }
  rewrite (mbind_Ret _ _ _ _ _ E2). eexists db', _. split; [reflexivity|]. split_and!.
  - intros Hl. by apply (sqlite_auth_limits_roundtrip fk user l db db').
  - intros v Hv. unfold sq_set_user_limits in Es. rewrite Hu, andb_false_r in Es. injection Es as <-.
    unfold sq_get_user_limits. cbn [user_limits]. by rewrite lookup_insert_ne.
  - intros v -> Hv. unfold l, new_limits. cbn [ul_bandwidth_limit]. rewrite Hv. by destruct (_ || _).
Qed.
End SetLimits.

(** ** Concrete runs *)
Definition two_groups : Db :=
  snd ((@ss_add_group_with_description 0 (lit "misc.a") false (lit "About a") ;;;
        @ss_add_group_with_description 0 (lit "misc.b") true [])%m empty_db).

Example export_two :
  row_line <$> groups_by_name two_groups
  = [lit "misc.a" ++ [TAB] ++ lit "About a"; lit "misc.b" ++ [TAB] ++ lit "(Moderated)"].
Proof. vm_compute. reflexivity. Qed.

Example formats :
  format_bytes 1536 = lit "1.50 KB" /\ format_bytes 10737418240 = lit "10.00 GB"
  /\ format_bytes u64_max = lit "17179869184.00 GB" /\ format_duration 2592000 = lit "30 day(s)"
  /\ format_duration 90 = lit "90 second(s)".
Proof. vm_compute. auto. Qed.

Lemma groups_export_import_witness : exists db' out,
  @run_admin Toy.ext Db AuthDb (@sqlite_storage Toy.ext) (@sqlite_auth Toy.ext true) 0 0
    (ImportGroups (Ok <$> lines (lit "misc.a" ++ [TAB] ++ lit "About a" ++ [LF]
                                 ++ lit "misc.b" ++ [TAB] ++ lit "(Moderated)" ++ [LF])))
    (mkConsole (mkStores empty_db empty_auth_db) []) = (Ret tt, mkConsole (mkStores db' empty_auth_db) out)
  /\ db_groups db' !! lit "misc.b" = Some (mkGroupRow 0 1 []).
Proof.
  destruct (@groups_export_import Toy.ext AuthDb (@sqlite_auth Toy.ext true) 0 two_groups empty_auth_db)
    as (printed & db' & out & E1 & E2 & Hg).
  - intros g r Hr. apply elem_of_map_to_list in Hr. revert Hr.
    assert (map_to_list (db_groups two_groups)
      = [(lit "misc.a", mkGroupRow 0 0 (lit "About a")); (lit "misc.b", mkGroupRow 0 1 [])]
      \/ map_to_list (db_groups two_groups)
      = [(lit "misc.b", mkGroupRow 0 1 []); (lit "misc.a", mkGroupRow 0 0 (lit "About a"))]) as [-> | ->]
      by (vm_compute; auto);
      intros [[= -> ->]|[[= -> ->]|Hn]%elem_of_cons]%elem_of_cons; try by apply not_elem_of_nil in Hn;
      vm_compute; auto.
    all: vm_compute; auto.
  - exists db', out. split; [|rewrite Hg; vm_compute; reflexivity].
    assert (printed = con_out (snd (@run_admin Toy.ext Db AuthDb (@sqlite_storage Toy.ext)
      (@sqlite_auth Toy.ext true) 0 0 ExportGroups (mkConsole (mkStores two_groups empty_auth_db) [])))) as Ep
      by (rewrite E1; reflexivity).
    rewrite Ep in E2. exact E2.
Defined.

Definition limited_bob : AuthDb :=
  snd (sq_set_user_limits true (lit "bob") (mkUserLimits true (Some 1) (Some 100) None)
    (snd (@sq_add_user_with_key Toy.ext true 7 (lit "bob") (lit "pw") None empty_auth_db))).

(** A mistyped size takes a user's limit away. *)
Lemma set_limits_effect_witness : exists db' out,
  @run_admin Toy.ext Db AuthDb (@sqlite_storage Toy.ext) (@sqlite_auth Toy.ext true) 0 0
    (SetLimits (lit "bob") (Some (lit "No")) None (Some (lit "10T")) None)
    (mkConsole (mkStores empty_db limited_bob) []) = (Ret tt, mkConsole (mkStores empty_db db') out)
  /\ sq_get_user_limits (lit "bob") db' = Ok (Some (mkUserLimits false (Some 1) None None)).
Proof.
  pose proof (@set_limits_effect Toy.ext Db (@sqlite_storage Toy.ext) true 0 0 (lit "bob") (Some (lit "No"))
                None (Some (lit "10T")) None empty_db limited_bob []
                (Some (mkUserLimits true (Some 1) (Some 100) None)) eq_refl eq_refl) as H.
  cbv zeta in H. destruct H as (db' & out & E & Hl & _).
  exists db', out. split; [exact E|]. apply Hl.
  unfold limits_ok. split_and!; cbn; intros n Hn; [|discriminate Hn..]. injection Hn as <-. reflexivity.
Defined.
