(* ===== verification/Reload.v ===== *)
(** * Reload: peer jobs and the reload of the configuration ([server.rs])

    What changes while the server runs when it is told to read its configuration again:
    the configuration, the table of peers and the jobs in the scheduler.  The scheduler
    is third-party code: a class says which schedules it accepts, and the jobs it holds
    are a map from the identifier each was given.  Listeners, signals and TLS files are
    outside. *)

From stdpp Require Import base numbers list gmap strings.
From Stdlib Require Import NArith ZArith Lia.
From S2P Require Import Prelude Text Externals Message Wildmat Config Storage SqliteStorage Responses Wire Peers.
Local Open Scope N_scope.

(** [Job::new_async]: the error for a schedule that is no cron expression. *)
Class Cron := { cron_new : str -> result unit }.

(** What a job runs with, fixed when it is created. *)
Record PeerJob := mkPeerJob { pj_peer : PeerConfig; pj_schedule : str; pj_site_name : str }.

(** The jobs in the scheduler and the next identifier, the identifier of each peer's job,
    and the table of peers. *)
Record PeerManager := mkPeerManager {
  pm_scheduler : gmap N PeerJob;
  pm_next : N;
  pm_peer_jobs : gmap str N;
  pm_peer_db : gmap str Z;
}.

Section Reload.
Context {C : Cron}.

Definition peer_schedule (peer : PeerConfig) (default_schedule : str) : str :=
  default default_schedule (pr_sync_schedule peer).

Definition add_peer_job (peer : PeerConfig) (default_schedule site_name : str) : M PeerManager N := fun m =>
  let schedule := peer_schedule peer default_schedule in
  match cron_new schedule with
  | Err e => (Fail e, m)
  | Ok tt => (Ret (pm_next m),
              mkPeerManager (<[pm_next m := mkPeerJob peer schedule site_name]> (pm_scheduler m))
                (pm_next m + 1) (pm_peer_jobs m) (pm_peer_db m))
  end.

(** A peer whose job cannot be added is left out, with a line in the log. *)
Definition start_peer (config : Config) (peer : PeerConfig) : M PeerManager unit :=
  (r <-- mcatch (add_peer_job peer (cfg_peer_sync_schedule config) (cfg_site_name config)) ;;;
   match r with
   | Ok job_uuid => mmodify (fun m =>
       mkPeerManager (pm_scheduler m) (pm_next m) (<[pr_sitename peer := job_uuid]> (pm_peer_jobs m))
         (pm_peer_db m))
   | Err _ => mreturn tt
   end)%m.

Definition start_peer_tasks (config : Config) : M PeerManager unit :=
  mfor (cfg_peers config) (start_peer config).

Definition start_missing (config : Config) (peer : PeerConfig) : M PeerManager unit := fun m =>
  match pm_peer_jobs m !! pr_sitename peer with
  | Some _ => (Ret tt, m)
  | None => start_peer config peer m
  end.

Definition remove_task (name : str) : M PeerManager unit := mmodify (fun m =>
  match pm_peer_jobs m !! name with
  | Some job_uuid => mkPeerManager (delete job_uuid (pm_scheduler m)) (pm_next m)
                       (delete name (pm_peer_jobs m)) (pm_peer_db m)
  | None => m
  end).

Definition is_configured (config : Config) (name : str) : bool :=
  existsb (fun p => str_eqb (pr_sitename p) name) (cfg_peers config).

Definition update_tasks (new_cfg : Config) : M PeerManager unit :=
  (mzoom pm_peer_db (fun db m => mkPeerManager (pm_scheduler m) (pm_next m) (pm_peer_jobs m) db)
     (sync_config (pr_sitename <$> cfg_peers new_cfg)) ;;;
   mfor (cfg_peers new_cfg) (start_missing new_cfg) ;;;
   to_remove <-- mgets (fun m => List.filter (fun name => negb (is_configured new_cfg name))
                                   (fst <$> map_to_list (pm_peer_jobs m))) ;;;
   mfor to_remove remove_task)%m.

(** [handle_config_reload_with_managers], for a file that is read and parsed; the file is
    read twice, and is taken to be the same both times. *)
Definition handle_config_reload (new_cfg : Config) : M (Config * PeerManager) unit :=
  (mmodify (fun t => (update_runtime (fst t) new_cfg, snd t)) ;;;
   mzoom snd (fun m t => (fst t, m)) (update_tasks new_cfg))%m.
End Reload.

(** ** The jobs after a reload *)
Definition job_of (m : PeerManager) (name : str) : option PeerJob :=
  pm_peer_jobs m !! name ≫= (fun i => pm_scheduler m !! i).

(** Each peer's identifier stands for a job of that peer, and no other job is scheduled. *)
Record jobs_wf (m : PeerManager) : Prop := {
  wf_known name i : pm_peer_jobs m !! name = Some i ->
    exists j, pm_scheduler m !! i = Some j /\ pr_sitename (pj_peer j) = name;
  wf_owned i j : pm_scheduler m !! i = Some j -> pm_peer_jobs m !! pr_sitename (pj_peer j) = Some i;
  wf_fresh i j : pm_scheduler m !! i = Some j -> i < pm_next m;
}.

Section Jobs.
Context {C : Cron}.

Definition new_job (config : Config) (p : PeerConfig) : option PeerJob :=
  match cron_new (peer_schedule p (cfg_peer_sync_schedule config)) with
  | Ok tt => Some (mkPeerJob p (peer_schedule p (cfg_peer_sync_schedule config)) (cfg_site_name config))
  | Err _ => None
  end.

Lemma job_of_None m name : jobs_wf m -> job_of m name = None <-> pm_peer_jobs m !! name = None.
Proof.
  intros Hwf. unfold job_of. destruct (pm_peer_jobs m !! name) as [i|] eqn:E; [|done].
  destruct (wf_known _ Hwf _ _ E) as (j & Ej & _). simpl. rewrite Ej. done.
Qed.

(** Starting the job of a peer that has none. *)
Lemma start_missing_spec config p m o m' : jobs_wf m -> start_missing config p m = (o, m') ->
  o = Ret tt /\ jobs_wf m' /\ pm_peer_db m' = pm_peer_db m
  /\ forall name, job_of m' name
     = if decide (name = pr_sitename p)
       then match job_of m name with Some j => Some j | None => new_job config p end
       else job_of m name.
Proof.
  intros Hwf. unfold start_missing. destruct (pm_peer_jobs m !! pr_sitename p) as [i|] eqn:Ep.
  { intros E. injection E as <- <-. split_and!; [done..|]. intros name.
    destruct (decide (name = pr_sitename p)) as [->|]; [|done].
    destruct (wf_known _ Hwf _ _ Ep) as (j & Ej & _). unfold job_of. rewrite Ep. simpl. by rewrite Ej. }
  unfold start_peer, mbind', mcatch, add_peer_job, new_job.
  destruct (cron_new _) as [[]|e]; intros E; injection E as <- <-.
  2: { split_and!; [done..|]. intros name. destruct (decide (name = pr_sitename p)) as [->|]; [|done].
       by rewrite (proj2 (job_of_None m _ Hwf) Ep). }
  set (job := mkPeerJob _ _ _).
  assert (Hf : pm_scheduler m !! pm_next m = None).
  { destruct (pm_scheduler m !! pm_next m) as [j|] eqn:Ej; [|done]. apply (wf_fresh _ Hwf) in Ej. lia. }
  assert (Hne : forall name i, pm_peer_jobs m !! name = Some i -> i <> pm_next m).
  { intros name i Hi ->. destruct (wf_known _ Hwf _ _ Hi) as (j & Ej & _). congruence. }
  split; [done|]. split; [|split; [done|]].
  - constructor; cbn [pm_scheduler pm_next pm_peer_jobs].
    + intros name i. destruct (decide (name = pr_sitename p)) as [->|Hn].
      * rewrite lookup_insert_eq. intros [= <-]. exists job. by rewrite lookup_insert_eq.
      * rewrite lookup_insert_ne by done. intros Hi. destruct (wf_known _ Hwf _ _ Hi) as (j & Ej & Hj).
        exists j. rewrite lookup_insert_ne; [done|]. by intros <-; eapply Hne.
    + intros i j. destruct (decide (i = pm_next m)) as [->|Hi].
      * rewrite lookup_insert_eq. intros [= <-]. by rewrite lookup_insert_eq.
      * rewrite lookup_insert_ne by done. intros Hj. pose proof (wf_owned _ Hwf _ _ Hj) as Ho.
        rewrite lookup_insert_ne; [done|]. intros Heq. rewrite Heq in Ep. congruence.
    + intros i j. destruct (decide (i = pm_next m)) as [->|Hi]; [lia|].
      rewrite lookup_insert_ne by done. intros Hj. apply (wf_fresh _ Hwf) in Hj. lia.
  - intros name. unfold job_of. cbn [pm_scheduler pm_peer_jobs].
    destruct (decide (name = pr_sitename p)) as [->|Hn].
    + rewrite lookup_insert_eq, Ep. simpl. by rewrite lookup_insert_eq.
    + rewrite lookup_insert_ne by done. destruct (pm_peer_jobs m !! name) as [i|] eqn:Ei; [|done].
      simpl. rewrite lookup_insert_ne; [done|]. by intros <-; eapply Hne.
Qed.

Lemma start_all_spec config ps m o m' : jobs_wf m -> NoDup (pr_sitename <$> ps) ->
  mfor ps (start_missing config) m = (o, m') ->
  o = Ret tt /\ jobs_wf m' /\ pm_peer_db m' = pm_peer_db m
  /\ (forall p, p ∈ ps -> job_of m' (pr_sitename p)
        = match job_of m (pr_sitename p) with Some j => Some j | None => new_job config p end)
  /\ (forall name, name ∉ pr_sitename <$> ps -> job_of m' name = job_of m name).
Proof.
  revert m. induction ps as [|p ps IH]; intros m Hwf Hnd E; cbn [mfor] in E.
  - injection E as <- <-. split_and!; [done..| |done]. intros p Hp. by apply not_elem_of_nil in Hp.
  - rewrite fmap_cons in Hnd. apply NoDup_cons in Hnd as [Hp Hnd]. unfold mbind' in E.
    destruct (start_missing config p m) as [o1 m1] eqn:E1.
    destruct (start_missing_spec config p m o1 m1 Hwf E1) as (-> & Hwf1 & Hdb1 & H1).
    destruct (IH m1 Hwf1 Hnd E) as (-> & Hwf' & Hdb & Hin & Hout).
    split_and!; [done|done|congruence| |].
    + intros q [->|Hq]%elem_of_cons.
      * rewrite Hout by done. by rewrite H1, decide_True.
      * rewrite Hin by done. rewrite H1, decide_False; [done|]. intros Heq. apply Hp. rewrite <- Heq.
        by apply list_elem_of_fmap_2.
    + intros name Hn. rewrite fmap_cons, not_elem_of_cons in Hn. destruct Hn as [Hne Hn].
      rewrite Hout by done. by rewrite H1, decide_False.
Qed.

Lemma remove_all_spec names m : jobs_wf m ->
  exists m', mfor names remove_task m = (Ret tt, m') /\ jobs_wf m' /\ pm_peer_db m' = pm_peer_db m
  /\ forall name, job_of m' name = if decide (name ∈ names) then None else job_of m name.
Proof.
  revert m. induction names as [|n names IH]; intros m Hwf; cbn [mfor].
  - exists m. split_and!; [done..|]. intros name. rewrite decide_False; [done|]. apply not_elem_of_nil.
  - unfold mbind', remove_task at 1, mmodify.
    destruct (pm_peer_jobs m !! n) as [i|] eqn:En.
    + set (m1 := mkPeerManager _ _ _ _).
      destruct (wf_known _ Hwf _ _ En) as (jn & Ejn & Hjn).
      assert (Hother : forall name k, name <> n -> pm_peer_jobs m !! name = Some k -> k <> i).
      { intros name k Hne Hk ->. destruct (wf_known _ Hwf _ _ Hk) as (j & Ej & Hj). congruence. }
      assert (Hwf1 : jobs_wf m1).
      { constructor; cbn [pm_scheduler pm_next pm_peer_jobs m1].
        - intros name k [Hne Hk]%lookup_delete_Some. destruct (wf_known _ Hwf _ _ Hk) as (j & Ej & Hj).
          exists j. rewrite lookup_delete_ne; [done|]. apply not_eq_sym. by apply (Hother name).
        - intros k j [Hne Hk]%lookup_delete_Some. pose proof (wf_owned _ Hwf _ _ Hk) as Ho.
          rewrite lookup_delete_ne; [done|]. intros Heq. rewrite <- Heq in Ho. congruence.
        - intros k j [Hne Hk]%lookup_delete_Some. by eapply (wf_fresh _ Hwf). }
      destruct (IH m1 Hwf1) as (m' & E & Hwf' & Hdb & Hj). exists m'. split_and!; [done..|].
      intros name. rewrite Hj.
      assert (H1 : job_of m1 name = if decide (name = n) then None else job_of m name).
      { unfold job_of. cbn [pm_scheduler pm_peer_jobs m1]. destruct (decide (name = n)) as [->|Hne].
        - by rewrite lookup_delete_eq.
        - rewrite lookup_delete_ne by done. destruct (pm_peer_jobs m !! name) as [k|] eqn:Ek; [|done].
          simpl. rewrite lookup_delete_ne; [done|]. apply not_eq_sym. by apply (Hother name). }
      rewrite H1. repeat (destruct (decide _)); set_solver.
    + destruct (IH m Hwf) as (m' & E & Hwf' & Hdb & Hj). exists m'. split_and!; [done..|].
      intros name. rewrite Hj. repeat (destruct (decide _)); try set_solver.
      assert (name = n) as -> by set_solver. by apply job_of_None.
Qed.

Lemma job_names m : jobs_wf m -> forall name,
  name ∈ fst <$> map_to_list (pm_peer_jobs m) <-> job_of m name <> None.
Proof.
  intros Hwf name. rewrite (job_of_None m name Hwf), list_elem_of_fmap. split.
  - intros ([n i] & -> & Hn). apply elem_of_map_to_list in Hn. simpl. congruence.
  - intros Hn. destruct (pm_peer_jobs m !! name) as [i|] eqn:E; [|done].
    exists (name, i). split; [done|]. by apply elem_of_map_to_list.
Qed.

Lemma is_configured_names config name :
  is_configured config name = bool_decide (name ∈ pr_sitename <$> cfg_peers config).
Proof.
  apply eq_bool_prop_intro. unfold is_configured.
  rewrite bool_decide_spec, Is_true_true, existsb_exists, list_elem_of_fmap. split.
  - intros (p & Hp & <-%str_eqb_eq). exists p. split; [done|]. by apply elem_of_list_In.
  - intros (p & -> & Hp). exists p. split; [by apply elem_of_list_In|apply str_eqb_refl].
Qed.

(** C30: a reload with peers of distinct names: afterwards exactly the configured peers whose
    schedule the scheduler accepts, or that had a job before, have a job, and there is no
    other job.  A peer that was already known keeps the job it had, with its old patterns,
    schedule and site name; only the configuration and the table of peers follow the file. *)
Theorem reload_jobs (new_cfg cfg cfg' : Config) (m m' : PeerManager) (o : outcome unit) :
  jobs_wf m -> NoDup (pr_sitename <$> cfg_peers new_cfg) ->
  handle_config_reload new_cfg (cfg, m) = (o, (cfg', m')) ->
  o = Ret tt /\ cfg' = update_runtime cfg new_cfg /\ jobs_wf m'
  /\ (forall p, p ∈ cfg_peers new_cfg -> job_of m' (pr_sitename p)
        = match job_of m (pr_sitename p) with Some j => Some j | None => new_job new_cfg p end)
  /\ (forall name, name ∉ pr_sitename <$> cfg_peers new_cfg ->
        job_of m' name = None /\ pm_peer_db m' !! name = None)
  /\ (forall p, p ∈ cfg_peers new_cfg ->
        pm_peer_db m' !! pr_sitename p = Some (default 0%Z (pm_peer_db m !! pr_sitename p))).
Proof.
  intros Hwf Hnd E. unfold handle_config_reload, mbind' at 1, mmodify at 1, mzoom at 1 in E. cbn [fst snd] in E.
  destruct (update_tasks new_cfg m) as [ou mu] eqn:Eu. injection E as <- <- <-.
  set (names := pr_sitename <$> cfg_peers new_cfg) in *. unfold update_tasks in Eu. fold names in Eu.
  destruct (sync_config names (pm_peer_db m)) as [os db1] eqn:Es.
  destruct (sync_config_effect names (pm_peer_db m) os db1 Es) as [(_ & -> & Hdb)|(Hdup & _)].
  2: { exfalso. apply Hdup. by apply new_names_nodup. }
  set (m1 := mkPeerManager (pm_scheduler m) (pm_next m) (pm_peer_jobs m) db1).
  assert (E1 : mzoom pm_peer_db (fun db m => mkPeerManager (pm_scheduler m) (pm_next m) (pm_peer_jobs m) db)
    (sync_config names) m = (Ret tt, m1)) by (unfold mzoom; by rewrite Es).
  rewrite (mbind_Ret _ _ _ _ _ E1) in Eu.
  assert (Hwf1 : jobs_wf m1) by (destruct Hwf; by constructor).
  destruct (mfor (cfg_peers new_cfg) (start_missing new_cfg) m1) as [o2 m2] eqn:E2.
  destruct (start_all_spec new_cfg (cfg_peers new_cfg) m1 o2 m2 Hwf1 Hnd E2) as (-> & Hwf2 & Hdb2 & Hin & Hout).
  rewrite (mbind_Ret _ _ _ _ _ E2) in Eu.
  set (gone := fun m => List.filter (fun name => negb (is_configured new_cfg name))
                          (fst <$> map_to_list (pm_peer_jobs m))) in Eu.
  rewrite (mbind_Ret (mgets gone) _ m2 (gone m2) m2 eq_refl) in Eu.
  destruct (remove_all_spec (gone m2) m2 Hwf2) as (m3 & E3 & Hwf3 & Hdb3 & Hj). rewrite E3 in Eu.
  injection Eu as <- <-.
  assert (Hgone : forall name, name ∈ gone m2 <-> job_of m2 name <> None /\ name ∉ names).
  { intros name. unfold gone. rewrite elem_of_list_In, List.filter_In, <- elem_of_list_In.
    rewrite (job_names m2 Hwf2), is_configured_names, negb_true_iff, bool_decide_eq_false. done. }
  assert (Hpn : forall p, p ∈ cfg_peers new_cfg -> pr_sitename p ∈ names).
  { intros p Hp. by apply list_elem_of_fmap_2. }
  split_and!; [done..| | |].
  - intros p Hp. rewrite Hj, decide_False; [by rewrite Hin|]. rewrite Hgone. naive_solver.
  - intros name Hn. rewrite Hdb3, Hdb2. cbn [pm_peer_db m1]. rewrite Hdb, decide_False by done. split; [|done].
    rewrite Hj. destruct (decide (name ∈ gone m2)) as [|Hg]; [done|]. rewrite Hgone in Hg.
    destruct (job_of m2 name); [|done]. exfalso. by apply Hg.
  - intros p Hp. rewrite Hdb3, Hdb2. cbn [pm_peer_db m1]. by rewrite Hdb, decide_True by auto.
Qed.
End Jobs.

(** ** A concrete reload: one peer with new patterns, one that is gone, one that is new *)
Definition any_schedule : Cron := {| cron_new := fun s => if str_eqb s [] then Err (lit "schedule") else Ok tt |}.
Definition with_peers (peers : list PeerRule) : Config :=
  mkConfig (lit ":119") (lit "here") [] [] [] (lit "0 0 * * * *") 600 peers None None None None 1 1 1
    [] [] [] false false default_UserLimitsConfig.
Definition peer_rule (name pattern : string) : PeerRule := mkPeerRule (lit name) [lit pattern] None.
Definition started : PeerManager :=
  snd (@start_peer_tasks any_schedule (with_peers [peer_rule "a" "*"; peer_rule "b" "*"])
         (mkPeerManager ∅ 0 ∅ {[lit "a" := 5%Z; lit "b" := 6%Z]})).
Definition reread : Config := with_peers [peer_rule "a" "misc.*"; peer_rule "c" "*"].

Lemma started_wf : jobs_wf started.
Proof.
  assert (Hs : map_to_list (pm_scheduler started)
    = [(0, mkPeerJob (peer_rule "a" "*") (lit "0 0 * * * *") (lit "here"));
       (1, mkPeerJob (peer_rule "b" "*") (lit "0 0 * * * *") (lit "here"))]
    \/ map_to_list (pm_scheduler started)
    = [(1, mkPeerJob (peer_rule "b" "*") (lit "0 0 * * * *") (lit "here"));
       (0, mkPeerJob (peer_rule "a" "*") (lit "0 0 * * * *") (lit "here"))]) by (vm_compute; auto).
  assert (Hp : map_to_list (pm_peer_jobs started) = [(lit "a", 0); (lit "b", 1)]
    \/ map_to_list (pm_peer_jobs started) = [(lit "b", 1); (lit "a", 0)]) by (vm_compute; auto).
  constructor.
  - intros name i Hi%elem_of_map_to_list.
    destruct Hp as [Hp|Hp]; rewrite Hp in Hi; rewrite !elem_of_cons in Hi;
      destruct Hi as [[= -> ->]|[[= -> ->]|Hi%not_elem_of_nil]]; try done; vm_compute; eauto.
  - intros i j Hj%elem_of_map_to_list.
    destruct Hs as [Hs|Hs]; rewrite Hs in Hj; rewrite !elem_of_cons in Hj;
      destruct Hj as [[= -> ->]|[[= -> ->]|Hj%not_elem_of_nil]]; try done; vm_compute; reflexivity.
  - intros i j Hj%elem_of_map_to_list.
    destruct Hs as [Hs|Hs]; rewrite Hs in Hj; rewrite !elem_of_cons in Hj;
      destruct Hj as [[= -> ->]|[[= -> ->]|Hj%not_elem_of_nil]]; try done; vm_compute; reflexivity.
Qed.

Lemma reload_jobs_witness : exists m',
  @handle_config_reload any_schedule reread (with_peers [], started) = (Ret tt, (update_runtime (with_peers []) reread, m'))
  /\ job_of m' (lit "a") = Some (mkPeerJob (peer_rule "a" "*") (lit "0 0 * * * *") (lit "here"))
  /\ job_of m' (lit "b") = None
  /\ job_of m' (lit "c") = Some (mkPeerJob (peer_rule "c" "*") (lit "0 0 * * * *") (lit "here")).
Proof.
  destruct (@handle_config_reload any_schedule reread (with_peers [], started)) as [o [cfg' m']] eqn:E.
  destruct (@reload_jobs any_schedule reread (with_peers []) cfg' started m' o started_wf) as
    (-> & -> & _ & Hin & Hout & _); [|exact E|].
  - assert (Hd : bool_decide (NoDup [lit "a"; lit "c"]) = true) by (vm_compute; reflexivity).
    by apply bool_decide_eq_true in Hd.
  - exists m'. split; [reflexivity|].
    pose proof (Hin (peer_rule "a" "misc.*") (list_elem_of_here _ _)) as Ha.
    pose proof (Hin (peer_rule "c" "*") (list_elem_of_further _ _ _ (list_elem_of_here _ _))) as Hc.
    destruct (Hout (lit "b")) as [Hb _].
    { assert (Hd : bool_decide (lit "b" ∈ [lit "a"; lit "c"]) = false) by (vm_compute; reflexivity).
      by apply bool_decide_eq_false in Hd. }
    split; [etrans; [exact Ha|vm_compute; reflexivity]|].
    split; [exact Hb|etrans; [exact Hc|vm_compute; reflexivity]].
Defined.
