(* ===== verification/System.v ===== *)
(** * System: the whole server, its connections and its tasks together
    ([server.rs], [lib.rs], [queue.rs])

    The listeners of [Server::run] give every accepted connection a task of its own; these
    tasks, the workers, the hourly clean-up, the persistence of usage and the reload all
    work on the same stores, queue, usage tracker and configuration.  A step of the system is
    a turn of one of them, in any order: a connection that opens, one command of one
    connection, a worker that takes or finishes an article, a pass of a task, a reload.
    A command runs without a break here, and so does the leave-taking of a connection with the
    three critical sections of [disconnect].  What happens between two [await]s of the same
    command is the matter of [Interleave.v], of [Tracker.v] (the race in [disconnect]) and of
    [SqliteStorage.v] (two stores at once). *)

From stdpp Require Import base numbers list gmap strings relations.
From Stdlib Require Import NArith ZArith Lia.
From S2P Require Import Prelude Text Externals Message Wildmat Config Settings Limits Auth SqliteAuth Tracker Storage SqliteStorage Responses Session Wire Control Milter Filters Retention Queue Workers Context ArticleHandlers GroupHandlers PostHandlers Server Served Replies Lifecycle.
Local Open Scope N_scope.

(** A connection's task.  A task that hangs waits for ever within a command; it is still
    there, but has no more turns. *)
Record Client := mkClient {
  cl_conn : Conn;
  cl_session : Session;
  cl_hangs : bool;
}.

(** The connections by a number of their own, and what they share. *)
Record System (S A : Type) := mkSystem {
  sy_clients : gmap nat Client;
  sy_pool : Pool S A;
  sy_tracker : UsageTracker;
  sy_config : Config;
}.
Arguments mkSystem {S A}.
Arguments sy_clients {S A}.
Arguments sy_pool {S A}.
Arguments sy_tracker {S A}.
Arguments sy_config {S A}.

Inductive Event : Type :=
| Opens (i : nat) (conn : Conn) (tls : bool)
| Turns (i : nat) (clock : nat -> Z)
| WorkerTakes (worker : nat)
| WorkerFinishes (worker : nat) (now : Z)
| Cleans (min_instant now : Z)
| Persists (now : Z)
| Reloads (new_cfg : Config).

Section System.
Context {X : Ext} {Net : MilterNet} {S A : Type} `{Storage S} `{AuthProvider A}.
Implicit Types s : System S A.

Definition sy_queue s : ArticleQueue := po_queue (sy_pool s).
Definition sy_stores s : Stores S A := po_stores (sy_pool s).

Definition with_pool (p : Pool S A) s : System S A := mkSystem (sy_clients s) p (sy_tracker s) (sy_config s).
Definition with_stores (t : Stores S A) s : System S A :=
  with_pool (mkPool (sy_queue s) (po_workers (sy_pool s)) t) s.

(** [initialize_components] and [WorkerPool::start]: nobody is connected. *)
Definition start_system (t : Stores S A) (c : Config) (capacity workers : nat) : System S A :=
  mkSystem ∅ (start capacity workers t) (new_tracker (cfg_user_limits c)) c.

(** What a command of a connection works on. *)
Definition client_ctx (clock : nat -> Z) (cl : Client) s : Ctx S A :=
  mkCtx (cl_conn cl) (cl_session cl) (sy_stores s) (sy_tracker s) (sy_config s) (sy_queue s) clock 0.

(** What it leaves in the shared state; the connection stays, or is gone. *)
Definition shared (c : Ctx S A) s : System S A :=
  mkSystem (sy_clients s) (mkPool (cx_queue c) (po_workers (sy_pool s)) (cx_stores c)) (cx_tracker c) (sy_config s).
Definition stays (i : nat) (hangs : bool) (c : Ctx S A) s : System S A :=
  mkSystem (<[i := mkClient (cx_conn c) (cx_session c) hangs]> (sy_clients s))
    (sy_pool (shared c s)) (cx_tracker c) (sy_config s).
Definition leaves (i : nat) (c : Ctx S A) s : System S A :=
  mkSystem (delete i (sy_clients s)) (sy_pool (shared c s)) (cx_tracker c) (sy_config s).

(** [handle_connection] spawns [handle_client]: the greeting. *)
Definition client_opens (i : nat) (conn : Conn) (tls : bool) s : option (System S A) :=
  match sy_clients s !! i with
  | Some _ => None
  | None =>
      let c := new_client conn tls (sy_stores s) (sy_tracker s) (sy_config s) (sy_queue s) (fun _ => 0%Z) in
      match greeting c with
      | (Ret tt, c) => Some (stays i false c s)
      | (_, c) => Some (leaves i c s)
      end
  end.

(** A turn of the loop of [handle_client].  When the loop is left the connection is given
    back; an error returns at once, without that; a panic ends the task. *)
Definition client_turns (i : nat) (clock : nat -> Z) s : option (System S A) :=
  match sy_clients s !! i with
  | Some cl =>
      if cl_hangs cl then None
      else match client_turn (client_ctx clock cl s) with
           | (Ret true, c) => Some (stays i false c s)
           | (Ret false, c) => Some (leaves i (snd (client_done c)) s)
           | (Stuck, c) => Some (stays i true c s)
           | (_, c) => Some (leaves i c s)
           end
  | None => None
  end.

Definition sys_step (e : Event) s : option (System S A) :=
  match e with
  | Opens i conn tls => client_opens i conn tls s
  | Turns i clock => client_turns i clock s
  | WorkerTakes w => (fun p => with_pool p s) <$> pool_turn (Takes w) (sy_pool s)
  | WorkerFinishes w now => (fun p => with_pool p s) <$> pool_turn (Finishes w now (sy_config s)) (sy_pool s)
  | Cleans min_instant now =>
      let '(_, st) := retention_turn min_instant (sy_config s) now (sto_storage (sy_stores s)) in
      Some (with_stores (mkStores st (sto_auth (sy_stores s))) s)
  | Persists now =>
      Some (with_stores (mkStores (sto_storage (sy_stores s))
                           (persistence_turn now (sto_auth (sy_stores s)) (sy_tracker s))) s)
  | Reloads new_cfg =>
      Some (mkSystem (sy_clients s) (sy_pool s) (sy_tracker s) (update_runtime (sy_config s) new_cfg))
  end.

Fixpoint sys_run (es : list Event) s : option (System S A) :=
  match es with
  | [] => Some s
  | e :: es => match sys_step e s with Some s => sys_run es s | None => None end
  end.

Lemma submit_all_capacity l q : q_capacity (submit_all l q) = q_capacity q.
Proof.
  revert q. induction l as [|a l IH]; intros q; simpl; [done|]. rewrite IH. unfold submit. by destruct (_ <? _)%nat.
Qed.
Lemma receive_capacity q o q' : receive q = (o, q') -> q_capacity q' = q_capacity q.
Proof.
  unfold receive. destruct (q_items q) as [|a l], (q_waiting q) as [|w ws]; by intros [= _ <-].
Qed.

Lemma sys_run_snoc es e s : sys_run (es ++ [e]) s = sys_run es s ≫= sys_step e.
Proof.
  revert s. induction es as [|f es IH]; intros s; simpl.
  - by destruct (sys_step e s).
  - by destruct (sys_step f s).
Qed.
End System.

(** ** What holds of every reachable state *)
Section Reachable.
Context {X : Ext} {Net : MilterNet} {S A : Type} `{Storage S} `{!StorageLaws S} `{AuthProvider A}.
Implicit Types s : System S A.

(** What the server itself writes to the accounts: keys it looked up, and usage. *)
Definition account_update (a a' : A) : Prop :=
  key_update a a' \/ exists now u x, a' = snd (set_user_usage now u x a).

(** The configuration after the reloads among some events. *)
Definition config_after (c : Config) (es : list Event) : Config :=
  foldl (fun c e => match e with Reloads new_cfg => update_runtime c new_cfg | _ => c end) c es.

(** A session of a server that was started with the accounts [a0] and the configuration
    [c0]: its policy is that of the configuration at some time, and it is authenticated only
    where that allows it, on the word of the back end as it was at some time. *)
Record session_ok (a0 : A) (c0 : Config) (es : list Event) (x : Session) : Prop := {
  sk_policy : exists es1 es2, es = es1 ++ es2
    /\ allow_auth_insecure x = cfg_allow_auth_insecure_connections (config_after c0 es1)
    /\ allow_anonymous_posting x = cfg_allow_anonymous_posting (config_after c0 es1);
  sk_authenticated : is_authenticated x = true -> can_authenticate x = true
    /\ exists u p a, rtc account_update a0 a /\ verify_user u p a = Ok true;
  sk_admin : s_is_admin x = true -> exists u a, rtc account_update a0 a /\ is_admin u a = Ok true;
}.

(** The mark a submission carries, which every place that submits sets; what it stands for is in
    [Company.v] and [Interleave.v]. *)
Definition marked_validated (a : QueuedArticle) : Prop := qa_already_validated a = true.
Definition in_work (ws : list Worker) (a : QueuedArticle) : Prop := exists w : nat, ws !! w = Some (Busy a).

Record sys_ok (a0 : A) (c0 : Config) (size : nat * nat) (es : list Event) s : Prop := {
  so_storage : st_wf (sto_storage (sy_stores s));
  so_accounts : rtc account_update a0 (sto_auth (sy_stores s));
  so_config : sy_config s = config_after c0 es;
  so_channel : channel_ok (sy_queue s);
  so_capacity : q_capacity (sy_queue s) = fst size;
  so_queued : forall a, In a (queued (sy_queue s)) \/ in_work (po_workers (sy_pool s)) a -> marked_validated a;
  so_workers : length (po_workers (sy_pool s)) = snd size;
  so_sessions : forall i cl, sy_clients s !! i = Some cl -> session_ok a0 c0 es (cl_session cl);
}.

Lemma key_updates_account a a' : rtc key_update a a' -> rtc account_update a a'.
Proof. apply rtc_subrel. by left. Qed.

Lemma persist_accounts now a t : rtc account_update a (persist now a t).
Proof.
  unfold persist. revert a. induction (map_to_list (bandwidth t)) as [|[u x] l IH]; intros a; [constructor|].
  simpl. eapply rtc_l; [|apply IH]. right. by eexists _, _, _.
Qed.

Lemma config_after_snoc c es e : config_after c (es ++ [e])
  = match e with Reloads n => update_runtime (config_after c es) n | _ => config_after c es end.
Proof. unfold config_after. by rewrite foldl_snoc. Qed.

Lemma session_ok_later a0 c0 es e x : session_ok a0 c0 es x -> session_ok a0 c0 (es ++ [e]) x.
Proof.
  intros [(es1 & es2 & -> & Hp) Ha Hd]. split; [|done|done].
  exists es1, (es2 ++ [e]). by rewrite <- app_assoc.
Qed.

(** What a command does to the session of its connection. *)
Lemma session_ok_served a0 c0 es a x x' : rtc account_update a0 a -> session_served a x x' ->
  session_ok a0 c0 es x -> session_ok a0 c0 es x'.
Proof.
  intros Ha [Ht Hi Hp Hau Had] [(es1 & es2 & -> & H1 & H2) Hk Hd]. split.
  - exists es1, es2. split_and!; [done|congruence..].
  - intros Hx. assert (Hcan : can_authenticate x' = can_authenticate x) by (unfold can_authenticate; congruence).
    rewrite Hcan. destruct (Hau Hx) as [Hy|(Hc & u & p & b & Hb & Hv)]; [by apply Hk|].
    split; [done|]. exists u, p, b. split; [|done]. etrans; [exact Ha|]. by apply key_updates_account.
  - intros Hx. destruct (Had Hx) as [Hy|(u & b & Hb & Hv)]; [by apply Hd|].
    exists u, b. split; [|done]. etrans; [exact Ha|]. by apply key_updates_account.
Qed.

(** Whoever has the turn, what it shares with the others is as it should be. *)
Lemma shared_ok a0 c0 size es e s clock cl c : sys_ok a0 c0 size es s ->
  (forall n, e <> Reloads n) -> served (client_ctx clock cl s) c ->
  sys_ok a0 c0 size (es ++ [e]) (shared c s).
Proof.
  intros [H1 H2 H3 H4 H8 H5 H6 H7] He [_ _ _ _ [T1 T2] Q _ _]. simpl in *.
  assert (Hq : queue_served (sy_queue s) (cx_queue c)) by exact Q. split; simpl.
  - by apply T1.
  - etrans; [exact H2|]. by apply key_updates_account.
  - rewrite config_after_snoc. destruct e; try exact H3. by destruct (He new_cfg).
  - unfold sy_queue. simpl. destruct Hq as (l & _ & ->). by apply submit_all_line.
  - unfold sy_queue. simpl. destruct Hq as (l & _ & ->). by rewrite submit_all_capacity.
  - intros a [Ha|Ha]; [|apply H5; by right]. apply (queue_served_in _ _ _ Hq) in Ha as [Ha|Ha]; [|done].
    apply H5. by left.
  - done.
  - intros i cl' Hi. apply session_ok_later. by eapply H7.
Qed.

Lemma stays_ok a0 c0 size es e s clock cl c i b : sys_ok a0 c0 size es s ->
  (forall n, e <> Reloads n) -> served (client_ctx clock cl s) c ->
  session_ok a0 c0 es (cl_session cl) -> sys_ok a0 c0 size (es ++ [e]) (stays i b c s).
Proof.
  intros Hs He Hc Hcl. destruct (shared_ok _ _ _ _ e _ _ _ _ Hs He Hc) as [H1 H2 H3 H4 H8 H5 H6 H7].
  split; try done. intros j cl'. simpl. intros [[<- <-]|[_ Hj]]%lookup_insert_Some; [|by eapply H7].
  apply session_ok_later. eapply session_ok_served; [apply Hs|apply Hc|exact Hcl].
Qed.

Lemma leaves_ok a0 c0 size es e s clock cl c i : sys_ok a0 c0 size es s ->
  (forall n, e <> Reloads n) -> served (client_ctx clock cl s) c ->
  sys_ok a0 c0 size (es ++ [e]) (leaves i c s).
Proof.
  intros Hs He Hc. destruct (shared_ok _ _ _ _ e _ _ _ _ Hs He Hc) as [H1 H2 H3 H4 H8 H5 H6 H7].
  split; try done. intros j cl'. simpl. intros [_ Hj]%lookup_delete_Some. by eapply H7.
Qed.

(** What processing an article does to the stores. *)
Lemma process_served now c a : moves stores_served (process_article (S:=S) (A:=A) now c a).
Proof.
  unfold process_article. apply moves_bind; [apply _| |].
  { destruct (qa_is_control a); [apply handle_control_served|apply moves_ret, _]. }
  intros [|]; [apply moves_ret, _|]. apply moves_bind; [apply _| |intros _].
  { destruct (qa_already_validated a); [apply moves_ret, _|]. apply only_keys_served, chain_moves. }
  unfold store_new. apply moves_bind; [apply _| |].
  { destruct (str_eqb _ _); [apply moves_ret, _|]. apply only_keys_served, ask_storage_moves. }
  intros [|]; [apply moves_ret, _|]. apply on_storage_served, store_keeps_wf.
Qed.

Lemma opens_ok a0 c0 size es s i conn tls s' : sys_ok a0 c0 size es s ->
  client_opens i conn tls s = Some s' -> sys_ok a0 c0 size (es ++ [Opens i conn tls]) s'.
Proof.
  intros Hs. unfold client_opens. destruct (sy_clients s !! i); [done|].
  set (c := new_client conn tls _ _ _ _ _).
  assert (Hg : moves served (greeting (S:=S) (A:=A))).
  { unfold greeting. apply steady_moves. steady. }
  destruct (greeting c) as [o c'] eqn:E. apply Hg in E.
  pose (cl := mkClient conn (cx_session c) false).
  assert (Hc : served (client_ctx (fun _ => 0%Z) cl s) c') by exact E.
  assert (Hcl : session_ok a0 c0 es (cl_session cl)).
  { split; simpl; try done. exists es, []. by rewrite app_nil_r, (so_config _ _ _ _ _ Hs). }
  destruct o as [[]|e| |]; intros [= <-]; [by eapply stays_ok|by eapply leaves_ok..].
Qed.

Lemma turns_ok a0 c0 size es s i clock s' : sys_ok a0 c0 size es s ->
  client_turns i clock s = Some s' -> sys_ok a0 c0 size (es ++ [Turns i clock]) s'.
Proof.
  intros Hs. unfold client_turns. destruct (sy_clients s !! i) as [cl|] eqn:Ei; [|done].
  pose proof (so_sessions _ _ _ _ _ Hs _ _ Ei) as Hcl. destruct (cl_hangs cl); [done|].
  destruct (client_turn (client_ctx clock cl s)) as [o c] eqn:E. apply client_turn_served in E.
  destruct o as [[|]|e| |]; intros [= <-]; [by eapply stays_ok| |by eapply leaves_ok..|by eapply stays_ok].
  eapply leaves_ok; [done|done|]. etrans; [exact E|].
  destruct (client_done c) as [od c1] eqn:Ed. by apply client_done_served in Ed.
Qed.

(** A turn of a worker or of a task: the pool as it should be, nobody else concerned. *)
Lemma pool_ok a0 c0 size es e s p : sys_ok a0 c0 size es s -> (forall n, e <> Reloads n) ->
  st_wf (sto_storage (po_stores p)) -> rtc account_update (sto_auth (sy_stores s)) (sto_auth (po_stores p)) ->
  channel_ok (po_queue p) -> q_capacity (po_queue p) = q_capacity (sy_queue s) ->
  length (po_workers p) = length (po_workers (sy_pool s)) ->
  (forall a, In a (queued (po_queue p)) \/ in_work (po_workers p) a ->
     In a (queued (sy_queue s)) \/ in_work (po_workers (sy_pool s)) a) ->
  sys_ok a0 c0 size (es ++ [e]) (with_pool p s).
Proof.
  intros [H1 H2 H3 H4 H8 H5 H6 H7] He Hw Ha Hc Hk Hl Hin. split; simpl; try done.
  - by etrans.
  - rewrite config_after_snoc. destruct e; try exact H3. by destruct (He new_cfg).
  - unfold sy_queue at 1. simpl. congruence.
  - intros a Hx. by apply H5, Hin.
  - congruence.
  - intros i cl Hi. apply session_ok_later. by eapply H7.
Qed.

Lemma takes_ok a0 c0 size es s w p : sys_ok a0 c0 size es s ->
  pool_turn (Takes w) (sy_pool s) = Some p -> sys_ok a0 c0 size (es ++ [WorkerTakes w]) (with_pool p s).
Proof.
  intros Hs. simpl. destruct (po_workers (sy_pool s) !! w) as [[|b0]|] eqn:Ew; try done.
  destruct (receive (po_queue (sy_pool s))) as [[b|] q] eqn:Er; [|done]. intros [= <-].
  destruct (receive_line _ _ _ (so_channel _ _ _ _ _ Hs) Er) as [Hc Hl].
  change (queued (sy_queue s) = b :: queued q) in Hl.
  apply pool_ok; simpl; try done; [apply Hs|exact (receive_capacity _ _ _ Er)|by rewrite length_insert|].
  assert (Hb : In b (queued (sy_queue s))) by (rewrite Hl; by left).
  intros a [Ha|[v Hv]]; [left; rewrite Hl; by right|].
  apply list_lookup_insert_Some in Hv as [(_ & [= ->] & _)|[_ Hv]]; [by left|right; by exists v].
Qed.

Lemma finishes_ok a0 c0 size es s w now p : sys_ok a0 c0 size es s ->
  pool_turn (Finishes w now (sy_config s)) (sy_pool s) = Some p ->
  sys_ok a0 c0 size (es ++ [WorkerFinishes w now]) (with_pool p s).
Proof.
  intros Hs. simpl. destruct (po_workers (sy_pool s) !! w) as [[|b]|] eqn:Ew; try done.
  destruct (mcatch _ _) as [o t] eqn:E.
  assert (Ht : stores_served (sy_stores s) t).
  { eapply (moves_catch stores_served); [apply process_served|exact E]. }
  destruct o; try done. intros [= <-]. destruct Ht as [Hw Hk].
  apply pool_ok; simpl; try done; [apply Hw, Hs|by apply key_updates_account|apply Hs
    |by rewrite length_insert|].
  intros a' [Ha|[v Hv]]; [by left|]. right.
  apply list_lookup_insert_Some in Hv as [(_ & [=] & _)|[_ Hv]]. by exists v.
Qed.

Lemma task_ok a0 c0 size es e s t : sys_ok a0 c0 size es s -> (forall n, e <> Reloads n) ->
  st_wf (sto_storage t) -> rtc account_update (sto_auth (sy_stores s)) (sto_auth t) ->
  sys_ok a0 c0 size (es ++ [e]) (with_stores t s).
Proof. intros Hs He Hw Ha. apply pool_ok; try done. apply Hs. Qed.

Lemma retention_keeps_wf min_instant c now : keeps st_wf (retention_turn (S:=S) min_instant c now).
Proof.
  unfold retention_turn. apply keeps_bind; [apply keeps_catch|intros _; apply keeps_ret].
  apply cleanup_keeps; [apply purge_keeps_wf|apply delete_keeps_wf|apply orphan_keeps_wf].
Qed.

(** Every step keeps the state as it should be. *)
Lemma sys_step_ok a0 c0 size es e s s' : sys_ok a0 c0 size es s ->
  sys_step e s = Some s' -> sys_ok a0 c0 size (es ++ [e]) s'.
Proof.
  intros Hs. destruct e as [i conn tls|i clock|w|w now|min_instant now|now|n]; cbn [sys_step].
  - by apply opens_ok.
  - by apply turns_ok.
  - intros (p & Ep & ->)%fmap_Some. by apply takes_ok.
  - intros (p & Ep & ->)%fmap_Some. by apply finishes_ok.
  - destruct (retention_turn _ _ _ _) as [o st] eqn:E. intros [= <-].
    apply task_ok; [done|done| |constructor].
    eapply retention_keeps_wf; [apply Hs|exact E].
  - intros [= <-]. apply task_ok; [done|done|apply Hs|]. apply persist_accounts.
  - intros [= <-]. destruct Hs as [H1 H2 H3 H4 H8 H5 H6 H7]. split; try done.
    + rewrite config_after_snoc. simpl. by rewrite H3.
    + intros i cl Hi. apply session_ok_later. by eapply H7.
Qed.

Lemma start_ok t c capacity workers : st_wf (sto_storage t) ->
  sys_ok (sto_auth t) c (capacity, workers) [] (start_system t c capacity workers).
Proof.
  intros Hw. split; simpl; try done.
  - split; simpl; [lia|done].
  - intros a [Ha|[v Hv]]; [done|]. apply lookup_replicate in Hv as [[=] _].
  - apply length_replicate.
Qed.

Lemma sys_run_ok t c capacity workers es s : st_wf (sto_storage t) ->
  sys_run es (start_system t c capacity workers) = Some s -> sys_ok (sto_auth t) c (capacity, workers) es s.
Proof.
  intros Hw. revert s. induction es as [|e es IH] using rev_ind; intros s.
  - intros [= <-]. by apply start_ok.
  - rewrite sys_run_snoc. intros (s1 & E1 & E2)%bind_Some. eapply sys_step_ok; [|exact E2]. by apply IH.
Qed.
End Reachable.

Section Safety.
Context {X : Ext} {Net : MilterNet} {S A : Type} `{Storage S} `{!StorageLaws S} `{AuthProvider A}.

(** Whatever connections are opened, whatever they send, and in whatever order their
    commands, the workers, the clean-up, the persistence of usage and reloads run: the
    article store stays well formed; the accounts change only by keys and usage; the
    channel holds at most its capacity, no worker is lost, and what is queued or being
    processed is marked as validated; and every session has the policy of the configuration at some
    time - a reload does not reach it - and is authenticated only where that policy
    allows it, for a password the back end verified, and an administrator's only on the
    back end's word. *)
Theorem server_safe (t : Stores S A) (c : Config) (capacity workers : nat) (es : list Event) (s : System S A) :
  st_wf (sto_storage t) ->
  sys_run es (start_system t c capacity workers) = Some s ->
  st_wf (sto_storage (sy_stores s))
  /\ rtc account_update (sto_auth t) (sto_auth (sy_stores s))
  /\ sy_config s = config_after c es
  /\ (length (q_items (sy_queue s)) <= capacity)%nat
  /\ length (po_workers (sy_pool s)) = workers
  /\ (forall a, In a (queued (sy_queue s)) \/ in_work (po_workers (sy_pool s)) a -> marked_validated a)
  /\ forall i cl, sy_clients s !! i = Some cl -> session_ok (sto_auth t) c es (cl_session cl).
Proof.
  intros Hw E. destruct (sys_run_ok t c capacity workers es s Hw E) as [H1 H2 H3 [H4 _] H8 H5 H6 H7].
  rewrite H8 in H4. by split_and!.
Qed.
End Safety.

(** ** Concrete systems *)
Module ToySystem.
#[export] Instance toy_storage : Storage Db := @sqlite_storage Toy.ext.
#[export] Instance toy_laws : StorageLaws Db := @sqlite_storage_laws Toy.ext Toy.json_laws.
#[export] Instance toy_auth : AuthProvider AuthDb := @sqlite_auth Toy.ext true.
#[export] Instance toy_stable : AuthStable AuthDb := @sqlite_auth_stable Toy.ext true.

Definition step (e : Event) (s : System Db AuthDb) : option (System Db AuthDb) := @sys_step Toy.ext no_milter _ _ _ _ e s.
Definition steps (es : list Event) (s : System Db AuthDb) : option (System Db AuthDb) := @sys_run Toy.ext no_milter _ _ _ _ es s.

(** Anyone may post; bob, who is allowed one connection, and amy have accounts. *)
Definition config : Config :=
  mkConfig (lit ":119") (lit "localhost") [] [] [] [] 600 [] None None None None 1000 1 1 [] [] []
    false true (mkUserLimitsConfig true 5 None None).
Definition accounts : AuthDb := snd (@sq_add_user_with_key Toy.ext true 8 (lit "amy") (lit "pw") None bob_db).
Definition server : System Db AuthDb := start_system (mkStores two_db accounts) config 10 1.

Definition clock0 : nat -> Z := fun _ => 0%Z.
Definition connects (i : nat) (text : str) : Event := Opens i (mkConn (input text) Eof []) true.
Definition login_as (u : str) : str := lit "AUTHINFO USER " ++ u ++ crlf ++ lit "AUTHINFO PASS pw" ++ crlf.

Lemma server_wf : st_wf (sto_storage (sy_stores server)).
Proof. exact two_db_wf. Qed.

(** Bob is logged in once. *)
Definition bob_in : list Event := [connects 0 (login_as (lit "bob")); Turns 0 clock0; Turns 0 clock0].
Definition bob_server : System Db AuthDb := default server (steps bob_in server).

Lemma bob_in_runs : steps bob_in server = Some bob_server.
Proof. vm_compute. reflexivity. Qed.
End ToySystem.

Lemma server_safe_witness :
  exists cl, sy_clients ToySystem.bob_server !! 0%nat = Some cl /\ is_authenticated (cl_session cl) = true
  /\ can_authenticate (cl_session cl) = true.
Proof.
  destruct (sy_clients ToySystem.bob_server !! 0%nat) as [cl|] eqn:E; [|exfalso; vm_compute in E; discriminate E].
  assert (Ha : is_authenticated (cl_session cl) = true).
  { vm_compute in E. injection E as <-. reflexivity. }
  exists cl. split; [reflexivity|]. split; [exact Ha|].
  destruct (@server_safe Toy.ext no_milter Db AuthDb ToySystem.toy_storage ToySystem.toy_laws ToySystem.toy_auth (mkStores two_db ToySystem.accounts)
              ToySystem.config 10 1 ToySystem.bob_in ToySystem.bob_server) as (_ & _ & _ & _ & _ & _ & Hs);
    [exact ToySystem.server_wf|exact ToySystem.bob_in_runs|].
  exact (proj1 (sk_authenticated _ _ _ _ (Hs _ _ E) Ha)).
Defined.
