(* ===== verification/Interleave.v ===== *)
(** * Interleave: the server with its tasks cut into turns ([server.rs], [lib.rs], [queue.rs])

    [System.v] runs a command without a break.  Here a command, the processing of an article
    and the clean-up are tasks ([Turns.v]), and a move of the server is one turn of one of
    them: between two calls of a command anything may happen to the stores, the queue, the
    tracker and the configuration. *)

From stdpp Require Import base numbers list gmap strings relations.
From Stdlib Require Import NArith ZArith Lia.
From S2P Require Import Prelude Tasks Text Externals Message Wildmat Config Settings Limits Auth SqliteAuth Tracker Storage SqliteStorage Responses Session Wire Control Milter Filters Retention Queue Workers Context ArticleHandlers GroupHandlers PostHandlers Server Served Turns Replies Company Lifecycle System.
Local Open Scope N_scope.

(** ** The clean-up cut into turns *)
Section CleanUp.
Context {X : Ext} {S A : Type} `{Storage S} `{AuthProvider A}.
Context (K : World (S:=S) (A:=A) -> Prop).

Definition storage_known (w : World (S:=S) (A:=A)) (s : S) : Prop := True.
Definition storage_told (w : World (S:=S) (A:=A)) (s s' : S) : Prop :=
  @st_wf S _ (w_laws w) s -> @st_wf S _ (w_laws w) s'.
Notation StorageTurns m := (Cut storage_known storage_told K m).

Definition storage_call {B} (m : M S B) (Hm : forall L : StorageLaws S, keeps (@st_wf S _ L) m) : StorageTurns m :=
  cut_call _ _ m (fun w s o s' _ _ E Hs => Hm (w_laws w) s o s' Hs E).

Definition look_turns {B} (f : S -> B) : StorageTurns (mgets f) := storage_call _ (fun L => keeps_gets _ f).
Definition purge_group_turns g t : StorageTurns (purge_group_before g t) := storage_call _ (fun L => purge_keeps_wf g t).
Definition delete_article_turns i : StorageTurns (delete_article_by_id i) := storage_call _ (fun L => delete_keeps_wf i).
Definition purge_orphans_turns : StorageTurns purge_orphan_messages := storage_call _ (fun L => orphan_keeps_wf).
Hint Resolve look_turns purge_group_turns delete_article_turns purge_orphans_turns : cuts.

Definition expire_article_turns now i : StorageTurns (expire_article now i).
Proof. unfold expire_article. cut_calls. Defined.
Hint Resolve expire_article_turns : cuts.

Definition expire_articles_turns now ids n : StorageTurns (expire_articles now ids n).
Proof. revert n. induction ids as [|[i|e] ids IH]; intros n; cbn [expire_articles]; cut_calls. Defined.
Hint Resolve expire_articles_turns : cuts.

Definition cleanup_group_turns min_instant c now g : StorageTurns (cleanup_group min_instant c now g).
Proof.
  unfold cleanup_group, cleanup_group_by_retention, cleanup_group_by_expires_header. cut_calls.
Defined.
Hint Resolve cleanup_group_turns : cuts.

Definition retention_turns min_instant c now : StorageTurns (retention_turn min_instant c now).
Proof. unfold retention_turn, cleanup_expired_articles. cut_calls. Defined.

Definition clean_turns min_instant c now : StoreTurns K (on_storage (A:=A) (retention_turn min_instant c now)).
Proof.
  refine (cut_zoom sto_storage (fun s t => mkStores s (sto_auth t)) _ _ _ _ _ _ _ _ _ (retention_turns _ _ _)).
  - by intros [].
  - done.
  - done.
  - done.
  - intros w t s _ Hs. split; [exact Hs|constructor].
Defined.
End CleanUp.

(** ** The state *)

(** What a connection is at: waiting for its next command, waiting for ever within one, or
    at a turn of one, with the clock readings of the command and how many were taken. *)
Inductive Work (S A : Type) : Type :=
| Waits
| Hangs
| Works (clock : nat -> Z) (tick : nat) (t : Task (Ctx S A) bool).
Arguments Waits {S A}.
Arguments Hangs {S A}.
Arguments Works {S A}.

Record Party (S A : Type) := mkParty {
  pt_conn : Conn;
  pt_session : Session;
  pt_work : Work S A;
}.
Arguments mkParty {S A}.
Arguments pt_conn {S A}.
Arguments pt_session {S A}.
Arguments pt_work {S A}.

(** A worker: without an article, with one it has not begun with, or at a turn of it. *)
Inductive Labour (S A : Type) : Type :=
| Rests
| Holds (a : QueuedArticle)
| Processes (a : QueuedArticle) (t : Task (Stores S A) (result unit)).
Arguments Rests {S A}.
Arguments Holds {S A}.
Arguments Processes {S A}.

Record Live (S A : Type) := mkLive {
  lv_parties : gmap nat (Party S A);
  lv_queue : ArticleQueue;
  lv_workers : list (Labour S A);
  lv_stores : Stores S A;
  lv_cleaner : option (Task (Stores S A) unit);
  lv_tracker : UsageTracker;
  lv_config : Config;
}.
Arguments mkLive {S A}.
Arguments lv_parties {S A}.
Arguments lv_queue {S A}.
Arguments lv_workers {S A}.
Arguments lv_stores {S A}.
Arguments lv_cleaner {S A}.
Arguments lv_tracker {S A}.
Arguments lv_config {S A}.

Inductive Move : Type :=
| PartyOpens (i : nat) (conn : Conn) (tls : bool)
| PartyReads (i : nat) (clock : nat -> Z)
| PartyGoes (i : nat)
| LabourTakes (w : nat)
| LabourStarts (w : nat) (now : Z)
| LabourGoes (w : nat)
| CleanerStarts (min_instant now : Z)
| CleanerGoes
| UsagePersists (now : Z)
| ConfigReloads (new_cfg : Config).

Section Live.
Context {X : Ext} {Net : MilterNet} {S A : Type} `{Storage S} `{AuthProvider A}.
Implicit Types s : Live S A.

Definition start_live (t : Stores S A) (c : Config) (capacity workers : nat) : Live S A :=
  mkLive ∅ (new_queue capacity) (replicate workers Rests) t None (new_tracker (cfg_user_limits c)) c.


(** The greeting; then a command at a time: whether the connection stays. *)
Definition opening : M (Ctx S A) bool := (greeting ;;; mreturn true)%m.
Definition opening_turns : CommandTurns any_world opening :=
  cut_bind _ _ (greeting_turns any_world) (fun _ => cut_ret _ _ any_world true).

Definition serving : M (Ctx S A) bool :=
  (go_on <-- client_turn ;;; if go_on then mreturn true else client_done ;;; mreturn false)%m.
Definition serving_turns : CommandTurns any_world serving.
Proof.
  refine (cut_bind _ _ (client_turn_turns any_world) (fun go_on => _)).
  destruct go_on; [exact (cut_ret _ _ any_world true)|].
  exact (cut_bind _ _ (client_done_turns any_world) (fun _ => cut_ret _ _ any_world false)).
Defined.

Definition processing (now : Z) (c : Config) (a : QueuedArticle) : Task (Stores S A) (result unit) :=
  cut_task (cut_catch _ _ (process_article_turns any_world now c a)).
Definition cleaning (min_instant now : Z) (c : Config) : Task (Stores S A) unit :=
  cut_task (clean_turns any_world min_instant c now).

(** What a turn of a connection works on, and what it leaves behind. *)
Definition party_ctx (p : Party S A) (clock : nat -> Z) (tick : nat) s : Ctx S A :=
  mkCtx (pt_conn p) (pt_session p) (lv_stores s) (lv_tracker s) (lv_config s) (lv_queue s) clock tick.

Definition party_after (i : nat) (t : Task (Ctx S A) bool) (c : Ctx S A) s : Live S A :=
  let stays w := <[i := mkParty (cx_conn c) (cx_session c) w]> (lv_parties s) in
  mkLive (match t with
          | Goes _ => stays (Works (cx_clock c) (cx_tick c) t)
          | Ended (Ret true) => stays Waits
          | Ended Stuck => stays Hangs
          | Ended _ => delete i (lv_parties s)
          end)
    (cx_queue c) (lv_workers s) (cx_stores c) (lv_cleaner s) (cx_tracker c) (lv_config s).

(** A worker is done with an article when it has stored it or failed; after a panic, or
    when it waits for ever, it has no more turns. *)
Definition labour_after (w : nat) (a : QueuedArticle) (t : Task (Stores S A) (result unit)) (st : Stores S A) s
  : Live S A :=
  mkLive (lv_parties s) (lv_queue s)
    (<[w := match t with Ended (Ret _) => Rests | _ => Processes a t end]> (lv_workers s))
    st (lv_cleaner s) (lv_tracker s) (lv_config s).

Definition cleaner_after (t : Task (Stores S A) unit) (st : Stores S A) s : Live S A :=
  mkLive (lv_parties s) (lv_queue s) (lv_workers s) st
    (match t with Goes _ => Some t | Ended _ => None end) (lv_tracker s) (lv_config s).

Definition live_step (m : Move) s : option (Live S A) :=
  match m with
  | PartyOpens i conn tls =>
      match lv_parties s !! i with
      | Some _ => None
      | None => Some (party_after i (cut_task opening_turns)
                        (new_client conn tls (lv_stores s) (lv_tracker s) (lv_config s) (lv_queue s) (fun _ => 0%Z)) s)
      end
  | PartyReads i clock =>
      match lv_parties s !! i with
      | Some (mkParty conn sess Waits as p) => Some (party_after i (cut_task serving_turns) (party_ctx p clock 0 s) s)
      | _ => None
      end
  | PartyGoes i =>
      match lv_parties s !! i with
      | Some (mkParty conn sess (Works clock tick (Goes f)) as p) =>
          let '(t, c) := f (party_ctx p clock tick s) in Some (party_after i t c s)
      | _ => None
      end
  | LabourTakes w =>
      match lv_workers s !! w, receive (lv_queue s) with
      | Some Rests, (Some a, q) =>
          Some (mkLive (lv_parties s) q (<[w := Holds a]> (lv_workers s)) (lv_stores s) (lv_cleaner s)
                  (lv_tracker s) (lv_config s))
      | _, _ => None
      end
  | LabourStarts w now =>
      match lv_workers s !! w with
      | Some (Holds a) => Some (labour_after w a (processing now (lv_config s) a) (lv_stores s) s)
      | _ => None
      end
  | LabourGoes w =>
      match lv_workers s !! w with
      | Some (Processes a (Goes f)) => let '(t, st) := f (lv_stores s) in Some (labour_after w a t st s)
      | _ => None
      end
  | CleanerStarts min_instant now =>
      match lv_cleaner s with
      | None => Some (cleaner_after (cleaning min_instant now (lv_config s)) (lv_stores s) s)
      | Some _ => None
      end
  | CleanerGoes =>
      match lv_cleaner s with
      | Some (Goes f) => let '(t, st) := f (lv_stores s) in Some (cleaner_after t st s)
      | _ => None
      end
  | UsagePersists now =>
      Some (mkLive (lv_parties s) (lv_queue s) (lv_workers s)
              (mkStores (sto_storage (lv_stores s)) (persistence_turn now (sto_auth (lv_stores s)) (lv_tracker s)))
              (lv_cleaner s) (lv_tracker s) (lv_config s))
  | ConfigReloads new_cfg =>
      Some (mkLive (lv_parties s) (lv_queue s) (lv_workers s) (lv_stores s) (lv_cleaner s) (lv_tracker s)
              (update_runtime (lv_config s) new_cfg))
  end.

Fixpoint live_run (ms : list Move) s : option (Live S A) :=
  match ms with
  | [] => Some s
  | m :: ms => live_step m s ≫= live_run ms
  end.

Lemma live_run_app ms ms' s : live_run (ms ++ ms') s = live_run ms s ≫= live_run ms'.
Proof. revert s. induction ms as [|m ms IH]; intros s; [done|]. simpl. destruct (live_step m s); [apply IH|done]. Qed.

Lemma live_run_again n m s : live_run (replicate n m) s = again (live_step m) n s.
Proof. revert s. induction n as [|n IH]; intros s; [done|]. simpl. destruct (live_step m s); [apply IH|done]. Qed.
End Live.

(** ** What holds whatever is interleaved

    A run [ms] from [s0] is given; the states that prefixes of it lead to are its moments, and
    what a connection's turns know is what they find at these. *)
Section Invariant.
Context {X : Ext} {Net : MilterNet} {S A : Type} `{Storage S} `{!StorageLaws S} `{AuthProvider A}.
Implicit Types s : Live S A.

(** The reloads among some moves. *)
Definition reloads (ms : list Move) : list Event :=
  omap (fun m => match m with ConfigReloads n => Some (Reloads n) | _ => None end) ms.

Context (s0 : Live S A) (ms : list Move).

Definition moment s : Prop := exists ms1 ms2, ms = ms1 ++ ms2 /\ live_run ms1 s0 = Some s.
Definition seen (t : Stores S A) : Prop := exists s, moment s /\ t = lv_stores s.
Definition configured_at (c : Config) : Prop := exists s, moment s /\ c = lv_config s.

(** A connection that was opened with [conn], and its policy. *)
Definition world (policy : bool) (conn : Conn) : World (S:=S) (A:=A) :=
  mkWorld _ false seen configured_at policy (c_in conn).
(** The workers and the clean-up, which answer nobody. *)
Definition inner_world : World (S:=S) (A:=A) := mkWorld _ false seen configured_at true [].

(** The last opening of connection [i]. *)
Definition opened (ms1 : list Move) (i : nat) (conn : Conn) (tls : bool) (before : list Move) : Prop :=
  exists after, ms1 = before ++ PartyOpens i conn tls :: after
    /\ forall conn' tls', PartyOpens i conn' tls' ∉ after.

(** A session, by the moves so far: it has the policy of its opening and of the configuration
    at that time, and is authenticated, or an administrator's, only by the words of its client that the
    back end confirmed. *)
Definition session_true (c0 : Config) (ms1 : list Move) (i : nat) (x : Session) : Prop :=
  exists conn tls before, opened ms1 i conn tls before
    /\ is_tls x = tls
    /\ allow_auth_insecure x = cfg_allow_auth_insecure_connections (config_after c0 (reloads before))
    /\ allow_anonymous_posting x = cfg_allow_anonymous_posting (config_after c0 (reloads before))
    /\ (is_authenticated x = true -> can_authenticate x = true /\ exists u, logs_in (c_in conn) seen u)
    /\ (s_is_admin x = true -> exists u, logs_in (c_in conn) seen u /\ administers seen u).

(** Connection [i] at a moment: its session is what its client's words made of it, its input is
    the rest of what was sent, and its task will go on so. *)
Definition party_ok (c0 : Config) (ms1 : list Move) (i : nat) (p : Party S A) : Prop :=
  exists conn tls before, opened ms1 i conn tls before
    /\ is_tls (pt_session p) = tls
    /\ allow_auth_insecure (pt_session p) = cfg_allow_auth_insecure_connections (config_after c0 (reloads before))
    /\ allow_anonymous_posting (pt_session p) = cfg_allow_anonymous_posting (config_after c0 (reloads before))
    /\ reads_on (c_in conn) (c_in (pt_conn p))
    /\ session_known (world (can_authenticate (pt_session p)) conn) (pt_session p)
    /\ match pt_work p with
       | Works _ _ t =>
           let w := world (can_authenticate (pt_session p)) conn in along (knows w) (told w) (fun _ => True) t
       | _ => True
       end.

Definition stores_task_ok {B} (t : Task (Stores S A) B) : Prop :=
  along (stores_known inner_world) (stores_told inner_world) (fun _ => True) t.

(** A worker has an article in hand. *)
Definition holds_article (l : Labour S A) (a : QueuedArticle) : Prop :=
  match l with Rests => False | Holds b | Processes b _ => b = a end.
Definition in_hand s (a : QueuedArticle) : Prop := exists w l, lv_workers s !! w = Some l /\ holds_article l a.

Definition checked (a : QueuedArticle) : Prop := acceptable seen configured_at (qa_message a) (qa_size a).

Record live_ok (a0 : A) (c0 : Config) (size : nat * nat) (ms1 : list Move) s : Prop := {
  lo_store : st_wf (sto_storage (lv_stores s));
  lo_accounts : rtc account_update a0 (sto_auth (lv_stores s));
  lo_config : lv_config s = config_after c0 (reloads ms1);
  lo_channel : channel_ok (lv_queue s);
  lo_capacity : q_capacity (lv_queue s) = fst size;
  lo_articles : forall a, In a (queued (lv_queue s)) \/ in_hand s a -> checked a;
  lo_workers : length (lv_workers s) = snd size;
  lo_parties : forall i p, lv_parties s !! i = Some p -> party_ok c0 ms1 i p;
  lo_labours : forall w a t, lv_workers s !! w = Some (Processes a t) -> stores_task_ok t;
  lo_cleaner : forall t, lv_cleaner s = Some t -> stores_task_ok t;
}.

Lemma opened_later ms1 i conn tls before m : opened ms1 i conn tls before ->
  (forall conn' tls', m <> PartyOpens i conn' tls') -> opened (ms1 ++ [m]) i conn tls before.
Proof.
  intros (after & -> & Hn) Hm. exists (after ++ [m]). split; [by rewrite <- app_assoc|].
  intros conn' tls'. rewrite elem_of_app, list_elem_of_singleton. intros [Hin|Hin]; [by eapply Hn|by eapply Hm].
Qed.

Lemma party_later c0 ms1 i p m : party_ok c0 ms1 i p ->
  (forall conn' tls', m <> PartyOpens i conn' tls') -> party_ok c0 (ms1 ++ [m]) i p.
Proof.
  intros (conn & tls & before & Ho & Hp) Hm. exists conn, tls, before. split; [by apply opened_later|exact Hp].
Qed.

Lemma sure_here (w : World (S:=S) (A:=A)) (P : Prop) : w_open w = false -> sure w P -> P.
Proof. intros E [E'|HP]; [congruence|done]. Qed.

(** A connection after a turn of its own, or when it was opened. *)
Lemma party_after_ok a0 c0 size ms1 m s i t c c' conn tls before :
  let w := world (can_authenticate (cx_session c)) conn in
  live_ok a0 c0 size ms1 s -> reloads [m] = [] ->
  opened (ms1 ++ [m]) i conn tls before -> (forall j conn' tls', j <> i -> m <> PartyOpens j conn' tls') ->
  is_tls (cx_session c) = tls ->
  allow_auth_insecure (cx_session c) = cfg_allow_auth_insecure_connections (config_after c0 (reloads before)) ->
  allow_anonymous_posting (cx_session c) = cfg_allow_anonymous_posting (config_after c0 (reloads before)) ->
  reads_on (c_in conn) (c_in (cx_conn c)) ->
  cx_stores c = lv_stores s -> cx_queue c = lv_queue s ->
  told w c c' -> along (knows w) (told w) (fun _ => True) t ->
  live_ok a0 c0 size (ms1 ++ [m]) (party_after i t c' s).
Proof.
  intros w [H1 H2 H3 H4 H5 H6 H7 H8 H9 H10] Hm Ho Hj P1 P2 P3 Hin Es Eq [_ [T1 T2] Hread (l & Eq' & Hl) [Q1 Q2 Q3] Hs] Ht.
  rewrite Es in T1, T2. rewrite Eq in Eq'. apply (sure_here w) in Hs; [|done].
  assert (Hcan : can_authenticate (cx_session c') = can_authenticate (cx_session c)).
  { unfold can_authenticate. congruence. }
  assert (Hp : forall wk, match wk with Works _ _ t' => t' = t | _ => True end ->
    party_ok c0 (ms1 ++ [m]) i (mkParty (cx_conn c') (cx_session c') wk)).
  { intros wk Hwk. exists conn, tls, before. cbn [pt_session pt_conn pt_work]. rewrite Hcan.
    split; [done|]. split; [congruence|]. split; [congruence|]. split; [congruence|]. split; [by etrans|].
    split; [done|]. destruct wk; try done. by subst. }
  split; simpl; try done.
  - by apply T1.
  - etrans; [exact H2|]. by apply key_updates_account.
  - unfold reloads in *. rewrite omap_app. by rewrite Hm, app_nil_r.
  - rewrite Eq'. by apply submit_all_line.
  - by rewrite Eq', submit_all_capacity.
  - intros a [Ha|Ha]; [|apply H6; by right]. unfold queued in Ha. rewrite Eq', (proj2 (submit_all_line l _ H4)) in Ha.
    apply in_app_or in Ha as [Ha|Ha]; [apply H6; by left|].
    eapply (sure_here w); [done|]. eapply Forall_forall in Hl; [exact Hl|by apply elem_of_list_In].
  - intros j p Hjp. destruct (decide (j = i)) as [->|Hne].
    + destruct t as [[[]|e| |]|f]; rewrite ?lookup_insert_eq, ?lookup_delete_eq in Hjp; simplify_eq; by apply Hp.
    + apply party_later; [|by intros; apply Hj]. apply H8.
      destruct t as [[[]|e| |]|f]; by rewrite ?lookup_insert_ne, ?lookup_delete_ne in Hjp by done.
Qed.

(** A move of anybody else, which opens no connection. *)
Lemma live_ok_later a0 c0 size ms1 m s s' : live_ok a0 c0 size ms1 s -> reloads [m] = [] ->
  (forall j conn tls, m <> PartyOpens j conn tls) ->
  st_wf (sto_storage (lv_stores s')) -> rtc account_update (sto_auth (lv_stores s)) (sto_auth (lv_stores s')) ->
  lv_config s' = lv_config s -> channel_ok (lv_queue s') -> q_capacity (lv_queue s') = q_capacity (lv_queue s) ->
  (forall a, In a (queued (lv_queue s')) \/ in_hand s' a -> In a (queued (lv_queue s)) \/ in_hand s a) ->
  length (lv_workers s') = length (lv_workers s) -> lv_parties s' = lv_parties s ->
  (forall w a t, lv_workers s' !! w = Some (Processes a t) -> stores_task_ok t) ->
  (forall t, lv_cleaner s' = Some t -> stores_task_ok t) ->
  live_ok a0 c0 size (ms1 ++ [m]) s'.
Proof.
  intros [H1 H2 H3 H4 H5 H6 H7 H8 H9 H10] Hm Ho W1 W2 W3 W4 W5 W6 W7 W8 W9 W10. split; try done.
  - by etrans.
  - rewrite W3, H3. unfold reloads in *. by rewrite omap_app, Hm, app_nil_r.
  - congruence.
  - intros a Ha. by apply H6, W6.
  - congruence.
  - rewrite W8. intros i p Hi. apply party_later; [by apply H8|intros; apply Ho].
Qed.

(** The stores after a turn of a task that works on them. *)
Lemma labour_after_ok a0 c0 size ms1 m s w a t st : live_ok a0 c0 size ms1 s ->
  reloads [m] = [] -> (forall j conn tls, m <> PartyOpens j conn tls) ->
  in_hand s a -> stores_told inner_world (lv_stores s) st -> stores_task_ok t ->
  live_ok a0 c0 size (ms1 ++ [m]) (labour_after w a t st s).
Proof.
  intros Hs Hm Ho Hin [T1 T2] Ht. apply (live_ok_later _ _ _ _ _ s); try done; simpl.
  - apply T1, Hs.
  - by apply key_updates_account.
  - apply Hs.
  - intros b [Hb|(v & l & Hv & Hb)]; [by left|]. right. simpl in Hv.
    apply list_lookup_insert_Some in Hv as [(-> & <- & _)|[_ Hv]]; [|by exists v, l].
    by destruct t as [[]|]; try done; simpl in Hb; subst.
  - by rewrite length_insert.
  - intros v b t' Hv. apply list_lookup_insert_Some in Hv as [(-> & E & _)|[_ Hv]]; [|by eapply Hs].
    by destruct t as [[]|]; simplify_eq.
  - intros t' Ht'. by eapply Hs.
Qed.

Lemma cleaner_after_ok a0 c0 size ms1 m s t st : live_ok a0 c0 size ms1 s ->
  reloads [m] = [] -> (forall j conn tls, m <> PartyOpens j conn tls) ->
  stores_told inner_world (lv_stores s) st -> stores_task_ok t ->
  live_ok a0 c0 size (ms1 ++ [m]) (cleaner_after t st s).
Proof.
  intros Hs Hm Ho [T1 T2] Ht. apply (live_ok_later _ _ _ _ _ s); try done; simpl.
  - apply T1, Hs.
  - by apply key_updates_account.
  - apply Hs.
  - intros w a t' Hw. by eapply Hs.
  - destruct t; [done|]. by intros t' [= <-].
Qed.

Lemma cut_stores_ok {B} {m : M (Stores S A) B} (cm : StoreTurns any_world m) : stores_task_ok (cut_task cm).
Proof. by apply (cut_along cm). Qed.

Lemma moment_stores s : moment s -> stores_known inner_world (lv_stores s).
Proof. intros Hs. right. by exists s. Qed.

(** A turn of a connection's task. *)
Lemma party_goes_ok a0 c0 size ms1 s i p clock k f : moment s -> live_ok a0 c0 size ms1 s ->
  lv_parties s !! i = Some p -> pt_work p = Works clock k (Goes f) ->
  live_ok a0 c0 size (ms1 ++ [PartyGoes i]) (party_after i (fst (f (party_ctx p clock k s))) (snd (f (party_ctx p clock k s))) s).
Proof.
  intros Hmo Hs Hi Hw. destruct (lo_parties _ _ _ _ _ Hs _ _ Hi) as (conn & tls & before & Ho & P1 & P2 & P3 & Hin & Hk & Ht).
  rewrite Hw in Ht. cbv zeta in Ht. inversion Ht as [|? HR HF]; subst.
  assert (Hkn : knows (world (can_authenticate (pt_session p)) conn) (party_ctx p clock k s)).
  { right. split_and!; [by exists s|by exists s|done|done]. }
  eapply (party_after_ok a0 c0 size ms1 (PartyGoes i) s i _ (party_ctx p clock k s)); try done;
    [by apply opened_later|by apply HR|by apply HF].
Qed.

Lemma fresh_session tls cfg conn : session_known (world (can_authenticate (new_session tls (cfg_allow_auth_insecure_connections cfg)
    (cfg_allow_anonymous_posting cfg))) conn) (new_session tls (cfg_allow_auth_insecure_connections cfg) (cfg_allow_anonymous_posting cfg)).
Proof. by split. Qed.

(** Every move keeps the state as it should be. *)
Lemma live_step_ok a0 c0 size ms1 m s s' : moment s -> live_ok a0 c0 size ms1 s ->
  live_step m s = Some s' -> live_ok a0 c0 size (ms1 ++ [m]) s'.
Proof.
  intros Hmo Hs.
  destruct m as [i conn tls|i clock|i|w|w now|w|min_instant now| |now|n]; cbn [live_step].
  - destruct (lv_parties s !! i); [done|]. intros <-%(inj Some).
    set (c := new_client conn tls _ _ _ _ _).
    assert (Hk : session_known (world (can_authenticate (cx_session c)) conn) (cx_session c)) by apply fresh_session.
    eapply (party_after_ok a0 c0 size ms1 (PartyOpens i conn tls) s i _ c c conn tls ms1); try done.
    + exists []. split; [done|]. intros conn' tls'. apply not_elem_of_nil.
    + intros j conn' tls' Hne [= <- _ _]. done.
    + simpl. by rewrite (lo_config _ _ _ _ _ Hs).
    + simpl. by rewrite (lo_config _ _ _ _ _ Hs).
    + apply told_refl. right. split_and!; [by exists s|by exists s|done|done].
    + by apply (cut_along opening_turns).
  - destruct (lv_parties s !! i) as [[conn sess [| |]]|] eqn:Ei; try done. intros <-%(inj Some).
    destruct (lo_parties _ _ _ _ _ Hs _ _ Ei) as (conn0 & tls & before & Ho & P1 & P2 & P3 & Hin & Hk & _).
    eapply (party_after_ok a0 c0 size ms1 (PartyReads i clock) s i _ (party_ctx (mkParty conn sess Waits) clock 0 s)); try done.
    + by apply opened_later.
    + apply told_refl. right. split_and!; [by exists s|by exists s|done|done].
    + by apply (cut_along serving_turns).
  - destruct (lv_parties s !! i) as [[conn sess [| |clock k [o|f]]]|] eqn:Ei; try done.
    pose proof (party_goes_ok _ _ _ _ _ _ _ _ _ _ Hmo Hs Ei eq_refl) as Hok.
    destruct (f _) as [t c]. intros <-%(inj Some). exact Hok.
  - destruct (lv_workers s !! w) as [[]|] eqn:Ew; try done.
    destruct (receive (lv_queue s)) as [[a|] q] eqn:Er; [|done]. intros <-%(inj Some).
    destruct (receive_line _ _ _ (lo_channel _ _ _ _ _ Hs) Er) as [Hc Hl].
    change (queued (lv_queue s) = a :: queued q) in Hl.
    apply (live_ok_later _ _ _ _ _ s); try done; simpl; [apply Hs|exact (receive_capacity _ _ _ Er)| |by rewrite length_insert| |apply Hs].
    + intros b. rewrite Hl. intros [Hb|(v & l & Hv & Hb)]; [left; by right|]. simpl in Hv.
      apply list_lookup_insert_Some in Hv as [(_ & <- & _)|[_ Hv]]; [left; by left|right; by exists v, l].
    + intros v b t. intros [(_ & [=] & _)|[_ Hv]]%list_lookup_insert_Some. by eapply Hs.
  - destruct (lv_workers s !! w) as [[|a|]|] eqn:Ew; try done. intros <-%(inj Some).
    apply labour_after_ok; try done; [by eexists w, _|apply cut_stores_ok].
  - destruct (lv_workers s !! w) as [[|a|a [o|f]]|] eqn:Ew; try done.
    pose proof (lo_labours _ _ _ _ _ Hs _ _ _ Ew) as Hok. inversion Hok as [|? HR HF]; subst.
    specialize (HR _ (moment_stores s Hmo)). specialize (HF _ (moment_stores s Hmo)).
    destruct (f (lv_stores s)) as [t st]. intros <-%(inj Some). apply labour_after_ok; try done. by eexists w, _.
  - destruct (lv_cleaner s); [done|]. intros <-%(inj Some). apply cleaner_after_ok; try done. apply cut_stores_ok.
  - destruct (lv_cleaner s) as [[o|f]|] eqn:Ec; try done.
    pose proof (lo_cleaner _ _ _ _ _ Hs _ Ec) as Hok. inversion Hok as [|? HR HF]; subst.
    specialize (HR _ (moment_stores s Hmo)). specialize (HF _ (moment_stores s Hmo)).
    destruct (f (lv_stores s)) as [t st]. intros <-%(inj Some). by apply cleaner_after_ok.
  - intros <-%(inj Some). apply (live_ok_later _ _ _ _ _ s); try done; [apply Hs|apply persist_accounts|apply Hs..].
  - intros <-%(inj Some). destruct Hs as [H1 H2 H3 H4 H5 H6 H7 H8 H9 H10]. split; try done.
    + unfold reloads. rewrite omap_app. fold (reloads ms1). simpl. by rewrite config_after_snoc, H3.
    + intros i p Hi. by apply party_later; [apply H8|].
Qed.
End Invariant.

Section Reached.
Context {X : Ext} {Net : MilterNet} {S A : Type} `{Storage S} `{!StorageLaws S} `{AuthProvider A}.
Implicit Types s : Live S A.

Lemma start_live_ok ms t c capacity workers : st_wf (sto_storage t) ->
  live_ok (start_live t c capacity workers) ms (sto_auth t) c (capacity, workers) [] (start_live t c capacity workers).
Proof.
  intros Hw. split; simpl; try done.
  - split; simpl; [lia|done].
  - intros a [Ha|(w & l & Hv & Ha)]; [done|]. simpl in Hv. apply lookup_replicate in Hv as [-> _]. destruct Ha.
  - apply length_replicate.
  - intros w a t'. by intros [[=] _]%lookup_replicate.
Qed.

Lemma live_run_ok t c capacity workers ms ms1 ms2 s : ms = ms1 ++ ms2 -> st_wf (sto_storage t) ->
  live_run ms1 (start_live t c capacity workers) = Some s ->
  live_ok (start_live t c capacity workers) ms (sto_auth t) c (capacity, workers) ms1 s.
Proof.
  intros Hms Hw. revert ms2 s Hms. induction ms1 as [|m ms1 IH] using rev_ind; intros ms2 s Hms.
  - intros [= <-]. by apply start_live_ok.
  - rewrite live_run_app. intros (s1 & E1 & E2)%bind_Some. simpl in E2.
    destruct (live_step m s1) as [s2|] eqn:E3; [|done]. injection E2 as <-. rewrite <- app_assoc in Hms.
    eapply live_step_ok; [by exists ms1, ([m] ++ ms2)| |exact E3]. by eapply IH.
Qed.
End Reached.

(** ** Commands without a break are among what can happen *)
Section Refinement.
Context {X : Ext} {Net : MilterNet} {S A : Type} `{Storage S} `{!StorageLaws S} `{AuthProvider A}.
Implicit Types s : Live S A.

Definition embed_client (cl : Client) : Party S A :=
  mkParty (cl_conn cl) (cl_session cl) (if cl_hangs cl then Hangs else Waits).
Definition embed_worker (w : Worker) : Labour S A := match w with Idle => Rests | Busy a => Holds a end.
Definition embed (s : System S A) : Live S A :=
  mkLive (embed_client <$> sy_clients s) (sy_queue s) (embed_worker <$> po_workers (sy_pool s)) (sy_stores s)
    None (sy_tracker s) (sy_config s).

(** Nobody takes a turn in between: a task comes to the end of its computation. *)
Definition open_world : World (S:=S) (A:=A) := mkWorld _ true (fun _ => True) (fun _ => True) true [].

Lemma party_again i t c t' c' s : party_after i t' c' (party_after i t c s) = party_after i t' c' s.
Proof.
  unfold party_after. simpl. f_equal.
  destruct t as [[[]|e| |]|f], t' as [[[]|e'| |]|f']; rewrite ?insert_insert_eq, ?insert_delete_eq, ?delete_insert_eq, ?delete_delete_eq;
    try done; by rewrite ?delete_idemp.
Qed.

Lemma party_step i f (c : Ctx S A) s : cx_config c = lv_config s ->
  live_step (PartyGoes i) (party_after i (Goes f) c s) = Some (party_after i (fst (f c)) (snd (f c)) s).
Proof.
  intros Hc. unfold live_step, party_after at 1. cbn [lv_parties]. rewrite lookup_insert_eq.
  assert (Ectx : party_ctx (mkParty (cx_conn c) (cx_session c) (Works (cx_clock c) (cx_tick c) (Goes f)))
            (cx_clock c) (cx_tick c) (party_after i (Goes f) c s) = c).
  { unfold party_ctx. simpl. rewrite <- Hc. by destruct c. }
  rewrite Ectx. destruct (f c) as [t c']. by rewrite party_again.
Qed.

Lemma party_runs i {m : M (Ctx S A) bool} (cm : CommandTurns any_world m) (c : Ctx S A) o c' s :
  cx_config c = lv_config s -> m c = (o, c') ->
  exists n, live_run (replicate n (PartyGoes i)) (party_after i (cut_task cm) c s)
            = Some (party_after i (Ended o) c' s).
Proof.
  intros Hc E. pose (Inv := fun c : Ctx S A => cx_config c = lv_config s).
  assert (Ht : along Inv (fun _ c => Inv c) (fun _ => True) (cut_task cm)).
  { eapply along_weaken; [| | |exact (cut_along cm open_world I)]; [|intros c1 c2|done].
    - intros c1 _. by left.
    - intros Hc1 Ht. unfold Inv. by rewrite (td_config _ _ _ Ht). }
  rewrite <- (cut_run cm) in E.
  destruct (undisturbed (live_step (PartyGoes i)) (fun t c => party_after i t c s) Inv
              (fun f c Hi => party_step i f c s Hi) _ _ _ _ Ht Hc E) as [n Hn].
  exists n. by rewrite live_run_again.
Qed.

Lemma labour_again w a t st t' st' s : labour_after w a t' st' (labour_after w a t st s) = labour_after w a t' st' s.
Proof. unfold labour_after. simpl. by rewrite list_insert_insert_eq. Qed.

Lemma labour_runs w a (l0 : Labour S A) {m : M (Stores S A) (result unit)} (cm : StoreTurns any_world m) st o st' s :
  lv_workers s !! w = Some l0 -> m st = (o, st') ->
  exists n, live_run (replicate n (LabourGoes w)) (labour_after w a (cut_task cm) st s)
            = Some (labour_after w a (Ended o) st' s).
Proof.
  intros Hw E. rewrite <- (cut_run cm) in E.
  assert (Hs : forall f st, True -> live_step (LabourGoes w) (labour_after w a (Goes f) st s)
                                    = Some (labour_after w a (fst (f st)) (snd (f st)) s)).
  { intros f st1 _. unfold live_step, labour_after at 1. cbn [lv_workers].
    rewrite list_lookup_insert_eq by (by eapply lookup_lt_Some).
    change (lv_stores (labour_after w a (Goes f) st1 s)) with st1. destruct (f st1) as [t st2]. by rewrite labour_again. }
  destruct (undisturbed (live_step (LabourGoes w)) (fun t st => labour_after w a t st s) (fun _ => True) Hs
              (Q:=fun _ => True) (cut_task cm) st o st') as [n Hn]; [|done|exact E|].
  - eapply along_weaken; [| | |exact (cut_along cm open_world I)]; [by left|done..].
  - exists n. by rewrite live_run_again.
Qed.

Lemma cleaner_runs {m : M (Stores S A) unit} (cm : StoreTurns any_world m) st o st' s :
  m st = (o, st') ->
  exists n, live_run (replicate n CleanerGoes) (cleaner_after (cut_task cm) st s)
            = Some (cleaner_after (Ended o) st' s).
Proof.
  intros E. rewrite <- (cut_run cm) in E.
  assert (Hs : forall f st, True -> live_step CleanerGoes (cleaner_after (Goes f) st s)
                                    = Some (cleaner_after (fst (f st)) (snd (f st)) s)).
  { intros f st1 _. unfold live_step, cleaner_after at 1. cbn [lv_cleaner].
    change (lv_stores (cleaner_after (Goes f) st1 s)) with st1. by destruct (f st1) as [t st2]. }
  destruct (undisturbed (live_step CleanerGoes) (fun t st => cleaner_after t st s) (fun _ => True) Hs
              (Q:=fun _ => True) (cut_task cm) st o st') as [n Hn]; [|done|exact E|].
  - eapply along_weaken; [| | |exact (cut_along cm open_world I)]; [by left|done..].
  - exists n. by rewrite live_run_again.
Qed.

(** The reloads among some events. *)
Definition configured (es : list Event) : list Event :=
  List.filter (fun e => match e with Reloads _ => true | _ => false end) es.

(** A connection that is served without a break comes to what [client_turns] makes of it. *)
Lemma embed_stays i (b : bool) c (s : System S A) :
  party_after i (Ended (if b then Stuck else Ret true)) c (embed s) = embed (stays i b c s).
Proof. unfold party_after, embed. simpl. rewrite fmap_insert. by destruct b. Qed.
Lemma embed_leaves i o c (s : System S A) : o <> Ret true -> o <> Stuck ->
  party_after i (Ended o) c (embed s) = embed (leaves i c s).
Proof. intros H1 H2. unfold party_after, embed. simpl. rewrite fmap_delete. by destruct o as [[]|e| |]. Qed.

Lemma done_returns (c : Ctx S A) : client_done c = (Ret tt, snd (client_done c)).
Proof. unfold client_done, mbind', session, mgets. by destruct (limited_user (cx_session c)). Qed.

Lemma serving_ends i clock cl (s s' : System S A) : sy_clients s !! i = Some cl ->
  client_turns i clock s = Some s' ->
  exists o c, serving (client_ctx clock cl s) = (o, c) /\ party_after i (Ended o) c (embed s) = embed s'.
Proof.
  intros Ei. unfold client_turns. rewrite Ei. destruct (cl_hangs cl); [done|].
  unfold serving, mbind' at 1. destruct (client_turn (client_ctx clock cl s)) as [[[]|e| |] c].
  - intros [= <-]. exists (Ret true), c. split; [done|]. exact (embed_stays i false c s).
  - intros [= <-]. exists (Ret false), (snd (client_done c)). split; [|by apply embed_leaves].
    by rewrite (mbind_Ret _ _ _ _ _ (done_returns c)).
  - intros [= <-]. exists (Fail e), c. split; [done|]. by apply embed_leaves.
  - intros [= <-]. exists Panic, c. split; [done|]. by apply embed_leaves.
  - intros [= <-]. exists Stuck, c. split; [done|]. exact (embed_stays i true c s).
Qed.

Lemma opening_ends (c : Ctx S A) : exists c', greeting c = (Ret tt, c') /\ opening c = (Ret true, c').
Proof. eexists. split; [reflexivity|done]. Qed.

Lemma reloads_replicate m n : reloads [m] = [] -> reloads (replicate n m) = [].
Proof. intros Hm. induction n as [|n IH]; [done|]. unfold reloads in *. simpl in *. by destruct m. Qed.

Lemma sys_step_interleaved e (s s' : System S A) : sys_step e s = Some s' ->
  exists ms, live_run ms (embed s) = Some (embed s') /\ reloads ms = configured [e].
Proof.
  destruct e as [i conn tls|i clock|w|w now|min_instant now|now|n]; cbn [sys_step].
  - unfold client_opens. destruct (sy_clients s !! i) eqn:Ei; [done|]. set (c := new_client _ _ _ _ _ _ _).
    destruct (opening_ends c) as (c' & -> & Eo). intros <-%(inj Some).
    destruct (party_runs i opening_turns c _ c' (embed s) eq_refl Eo) as [n Hn].
    exists (PartyOpens i conn tls :: replicate n (PartyGoes i)). split; [|by apply (reloads_replicate (PartyGoes i))]. cbn [live_run live_step].
    simpl lv_parties. rewrite lookup_fmap, Ei. etrans; [exact Hn|]. f_equal. exact (embed_stays i false c' s).
  - destruct (sy_clients s !! i) as [cl|] eqn:Ei; [|unfold client_turns; by rewrite Ei]. intros E.
    destruct (serving_ends _ _ _ _ _ Ei E) as (o & c & Es & <-).
    destruct (party_runs i serving_turns (client_ctx clock cl s) o c (embed s) eq_refl Es) as [n Hn].
    exists (PartyReads i clock :: replicate n (PartyGoes i)). split; [|by apply (reloads_replicate (PartyGoes i))]. cbn [live_run live_step].
    simpl lv_parties. rewrite lookup_fmap, Ei. unfold client_turns in E. rewrite Ei in E.
    unfold embed_client at 1. cbn [fmap option_fmap option_map]. destruct (cl_hangs cl); [done|]. exact Hn.
  - intros (p & Ep & ->)%fmap_Some. exists [LabourTakes w]. split; [|done]. simpl in Ep. cbn [live_run live_step].
    simpl lv_workers. rewrite list_lookup_fmap. destruct (po_workers (sy_pool s) !! w) as [[|b]|]; try done.
    simpl lv_queue. unfold sy_queue. cbn [fmap option_fmap option_map embed_worker].
    destruct (receive (po_queue (sy_pool s))) as [[a|] q]; [|done]. injection Ep as <-.
    simpl. f_equal. unfold embed. simpl. f_equal. by rewrite list_fmap_insert.
  - intros (p & Ep & ->)%fmap_Some. simpl in Ep. destruct (po_workers (sy_pool s) !! w) as [[|a]|] eqn:Ew; try done.
    destruct (mcatch (process_article now (sy_config s) a) (po_stores (sy_pool s))) as [[r|e| |] st] eqn:Em; try done.
    injection Ep as <-.
    destruct (labour_runs w a (Holds a) (cut_catch _ _ (process_article_turns any_world now (sy_config s) a))
                (po_stores (sy_pool s)) (Ret r) st (embed s)) as [n Hn]; [|exact Em|].
    { simpl. by rewrite list_lookup_fmap, Ew. }
    exists (LabourStarts w now :: replicate n (LabourGoes w)). split; [|by apply (reloads_replicate (LabourGoes w))]. cbn [live_run live_step].
    simpl lv_workers. rewrite list_lookup_fmap, Ew. etrans; [exact Hn|]. unfold labour_after, embed. simpl.
    by rewrite list_fmap_insert.
  - destruct (retention_turn min_instant (sy_config s) now (sto_storage (sy_stores s))) as [o st] eqn:Er.
    intros <-%(inj Some).
    destruct (cleaner_runs (clean_turns any_world min_instant (sy_config s) now) (sy_stores s) o
                (mkStores st (sto_auth (sy_stores s))) (embed s)) as [n Hn].
    { unfold on_storage, mzoom. by rewrite Er. }
    exists (CleanerStarts min_instant now :: replicate n CleanerGoes).
    split; [exact Hn|by apply (reloads_replicate CleanerGoes)].
  - intros <-%(inj Some). by exists [UsagePersists now].
  - intros <-%(inj Some). by exists [ConfigReloads n].
Qed.

Lemma sys_run_interleaved es (s s' : System S A) : sys_run es s = Some s' ->
  exists ms, live_run ms (embed s) = Some (embed s') /\ reloads ms = configured es.
Proof.
  revert s. induction es as [|e es IH]; intros s; simpl; [intros [= <-]; by exists []|].
  destruct (sys_step e s) as [s1|] eqn:E; [|done]. intros Hr.
  destruct (sys_step_interleaved _ _ _ E) as (ms1 & H1 & R1). destruct (IH _ Hr) as (ms2 & H2 & R2).
  exists (ms1 ++ ms2). split; [by rewrite live_run_app, H1|]. unfold reloads in *. rewrite omap_app, R1, R2.
  by destruct e.
Qed.

Lemma embed_start t c capacity workers : embed (start_system t c capacity workers) = start_live t c capacity workers.
Proof. unfold embed, start_live. simpl. by rewrite fmap_empty, fmap_replicate. Qed.
End Refinement.

(** ** A command in the running server is a task in company *)
Section InCompany.
Context {X : Ext} {Net : MilterNet} {S A : Type} `{Storage S} `{AuthProvider A}.
Implicit Types s : Live S A.

(** Connection [i] is at the task [t], with the context [c]. *)
Definition is_at (i : nat) s (t : Task (Ctx S A) bool) (c : Ctx S A) : Prop :=
  exists p clock k, lv_parties s !! i = Some p /\ pt_work p = Works clock k t /\ c = party_ctx p clock k s.

(** A move of somebody else. *)
Lemma others_move i m s s' t c : live_step m s = Some s' -> m <> PartyGoes i -> is_at i s t c ->
  exists c', is_at i s' t c' /\ others c c'.
Proof.
  intros E Hm (p & clock & k & Hp & Hw & ->).
  assert (Hsame : lv_parties s' !! i = lv_parties s !! i ->
    exists c', is_at i s' t c' /\ others (party_ctx p clock k s) c').
  { intros Es. exists (party_ctx p clock k s'). split; [exists p, clock, k; by rewrite Es|by split]. }
  assert (Hother : forall j t1 c1, i <> j -> lv_parties (party_after j t1 c1 s) !! i = lv_parties s !! i).
  { intros j t1 c1 Hj. simpl. destruct t1 as [[[]|e| |]|f]; by rewrite ?lookup_insert_ne, ?lookup_delete_ne. }
  apply Hsame. destruct m as [j conn tls|j clock'|j|w|w now|w|min_instant now| |now|n]; cbn [live_step] in E.
  - destruct (lv_parties s !! j) eqn:Ej; [done|]. apply (inj Some) in E as <-. apply Hother. congruence.
  - destruct (lv_parties s !! j) as [[conn sess [| |]]|] eqn:Ej; try done. apply (inj Some) in E as <-.
    apply Hother. intros <-. rewrite Hp in Ej. injection Ej as ->. done.
  - destruct (lv_parties s !! j) as [[conn sess [| |clock' k' [o|f]]]|] eqn:Ej; try done.
    destruct (f _) as [t1 c1]. apply (inj Some) in E as <-. apply Hother. congruence.
  - destruct (lv_workers s !! w) as [[]|]; try done. destruct (receive _) as [[a|] q]; [|done].
    by apply (inj Some) in E as <-.
  - destruct (lv_workers s !! w) as [[]|]; try done. by apply (inj Some) in E as <-.
  - destruct (lv_workers s !! w) as [[|a|a [o|f]]|]; try done. destruct (f _). by apply (inj Some) in E as <-.
  - destruct (lv_cleaner s); [done|]. by apply (inj Some) in E as <-.
  - destruct (lv_cleaner s) as [[o|f]|]; try done. destruct (f _). by apply (inj Some) in E as <-.
  - by apply (inj Some) in E as <-.
  - by apply (inj Some) in E as <-.
Qed.

Lemma amid_others f (c c1 : Ctx S A) o c' l : others c c1 ->
  amid (A:=bool) others (Goes f) c1 o c' l -> amid others (Goes f) c o c' l.
Proof. intros HE Hr. inversion Hr; subst. constructor; [by etrans|done]. Qed.

(** A turn of its own. *)
Lemma own_move i s s' f c : live_step (PartyGoes i) s = Some s' -> is_at i s (Goes f) c ->
  s' = party_after i (fst (f c)) (snd (f c)) s.
Proof.
  intros E ([conn sess w] & clock & k & Hp & Hw & ->). simpl in Hw. subst w. cbn [live_step] in E. rewrite Hp in E.
  destruct (f _) as [t c1]. by apply (inj Some) in E as <-.
Qed.

Lemma is_at_after i f (c : Ctx S A) s : exists c', is_at i (party_after i (Goes f) c s) (Goes f) c' /\ others c c'.
Proof.
  eexists. split; [eexists _, _, _; split; [apply lookup_insert_eq|by split]|by split].
Qed.

(** Whatever moves are made: either the connection is still at the rest of its task, or it
    came to the end of it, at one of its own turns, as a task in company does. *)
Lemma party_in_company i ms s s' f c : live_run ms s = Some s' -> is_at i s (Goes f) c ->
  (exists f' c1 l1, is_at i s' (Goes f') c1
     /\ forall o c' l, amid others (Goes f') c1 o c' l -> amid others (Goes f) c o c' (l1 ++ l))
  \/ (exists ms1 ms2 s1 o c' l, ms = ms1 ++ PartyGoes i :: ms2 /\ amid others (Goes f) c o c' l
        /\ live_run (ms1 ++ [PartyGoes i]) s = Some (party_after i (Ended o) c' s1)).
Proof.
  revert s f c. induction ms as [|m ms IH]; intros s f c E Hat; simpl in E.
  - injection E as <-. left. by exists f, c, [].
  - destruct (live_step m s) as [s1|] eqn:Em; [|done]. simpl in E.
    assert (Hm : m = PartyGoes i \/ m <> PartyGoes i).
    { destruct m as [| |j| | | | | | |]; try (right; discriminate).
      destruct (decide (j = i)) as [->|]; [by left|right; congruence]. }
    destruct Hm as [->|Hm].
    + pose proof (own_move _ _ _ _ _ Em Hat) as ->.
      pose proof (fun o c' l Hr => amid_goes others f c c o c' l (reflexivity c) Hr) as Hgo.
      destruct (f c) as [[o|f1] c1]; simpl in *.
      * right. exists [], ms, s, o, c1, [(c, c1)]. split_and!; [done|apply Hgo; constructor|simpl; by rewrite Em].
      * destruct (is_at_after i f1 c1 s) as (c2 & Hat2 & HE2).
        destruct (IH _ _ _ E Hat2) as [(f' & c3 & l1 & H1 & H2)|(ms1 & ms2 & s2 & o & c' & l & -> & H1 & H2)].
        { left. exists f', c3, ((c, c1) :: l1). split; [done|]. intros o c' l Hr.
          apply Hgo. eapply amid_others; [exact HE2|by apply H2]. }
        right. exists (PartyGoes i :: ms1), ms2, s2, o, c', ((c, c1) :: l). split_and!; [done| |simpl; by rewrite Em].
        apply Hgo. by eapply amid_others.
    + destruct (others_move _ _ _ _ _ _ Em Hm Hat) as (c1 & Hat1 & HE1).
      destruct (IH _ _ _ E Hat1) as [(f' & c3 & l1 & H1 & H2)|(ms1 & ms2 & s2 & o & c' & l & -> & H1 & H2)].
      { left. exists f', c3, l1. split; [done|]. intros o c' l Hr. eapply amid_others; [exact HE1|by apply H2]. }
      right. exists (m :: ms1), ms2, s2, o, c', l. split_and!; [done|by eapply amid_others|simpl; by rewrite Em].
Qed.

(** The task of a connection whose next line holds a command is that of the command, once
    the line is read. *)
Lemma serving_command cmd (c : Ctx S A) o c' l : next_command (cx_conn c) = Some cmd -> cmd_name cmd <> lit "QUIT" ->
  amid others (cut_task serving_turns) c o c' l ->
  exists c1 o1 c2 l1 l2 l3, cx_conn c1 = after_line (cx_conn c) /\ cx_session c1 = cx_session c
    /\ l = l1 ++ l2 ++ l3 /\ amid others (cut_task (dispatch_turns any_world cmd)) c1 o1 c2 l2.
Proof.
  unfold next_command. destruct (fst (conn_read_line (cx_conn c))) as [[|x t]|e| |] eqn:El; try done.
  destruct (parse_command _) as [[r cmd']|] eqn:Ep; [|done]. intros [= ->] Hq Hr.
  assert (Hturn : exists o1 c2 l1, amid others (cut_task (client_turn_turns any_world)) c o1 c2 l1 /\ exists l2, l = l1 ++ l2).
  { unfold serving_turns in Hr. cbn [cut_task cut_bind] in Hr.
    apply amid_followed in Hr as [(go & c2 & l1 & l2 & H1 & _ & ->)|(o1 & H1 & _)].
    - exists (Ret go), c2, l1. eauto.
    - exists o1, c', l. split; [done|]. exists []. by rewrite app_nil_r. }
  destruct Hturn as (o1 & c2 & l1 & H1 & l2 & ->). unfold client_turn_turns in H1. open_cut in H1.
  assert (Hread : forall c0 o1 c3, others c c0 -> read_command_line c0 = (o1, c3) ->
    o1 = Ret (Some (x :: t)) /\ c3 = set_conn (after_line (cx_conn c)) c0).
  { intros c0 o2 c3 HE E. rewrite (read_command_line_after c0 x t) in E by (by rewrite (ot_conn _ _ HE)).
    rewrite (ot_conn _ _ HE) in E. by injection E as <- <-. }
  apply amid_followed in H1 as [(a & c3 & l3 & l4 & (c0 & HE & Er & ->)%amid_one_turn & H1 & ->)|
                                (o2 & (c0 & HE & Er & ->)%amid_one_turn & Hn & _)];
    destruct (Hread _ _ _ HE Er) as [E1 E2]; [injection E1 as ->|by destruct (Hn _ E1)].
  cbv beta iota in H1. revert H1. generalize (fun r cmd Ep w => line_heard (S:=S) (A:=A) any_world x t r cmd w Ep).
  rewrite Ep. intros Ho H1. unfold parsed_turns in H1.
  destruct (str_eqb (cmd_name cmd) (lit "QUIT")) eqn:Eq; [by apply str_eqb_eq in Eq|].
  assert (Hd : exists o3 c4 l5 l6, amid others (cut_task (dispatch_turns any_world cmd)) c3 o3 c4 l5 /\ l4 = l5 ++ l6).
  { open_cut in H1. apply amid_followed in H1 as [(r1 & c4 & l5 & l6 & H3 & _ & ->)|(o3 & H3 & _)];
      apply amid_caught in H3 as (o4 & H3 & _); eexists _, _; [exists l5, l6; split; [exact H3|done]|].
    exists l4, []. split; [exact H3|by rewrite app_nil_r]. }
  destruct Hd as (o3 & c4 & l5 & l6 & Hd & ->). exists c3, o3, c4, [(c0, c3)], l5, (l6 ++ l2).
  split_and!; [by rewrite E2|rewrite E2; exact (ot_session _ _ HE)|by rewrite <- !app_assoc|done].
Qed.

Lemma dispatch_post args : cut_task (dispatch_turns (S:=S) (A:=A) any_world (mkCommand (lit "POST") args))
  = cut_task (post_turns (heard any_world (lit "POST") args) args).
Proof. reflexivity. Qed.
End InCompany.

Section Claims.
Context {X : Ext} {Net : MilterNet} {S A : Type} `{Storage S} `{!StorageLaws S} `{AuthProvider A}.

(** C1: however the turns of the connections' commands, of the workers and of the clean-up
    are interleaved with each other, with reloads and with the persistence of usage - between
    any two calls of a command the others may have changed the stores, the queue, the tracker
    and the configuration - the article store stays well formed; the accounts change only by
    keys and usage; the channel holds at most its capacity and no worker is lost.  Every article that
    is queued or in a worker's hands was checked: with a configuration and stores found at moments
    of the run it has From, Subject and newsgroups, each of these existed, its size is within the limit
    of each, and each that was moderated it was approved for, by a moderator's signature.  Every session
    has the policy its connection was opened with; it is authenticated only where that policy
    allows it, and after its own client named a user and gave a password which the back end, as the
    accounts were at a moment of the run, found right; it is an administrator's only if the
    back end said so of such a user. *)
Theorem interleaved_safe (t : Stores S A) (c : Config) (capacity workers : nat) (ms : list Move) (s : Live S A) :
  let s0 := start_live t c capacity workers in
  st_wf (sto_storage t) -> live_run ms s0 = Some s ->
  st_wf (sto_storage (lv_stores s))
  /\ rtc account_update (sto_auth t) (sto_auth (lv_stores s))
  /\ lv_config s = config_after c (reloads ms)
  /\ (length (q_items (lv_queue s)) <= capacity)%nat
  /\ length (lv_workers s) = workers
  /\ (forall a, In a (queued (lv_queue s)) \/ in_hand s a ->
       acceptable (seen s0 ms) (configured_at s0 ms) (qa_message a) (qa_size a))
  /\ forall i p, lv_parties s !! i = Some p -> session_true s0 ms c ms i (pt_session p).
Proof.
  intros s0 Hw E. destruct (live_run_ok t c capacity workers ms ms [] s) as [H1 H2 H3 [H4 _] H5 H6 H7 H8 _ _];
    [by rewrite app_nil_r|done|exact E|]. rewrite H5 in H4. split_and!; try done. intros i p Hi.
  destruct (H8 i p Hi) as (conn & tls & before & Ho & P1 & P2 & P3 & _ & [K1 K2 K3 K4] & _).
  exists conn, tls, before. by split_and!.
Qed.

(** The server whose commands, articles and clean-ups run without a break ([System.v]) is
    one of the ways the turns can come: whatever state it reaches is reached by turns, with
    every connection between two commands, every worker between two articles, and the same
    reloads. *)
Lemma unbroken_runs_interleaved (t : Stores S A) (c : Config) (capacity workers : nat) (es : list Event)
    (s : System S A) :
  sys_run es (start_system t c capacity workers) = Some s ->
  exists ms, live_run ms (start_live t c capacity workers) = Some (embed s) /\ reloads ms = configured es.
Proof. intros E. rewrite <- embed_start. exact (sys_run_interleaved _ _ _ E). Qed.
End Claims.

(** ** Concrete interleavings *)
Module ToyLive.
Import ToySystem.

Definition live : Live Db AuthDb := start_live (mkStores two_db accounts) config 10 2.
Definition moves_run_of (workers : nat) (ms : list Move) : option (Live Db AuthDb) :=
  @live_run Toy.ext no_milter Db AuthDb toy_storage toy_auth ms (start_live (mkStores two_db accounts) config 10 workers).
Definition moves_run : list Move -> option (Live Db AuthDb) := moves_run_of 2.
Definition enters (i : nat) (text : str) : list Move :=
  PartyOpens i (mkConn (input text) Eof []) true :: replicate 2 (PartyGoes i).

(** Two clients offer the same article.  Whether it is known is asked before it is sent for,
    so both are told to send it, and it is stored twice: it has two numbers. *)
Definition offer : str :=
  lit "IHAVE <n@x>" ++ crlf ++ lit "From: a@b" ++ crlf ++ lit "Subject: t" ++ crlf
  ++ lit "Newsgroups: misc.a" ++ crlf ++ lit "Message-ID: <n@x>" ++ crlf ++ crlf ++ lit "text" ++ crlf ++ lit "." ++ crlf.
Definition two_offers : list Move :=
  enters 0 offer ++ enters 1 offer ++ [PartyReads 0 clock0; PartyReads 1 clock0]
  ++ mjoin (replicate 15 [PartyGoes 0; PartyGoes 1]).
Definition one_after_the_other : list Move :=
  enters 0 offer ++ enters 1 offer ++ PartyReads 0 clock0 :: replicate 15 (PartyGoes 0)
  ++ PartyReads 1 clock0 :: replicate 3 (PartyGoes 1).
Definition numbers (s : Live Db AuthDb) : list (result N) :=
  @list_article_numbers Db toy_storage (lit "misc.a") (sto_storage (lv_stores s)).
Definition number_of (n : N) (s : Live Db AuthDb) : result (option str) :=
  match @get_article_by_number Db toy_storage (lit "misc.a") n (sto_storage (lv_stores s)) with
  | Ok (Some a) => Ok (extract_message_id a)
  | Ok None => Ok None
  | Err e => Err e
  end.

Example offered_twice :
  (fun s => (numbers s, number_of 3 s, number_of 4 s)) <$> moves_run two_offers
    = Some (Ok <$> [1; 2; 3; 4], Ok (Some (lit "<n@x>")), Ok (Some (lit "<n@x>")))
  /\ numbers <$> moves_run one_after_the_other = Some (Ok <$> [1; 2; 3]).
Proof. vm_compute. split; reflexivity. Qed.

(** Two clients post the same article.  Each of two workers asks whether it is stored before
    the other has stored it, so it has two numbers; one worker after the other gives it one. *)
Definition same_post : str :=
  lit "POST" ++ crlf ++ lit "From: a@b" ++ crlf ++ lit "Subject: t" ++ crlf
  ++ lit "Newsgroups: misc.a" ++ crlf ++ lit "Message-ID: <n@x>" ++ crlf ++ crlf ++ lit "text" ++ crlf ++ lit "." ++ crlf.
Definition two_posts : list Move :=
  enters 0 same_post ++ enters 1 same_post ++ [PartyReads 0 clock0; PartyReads 1 clock0]
  ++ mjoin (replicate 13 [PartyGoes 0; PartyGoes 1]) ++ [LabourTakes 0; LabourTakes 1].
Definition workers_together : list Move :=
  [LabourStarts 0 0; LabourStarts 1 0] ++ mjoin (replicate 2 [LabourGoes 0; LabourGoes 1]).
Definition workers_in_turn : list Move :=
  LabourStarts 0 0 :: replicate 2 (LabourGoes 0) ++ LabourStarts 1 0 :: replicate 1 (LabourGoes 1).

Example posted_twice :
  (fun s => (numbers s, number_of 3 s, number_of 4 s)) <$> moves_run (two_posts ++ workers_together)
    = Some (Ok <$> [1; 2; 3; 4], Ok (Some (lit "<n@x>")), Ok (Some (lit "<n@x>")))
  /\ numbers <$> moves_run (two_posts ++ workers_in_turn) = Some (Ok <$> [1; 2; 3]).
Proof. vm_compute. split; reflexivity. Qed.

(** Bob's password is looked up; then a reload forbids clear-text logins; then he is in. *)
Definition strict : Config :=
  mkConfig (lit ":119") (lit "localhost") [] [] [] [] 600 [] None None None None 1000 1 1 [] [] []
    false false (mkUserLimitsConfig true 5 None None).
Definition bob_enters : list Move :=
  enters 0 (login_as (lit "bob")) ++ PartyReads 0 clock0 :: replicate 4 (PartyGoes 0)
  ++ PartyReads 0 clock0 :: replicate 3 (PartyGoes 0) ++ [ConfigReloads strict; UsagePersists 0]
  ++ replicate 6 (PartyGoes 0).
Definition bob_live : Live Db AuthDb := default live (moves_run bob_enters).

Lemma bob_enters_runs : moves_run bob_enters = Some bob_live.
Proof. vm_compute. reflexivity. Qed.

(** An article is posted and waits in the queue. *)
Definition one_post : list Move := enters 0 same_post ++ PartyReads 0 clock0 :: replicate 13 (PartyGoes 0).
Definition posted_live : Live Db AuthDb := default live (moves_run one_post).

Lemma one_post_runs : moves_run one_post = Some posted_live.
Proof. vm_compute. reflexivity. Qed.
End ToyLive.

Lemma interleaved_safe_witness :
  (exists p conn u, lv_parties ToyLive.bob_live !! 0%nat = Some p /\ is_authenticated (pt_session p) = true
   /\ allow_anonymous_posting (pt_session p) = true /\ cfg_allow_anonymous_posting (lv_config ToyLive.bob_live) = false
   /\ @logs_in Db AuthDb ToySystem.toy_auth (c_in conn)
        (@seen Toy.ext no_milter Db AuthDb ToySystem.toy_storage ToySystem.toy_auth ToyLive.live ToyLive.bob_enters) u)
  /\ exists a, queued (lv_queue ToyLive.posted_live) = [a]
   /\ extract_message_id (qa_message a) = Some (lit "<n@x>")
   /\ @acceptable Toy.ext Db AuthDb ToySystem.toy_storage ToySystem.toy_auth
        (@seen Toy.ext no_milter Db AuthDb ToySystem.toy_storage ToySystem.toy_auth ToyLive.live ToyLive.one_post)
        (@configured_at Toy.ext no_milter Db AuthDb ToySystem.toy_storage ToySystem.toy_auth ToyLive.live ToyLive.one_post)
        (qa_message a) (qa_size a).
Proof.
  split.
  - destruct (lv_parties ToyLive.bob_live !! 0%nat) as [p|] eqn:E; [|exfalso; vm_compute in E; discriminate E].
    destruct (@interleaved_safe Toy.ext no_milter Db AuthDb ToySystem.toy_storage ToySystem.toy_laws ToySystem.toy_auth
                (mkStores two_db ToySystem.accounts) ToySystem.config 10 2 ToyLive.bob_enters ToyLive.bob_live)
      as (_ & _ & _ & _ & _ & _ & Hs); [exact ToySystem.server_wf|exact ToyLive.bob_enters_runs|].
    destruct (Hs _ _ E) as (conn & tls & before & _ & _ & _ & _ & Ha & _).
    assert (Hp : is_authenticated (pt_session p) = true /\ allow_anonymous_posting (pt_session p) = true).
    { vm_compute in E. injection E as <-. split; reflexivity. }
    destruct Hp as [Hi Hn]. destruct (Ha Hi) as (_ & u & Hu). exists p, conn, u. split; [reflexivity|].
    split; [exact Hi|]. split; [exact Hn|]. split; [vm_compute; reflexivity|exact Hu].
  - destruct (queued (lv_queue ToyLive.posted_live)) as [|a [|b l]] eqn:Eq; [exfalso; vm_compute in Eq; discriminate Eq| |exfalso; vm_compute in Eq; discriminate Eq].
    exists a. split; [reflexivity|]. split; [vm_compute in Eq; injection Eq as <-; reflexivity|].
    destruct (@interleaved_safe Toy.ext no_milter Db AuthDb ToySystem.toy_storage ToySystem.toy_laws ToySystem.toy_auth
                (mkStores two_db ToySystem.accounts) ToySystem.config 10 2 ToyLive.one_post ToyLive.posted_live)
      as (_ & _ & _ & _ & _ & Hq & _); [exact ToySystem.server_wf|exact ToyLive.one_post_runs|].
    apply Hq. left. rewrite Eq. left. reflexivity.
Defined.
