(* ===== verification/Delivery.v ===== *)
(** * Delivery: from the 240 of a POST to the article in the store

    The steps of the server ([System.v]) are turns of the pool of workers ([Workers.v]), in
    which everything but the workers is another task; so what a run of the pool promises,
    a run of the server does. *)

From stdpp Require Import base numbers list gmap strings relations.
From Stdlib Require Import NArith ZArith Lia.
From S2P Require Import Prelude Text Externals Message Wildmat Config Settings Limits Auth SqliteAuth Tracker Storage SqliteStorage Responses Session Wire Control Milter Filters Retention Queue Workers Context ArticleHandlers GroupHandlers PostHandlers Server Served Replies Lifecycle System.
Local Open Scope N_scope.

(** ** The system runs the pool of [Workers.v] *)
Section Pool.
Context {X : Ext} {Net : MilterNet} {S A : Type} `{Storage S} `{!StorageLaws S} `{AuthProvider A}.
Implicit Types s : System S A.

(** The turn of the pool a step is: what was queued in between is what there is more. *)
Definition turn_of (e : Event) s s' : Turn S A :=
  match e with
  | WorkerTakes w => Takes w
  | WorkerFinishes w now => Finishes w now (sy_config s)
  | _ => Others (drop (length (queued (sy_queue s))) (queued (sy_queue s'))) (sy_stores s')
  end.

Lemma submitted_between l q : channel_ok q -> drop (length (queued q)) (queued (submit_all l q)) = l.
Proof.
  intros Hq. unfold queued. destruct (submit_all_line l q Hq) as [_ ->]. by rewrite drop_app_length.
Qed.

Lemma nothing_submitted (q : ArticleQueue) : drop (length (queued q)) (queued q) = [].
Proof. by rewrite drop_all. Qed.

Lemma shared_turn s clock cl c (p : Pool S A) : channel_ok (sy_queue s) -> served (client_ctx clock cl s) c ->
  p = sy_pool (shared c s) ->
  pool_turn (Others (drop (length (queued (sy_queue s))) (queued (po_queue p))) (po_stores p)) (sy_pool s) = Some p.
Proof.
  intros Hq Hc ->. destruct (srv_queue _ _ Hc) as (l & _ & Hl). simpl in *. rewrite Hl.
  by rewrite submitted_between.
Qed.

Lemma sys_step_pool e s s' : channel_ok (sy_queue s) -> sys_step e s = Some s' ->
  pool_turn (turn_of e s s') (sy_pool s) = Some (sy_pool s').
Proof.
  intros Hq. destruct e as [i conn tls|i clock|w|w now|min_instant now|now|n]; cbn [sys_step turn_of].
  - unfold client_opens. destruct (sy_clients s !! i); [done|].
    set (c := new_client conn tls _ _ _ _ _). destruct (greeting c) as [o c'] eqn:E.
    assert (Hc : served (client_ctx (fun _ => 0%Z) (mkClient conn (cx_session c) false) s) c').
    { assert (Hg : moves served (greeting (S:=S) (A:=A))) by (unfold greeting; apply steady_moves; steady).
      by apply Hg in E. }
    destruct o as [[]|e| |]; intros [= <-]; by eapply shared_turn.
  - unfold client_turns. destruct (sy_clients s !! i) as [cl|]; [|done]. destruct (cl_hangs cl); [done|].
    destruct (client_turn (client_ctx clock cl s)) as [o c] eqn:E. apply client_turn_served in E.
    destruct o as [[|]|e| |]; intros [= <-]; try by eapply shared_turn.
    eapply shared_turn; [done| |reflexivity]. etrans; [exact E|].
    destruct (client_done c) as [od c1] eqn:Ed. by apply client_done_served in Ed.
  - by intros (p & Ep & ->)%fmap_Some.
  - by intros (p & Ep & ->)%fmap_Some.
  - destruct (retention_turn _ _ _ _) as [o st]. intros [= <-]. simpl. unfold sy_queue at 3. simpl.
    by rewrite nothing_submitted.
  - intros [= <-]. simpl. unfold sy_queue at 3. simpl. by rewrite nothing_submitted.
  - intros [= <-]. simpl. unfold sy_queue. simpl. rewrite nothing_submitted. by destruct (sy_pool s).
Qed.
End Pool.

(** ** From the 240 of a POST to the article in the store *)
Section Posting.
Context {X : Ext} {Net : MilterNet} {S A : Type} `{Storage S} `{!StorageLaws S} `{AuthProvider A}.
Implicit Types s : System S A.

Definition is_post (k : Conn) : bool :=
  match next_command k with Some cmd => str_eqb (cmd_name cmd) (lit "POST") | None => false end.

(** What was said to acknowledge an article. *)
Definition acknowledged (before after : Conn) : Prop :=
  c_out after = c_out before ++ RESP_340_SEND_ARTICLE ++ RESP_240_ARTICLE_RECEIVED.

Lemma post_turn (c : Ctx S A) : is_post (cx_conn c) = true ->
  exists args, snd (client_turn c) = snd (PostHandler args (set_conn (after_line (cx_conn c)) c)).
Proof.
  unfold is_post. destruct (next_command (cx_conn c)) as [cmd|] eqn:Ec; [|done].
  intros Hp. apply str_eqb_eq in Hp. exists (cmd_args cmd).
  rewrite (client_turn_command c cmd Ec); [|rewrite Hp; discriminate].
  rewrite command_caught. unfold dispatch_command. rewrite Hp. reflexivity.
Qed.

(** What a connection is told tells what happened. *)
Lemma acknowledged_posted (c c' : Ctx S A) args : snd (PostHandler args (set_conn (after_line (cx_conn c)) c)) = c' ->
  acknowledged (cx_conn c) (cx_conn c') ->
  exists o, posted (set_conn (after_line (cx_conn c)) c) c' o.
Proof.
  destruct (PostHandler args _) as [o c1] eqn:E. simpl. intros <-. apply post_cases in E as [_ E].
  unfold acknowledged. intros Hack. rewrite <- (after_line_out (cx_conn c)) in Hack.
  destruct (session_can_post _); [destruct E as [E|[_ (r & Hr & Ho)]]; [by exists o|]|destruct E as [_ ->]]; exfalso.
  - simpl in Ho. rewrite Hack in Ho. apply app_inv_head in Ho. subst r. revert Hr.
    intros [H1|[H1|[H1|[H1|[H1|[]]]]]]; discriminate H1.
  - unfold replied in Hack. simpl in Hack. apply app_inv_head in Hack.
    destruct (is_tls _); discriminate Hack.
Qed.

(** *** Runs without end *)
Section Run.
Context (run : nat -> System S A) (events : nat -> Event).
Hypothesis step : forall n, sys_step (events n) (run n) = Some (run (Datatypes.S n)).

Lemma run_prefix n : sys_run (events <$> seq 0 n) (run 0%nat) = Some (run n).
Proof.
  induction n as [|n IH]; [done|]. rewrite seq_S, fmap_app.
  change (events <$> [(0 + n)%nat]) with [events n]. rewrite sys_run_snoc, IH. exact (step n).
Qed.

(** The turn of worker [w], or an empty channel for it to wait at. *)
Definition worker_has_turn (w : nat) (e : Event) : Prop :=
  match e with WorkerTakes v | WorkerFinishes v _ => v = w | _ => False end.

Definition turns (n : nat) : Turn S A := turn_of (events n) (run n) (run (Datatypes.S n)).

Lemma worker_turn w n : has_turn w (turns n) <-> worker_has_turn w (events n).
Proof. unfold turns. by destruct (events n). Qed.

Lemma pool_steps : (forall n, channel_ok (sy_queue (run n))) ->
  forall n, pool_turn (turns n) (sy_pool (run n)) = Some (sy_pool (run (Datatypes.S n))).
Proof. intros Hc n. by apply sys_step_pool. Qed.

Lemma turn_finishes m w now c : turns m = Finishes w now c ->
  events m = WorkerFinishes w now /\ c = sy_config (run m).
Proof. unfold turns. destruct (events m); simpl; intros E; try discriminate E; injection E as -> -> ->; done. Qed.
End Run.
End Posting.

Section Liveness.
Context {X : Ext} {Net : MilterNet} {S A : Type} `{Storage S} `{!StorageLaws S} `{AuthProvider A}.

(** What becomes of an acknowledged article: a worker finishes it at some later step, and the
    stores are then as its processing leaves them; if that succeeds, and the article is no
    control message, an article of its Message-ID is readable. *)
Definition eventually_stored (run : nat -> System S A) (events : nat -> Event) (n : nat)
    (q : QueuedArticle) : Prop :=
  exists m w now, (n < m)%nat /\ events m = WorkerFinishes w now
    /\ po_workers (sy_pool (run m)) !! w = Some (Busy q)
    /\ let r := process_article now (sy_config (run m)) q (sy_stores (run m)) in
       sy_stores (run (Datatypes.S m)) = snd r
       /\ (qa_is_control q = false -> fst r = Ret tt ->
           forall id, extract_message_id (qa_message q) = Some id -> id <> [] ->
           exists b, get_article_by_id id (sto_storage (sy_stores (run (Datatypes.S m)))) = Ok (Some b)).

(** C4: an article that POST acknowledged is stored: in every run of the whole server - any
    connections and commands, any order of them and of the workers, the clean-up, the
    persistence of usage and reloads - in which no worker is starved and processing comes
    to an end, if a POST is answered with 240, then the article its client sent, completed
    as the configuration of that time says, is taken by a worker after finitely many steps
    and finished; if its processing succeeds, an article of its Message-ID is readable. *)
Theorem acknowledged_article_stored (run : nat -> System S A) (events : nat -> Event)
    (t : Stores S A) (c : Config) (capacity workers n i : nat) (clock : nat -> Z) (cl cl' : Client) :
  (forall k, sys_step (events k) (run k) = Some (run (Datatypes.S k))) ->
  run 0%nat = start_system t c capacity workers -> st_wf (sto_storage t) -> (0 < workers)%nat ->
  (forall w k, (w < workers)%nat -> exists d,
     worker_has_turn w (events (k + d)%nat) \/ nothing_for w (sy_pool (run (k + d)%nat))) ->
  events n = Turns i clock ->
  sy_clients (run n) !! i = Some cl -> sy_clients (run (Datatypes.S n)) !! i = Some cl' ->
  is_post (cl_conn cl) = true -> acknowledged (cl_conn cl) (cl_conn cl') ->
  exists msg a date,
    fst (read_message (wrote RESP_340_SEND_ARTICLE (after_line (cl_conn cl)))) = Ret msg
    /\ parse_message msg = Some a
    /\ eventually_stored run events n
         (mkQueuedArticle (complete_article date (sy_config (run n)) a) (utf8_len msg)
            (is_control_message a) true).
Proof.
  intros Hstep Hstart Hwf Hw Hfair Hn Hi Hi' Hpost Hack.
  assert (Hok : forall k, sys_ok (sto_auth t) c (capacity, workers) (events <$> seq 0 k) (run k)).
  { intros k. apply sys_run_ok; [done|]. rewrite <- Hstart. by apply run_prefix. }
  assert (Hc : forall k, channel_ok (sy_queue (run k))) by (intros k; by destruct (Hok k)).
  pose proof (pool_steps run events Hstep Hc) as Hpool.
  assert (Hposted : exists o cx, sy_queue (run (Datatypes.S n)) = cx_queue cx
    /\ posted (set_conn (after_line (cl_conn cl)) (client_ctx clock cl (run n))) cx o).
  { pose proof (Hstep n) as E. rewrite Hn in E. simpl in E. unfold client_turns in E. rewrite Hi in E.
    destruct (cl_hangs cl); [done|].
    destruct (post_turn (client_ctx clock cl (run n)) Hpost) as [args Hp].
    destruct (client_turn (client_ctx clock cl (run n))) as [ot cx]. cbn [snd] in Hp.
    assert (Hst : exists b, run (Datatypes.S n) = stays i b cx (run n)).
    { destruct ot as [[|]|e| |]; injection E as E; try (by eexists); exfalso;
        rewrite <- E in Hi'; simpl in Hi'; by rewrite lookup_delete_eq in Hi'. }
    destruct Hst as [b Hst]. rewrite Hst in Hi' |- *. simpl in Hi'. rewrite lookup_insert_eq in Hi'.
    injection Hi' as <-. destruct (acknowledged_posted _ cx args (eq_sym Hp) Hack) as [o Ho].
    by exists o, cx. }
  destruct Hposted as (o & cx & Hq & msg & conn & a & date & st & st' & Er & Ep & _ & _ & Hcx & _ & _).
  exists msg, a, date. simpl in Er, Hcx. split; [by rewrite Er|]. split; [done|].
  set (q := mkQueuedArticle _ _ _ _) in *.
  assert (Ht : turns run events n = Others [q] (sy_stores (run (Datatypes.S n)))).
  { unfold turns. rewrite Hn. simpl. rewrite Hq, Hcx. f_equal. by apply (submitted_between [q]). }
  destruct (submitted_finished (fun k => sy_pool (run k)) (turns run events) Hpool) with
    (n := n) (l := @nil QueuedArticle) (a := q) (k := @nil QueuedArticle) (t := sy_stores (run (Datatypes.S n)))
    as (m & w & now & c' & Hm & Hf & Hb); [|by destruct (Hok 0%nat)| |done|].
  { intros w k Hk. destruct (Hfair w k) as [d Hd]; [by rewrite (so_workers _ _ _ _ _ (Hok k)) in Hk|].
    exists d. by rewrite worker_turn. }
  { by rewrite (so_workers _ _ _ _ _ (Hok 0%nat)). }
  pose proof (turn_finishes run events m w now c' Hf) as [He ->].
  exists m, w, now. split; [done|]. split; [done|]. split; [done|]. cbv zeta.
  assert (Hs : sy_stores (run (Datatypes.S m)) = snd (process_article now (sy_config (run m)) q (sy_stores (run m))))
    by exact (finish_stores (fun k => sy_pool (run k)) (turns run events) Hpool m w now _ q Hf Hb).
  split; [exact Hs|]. intros Hctl Hret id Hid Hne.
  destruct (process_article now (sy_config (run m)) q (sy_stores (run m))) as [or stp] eqn:Epr.
  simpl in Hret, Hs. subst or. rewrite Hs. eapply processed_readable; [|exact Hid|exact Hne|apply (Hok m)|exact Epr].
  by split.
Qed.
End Liveness.

(** ** A client posts; the only worker takes the article and finishes it; usage is persisted
    ever after *)
Module ToyPosting.
Import ToySystem.
Definition post_event (n : nat) : Event :=
  match n with
  | 0 => Opens 0 (mkConn (input (lit "POST" ++ crlf ++ posted_text)) Eof []) false
  | 1 => Turns 0 clock0
  | 2 => WorkerTakes 0
  | 3 => WorkerFinishes 0 0
  | _ => Persists 0
  end%nat.
Definition post_run (n : nat) : System Db AuthDb :=
  foldl (fun s e => default s (step e s)) server (post_event <$> seq 0 n).

Lemma post_run_S n : post_run (S n) = default (post_run n) (step (post_event n) (post_run n)).
Proof. unfold post_run. rewrite seq_S, fmap_app, foldl_app. reflexivity. Qed.

Lemma post_run_steps k : step (post_event k) (post_run k) = Some (post_run (S k)).
Proof. rewrite post_run_S. destruct k as [|[|[|[|k]]]]; [vm_compute; reflexivity..|]. reflexivity. Qed.

Lemma post_run_idle n : nothing_for 0 (sy_pool (post_run (4 + n))).
Proof.
  induction n as [|n [IH1 IH2]]; [split; vm_compute; reflexivity|].
  replace (4 + S n)%nat with (S (4 + n)) by lia. rewrite post_run_S. split; [exact IH1|exact IH2].
Qed.

Definition posting (n : nat) : Client :=
  default (mkClient (mkConn [] Eof []) reader true) (sy_clients (post_run n) !! 0%nat).
End ToyPosting.

Lemma acknowledged_article_stored_witness :
  acknowledged (cl_conn (ToyPosting.posting 1)) (cl_conn (ToyPosting.posting 2))
  /\ exists q m w now, (1 < m)%nat /\ ToyPosting.post_event m = WorkerFinishes w now
     /\ po_workers (sy_pool (ToyPosting.post_run m)) !! w = Some (Busy q).
Proof.
  assert (Hack : acknowledged (cl_conn (ToyPosting.posting 1)) (cl_conn (ToyPosting.posting 2)))
    by (vm_compute; reflexivity).
  split; [exact Hack|].
  destruct (@acknowledged_article_stored Toy.ext no_milter Db AuthDb ToySystem.toy_storage ToySystem.toy_laws
              ToySystem.toy_auth ToyPosting.post_run ToyPosting.post_event (mkStores two_db ToySystem.accounts)
              ToySystem.config 10 1 1 0 ToySystem.clock0 (ToyPosting.posting 1) (ToyPosting.posting 2))
    as (msg & a & date & _ & _ & m & w & now & Hm & He & Hb & _).
  - exact ToyPosting.post_run_steps.
  - reflexivity.
  - exact ToySystem.server_wf.
  - lia.
  - intros w k Hw. replace w with 0%nat by lia. exists 4%nat. right.
    replace (k + 4)%nat with (4 + k)%nat by lia. apply ToyPosting.post_run_idle.
  - reflexivity.
  - vm_compute. reflexivity.
  - vm_compute. reflexivity.
  - vm_compute. reflexivity.
  - exact Hack.
  - eexists _, m, w, now. split; [exact Hm|]. split; [exact He|exact Hb].
Defined.
