(* ===== verification/Slots.v ===== *)
(** * Slots: connections counted over the whole server ([limits/tracker.rs], [handlers/auth.rs])

    The count a login adds to and the end of a connection takes from, over all the
    connections of a running server ([System.v]): what it bounds, and how AUTHINFO USER
    gets around it. *)

From stdpp Require Import base numbers list gmap strings relations.
From Stdlib Require Import NArith ZArith Lia.
From S2P Require Import Prelude Text Externals Message Wildmat Config Settings Limits Auth SqliteAuth Tracker Storage SqliteStorage Responses Session Wire Control Milter Filters Retention Queue Workers Context ArticleHandlers GroupHandlers PostHandlers Server Served Replies Lifecycle System.
Local Open Scope N_scope.

(** ** Connections counted over the whole server *)
Section Counting.
Context {X : Ext} {Net : MilterNet} {S A : Type} `{Storage S} `{!StorageLaws S} `{AuthProvider A} `{!AuthStable A}.
Implicit Types s : System S A.

Definition held (x : Session) (u : str) : N := if decide (limited_user x = Some u) then 1 else 0.
Definition live_in (m : gmap nat Client) (u : str) : N :=
  N.of_nat (size (filter (fun kv : nat * Client => limited_user (cl_session (snd kv)) = Some u) m)).
(** The connections of a user that are open. *)
Definition live (u : str) s : N := live_in (sy_clients s) u.

Lemma live_fresh m i cl u : m !! i = None -> live_in (<[i := cl]> m) u = live_in m u + held (cl_session cl) u.
Proof.
  intros Hi. unfold live_in, held. destruct (decide (limited_user (cl_session cl) = Some u)) as [Hl|Hl].
  - rewrite map_filter_insert_True by done. rewrite map_size_insert_None; [lia|].
    apply map_lookup_filter_None. by left.
  - rewrite map_filter_insert_False by done. rewrite delete_id by done. lia.
Qed.

Lemma live_delete m i cl u : m !! i = Some cl -> live_in m u = live_in (delete i m) u + held (cl_session cl) u.
Proof. intros Hi. rewrite <- (live_fresh (delete i m) i cl) by apply lookup_delete_eq. by rewrite insert_delete_id. Qed.

Lemma live_insert m i cl u : live_in (<[i := cl]> m) u = live_in (delete i m) u + held (cl_session cl) u.
Proof. rewrite <- (live_fresh (delete i m) i cl) by apply lookup_delete_eq. by rewrite insert_delete_eq. Qed.

(** A tracker that has counted at most [k] connections of each user, and none above its limit. *)
Record counted (a0 : A) (d : UserLimitsConfig) (k : N) (tr : UsageTracker) : Prop := {
  ct_cache : cache_ok a0 tr;
  ct_defaults : defaults tr = d;
  ct_bound : forall u, count_of (connections tr) u <= k;
  ct_within : forall u, within (max_connections_of a0 d u) (count_of (connections tr) u);
}.

Lemma limits_stable a a' u : rtc account_update a a' -> get_user_limits u a' = get_user_limits u a.
Proof.
  induction 1 as [|a b a' [(v & k & ->)|(now & v & x & ->)] _ IH]; [done|..]; rewrite IH;
    [apply limits_key|apply limits_usage].
Qed.

Lemma cache_stable a a' tr : rtc account_update a a' -> cache_ok a' tr <-> cache_ok a tr.
Proof.
  intros Ha. unfold cache_ok. split; intros Hc u l Hl; specialize (Hc u l Hl);
    by rewrite (limits_stable a a') in * by done.
Qed.

Lemma max_stable a a' d u : rtc account_update a a' -> max_connections_of a' d u = max_connections_of a d u.
Proof. intros Ha. unfold max_connections_of, stored_or_default. by rewrite (limits_stable a a' u Ha). Qed.

Lemma tracker_served_cache a0 a t t' : rtc account_update a0 a -> tracker_served a t t' ->
  cache_ok a0 t -> cache_ok a0 t' /\ defaults t' = defaults t.
Proof.
  intros Ha [Hd Hl] Hc. split; [|done]. intros u l Hu. destruct (Hl u l Hu) as [|(b & Hb & Hg)]; [by apply Hc|].
  rewrite <- (limits_stable a0 b u); [exact Hg|]. etrans; [exact Ha|]. by apply key_updates_account.
Qed.

Lemma counted_steady a0 d k a t t' : rtc account_update a0 a -> tracker_served a t t' ->
  connections t' = connections t -> counted a0 d k t -> counted a0 d k t'.
Proof.
  intros Ha Ht Hc [H1 H2 H3 H4]. destruct (tracker_served_cache _ _ _ _ Ha Ht H1) as [Hk Hd].
  split; [done|congruence|intros u; by rewrite Hc..].
Qed.

Lemma counted_more a0 d k k' t : k <= k' -> counted a0 d k t -> counted a0 d k' t.
Proof. intros Hk [H1 H2 H3 H4]. split; try done. intros u. specialize (H3 u). lia. Qed.

Lemma session_steady_limited x x' : session_steady x x' -> limited_user x' = limited_user x.
Proof. intros [_ _ _ H1 H2 H3]. unfold limited_user, is_authenticated. by rewrite H1, H2, H3. Qed.

(** Logging in takes a slot for the user that is logged in, if there is one. *)
Lemma login_counts a0 d k u (c c' : Ctx S A) : rtc account_update a0 (sto_auth (cx_stores c)) ->
  k + 1 < u64_mod -> counted a0 d k (cx_tracker c) -> logged_in u c c' ->
  counted a0 d (k + 1) (cx_tracker c')
  /\ forall v, count_of (connections (cx_tracker c)) v + held (cx_session c') v
              <= count_of (connections (cx_tracker c')) v + held (cx_session c) v.
Proof.
  intros Ha Hk Hc Hl. pose proof (ct_cache _ _ _ _ Hc) as Hcache. rewrite <- (cache_stable a0 _ _ Ha) in Hcache.
  destruct Hl as [c' Hadm [Hs Hcon Hses]|tr c' Et [Hs Hcon Hses]|tr t c' Et [Hs Hcon Hses]];
    apply session_steady_limited in Hses; pose proof (srv_tracker _ _ Hs) as Ht; simpl in *.
  - split; [apply (counted_more _ _ k); [lia|]; by eapply counted_steady|].
    intros v. rewrite Hcon. unfold held at 1. rewrite Hses. rewrite decide_False by done. lia.
  - destruct (try_connect_spec _ _ _ _ _ Hcache Et) as (Hc2 & Hd2 & Ee).
    destruct (connect_entry_spec _ _ _ _ _ Ee) as [[[Hx _]|[_ Hn]] Hv]; [done|].
    assert (Hcount : forall v, count_of (connections tr) v = count_of (connections (cx_tracker c)) v).
    { intros v. destruct (decide (v = u)) as [->|]; [done|by apply Hv]. }
    assert (Hctr : counted a0 d k tr).
    { split; [by apply (cache_stable a0 _ _ Ha)|by rewrite Hd2; apply Hc| |]; intros v; rewrite Hcount; apply Hc. }
    split; [apply (counted_more _ _ k); [lia|]; by eapply counted_steady|].
    intros v. rewrite Hcon, Hcount. unfold held. rewrite Hses. lia.
  - destruct (try_connect_spec _ _ _ _ _ Hcache Et) as (Hc2 & Hd2 & Ee).
    destruct (connect_entry_spec _ _ _ _ _ Ee) as [[(_ & Hw & Hn)|[[] _]] Hv]; [|done].
    assert (Hload : forall P : UsageTracker -> Prop, (forall bw, P (set_bandwidth bw tr)) ->
      P tr -> P (load_user t u (sto_auth (cx_stores c)) tr)).
    { intros P H1 H2. unfold load_user. by destruct (get_user_usage u _). }
    assert (Hcl : connections (load_user t u (sto_auth (cx_stores c)) tr) = connections tr) by by apply Hload.
    pose proof (ct_bound _ _ _ _ Hc u) as Hb.
    assert (Hn' : count_of (connections tr) u = count_of (connections (cx_tracker c)) u + 1).
    { rewrite Hn. unfold fetch_add1. apply N.mod_small. lia. }
    assert (Hctr : counted a0 d (k + 1) tr).
    { split; [by apply (cache_stable a0 _ _ Ha)|by rewrite Hd2; apply Hc| |]; intros v.
      - destruct (decide (v = u)) as [->|Hne]; [lia|]. rewrite (Hv v Hne). pose proof (ct_bound _ _ _ _ Hc v). lia.
      - destruct (decide (v = u)) as [->|Hne]; [|rewrite (Hv v Hne); apply Hc]. rewrite Hn'.
        rewrite (ct_defaults _ _ _ _ Hc) in Hw. by rewrite <- (max_stable a0 _ d u Ha). }
    split.
    + eapply counted_steady; [exact Ha|exact Ht|exact Hcon|]. by apply Hload; [intros bw; destruct Hctr; split|].
    + intros v. rewrite Hcon, Hcl. unfold held at 1. rewrite Hses. unfold limited_user. simpl.
      destruct (decide (v = u)) as [->|Hne]; [rewrite Hn', decide_True by done; lia|].
      rewrite (Hv v Hne), decide_False by congruence. lia.
Qed.

(** A turn that would change the name of a logged-in user: AUTHINFO USER. *)
Definition renames_user (x : Session) (k : Conn) : bool :=
  is_authenticated x && negb (s_is_admin x)
  && match next_command k with
     | Some cmd => is_authinfo cmd && names_user (cmd_args cmd)
     | None => false
     end.
Definition renames (e : Event) s : bool :=
  match e with
  | Turns i _ => match sy_clients s !! i with Some cl => renames_user (cl_session cl) (cl_conn cl) | None => false end
  | _ => false
  end.
Fixpoint names_kept (es : list Event) s : bool :=
  match es with
  | [] => true
  | e :: es => negb (renames e s) && match sys_step e s with Some s => names_kept es s | None => true end
  end.

Lemma names_kept_snoc es e s : names_kept (es ++ [e]) s = true ->
  names_kept es s = true /\ forall s', sys_run es s = Some s' -> renames e s' = false.
Proof.
  revert s. induction es as [|f es IH]; intros s; simpl.
  - intros [Hr _]%andb_true_iff. split; [done|]. intros s' [= <-]. by apply negb_true_iff.
  - intros [Hr Hk]%andb_true_iff. rewrite Hr. destruct (sys_step f s) as [s1|]; [|done]. by apply IH.
Qed.

(** Every turn that keeps the names counts what it takes. *)
Lemma turn_counts a0 d k (c c' : Ctx S A) o : rtc account_update a0 (sto_auth (cx_stores c)) ->
  k + 1 < u64_mod -> counted a0 d k (cx_tracker c) ->
  renames_user (cx_session c) (cx_conn c) = false -> client_turn c = (o, c') ->
  counted a0 d (k + 1) (cx_tracker c')
  /\ forall v, count_of (connections (cx_tracker c)) v + held (cx_session c') v
              <= count_of (connections (cx_tracker c')) v + held (cx_session c) v.
Proof.
  intros Ha Hk Hc Hr E.
  assert (Hsteady : forall c1, rtc account_update a0 (sto_auth (cx_stores c1)) -> cx_tracker c1 = cx_tracker c ->
    (forall v, held (cx_session c1) v <= held (cx_session c) v) -> steady c1 c' ->
    counted a0 d (k + 1) (cx_tracker c')
    /\ forall v, count_of (connections (cx_tracker c)) v + held (cx_session c') v
              <= count_of (connections (cx_tracker c')) v + held (cx_session c) v).
  { intros c1 Ha1 Ht1 Hh [Hs Hcon Hses]. pose proof (srv_tracker _ _ Hs) as Ht. rewrite Ht1 in Ht, Hcon.
    split; [apply (counted_more _ _ k); [lia|]; by eapply counted_steady|].
    intros v. rewrite Hcon. apply session_steady_limited in Hses. specialize (Hh v). unfold held in *.
    rewrite Hses. lia. }
  apply client_turn_cases in E as [Hs|(cmd & kk & Ec & Hau & _ & Hdoes)]; [by apply (Hsteady c)|].
  unfold renames_user in Hr. rewrite Ec, Hau in Hr.
  revert Hr. destruct Hdoes as [b c1 Hs|u c1 Hs|b u p c1 Hcan Hu Hv Hl]; intros Hr.
  - by apply (Hsteady (set_conn kk c)).
  - apply (Hsteady (set_session (set_pending_username u (cx_session c)) (set_conn kk c)) Ha eq_refl);
      [|exact Hs]. intros v. simpl. unfold held.
    rewrite decide_False; [lia|]. unfold limited_user, is_authenticated in *. simpl.
    destruct (authenticated (cx_session c)), (s_is_admin (cx_session c)); done.
  - by apply (login_counts a0 d k u (set_conn kk c)).
Qed.

Definition count_inv (a0 : A) (d : UserLimitsConfig) (k : N) s : Prop :=
  counted a0 d k (sy_tracker s) /\ forall u, live u s <= count_of (connections (sy_tracker s)) u.

(** The slot of a limited user is given back. *)
Lemma done_counts a0 d k (c : Ctx S A) : k < u64_mod -> counted a0 d k (cx_tracker c) ->
  (forall u, held (cx_session c) u <= count_of (connections (cx_tracker c)) u) ->
  counted a0 d k (cx_tracker (snd (client_done c)))
  /\ forall v, count_of (connections (cx_tracker c)) v
              <= count_of (connections (cx_tracker (snd (client_done c)))) v + held (cx_session c) v.
Proof.
  intros Hk Hc Hh. unfold client_done, mbind', session, mgets.
  destruct (limited_user (cx_session c)) as [u|] eqn:Hu; [|split; [done|intros v; simpl; lia]].
  simpl. assert (H1 : held (cx_session c) u = 1) by (unfold held; by rewrite Hu, decide_True).
  assert (Hb : 0 < count_of (connections (cx_tracker c)) u < u64_mod).
  { specialize (Hh u). pose proof (ct_bound _ _ _ _ Hc u). lia. }
  assert (Hcount : forall v, count_of (connections (disconnect u (cx_tracker c))) v
    = count_of (connections (cx_tracker c)) v - held (cx_session c) v).
  { intros v. rewrite disconnect_spec by done. unfold held. rewrite Hu.
    destruct (decide (u = v)) as [->|Hne]; [by rewrite decide_True|]. rewrite decide_False by congruence. lia. }
  split; [|intros v; rewrite Hcount; lia].
  destruct (disconnect_counters u (cx_tracker c)) as [m Hm]. destruct Hc as [C1 C2 C3 C4]. split.
  - rewrite Hm. exact C1.
  - by rewrite Hm.
  - intros v. rewrite Hcount. specialize (C3 v). lia.
  - intros v. rewrite Hcount. specialize (C4 v). destruct (max_connections_of a0 d v); simpl in *; [lia|done].
Qed.

Lemma turns_count a0 d k s i clock s' : rtc account_update a0 (sto_auth (sy_stores s)) -> k + 1 < u64_mod ->
  count_inv a0 d k s -> renames (Turns i clock) s = false -> client_turns i clock s = Some s' ->
  count_inv a0 d (k + 1) s'.
Proof.
  intros Ha Hk [Hc Hl] Hr. unfold client_turns. simpl in Hr.
  destruct (sy_clients s !! i) as [cl|] eqn:Ei; [|done]. destruct (cl_hangs cl); [done|].
  destruct (client_turn (client_ctx clock cl s)) as [o c] eqn:E.
  destruct (turn_counts a0 d k (client_ctx clock cl s) c o Ha Hk Hc Hr E) as [Hc' Hh]. simpl in Hh.
  assert (Hd : forall u, live_in (delete i (sy_clients s)) u + held (cl_session cl) u
                         <= count_of (connections (sy_tracker s)) u).
  { intros u. rewrite <- live_delete by done. apply Hl. }
  destruct o as [[|]|e| |]; intros [= <-]; simpl.
  2: { destruct (done_counts a0 d (k + 1) c Hk Hc') as [Hc2 Hh2].
       - intros u. specialize (Hh u). specialize (Hd u). lia.
       - split; [exact Hc2|]. intros u. unfold live. simpl. specialize (Hh u). specialize (Hd u).
         specialize (Hh2 u). lia. }
  1,4: split; [exact Hc'|]; intros u; unfold live; simpl; rewrite live_insert; simpl;
    specialize (Hh u); specialize (Hd u); lia.
  all: split; [exact Hc'|]; intros u; unfold live; simpl; specialize (Hh u); specialize (Hd u); lia.
Qed.

Lemma sys_step_counts a0 d k e s s' : rtc account_update a0 (sto_auth (sy_stores s)) -> k + 1 < u64_mod ->
  count_inv a0 d k s -> renames e s = false -> sys_step e s = Some s' -> count_inv a0 d (k + 1) s'.
Proof.
  intros Ha Hk Hs Hr.
  assert (Hsame : sy_tracker s' = sy_tracker s -> sy_clients s' = sy_clients s -> count_inv a0 d (k + 1) s').
  { intros H1 H2. destruct Hs as [Hc Hl]. unfold count_inv, live. rewrite H1, H2.
    split; [apply (counted_more _ _ k); [lia|done]|exact Hl]. }
  destruct e as [i conn tls|i clock|w|w now|min_instant now|now|n]; cbn [sys_step].
  - unfold client_opens. destruct (sy_clients s !! i) eqn:Ei; [done|].
    set (c := new_client conn tls _ _ _ _ _).
    assert (Hg : exists k', greeting c = (Ret tt, set_conn k' c)).
    { exists (wrote (if cfg_allow_anonymous_posting (sy_config s) then RESP_200_READY
                     else RESP_201_READY_NO_POST) conn).
      unfold c. cbn. by destruct (cfg_allow_anonymous_posting (sy_config s)). }
    destruct Hg as [k' ->]. intros [= <-]. destruct Hs as [Hc Hl].
    split; [apply (counted_more _ _ k); [lia|done]|]. intros u. unfold live. simpl.
    rewrite live_fresh by done. unfold held. simpl. specialize (Hl u). unfold live in Hl. lia.
  - by apply turns_count.
  - intros (p & Ep & ->)%fmap_Some. by apply Hsame.
  - intros (p & Ep & ->)%fmap_Some. by apply Hsame.
  - destruct (retention_turn _ _ _ _) as [o st]. intros [= <-]. by apply Hsame.
  - intros [= <-]. by apply Hsame.
  - intros [= <-]. by apply Hsame.
Qed.

(** C14: where commands and the leave-taking of connections run one at a time ([System.v]), the
    limit on connections holds over the whole server: after any steps in which no logged-in
    connection sends AUTHINFO USER every user has at most as many connections open as are counted
    for it, and these are never more than its limit; nothing that the workers, the clean-up, the
    persistence of usage or a reload does changes that.  In the source [disconnect] is three
    critical sections; when the turns of other connections come between them the limit does not
    hold ([disconnect_race]). *)
Theorem server_connections_counted (t : Stores S A) (c : Config) (capacity workers : nat)
    (es : list Event) (s : System S A) (u : str) :
  st_wf (sto_storage t) -> N.of_nat (length es) < u64_mod ->
  names_kept es (start_system t c capacity workers) = true ->
  sys_run es (start_system t c capacity workers) = Some s ->
  live u s <= connection_count u (sy_tracker s)
  /\ within (max_connections_of (sto_auth t) (cfg_user_limits c) u) (connection_count u (sy_tracker s)).
Proof.
  intros Hw Hlen Hk E.
  assert (Hinv : count_inv (sto_auth t) (cfg_user_limits c) (N.of_nat (length es)) s).
  { revert s E Hlen Hk. induction es as [|e es IH] using rev_ind; intros s E Hlen Hk.
    - injection E as <-. split; [|intros v; unfold live, live_in; simpl; rewrite map_filter_empty, map_size_empty; simpl; lia].
      assert (H0c : forall v, count_of ∅ v = 0) by (intros v; unfold count_of; by rewrite lookup_empty).
      split; simpl; [intros v l; simpl; by rewrite lookup_empty|done|intros v; by rewrite H0c|].
      intros v. rewrite H0c. destruct (max_connections_of _ _ _); simpl; [lia|done].
    - apply names_kept_snoc in Hk as [Hk1 Hk2]. rewrite sys_run_snoc in E.
      apply bind_Some in E as (s1 & E1 & E2). rewrite length_app in *. simpl in *.
      assert (Hok := sys_run_ok t c capacity workers es s1 Hw E1).
      replace (N.of_nat (length es + 1)) with (N.of_nat (length es) + 1) in * by lia.
      eapply sys_step_counts; [apply Hok|exact Hlen|apply IH; [done|lia|done]|by apply Hk2|exact E2]. }
  destruct Hinv as [Hc Hl]. split; [apply Hl|apply Hc].
Qed.
End Counting.

(** ** A slot that is another user's *)
Section Renaming.
Context {X : Ext} {Net : MilterNet} {S A : Type} `{Storage S} `{!StorageLaws S} `{AuthProvider A}.
Implicit Types s : System S A.

(** A login is a command of its own; the name is set before any password is asked for. *)
Lemma user_turn (c : Ctx S A) cmd keyword v rest : next_command (cx_conn c) = Some cmd ->
  is_authinfo cmd = true -> cmd_args cmd = keyword :: v :: rest ->
  str_eqb (to_ascii_uppercase keyword) (lit "USER") = true -> can_authenticate (cx_session c) = true ->
  client_turn c = (Ret true, set_session (set_pending_username v (cx_session c))
                               (set_conn (wrote RESP_381_PASSWORD_REQ (after_line (cx_conn c))) c)).
Proof.
  intros Ec Ha Hargs Hk Hcan.
  assert (Hq : cmd_name cmd <> lit "QUIT") by (intros Hq; unfold is_authinfo in Ha; rewrite Hq in Ha; discriminate Ha).
  rewrite (client_turn_command c cmd Ec Hq).
  pose proof (dispatch_cases (S:=S) (A:=A) cmd) as Hd. rewrite Ha in Hd. unfold mbind', mcatch. rewrite Hd, Hargs.
  unfold AuthInfoHandler, mbind' at 1, session, mgets. cbn [id cx_session set_conn]. rewrite Hcan. cbn [negb]. rewrite Hk. reflexivity.
Qed.

Lemma turn_at_end (c : Ctx S A) : c_in (cx_conn c) = [] -> c_end (cx_conn c) = Eof ->
  client_turn c = (Ret false, c).
Proof.
  destruct c as [[i e o] x st tr cf q cl n]. simpl. intros -> ->. reflexivity.
Qed.

Lemma last_turn_gives_back s i cl u clock : sy_clients s !! i = Some cl -> cl_hangs cl = false ->
  c_in (cl_conn cl) = [] -> c_end (cl_conn cl) = Eof -> limited_user (cl_session cl) = Some u ->
  client_turns i clock s
  = Some (mkSystem (delete i (sy_clients s)) (sy_pool s) (disconnect u (sy_tracker s)) (sy_config s)).
Proof.
  intros Hi Hh Hin Hend Hu. unfold client_turns. rewrite Hi, Hh.
  rewrite (turn_at_end (client_ctx clock cl s) Hin Hend).
  unfold client_done, mbind', session, mgets. cbn [cx_session client_ctx]. rewrite Hu.
  unfold leaves. simpl. unfold sy_queue, sy_stores. by destruct (sy_pool s).
Qed.

(** C40: AUTHINFO USER on a connection that is logged in changes whose connection it is,
    without a password: when the client then leaves, the slot that is given back is that of
    the user it named, and the one it took when it logged in stays taken. *)
Theorem rename_frees_slot (s : System S A) (i : nat) (cl : Client) (u v keyword : str) (rest : list str)
    (cmd : Command) (clock clock' : nat -> Z) :
  sy_clients s !! i = Some cl -> cl_hangs cl = false -> limited_user (cl_session cl) = Some u -> v <> u ->
  can_authenticate (cl_session cl) = true ->
  next_command (cl_conn cl) = Some cmd -> is_authinfo cmd = true -> cmd_args cmd = keyword :: v :: rest ->
  str_eqb (to_ascii_uppercase keyword) (lit "USER") = true ->
  c_in (after_line (cl_conn cl)) = [] -> c_end (after_line (cl_conn cl)) = Eof ->
  0 < count_of (connections (sy_tracker s)) v < u64_mod ->
  exists s', sys_run [Turns i clock; Turns i clock'] s = Some s'
    /\ sy_clients s' = delete i (sy_clients s)
    /\ count_of (connections (sy_tracker s')) v = count_of (connections (sy_tracker s)) v - 1
    /\ count_of (connections (sy_tracker s')) u = count_of (connections (sy_tracker s)) u.
Proof.
  intros Hi Hh Hu Hne Hcan Ec Ha Hargs Hk Hin Hend Hcount.
  assert (H1 : client_turns i clock s = Some (stays i false (set_session (set_pending_username v (cl_session cl))
    (set_conn (wrote RESP_381_PASSWORD_REQ (after_line (cl_conn cl))) (client_ctx clock cl s))) s)).
  { unfold client_turns. rewrite Hi, Hh.
    by rewrite (user_turn (client_ctx clock cl s) cmd keyword v rest Ec Ha Hargs Hk Hcan). }
  set (cl1 := mkClient (wrote RESP_381_PASSWORD_REQ (after_line (cl_conn cl)))
                (set_pending_username v (cl_session cl)) false).
  set (s1 := stays _ _ _ _) in H1.
  assert (Hv : limited_user (cl_session cl1) = Some v).
  { unfold limited_user, is_authenticated in *. simpl.
    destruct (authenticated (cl_session cl)), (s_is_admin (cl_session cl)); done. }
  assert (H2 := last_turn_gives_back s1 i cl1 v clock' (lookup_insert_eq _ _ _) eq_refl Hin Hend Hv).
  cbn [sys_run sys_step]. rewrite H1. cbn [sys_run sys_step]. rewrite H2. eexists. split; [reflexivity|].
  cbn [sy_clients sy_tracker]. split; [unfold s1; simpl; by rewrite delete_insert_eq|].
  change (sy_tracker s1) with (sy_tracker s). rewrite !disconnect_spec by done.
  by rewrite decide_True, decide_False by done.
Qed.
End Renaming.

(** ** Concrete logins *)
Module ToySlots.
Import ToySystem.
(** He cannot log in a second time; but amy logs in, says she is bob, and leaves. *)
Definition amy_in_and_out : list Event :=
  [connects 1 (login_as (lit "amy") ++ lit "AUTHINFO USER bob" ++ crlf);
   Turns 1 clock0; Turns 1 clock0; Turns 1 clock0; Turns 1 clock0].
Definition bob_again : list Event := [connects 2 (login_as (lit "bob")); Turns 2 clock0; Turns 2 clock0].

Definition bobs (o : option (System Db AuthDb)) : option (N * N) :=
  (fun s => (live (lit "bob") s, connection_count (lit "bob") (sy_tracker s))) <$> o.

Example bob_refused : bobs (steps (bob_in ++ bob_again) server) = Some (1, 1).
Proof. vm_compute. reflexivity. Qed.

(** Two connections of bob's are open, one is counted, and one is all he may have. *)
Example limit_beaten : bobs (steps (bob_in ++ amy_in_and_out ++ bob_again) server) = Some (2, 1)
  /\ max_connections_of accounts (cfg_user_limits config) (lit "bob") = Some 1.
Proof. split; vm_compute; reflexivity. Qed.

(** Amy is logged in beside bob, and about to say she is bob. *)
Definition amy_server : System Db AuthDb := default server (steps (take 3 amy_in_and_out) bob_server).
Definition amy_client : Client := default (mkClient (mkConn [] Eof []) reader false) (sy_clients amy_server !! 1%nat).
Definition user_bob : Command := default (mkCommand [] []) (next_command (cl_conn amy_client)).
End ToySlots.

Lemma server_connections_counted_witness :
  live (lit "bob") ToySystem.bob_server = 1
  /\ live (lit "bob") ToySystem.bob_server <= connection_count (lit "bob") (sy_tracker ToySystem.bob_server)
  /\ connection_count (lit "bob") (sy_tracker ToySystem.bob_server) <= 1.
Proof.
  split; [vm_compute; reflexivity|].
  destruct (@server_connections_counted Toy.ext no_milter Db AuthDb ToySystem.toy_storage ToySystem.toy_laws ToySystem.toy_auth ToySystem.toy_stable
              (mkStores two_db ToySystem.accounts) ToySystem.config 10 1 ToySystem.bob_in ToySystem.bob_server (lit "bob"))
    as [H1 H2].
  - exact ToySystem.server_wf.
  - vm_compute. reflexivity.
  - vm_compute. reflexivity.
  - exact ToySystem.bob_in_runs.
  - split; [exact H1|exact H2].
Defined.

Lemma rename_frees_slot_witness :
  connection_count (lit "bob") (sy_tracker ToySlots.amy_server) = 1
  /\ exists s', ToySystem.steps [Turns 1 ToySystem.clock0; Turns 1 ToySystem.clock0] ToySlots.amy_server = Some s'
     /\ connection_count (lit "bob") (sy_tracker s') = 0 /\ live (lit "bob") s' = 1.
Proof.
  split; [vm_compute; reflexivity|].
  destruct (@rename_frees_slot Toy.ext no_milter Db AuthDb ToySystem.toy_storage ToySystem.toy_laws ToySystem.toy_auth
              ToySlots.amy_server 1 ToySlots.amy_client (lit "amy") (lit "bob") (lit "USER") [] ToySlots.user_bob
              ToySystem.clock0 ToySystem.clock0) as (s' & E & Hcl & Hb & _).
  1-3: vm_compute; reflexivity.
  1: discriminate.
  1-7: vm_compute; reflexivity.
  1: vm_compute; split; reflexivity.
  - exists s'. split; [exact E|]. split.
    + change (count_of (connections (sy_tracker s')) (lit "bob") = 0). rewrite Hb. vm_compute. reflexivity.
    + unfold live. rewrite Hcl. vm_compute. reflexivity.
Defined.

