(* ===== verification/Transfers.v ===== *)
(** * Transfers: articles that come by IHAVE and TAKETHIS, and from one server to the next
    ([handlers/streaming.rs], [peers.rs])

    What the commands do with an article they are sent, and the two ends of a transfer put
    together: the peer that [send_article_to_peer] dials is another server of the same
    kind, so what it says is what [handle_client] writes for what it was sent. *)

From stdpp Require Import base numbers list gmap strings relations.
From Stdlib Require Import NArith ZArith Lia.
From S2P Require Import Prelude Text Externals Message Wildmat Config Limits Auth SqliteAuth Tracker Storage SqliteStorage Responses Session Wire Control Milter Filters Queue Context ArticleHandlers GroupHandlers PostHandlers Server Served Replies Peers System.
Local Open Scope N_scope.

(** ** What becomes of an article that is sent *)
Section Received.
Context {X : Ext} {Net : MilterNet} {S A : Type} `{Storage S} `{AuthProvider A}.
Implicit Types c : Ctx S A.
#[local] Existing Instance aside_preorder.

(** It is taken - validated, stored, queued and acknowledged - or acted on as a control
    message, or neither queued nor acknowledged. *)
Inductive received (accepted refused msg : str) (a : Message) c : outcome unit -> Ctx S A -> Prop :=
| received_taken date st st' t c' :
    is_control_message a = false -> only_keys (cx_stores c) st ->
    comprehensive_validate_article (cx_config c) (complete_article date (cx_config c) a) (utf8_len msg) st
      = (Ret tt, st') ->
    store_article t (complete_article date (cx_config c) a) (sto_storage st') = (Ret tt, sto_storage (cx_stores c')) ->
    cx_queue c' = submit (mkQueuedArticle (complete_article date (cx_config c) a) (utf8_len msg) false true)
                    (cx_queue c) ->
    cx_conn c' = wrote accepted (cx_conn c) -> received accepted refused msg a c (Ret tt) c'
| received_control date t handled c' :
    is_control_message a = true ->
    handle_control t (complete_article date (cx_config c) a) (cx_config c) (cx_stores c)
      = (Ret handled, cx_stores c') ->
    cx_queue c' = cx_queue c -> cx_conn c' = wrote (if handled then accepted else refused) (cx_conn c) ->
    received accepted refused msg a c (Ret tt) c'
| received_not o r c' :
    In r [[]; refused; RESP_403_BANDWIDTH_EXCEEDED] ->
    cx_queue c' = cx_queue c -> cx_conn c' = wrote r (cx_conn c) ->
    received accepted refused msg a c o c'.

Lemma not_stopped accepted refused msg a c o c' : aside c c' -> received accepted refused msg a c o c'.
Proof.
  intros [H1 _ _ H2 _]. apply (received_not _ _ _ _ _ o []); [by left|done|]. by rewrite wrote_nil.
Qed.

Lemma not_refused accepted refused msg a c o c1 r : aside c c1 -> In r [[]; refused; RESP_403_BANDWIDTH_EXCEEDED] ->
  received accepted refused msg a c o (replied r c1).
Proof.
  intros [H1 _ _ H2 _] Hr. apply (received_not _ _ _ _ _ o r); [done|exact H2|].
  change (cx_conn (replied r c1)) with (wrote r (cx_conn c1)). by rewrite H1.
Qed.

(** Storing says whether it succeeded. *)
Lemma store_cases a c o c' : store a c = (o, c') ->
  cx_conn c' = cx_conn c /\ cx_session c' = cx_session c /\ cx_queue c' = cx_queue c
  /\ (o = Ret (Ok tt) -> exists t, store_article t a (sto_storage (cx_stores c))
                                   = (Ret tt, sto_storage (cx_stores c'))).
Proof.
  unfold store, mbind', now, mcatch, stores, on_storage, mzoom. simpl.
  destruct (store_article _ a _) as [os s] eqn:E.
  destruct os as [[]|e| |]; intros [= <- <-]; simpl; split_and!; try done.
  intros _. by exists (cx_clock c (cx_tick c)).
Qed.

Lemma control_cases a c o c' : control a c = (o, c') ->
  cx_conn c' = cx_conn c /\ cx_queue c' = cx_queue c
  /\ exists t, handle_control t a (cx_config c) (cx_stores c) = (o, cx_stores c').
Proof.
  unfold control, config, mbind', mgets, now, stores, mzoom. simpl.
  destruct (handle_control _ a _ _) as [oc t] eqn:E.
  intros [= <- <-]. simpl. split_and!; try done. by exists (cx_clock c (cx_tick c)).
Qed.

Lemma transfer_received accepted refused msg a c o c' :
  transfer accepted refused msg a c = (o, c') -> received accepted refused msg a c o c'.
Proof.
  unfold transfer. cbv zeta. destruct (complete_aside a c) as (date & c1 & E1 & H1).
  rewrite (mbind_Ret _ _ _ _ _ E1).
  set (art := complete_article date (cx_config c) a). destruct (is_control_message a) eqn:Hctl.
  { unfold mbind' at 1. destruct (control art c1) as [oh c2] eqn:E2.
    apply control_cases in E2 as (Hconn & Hq & t & Eh). destruct H1 as [K1 _ K2 K3 K4].
    assert (Hs1 : cx_stores c1 = cx_stores c).
    { apply (f_equal snd) in E1. unfold complete, config, mbind', mgets, now in E1. simpl in E1. by rewrite <- E1. }
    rewrite K2, Hs1 in Eh.
    destruct oh as [handled|e| |].
    2-4: intros [= <- <-]; apply (received_not _ _ _ _ _ _ []); [by left|congruence|by rewrite wrote_nil, Hconn].
    rewrite write_replied. intros [= <- <-].
    apply (received_control _ _ _ _ _ date t handled); [done|exact Eh|by rewrite <- K3|].
    change (cx_conn (replied ?r c2)) with (wrote r (cx_conn c2)). by rewrite Hconn, K1. }
  unfold mbind' at 1. destruct (check_bandwidth_rejected (utf8_len msg) c1) as [orj c2] eqn:E2.
  apply rejected_cases in E2 as [(-> & c0 & K0 & ->)|[Hrej H2]].
  { intros [= <- <-]. apply not_refused; [by etrans|]. simpl. auto. }
  assert (H12 : aside c c2) by by etrans.
  destruct orj as [[|]|e| |]; [done| |intros [= <- <-]; by apply not_stopped..].
  unfold mbind' at 1. destruct (validate art (utf8_len msg) c2) as [ov c3] eqn:E3.
  apply validate_cases in E3 as [H3 Hv]. assert (H13 : aside c c3) by by etrans.
  destruct ov as [[[]|e]|e| |].
  2: { rewrite write_replied. intros [= <- <-]. apply not_refused; [done|]. simpl. auto. }
  2-4: intros [= <- <-]; by apply not_stopped.
  destruct (Hv eq_refl) as [st' Hst'].
  unfold mbind' at 1. destruct (store art c3) as [os c4] eqn:E4. pose proof E4 as E4'.
  apply store_cases in E4 as (K1 & K2 & K3 & Ks).
  assert (Hnot : forall r, In r [[]; refused; RESP_403_BANDWIDTH_EXCEEDED] ->
    received accepted refused msg a c o (replied r c4)).
  { intros r Hr. apply (received_not _ _ _ _ _ o r); [done| |].
    - change (cx_queue c4 = cx_queue c). rewrite K3. apply H13.
    - change (cx_conn (replied r c4)) with (wrote r (cx_conn c4)). rewrite K1. f_equal. apply H13. }
  assert (Hstop : received accepted refused msg a c o c4).
  { specialize (Hnot [] (or_introl eq_refl)). unfold replied in Hnot. rewrite wrote_nil in Hnot. by destruct c4. }
  destruct os as [[[]|e]|e| |].
  2: { rewrite write_replied. intros [= <- <-]. apply Hnot. simpl. auto. }
  2-4: intros [= <- <-]; exact Hstop.
  destruct (Ks eq_refl) as [t Ht]. set (q := mkQueuedArticle _ _ _ _).
  assert (Eq : submit_article q c4 = (Ret tt, set_queue (submit q (cx_queue c4)) c4)) by done.
  rewrite (mbind_Ret _ _ _ _ _ Eq).
  destruct (record_aside (utf8_len msg) true (set_queue (submit q (cx_queue c4)) c4)) as (c5 & E5 & H5).
  rewrite (mbind_Ret _ _ _ _ _ E5), write_replied. intros [= <- <-].
  destruct H5 as [J1 _ _ J2 [J3 _]]. simpl in J1, J2, J3.
  apply (received_taken _ _ _ _ _ date (cx_stores c2) st' t); [done|apply H12| | | |].
  - rewrite (as_config _ _ H12) in Hst'. exact Hst'.
  - change (cx_stores (replied accepted c5)) with (cx_stores c5). rewrite J3.
    destruct (comprehensive_moves _ _ _ _ _ _ Hst') as [-> _]. destruct (as_stores _ _ H3) as [<- _]. exact Ht.
  - change (cx_queue c5 = submit q (cx_queue c)). rewrite J2, K3. by rewrite (as_queue _ _ H13).
  - change (wrote accepted (cx_conn c5) = wrote accepted (cx_conn c)). rewrite J1, K1. by rewrite (as_conn _ _ H13).
Qed.

(** Nothing came that could be taken: nothing but the connection has changed, by an answer. *)
Definition nothing_received (answers : list str) c c' : Prop :=
  exists k, c' = set_conn k c /\ exists r, In r answers /\ c_out k = c_out (cx_conn c) ++ r.

(** IHAVE and TAKETHIS ask for an article only if its Message-ID is not stored, and
    what they are sent is taken - validated, stored, queued and acknowledged with 235 or
    239 - or acted on as a control message, or neither queued nor acknowledged.  Nothing
    of that depends on the client: it need not be logged in, and it is not asked whether
    anonymous posting is allowed. *)
Theorem transfers_received c (id : str) (rest : list str) o c' :
  (IHaveHandler (id :: rest) c = (o, c') ->
   match get_article_by_id id (sto_storage (cx_stores c)) with
   | Err e => o = Fail e /\ c' = c
   | Ok (Some _) => o = Ret tt /\ c' = replied RESP_435_NOT_WANTED c
   | Ok None =>
       (exists msg k a, read_message (wrote RESP_335_SEND_IT (cx_conn c)) = (Ret msg, k)
          /\ parse_message msg = Some a
          /\ received RESP_235_TRANSFER_OK RESP_437_REJECTED msg a (set_conn k c) o c')
       \/ nothing_received [RESP_335_SEND_IT; RESP_335_SEND_IT ++ RESP_437_REJECTED] c c'
   end)
  /\ (TakeThisHandler (id :: rest) c = (o, c') ->
      (exists msg k a, read_message (cx_conn c) = (Ret msg, k) /\ parse_message msg = Some a
         /\ get_article_by_id id (sto_storage (cx_stores c)) = Ok None
         /\ received (streaming_response 239 id) (streaming_response 439 id) msg a (set_conn k c) o c')
      \/ nothing_received [[]; streaming_response 439 id] c c').
Proof.
  split.
  - unfold IHaveHandler, mbind' at 1.
    change (ask (get_article_by_id id) c)
      with (outcome_of (get_article_by_id id (sto_storage (cx_stores c))),
            set_stores (cx_stores c) c).
    replace (set_stores (cx_stores c) c) with c by by destruct c.
    destruct (get_article_by_id id _) as [[x|]|e]; cbn [outcome_of].
    + rewrite write_replied. by intros [= <- <-].
    + rewrite (then_replied _ _ _ _ (write_replied _ _)). unfold mbind' at 1, net at 1, mzoom at 1.
      change (cx_conn (replied RESP_335_SEND_IT c)) with (wrote RESP_335_SEND_IT (cx_conn c)).
      destruct (read_message (wrote RESP_335_SEND_IT (cx_conn c))) as [om k] eqn:Er.
      pose proof (read_message_quiet _ _ _ Er) as Hout. cbn [wrote c_out] in Hout.
      change (set_conn k (replied RESP_335_SEND_IT c)) with (set_conn k c).
      destruct om as [msg|e| |].
      2-4: intros [= <- <-]; right; exists k; split; [done|]; exists RESP_335_SEND_IT; split; [by left|done].
      destruct (parse_message msg) as [a|] eqn:Ep.
      * intros E. left. exists msg, k, a. split; [done|]. split; [done|]. by apply transfer_received.
      * rewrite write_replied. intros [= <- <-]. right. exists (wrote RESP_437_REJECTED k). split; [done|].
        exists (RESP_335_SEND_IT ++ RESP_437_REJECTED). split; [by right; left|]. simpl. by rewrite Hout, <- app_assoc.
    + by intros [= <- <-].
  - unfold TakeThisHandler, mbind' at 1, net at 1, mzoom at 1.
    destruct (read_message (cx_conn c)) as [om k] eqn:Er.
    pose proof (read_message_quiet _ _ _ Er) as Hout.
    assert (Hno : forall r, In r [[]; streaming_response 439 id] -> nothing_received [[]; streaming_response 439 id] c
      (set_conn (wrote r k) c)).
    { intros r Hr. exists (wrote r k). split; [done|]. exists r. split; [done|]. simpl. by rewrite Hout. }
    assert (Hstop : nothing_received [[]; streaming_response 439 id] c (set_conn k c)).
    { specialize (Hno [] (or_introl eq_refl)). by rewrite wrote_nil in Hno. }
    destruct om as [msg|e| |]; [|intros [= <- <-]; by right..].
    destruct (parse_message msg) as [a|] eqn:Ep.
    2: { rewrite write_replied. intros [= <- <-]. right. apply (Hno (streaming_response 439 id)). by right; left. }
    unfold mbind' at 1.
    change (ask (get_article_by_id id) (set_conn k c))
      with (outcome_of (get_article_by_id id (sto_storage (cx_stores c))), set_conn k (set_stores (cx_stores c) c)).
    replace (set_stores (cx_stores c) c) with c by by destruct c.
    destruct (get_article_by_id id _) as [[x|]|e]; cbn [outcome_of].
    + rewrite write_replied. intros [= <- <-]. right. apply (Hno (streaming_response 439 id)). by right; left.
    + intros E. left. exists msg, k, a. split_and!; [done..|]. by apply transfer_received.
    + intros [= <- <-]. by right.
Qed.
End Received.

(** ** A server at the other end *)
Section Server.
Context {X : Ext} {Net : MilterNet} {S A : Type} `{Storage S} `{!StorageLaws S} `{AuthProvider A}.

(** What a server has come to with a connection, once it was sent a text: [Eof] when the
    other side has closed it, [Silent] while it may send more. *)
Definition serve (tls : bool) (st : Stores S A) (tr : UsageTracker) (cfg : Config) (q : ArticleQueue)
    (clock : nat -> Z) (e : InEnd) (sent : str) : outcome unit * Ctx S A :=
  handle_client (new_client (mkConn (input sent) e []) tls st tr cfg q clock).

(** The server as a peer: what it says is what it writes. *)
Definition as_remote (tls : bool) (st : Stores S A) (tr : UsageTracker) (cfg : Config) (q : ArticleQueue)
    (clock : nat -> Z) : Remote :=
  mkRemote (fun sent => input (c_out (cx_conn (snd (serve tls st tr cfg q clock Silent sent))))) Silent.

Implicit Types c : Ctx S A.

Lemma arg_no_eol (id : str) : arg_ok id = true -> exists s x, id = s ++ [x] /\ (x =? CR) || (x =? LF) = false
  /\ LF ∉ id.
Proof.
  intros Hok. assert (Hall : forallb arg_char id = true) by (destruct id; [done|by apply andb_prop in Hok as [_ ?]]).
  assert (Hne : id <> []) by by destruct id. destruct (exists_last Hne) as (s & x & ->). exists s, x.
  rewrite forallb_app in Hall. apply andb_prop in Hall as [Hs Hx]. simpl in Hx. rewrite andb_true_r in Hx.
  assert (Hc : forall y, arg_char y = true -> (y =? CR) || (y =? LF) = false /\ y <> LF).
  { intros y Hy. unfold arg_char in Hy. apply negb_true_iff in Hy. rewrite !orb_false_iff in Hy.
    destruct Hy as [[_ H1] H2]. rewrite H1, H2. split; [done|]. by apply N.eqb_neq. }
  split; [done|]. split; [by apply Hc|]. rewrite elem_of_app, list_elem_of_singleton. intros [Hin|Heq].
  - apply elem_of_list_In in Hin. apply (proj1 (forallb_forall _ _) Hs) in Hin. by apply Hc in Hin as [_ ?].
  - apply Hc in Hx as [_ Hx]. by apply Hx.
Qed.

(** The offer, as the command it is. *)
Lemma offer_line id rest e out : arg_ok id = true ->
  conn_read_line (mkConn (input (ihave_line id) ++ rest) e out) = (Ret (ihave_line id), mkConn rest e out).
Proof.
  intros Hok. destruct (arg_no_eol id Hok) as (_ & _ & _ & _ & Hlf).
  assert (E : ihave_line id = ((lit "IHAVE " ++ id) ++ [CR]) ++ [LF]) by (unfold ihave_line; by rewrite <- !app_assoc).
  rewrite E. apply read_line_present. rewrite !not_elem_of_app. split_and!; [by apply absent_check|done|by apply absent_check].
Qed.

Lemma offer_command id rest e out : arg_ok id = true ->
  next_command (mkConn (input (ihave_line id) ++ rest) e out) = Some (mkCommand (lit "IHAVE") [id]).
Proof.
  intros Hok. unfold next_command. rewrite offer_line by done. cbn [fst].
  destruct (arg_no_eol id Hok) as (s & x & E & Hx & _).
  assert (Ht : trim_eol (ihave_line id) = lit "IHAVE" ++ unparse_args [id] ++ []).
  { unfold trim_eol, ihave_line. rewrite app_assoc. change crlf with ([CR] ++ [LF]). rewrite app_assoc.
    rewrite !trim_end_drop by done. rewrite E at 1. rewrite app_assoc, trim_end_snoc by done.
    rewrite <- app_assoc, <- E. unfold unparse_args. simpl. by rewrite !app_nil_r. }
  assert (Hp : parse_command (trim_eol (ihave_line id)) = Some ([], mkCommand (lit "IHAVE") [id])).
  { rewrite Ht. apply (parse_unparsed (lit "IHAVE") [id] []); [done|done|simpl; by rewrite Hok|by left]. }
  assert (Hne : exists y l, ihave_line id = y :: l) by (by eexists _, _). destruct Hne as (y & l & Hyl).
  rewrite Hyl in Hp |- *. by rewrite Hp.
Qed.

(** The turn that handles an offer. *)
Lemma offer_turn c id rest : arg_ok id = true -> c_in (cx_conn c) = input (ihave_line id) ++ rest ->
  client_turn c = (_ <-- mcatch (IHaveHandler [id]) ;;; mreturn true)%m
                    (set_conn (mkConn rest (c_end (cx_conn c)) (c_out (cx_conn c))) c).
Proof.
  intros Hok Hin. destruct c as [[i e out] x st tr cfg q cl n]. cbn [cx_conn c_in] in Hin. subst i.
  rewrite (client_turn_command _ (mkCommand (lit "IHAVE") [id])); [|by apply offer_command|discriminate].
  unfold after_line.
  change (cx_conn (mkCtx ?k x st tr cfg q cl n)) with k. by rewrite (offer_line id rest e out Hok).
Qed.

(** At the end of what it was sent the loop comes to its end. *)
Lemma loop_at_end n c : c_in (cx_conn c) = [] -> c_end (cx_conn c) <> IoError ->
  client_loop (Datatypes.S n) c = (Ret tt, c).
Proof. destruct c as [[i e out] x st tr cfg q cl k]. simpl. intros -> He. by destruct e. Qed.

Lemma done_unlimited c : limited_user (cx_session c) = None -> client_done c = (Ret tt, c).
Proof. intros Hu. unfold client_done, mbind', session, mgets. by rewrite Hu. Qed.

Lemma ihave_known c id x : get_article_by_id id (sto_storage (cx_stores c)) = Ok (Some x) ->
  IHaveHandler [id] c = (Ret tt, replied RESP_435_NOT_WANTED c).
Proof.
  intros Hk. unfold IHaveHandler, mbind' at 1.
  change (ask (get_article_by_id id) c)
    with (outcome_of (get_article_by_id id (sto_storage (cx_stores c))), set_stores (cx_stores c) c).
  rewrite Hk. cbn [outcome_of]. replace (set_stores (cx_stores c) c) with c by by destruct c. done.
Qed.

(** An unknown article is asked for. *)
Lemma ihave_unknown c id : get_article_by_id id (sto_storage (cx_stores c)) = Ok None ->
  IHaveHandler [id] c
  = (msg <-- net read_message ;;;
     match parse_message msg with
     | None => write RESP_437_REJECTED
     | Some article => transfer RESP_235_TRANSFER_OK RESP_437_REJECTED msg article
     end)%m (replied RESP_335_SEND_IT c).
Proof.
  intros Hk. unfold IHaveHandler, mbind' at 1.
  change (ask (get_article_by_id id) c)
    with (outcome_of (get_article_by_id id (sto_storage (cx_stores c))), set_stores (cx_stores c) c).
  rewrite Hk. cbn [outcome_of]. replace (set_stores (cx_stores c) c) with c by by destruct c.
  by rewrite (then_replied _ _ _ _ (write_replied _ _)).
Qed.

(** A valid article from a client without limits is taken. *)
Lemma transfer_takes accepted refused msg a c st' s' :
  limited_user (cx_session c) = None -> is_control_message a = false ->
  let art := complete_article (cx_clock c (cx_tick c)) (cx_config c) a in
  comprehensive_validate_article (cx_config c) art (utf8_len msg) (cx_stores c) = (Ret tt, st') ->
  store_article (cx_clock c (Datatypes.S (cx_tick c))) art (sto_storage st') = (Ret tt, s') ->
  transfer accepted refused msg a c
  = (Ret tt, mkCtx (wrote accepted (cx_conn c)) (cx_session c) (mkStores s' (sto_auth st')) (cx_tracker c)
       (cx_config c) (submit (mkQueuedArticle art (utf8_len msg) false true) (cx_queue c)) (cx_clock c)
       (Datatypes.S (Datatypes.S (cx_tick c)))).
Proof.
  destruct c as [k x st tr cfg q cl n]. intros Hu Hctl art Hv Hs.
  cbn [cx_session cx_clock cx_tick cx_config cx_stores cx_conn cx_tracker cx_queue] in *. unfold transfer. cbv zeta. rewrite Hctl.
  unfold complete, config, mbind', mgets, now. cbn [cx_clock cx_tick cx_config]. unfold mreturn at 1. fold art.
  unfold check_bandwidth_rejected, mbind', session, mgets. cbn [cx_session]. rewrite Hu. unfold mreturn at 1.
  unfold validate, config, mbind', mgets, mcatch, stores, mzoom. cbn [cx_config cx_stores]. rewrite Hv.
  cbn [cx_stores set_stores]. unfold store, now, mbind', mcatch, stores, on_storage, mzoom.
  cbn [cx_clock cx_tick cx_stores sto_storage set_stores]. rewrite Hs.
  unfold submit_article, mmodify, record_bandwidth_usage, mbind', session, mgets.
  cbn [cx_session set_queue set_stores]. rewrite Hu. reflexivity.
Qed.

Section Serve.
Context (tls : bool) (st : Stores S A) (tr : UsageTracker) (cfg : Config) (q : ArticleQueue) (clock : nat -> Z).

Definition greeting_text : str := if cfg_allow_anonymous_posting cfg then RESP_200_READY else RESP_201_READY_NO_POST.
Definition greeted (e : InEnd) (input_left : list (option char)) : Ctx S A :=
  set_conn (mkConn input_left e greeting_text) (new_client (mkConn [] e []) tls st tr cfg q clock).

Lemma serve_greeted e sent : serve tls st tr cfg q clock e sent
  = (client_loop (Datatypes.S (length (input sent))) ;;; client_done)%m (greeted e (input sent)).
Proof.
  unfold serve, handle_client.
  assert (Hg : greeting (new_client (mkConn (input sent) e []) tls st tr cfg q clock)
               = (Ret tt, greeted e (input sent))).
  { unfold greeted, greeting_text. cbn. by destruct (cfg_allow_anonymous_posting cfg). }
  by rewrite (mbind_Ret _ _ _ _ _ Hg).
Qed.

Lemma serve_nothing e : e <> IoError -> snd (serve tls st tr cfg q clock e []) = greeted e [].
Proof.
  intros He. rewrite serve_greeted, (mbind_Ret _ _ _ _ _ (loop_at_end _ (greeted e []) eq_refl He)).
  by rewrite done_unlimited.
Qed.

(** One turn, then the end of the input. *)
Lemma serve_turn e sent rest c1 : e <> IoError -> length (input sent) <> 0%nat ->
  client_turn (greeted e (input sent)) = (Ret true, c1) -> rest = c_in (cx_conn c1) -> rest = [] ->
  c_end (cx_conn c1) = e -> limited_user (cx_session c1) = None ->
  serve tls st tr cfg q clock e sent = (Ret tt, c1).
Proof.
  intros He Hn Ht Hr Hrest Hend Hu. rewrite serve_greeted. cbn [client_loop]. unfold mbind' at 1 2. rewrite Ht.
  destruct (length (input sent)) as [|n]; [done|].
  assert (Hin : c_in (cx_conn c1) = []) by congruence. rewrite <- Hend in He.
  rewrite (loop_at_end n c1 Hin He). by rewrite done_unlimited.
Qed.

Lemma offer_length id : length (input (ihave_line id)) <> 0%nat.
Proof. done. Qed.

(** An offer of what it has: one answer, and nothing changes. *)
Lemma serve_known e id x : arg_ok id = true -> e <> IoError ->
  get_article_by_id id (sto_storage st) = Ok (Some x) ->
  serve tls st tr cfg q clock e (ihave_line id) = (Ret tt, replied RESP_435_NOT_WANTED (greeted e [])).
Proof.
  intros Hok He Hk. apply (serve_turn e _ []); [done|apply offer_length| |done|done|done|done].
  rewrite (offer_turn _ id []) by (try done; by rewrite app_nil_r). unfold mbind', mcatch.
  change (set_conn _ (greeted e (input (ihave_line id)))) with (greeted e []).
  by rewrite (ihave_known (greeted e []) id x Hk).
Qed.

(** An offer of what it has not: it asks, and waits. *)
Lemma serve_offer id : arg_ok id = true -> get_article_by_id id (sto_storage st) = Ok None ->
  snd (serve tls st tr cfg q clock Silent (ihave_line id)) = replied RESP_335_SEND_IT (greeted Silent []).
Proof.
  intros Hok Hk. rewrite serve_greeted. cbn [client_loop]. unfold mbind' at 1 2.
  rewrite (offer_turn _ id []) by (try done; by rewrite app_nil_r). unfold mbind' at 1, mcatch.
  change (set_conn _ (greeted Silent (input (ihave_line id)))) with (greeted Silent []).
  by rewrite (ihave_unknown (greeted Silent []) id Hk).
Qed.

(** An offer and the article. *)
Lemma serve_article e id a st' s' : e <> IoError -> arg_ok id = true ->
  get_article_by_id id (sto_storage st) = Ok None ->
  forallb header_ok (headers a) = true -> is_control_message a = false ->
  let art := complete_article (clock 0%nat) cfg (mkMessage (headers a) (canonical (body a))) in
  comprehensive_validate_article cfg art (utf8_len (received_text a)) st = (Ret tt, st') ->
  store_article (clock 1%nat) art (sto_storage st') = (Ret tt, s') ->
  serve tls st tr cfg q clock e (ihave_line id ++ article_text a ++ RESP_DOT_CRLF)
  = (Ret tt, mkCtx (wrote (RESP_335_SEND_IT ++ RESP_235_TRANSFER_OK) (mkConn [] e greeting_text))
       (cx_session (greeted e [])) (mkStores s' (sto_auth st')) tr cfg
       (submit (mkQueuedArticle art (utf8_len (received_text a)) false true) q) clock 2).
Proof.
  intros He Hok Hk Hh Hctl art Hv Hs. set (content := article_text a ++ RESP_DOT_CRLF).
  apply (serve_turn e _ []); [done|done| |done|done|done|done].
  rewrite (offer_turn _ id (input content)) by (try done; by rewrite <- input_app). unfold mbind', mcatch.
  change (set_conn _ (greeted e (input (ihave_line id ++ content)))) with (greeted e (input content)).
  rewrite (ihave_unknown (greeted e (input content)) id Hk). unfold mbind' at 1, net at 1, mzoom at 1.
  pose proof (read_article_text a [] e (greeting_text ++ RESP_335_SEND_IT) Hh) as Er. rewrite app_nil_r in Er.
  change (cx_conn (replied RESP_335_SEND_IT (greeted e (input content))))
    with (mkConn (input content) e (greeting_text ++ RESP_335_SEND_IT)).
  unfold content. rewrite Er. unfold received_text at 1. rewrite parse_message_text by done.
  rewrite (transfer_takes _ _ _ _ _ st' s'); [|done|done|exact Hv|exact Hs].
  f_equal. f_equal. cbn [cx_conn set_conn]. unfold wrote. simpl. by rewrite <- app_assoc.
Qed.
End Serve.
End Server.

(** ** From one server to the next *)
Section Propagation.
Context {X : Ext} {Net : MilterNet} {S A : Type} `{Storage S} `{!StorageLaws S} `{AuthProvider A} {Peer : PeerNet}.

Lemma read_line_of c before line after :
  remote_says (pn_remote c) (pn_sent c) = input (before ++ (line ++ [LF]) ++ after) ->
  pn_read c = length before -> LF ∉ line ->
  read_response c = (Ret (line ++ [LF]), mkPeerConnection (pn_remote c) (pn_sent c) (length (before ++ line ++ [LF]))).
Proof.
  intros Hsays Hread Hl. unfold read_response. rewrite Hsays, Hread.
  assert (Hd : drop (length before) (input (before ++ (line ++ [LF]) ++ after)) = input (line ++ [LF]) ++ input after).
  { rewrite !input_app. unfold input at 1. rewrite <- (length_fmap Some before). by rewrite drop_app_length. }
  rewrite Hd, read_line_present by done. cbn [c_in]. f_equal. f_equal.
  rewrite !length_app. unfold input. rewrite !length_fmap, length_app. simpl. lia.
Qed.

(** A response is a line. *)
Definition response_line (r : str) : Prop := exists l, r = l ++ [LF] /\ LF ∉ l.
Lemma response_line_ok (s : string) : existsb (N.eqb LF) (lit s) = false -> response_line (lit s ++ crlf).
Proof.
  intros Hs. exists (lit s ++ [CR]). split; [by rewrite <- app_assoc|].
  rewrite not_elem_of_app. split; by apply absent_check.
Qed.

Lemma read_reply c before r : response_line r ->
  remote_says (pn_remote c) (pn_sent c) = input (before ++ r) -> pn_read c = length before ->
  read_response c = (Ret r, mkPeerConnection (pn_remote c) (pn_sent c) (length (before ++ r))).
Proof.
  intros (l & -> & Hl) Hsays Hread. apply (read_line_of _ before l []); [by rewrite app_nil_r|done|done].
Qed.

Lemma greeting_line cfg : response_line (greeting_text cfg)
  /\ starts_with (lit "200") (greeting_text cfg) || starts_with (lit "201") (greeting_text cfg) = true.
Proof.
  unfold greeting_text. destruct (cfg_allow_anonymous_posting cfg);
    (split; [by apply response_line_ok|reflexivity]).
Qed.

(** What follows the offer. *)
Definition after_offer (a : Message) : M PeerConnection unit :=
  (response <-- read_response ;;;
   if negb (starts_with (lit "335") response) then mreturn tt
   else
     send_article_content a ;;;
     response <-- read_response ;;;
     if negb (starts_with (lit "2") response)
     then mfail (lit "Transfer failed: " ++ trim response)
     else mreturn tt)%m.

(** A peer without credentials that greets is sent the offer. *)
Lemma dialogue_offer (r : Remote) host a id log greeting :
  let info := parse_peer_address host 563 in
  extract_message_id a = Some id -> pi_credentials info = None ->
  peer_dial (length log) (pi_host info) (pi_port info) = Ok r ->
  response_line greeting -> starts_with (lit "200") greeting || starts_with (lit "201") greeting = true ->
  remote_says r [] = input greeting ->
  send_article_to_peer host a log
  = (let '(o, c) := after_offer a (mkPeerConnection r (ihave_line id) (length greeting)) in
     (o, log ++ [mkDialled (pi_host info) (pi_port info) (pn_sent c)])).
Proof.
  intros info Hid Hc Hd Hlg Hg Hs0. unfold send_article_to_peer. rewrite Hid. fold info. rewrite Hd.
  pose proof (read_reply (mkPeerConnection r [] 0) [] greeting Hlg Hs0 eq_refl) as R0.
  cbn [app pn_remote pn_sent] in R0.
  unfold mbind' at 1, map_err at 1, greet. rewrite (mbind_Ret _ _ _ _ _ R0).
  rewrite <- negb_orb, Hg. cbn [negb]. rewrite Hc. unfold mreturn at 1, transfer_article.
  by rewrite (mbind_Ret _ _ _ _ _ (send_command_wrote _ (mkPeerConnection r [] (length greeting)))).
Qed.

Lemma read_response_sent c o c' : read_response c = (o, c') -> pn_remote c' = pn_remote c /\ pn_sent c' = pn_sent c.
Proof. unfold read_response. destruct (conn_read_line _) as [o1 k]. by intros [= _ <-]. Qed.

(** Unless it answers 335 the article is not sent; when it does, it is, whatever follows. *)
Lemma after_offer_sent a c o c1 :
  read_response c = (o, c1) ->
  pn_sent (snd (after_offer a c))
  = match o with
    | Ret response => if starts_with (lit "335") response then pn_sent c ++ article_text a ++ RESP_DOT_CRLF else pn_sent c
    | _ => pn_sent c
    end.
Proof.
  intros E. unfold after_offer, mbind' at 1. rewrite E. apply read_response_sent in E as [_ <-].
  destruct o as [response|e| |]; try done. destruct (starts_with (lit "335") response); [|done]. cbn [negb].
  rewrite (mbind_Ret _ _ _ _ _ (send_article_content_wrote a c1)). unfold mbind'.
  destruct (read_response _) as [o2 c2] eqn:E2. apply read_response_sent in E2 as [_ E2]. cbn [pn_sent] in E2.
  destruct o2 as [r2|e| |]; try exact E2. by destruct (negb _).
Qed.

(** The dialogue about an article with a peer that answers the offer with [wanted] and, when
    that is 335, the article with [received]. *)
Lemma dialogue (r : Remote) host a id log greeting wanted received_answer :
  let info := parse_peer_address host 563 in
  let sent := ihave_line id ++ article_text a ++ RESP_DOT_CRLF in
  extract_message_id a = Some id -> pi_credentials info = None ->
  peer_dial (length log) (pi_host info) (pi_port info) = Ok r ->
  response_line greeting -> response_line wanted ->
  starts_with (lit "200") greeting || starts_with (lit "201") greeting = true ->
  remote_says r [] = input greeting -> remote_says r (ihave_line id) = input (greeting ++ wanted) ->
  (starts_with (lit "335") wanted = true -> response_line received_answer
     /\ starts_with (lit "2") received_answer = true
     /\ remote_says r sent = input ((greeting ++ wanted) ++ received_answer)) ->
  send_article_to_peer host a log
  = (Ret tt, log ++ [mkDialled (pi_host info) (pi_port info)
                       (if starts_with (lit "335") wanted then sent else ihave_line id)]).
Proof.
  intros info sent Hid Hc Hd Hlg Hlw Hg Hs0 Hs1 Hs2.
  rewrite (dialogue_offer r host a id log greeting) by done. fold info.
  pose proof (read_reply (mkPeerConnection r (ihave_line id) (length greeting)) greeting wanted Hlw Hs1 eq_refl) as R1.
  cbn [pn_remote pn_sent] in R1. unfold after_offer. rewrite (mbind_Ret _ _ _ _ _ R1).
  destruct (starts_with (lit "335") wanted); cbn [negb]; [|done].
  destruct (Hs2 eq_refl) as (Hlr & H2 & Hs).
  rewrite (mbind_Ret _ _ _ _ _ (send_article_content_wrote a (mkPeerConnection r (ihave_line id) (length (greeting ++ wanted))))).
  pose proof (read_reply (mkPeerConnection r sent (length (greeting ++ wanted))) (greeting ++ wanted)
                received_answer Hlr Hs eq_refl) as R2.
  change (mkPeerConnection _ _ _) with (mkPeerConnection r sent (length (greeting ++ wanted))).
  rewrite (mbind_Ret _ _ _ _ _ R2), H2. done.
Qed.

(** C7: an article offered to another server of this kind gets there: when the server has
    no article of that Message-ID, and finds the one it is sent valid and can store it,
    the transfer succeeds and the article - with the headers and the body lines it was
    sent with, completed like any other - is readable there, although the sender has not
    logged in and whether or not the server allows anonymous posting; offered once more,
    the server declines, nothing more is sent, and nothing changes. *)
Theorem article_propagates (host : str) (a : Message) (id : str) (log : list Dialled) (tls : bool)
    (st st' : Stores S A) (s' : S) (tr : UsageTracker) (cfg : Config) (q : ArticleQueue) (clock : nat -> Z) :
  let info := parse_peer_address host 563 in
  let art := complete_article (clock 0%nat) cfg (mkMessage (headers a) (canonical (body a))) in
  extract_message_id a = Some id -> arg_ok id = true -> extract_message_id art = Some id ->
  pi_credentials info = None -> forallb header_ok (headers a) = true -> is_control_message a = false ->
  peer_dial (length log) (pi_host info) (pi_port info) = Ok (as_remote tls st tr cfg q clock) ->
  st_wf (sto_storage st) -> get_article_by_id id (sto_storage st) = Ok None ->
  comprehensive_validate_article cfg art (utf8_len (received_text a)) st = (Ret tt, st') ->
  store_article (clock 1%nat) art (sto_storage st') = (Ret tt, s') ->
  exists sent, send_article_to_peer host a log = (Ret tt, log ++ [mkDialled (pi_host info) (pi_port info) sent])
    /\ let '(o, c') := serve tls st tr cfg q clock Eof sent in
       o = Ret tt /\ get_article_by_id id (sto_storage (cx_stores c')) = Ok (Some art)
       /\ forall log' clock', peer_dial (length log') (pi_host info) (pi_port info)
              = Ok (as_remote tls (cx_stores c') tr cfg (cx_queue c') clock') ->
          send_article_to_peer host a log' = (Ret tt, log' ++ [mkDialled (pi_host info) (pi_port info) (ihave_line id)])
          /\ cx_stores (snd (serve tls (cx_stores c') tr cfg (cx_queue c') clock' Eof (ihave_line id))) = cx_stores c'.
Proof.
  intros info art Hid Hok Hart Hc Hh Hctl Hd Hwf Hk Hv Hs.
  destruct (greeting_line cfg) as [Hlg Hg].
  pose proof (serve_offer tls st tr cfg q clock id Hok Hk) as S1.
  pose proof (serve_article tls st tr cfg q clock Silent id a st' s') as S2.
  pose proof (serve_article tls st tr cfg q clock Eof id a st' s') as S3. cbv zeta in S2, S3.
  set (sent := ihave_line id ++ article_text a ++ RESP_DOT_CRLF) in *.
  exists sent. split.
  - rewrite (dialogue (as_remote tls st tr cfg q clock) host a id log (greeting_text cfg) RESP_335_SEND_IT
               RESP_235_TRANSFER_OK); try done.
    + by apply response_line_ok.
    + cbn [remote_says as_remote]. by rewrite S1.
    + intros _. split; [by apply response_line_ok|]. split; [reflexivity|]. fold sent. cbn [remote_says as_remote].
      rewrite S2 by done. cbn [snd cx_conn wrote c_out]. by rewrite <- app_assoc.
  - rewrite S3 by done. cbn [cx_stores cx_queue sto_storage]. split; [done|].
    assert (Hst : sto_storage st' = sto_storage st) by by destruct (comprehensive_moves _ _ _ _ _ _ Hv).
    assert (Hin : get_article_by_id id s' = Ok (Some art)).
    { eapply store_then_get; [|exact Hart|exact Hs|]; by rewrite Hst. }
    split; [exact Hin|]. intros log' clock' Hd'.
    set (q' := submit _ q) in *. set (st2 := mkStores s' (sto_auth st')) in *.
    pose proof (serve_known tls st2 tr cfg q' clock' Silent id art Hok) as T1.
    pose proof (serve_known tls st2 tr cfg q' clock' Eof id art Hok) as T2.
    split; [|by rewrite T2].
    rewrite (dialogue (as_remote tls st2 tr cfg q' clock') host a id log' (greeting_text cfg) RESP_435_NOT_WANTED []); try done.
    + by apply response_line_ok.
    + cbn [remote_says as_remote]. by rewrite T1.
Qed.
End Propagation.

(** ** Concrete servers *)
Module ToyPeers.
Import ToySystem.

(** Anonymous posting is not allowed. *)
Definition site : Config := default_config.
Definition site_stores : Stores Db AuthDb := mkStores two_db bob_db.
Definition site_serves (st : Stores Db AuthDb) (q : ArticleQueue) (e : InEnd) (sent : str) : outcome unit * Ctx Db AuthDb :=
  @serve Toy.ext no_milter _ _ _ _ false st tracker0 site q (fun _ => 0%Z) e sent.
Definition site_remote (st : Stores Db AuthDb) (q : ArticleQueue) : Remote :=
  @as_remote Toy.ext no_milter _ _ _ _ false st tracker0 site q (fun _ => 0%Z).

Definition new_article : Message :=
  mkMessage [(lit "From", lit "a@b"); (lit "Subject", lit "t"); (lit "Newsgroups", lit "misc.a");
             (lit "Message-ID", lit "<n@x>"); (lit "Path", lit "here")] (lit ".dot").
Definition site_article : Message :=
  @complete_article Toy.ext 0 site (mkMessage (headers new_article) (canonical (body new_article))).
Definition offered_to : str := ihave_line (lit "<n@x>") ++ article_text new_article ++ RESP_DOT_CRLF.
Definition site_after : Ctx Db AuthDb := snd (site_serves site_stores (new_queue 10) Eof offered_to).

(** The first connection finds the server as it is, the next one as it is then. *)
#[export] Instance peers : PeerNet := {|
  peer_dial := fun n _ _ => Ok (if (n =? 0)%nat then site_remote site_stores (new_queue 10)
                                else site_remote (cx_stores site_after) (cx_queue site_after))
|}.

(** What is known is looked up under the Message-ID of the offer, and what is stored under
    that of the article: an article offered under another name is stored again, as one
    more article of its group. *)
Example stored_again :
  let text := ihave_line (lit "<other@x>") ++ article_text dotted_article ++ RESP_DOT_CRLF in
  let c := snd (site_serves site_stores (new_queue 10) Eof text) in
  c_out (cx_conn c) = RESP_201_READY_NO_POST ++ RESP_335_SEND_IT ++ RESP_235_TRANSFER_OK
  /\ list_article_numbers (lit "misc.a") (sto_storage site_stores) = Ok <$> [1; 2]
  /\ list_article_numbers (lit "misc.a") (sto_storage (cx_stores c)) = Ok <$> [1; 2; 3]
  /\ get_article_by_number (lit "misc.a") 3 (sto_storage (cx_stores c))
     = get_article_by_number (lit "misc.a") 2 (sto_storage (cx_stores c)).
Proof. vm_compute. split_and!; reflexivity. Qed.
End ToyPeers.

Lemma transfers_received_witness :
  exists c', @IHaveHandler Toy.ext no_milter Db AuthDb ToySystem.toy_storage ToySystem.toy_auth [lit "<q@x>"]
               (two_client reader []) = (Ret tt, c') /\ c' = replied RESP_435_NOT_WANTED (two_client reader []).
Proof.
  destruct (@IHaveHandler Toy.ext no_milter Db AuthDb ToySystem.toy_storage ToySystem.toy_auth [lit "<q@x>"]
              (two_client reader [])) as [o c'] eqn:E.
  destruct (@transfers_received Toy.ext no_milter Db AuthDb ToySystem.toy_storage ToySystem.toy_auth
              (two_client reader []) (lit "<q@x>") [] o c') as [H1 _]. specialize (H1 E).
  destruct (@get_article_by_id Db ToySystem.toy_storage (lit "<q@x>") (sto_storage (cx_stores (two_client reader []))))
    as [[x|]|e] eqn:Ek; [|exfalso; vm_compute in Ek; discriminate Ek..].
  destruct H1 as [-> H1]. exists c'. split; [reflexivity|exact H1].
Defined.

Lemma article_propagates_witness :
  exists log, @send_article_to_peer ToyPeers.peers (lit "news.example") ToyPeers.new_article [] = (Ret tt, log)
  /\ snd (@send_article_to_peer ToyPeers.peers (lit "news.example") ToyPeers.new_article log)
     = log ++ [mkDialled (lit "news.example") 563 (ihave_line (lit "<n@x>"))].
Proof.
  destruct (@article_propagates Toy.ext no_milter Db AuthDb ToySystem.toy_storage ToySystem.toy_laws ToySystem.toy_auth
              ToyPeers.peers (lit "news.example") ToyPeers.new_article (lit "<n@x>") [] false
              ToyPeers.site_stores ToyPeers.site_stores
              (sto_storage (cx_stores ToyPeers.site_after)) tracker0 ToyPeers.site (new_queue 10) (fun _ => 0%Z))
    as (sent & E & H).
  - vm_compute. reflexivity.
  - vm_compute. reflexivity.
  - vm_compute. reflexivity.
  - vm_compute. reflexivity.
  - vm_compute. reflexivity.
  - vm_compute. reflexivity.
  - reflexivity.
  - exact two_db_wf.
  - vm_compute. reflexivity.
  - vm_compute. reflexivity.
  - vm_compute. reflexivity.
  - eexists. split; [exact E|].
    assert (Hsent : sent = ToyPeers.offered_to).
    { assert (E2 := E). vm_compute in E2. injection E2 as <-. vm_compute. reflexivity. }
    rewrite Hsent in H |- *.
    destruct (serve false ToyPeers.site_stores tracker0 ToyPeers.site (new_queue 10) (fun _ => 0%Z) Eof ToyPeers.offered_to)
      as [o c'] eqn:Es.
    destruct H as (_ & _ & H).
    assert (Hc : c' = ToyPeers.site_after) by (unfold ToyPeers.site_after, ToyPeers.site_serves; rewrite Es; reflexivity).
    subst c'. destruct (H [mkDialled (lit "news.example") 563 ToyPeers.offered_to] (fun _ => 0%Z) eq_refl) as [H1 _].
    set (log := [] ++ _). change log with [mkDialled (lit "news.example") 563 ToyPeers.offered_to].
    rewrite H1. reflexivity.
Defined.
