(* ===== verification/Network.v ===== *)
(** * Network: sites that are each other's peers ([peers.rs], [handlers/streaming.rs])

    Any number of servers of this kind, each under the name its peers call it by.  A step of
    the network is one article offered by one site to another: [process_fetched_article] as
    the synchronisation job of the one runs it, over connections that the other serves. *)

From stdpp Require Import base numbers list gmap strings relations.
From Stdlib Require Import NArith ZArith Lia.
From S2P Require Import Prelude Text Externals Message Wildmat Config Limits Auth SqliteAuth Tracker Storage SqliteStorage Responses Session Wire Control Milter Filters Queue Context ArticleHandlers GroupHandlers PostHandlers Server Served Replies Peers System Transfers.
Local Open Scope N_scope.

(** ** What an offer does to a store *)
Section Offered.
Context {X : Ext} {Net : MilterNet} {S A : Type} `{Storage S} `{!StorageLaws S} `{AuthProvider A}.
Implicit Types c : Ctx S A.
#[local] Existing Instance aside_preorder.

Definition storage_of c : S := sto_storage (cx_stores c).

Lemma aside_storage c c' : aside c c' -> storage_of c' = storage_of c.
Proof. intros [_ _ _ _ [Hs _]]. exact Hs. Qed.

Lemma store_storage a c o c' : store a c = (o, c') ->
  exists t os, store_article t a (storage_of c) = (os, storage_of c').
Proof.
  unfold store, mbind', now, mcatch, stores, on_storage, mzoom. simpl.
  destruct (store_article _ a _) as [os s] eqn:E. intros Ec. exists (cx_clock c (cx_tick c)), os.
  unfold storage_of. rewrite E. by destruct os; injection Ec as _ <-.
Qed.

(** A transfer leaves the store as it is, or runs [store_article] on the completed article. *)
Lemma transfer_storage accepted refused msg a c o c' :
  is_control_message a = false -> transfer accepted refused msg a c = (o, c') ->
  storage_of c' = storage_of c
  \/ exists date t os, store_article t (complete_article date (cx_config c) a) (storage_of c) = (os, storage_of c').
Proof.
  intros Hctl. unfold transfer. cbv zeta. destruct (complete_aside a c) as (date & c1 & E1 & H1).
  rewrite (mbind_Ret _ _ _ _ _ E1), Hctl. apply aside_storage in H1. rewrite <- H1.
  unfold mbind' at 1. destruct (check_bandwidth_rejected (utf8_len msg) c1) as [orj c2] eqn:E2.
  assert (H2 : storage_of c2 = storage_of c1).
  { apply rejected_cases in E2 as [(_ & c0 & K0 & ->)|[_ H2]];
      [exact (aside_storage _ _ K0)|exact (aside_storage _ _ H2)]. }
  rewrite <- H2. destruct orj as [[|]|e| |]; [intros [= _ <-]; by left| |intros [= _ <-]; by left..].
  unfold mbind' at 1. destruct (validate _ (utf8_len msg) c2) as [ov c3] eqn:E3.
  apply validate_cases in E3 as [H3%aside_storage _]. rewrite <- H3.
  destruct ov as [[[]|e]|e| |]; [|rewrite ?write_replied; intros [= _ <-]; by left..].
  unfold mbind' at 1. destruct (store _ c3) as [os c4] eqn:E4. apply store_storage in E4 as (t & os' & E4).
  assert (Hst : forall c5, storage_of c5 = storage_of c4 -> storage_of c5 = storage_of c3
    \/ exists date t os, store_article t (complete_article date (cx_config c) a) (storage_of c3) = (os, storage_of c5)).
  { intros c5 ->. right. by exists date, t, os'. }
  destruct os as [[[]|e]|e| |]; [|rewrite ?write_replied; intros [= _ <-]; by apply Hst..].
  set (qa := mkQueuedArticle _ _ _ _).
  assert (Eq : submit_article qa c4 = (Ret tt, set_queue (submit qa (cx_queue c4)) c4)) by done.
  rewrite (mbind_Ret _ _ _ _ _ Eq).
  destruct (record_aside (utf8_len msg) true (set_queue (submit qa (cx_queue c4)) c4)) as (c5 & E5 & H5).
  rewrite (mbind_Ret _ _ _ _ _ E5), write_replied. intros [= _ <-]. apply Hst.
  exact (aside_storage _ _ H5).
Qed.

Lemma received_input accepted refused msg a c o c' :
  received accepted refused msg a c o c' ->
  c_in (cx_conn c') = c_in (cx_conn c) /\ c_end (cx_conn c') = c_end (cx_conn c).
Proof.
  intros [date st st' t c2 _ _ _ _ _ E|date t handled c2 _ _ _ E|o2 r c2 _ _ E]; by rewrite E.
Qed.

Lemma done_storage c : storage_of (snd (client_done c)) = storage_of c.
Proof. unfold client_done, mbind', session, mgets. by destruct (limited_user (cx_session c)). Qed.

(** The connection of a server that has handled what it was sent. *)
Lemma loop_storage n (m : M (Ctx S A) unit) c o c1 : client_turn c = (_ <-- mcatch m ;;; mreturn true)%m c -> m c = (o, c1) ->
  c_in (cx_conn c1) = [] -> c_end (cx_conn c1) <> IoError ->
  storage_of (snd ((client_loop (Datatypes.S (Datatypes.S n)) ;;; client_done)%m c)) = storage_of c1.
Proof.
  intros Ht Em Hin He.
  assert (Hl : client_loop (Datatypes.S (Datatypes.S n)) c
    = match o with Ret _ | Fail _ => (Ret tt, c1) | Panic => (Panic, c1) | Stuck => (Stuck, c1) end).
  { change (client_loop (Datatypes.S (Datatypes.S n)) c)
      with ((go_on <-- client_turn ;;; if go_on then client_loop (Datatypes.S n) else mreturn tt)%m c).
    unfold mbind' at 1. rewrite Ht. unfold mbind', mcatch. rewrite Em.
    destruct o as [[]|e| |]; try done; exact (loop_at_end n c1 Hin He). }
  unfold mbind' at 1. rewrite Hl. destruct o as [[]|e| |]; try done; apply done_storage.
Qed.

Section Serve.
Context (tls : bool) (st : Stores S A) (tr : UsageTracker) (cfg : Config) (q : ArticleQueue) (clock : nat -> Z).

(** An offer the store cannot answer is not answered. *)
Lemma serve_failing e id err : arg_ok id = true -> e <> IoError ->
  get_article_by_id id (sto_storage st) = Err err ->
  serve tls st tr cfg q clock e (ihave_line id) = (Ret tt, greeted tls st tr cfg q clock e []).
Proof.
  intros Hok He Eg. apply (serve_turn tls st tr cfg q clock e (ihave_line id) []);
    [done|apply offer_length| |done..].
  rewrite (offer_turn _ id []) by (try done; by rewrite app_nil_r). unfold mbind' at 1, mcatch.
  change (set_conn _ (greeted tls st tr cfg q clock e (input (ihave_line id)))) with (greeted tls st tr cfg q clock e []).
  unfold IHaveHandler, mbind' at 1.
  change (ask (get_article_by_id id) (greeted tls st tr cfg q clock e []))
    with (outcome_of (get_article_by_id id (sto_storage st)),
          set_stores st (greeted tls st tr cfg q clock e [])).
  by rewrite Eg.
Qed.

(** An offer that is declined, or that is not answered. *)
Lemma serve_declined e id : arg_ok id = true -> e <> IoError ->
  get_article_by_id id (sto_storage st) <> Ok None ->
  storage_of (snd (serve tls st tr cfg q clock e (ihave_line id))) = sto_storage st.
Proof.
  intros Hok He Hk. destruct (get_article_by_id id (sto_storage st)) as [[x|]|err] eqn:Eg; [|done|].
  - by rewrite (serve_known tls st tr cfg q clock e id x).
  - by rewrite (serve_failing e id err).
Qed.

Lemma serve_sent e id a : e <> IoError -> arg_ok id = true ->
  get_article_by_id id (sto_storage st) = Ok None ->
  forallb header_ok (headers a) = true -> is_control_message a = false ->
  let s' := storage_of (snd (serve tls st tr cfg q clock e (ihave_line id ++ article_text a ++ RESP_DOT_CRLF))) in
  s' = sto_storage st
  \/ exists date t os, store_article t (complete_article date cfg (mkMessage (headers a) (canonical (body a))))
                         (sto_storage st) = (os, s').
Proof.
  intros He Hok Hk Hh Hctl s'. set (content := article_text a ++ RESP_DOT_CRLF) in *.
  set (c0 := mkCtx (mkConn [] e (greeting_text cfg ++ RESP_335_SEND_IT))
               (cx_session (greeted tls st tr cfg q clock e [])) st tr cfg q clock 0).
  destruct (transfer RESP_235_TRANSFER_OK RESP_437_REJECTED (received_text a)
              (mkMessage (headers a) (canonical (body a))) c0) as [o c1] eqn:Et.
  pose proof (received_input _ _ _ _ _ _ _ (transfer_received _ _ _ _ _ _ _ Et)) as [Hin Hend].
  assert (Hs : s' = storage_of c1).
  { unfold s'. rewrite serve_greeted.
    destruct (length (input (ihave_line id ++ content))) as [|n] eqn:En; [done|].
    set (g := greeted tls st tr cfg q clock e (input (ihave_line id ++ content))).
    set (m := fun c : Ctx S A => IHaveHandler [id] (set_conn (mkConn (input content) e (greeting_text cfg)) c)).
    apply (loop_storage n m g o); [| |exact Hin|by rewrite Hend].
    - rewrite (offer_turn g id (input content)); [done|done|]. unfold g. simpl. by rewrite <- input_app.
    - unfold m. change (set_conn _ g) with (greeted tls st tr cfg q clock e (input content)).
      rewrite (ihave_unknown (greeted tls st tr cfg q clock e (input content)) id Hk). unfold mbind' at 1, net at 1, mzoom at 1.
      pose proof (read_article_text a [] e (greeting_text cfg ++ RESP_335_SEND_IT) Hh) as Er. rewrite app_nil_r in Er.
      change (cx_conn (replied RESP_335_SEND_IT (greeted tls st tr cfg q clock e (input content))))
        with (mkConn (input content) e (greeting_text cfg ++ RESP_335_SEND_IT)).
      unfold content. rewrite Er. unfold received_text at 1. rewrite parse_message_text by done. exact Et. }
  rewrite Hs. exact (transfer_storage _ _ _ (mkMessage (headers a) (canonical (body a))) c0 o c1 Hctl Et).
Qed.
End Serve.
End Offered.

(** ** Articles that travel

    What a server has stored of an article it was sent: complete, escaped, its body in lines
    ended by CRLF, and fit to be sent on. *)
Section Articles.
Context {X : Ext}.

Record carried (id : str) (a : Message) : Prop := {
  ca_id : extract_message_id a = Some id;
  ca_arg : arg_ok id = true;
  ca_headers : Forall (fun kv => header_ok kv = true) (headers a);
  ca_escaped : Forall (fun kv => is_header (lit "Message-ID") kv = true -> escape_message_id (snd kv) = snd kv) (headers a);
  ca_date : has_header a (lit "Date") = true;
  ca_body : canonical (body a) = body a;
  ca_control : is_control_message a = false;
}.

(** A name peers can be given and paths can be made of. *)
Definition site_name_ok (site : str) : Prop :=
  ch "!" ∉ site /\ trim site = site /\ forallb not_eol site = true
  /\ match site with c :: _ => is_space c = false | [] => True end.

(** Equal but for the path. *)
Definition off_path (a : Message) : list (str * str) := List.filter (fun kv => negb (is_path kv)) (headers a).
Definition same_article (a b : Message) : Prop := body a = body b /\ off_path a = off_path b.

#[export] Instance same_article_equiv : Equivalence same_article.
Proof.
  split; [done|by intros a b [E1 E2]|intros a b c [E1 E2] [F1 F2]; split; congruence].
Qed.

Lemma complete_carried id a date cfg : carried id a ->
  complete_article date cfg (mkMessage (headers a) (canonical (body a))) = a.
Proof.
  intros Ha. rewrite (ca_body _ _ Ha). destruct a as [hs b]. cbn [headers body]. unfold complete_article.
  assert (Hid : has_header (mkMessage hs b) (lit "Message-ID") = true).
  { pose proof (ca_id _ _ Ha) as E. unfold extract_message_id, get_header_value in E. cbn [headers] in E.
    unfold has_header. cbn [headers]. destruct (find_first (is_header (lit "Message-ID")) hs) as [kv|] eqn:Ef; [|done].
    apply find_first_Some in Ef as [Hin Hp]. apply existsb_exists. by exists kv. }
  unfold ensure_message_id. rewrite Hid. unfold ensure_date. rewrite (ca_date _ _ Ha).
  unfold escape_message_id_header. cbn [headers body]. f_equal. apply map_header_id.
  pose proof (ca_escaped _ _ Ha) as He. rewrite Forall_forall in He. intros kv Hin Hk. apply He; [|done].
  by apply elem_of_list_In.
Qed.

(** A header is a path or has another name, whatever its value. *)
Lemma path_is_not name kv : eq_ignore_ascii_case (lit "Path") name = false ->
  is_path kv = true -> is_header name kv = false.
Proof.
  unfold is_path, is_header, eq_ignore_ascii_case, str_eqb. rewrite !bool_decide_eq_true, !bool_decide_eq_false.
  by intros Hne ->.
Qed.

Lemma find_off_path name a : eq_ignore_ascii_case (lit "Path") name = false ->
  find_first (is_header name) (headers a) = find_first (is_header name) (off_path a).
Proof.
  intros Hne. unfold off_path. induction (headers a) as [|kv l IH]; [done|]. unfold find_first in *. cbn [List.find List.filter].
  destruct (is_path kv) eqn:Ep; cbn [negb].
  - by rewrite (path_is_not name kv Hne Ep).
  - cbn [List.find]. by destruct (is_header name kv).
Qed.

Lemma same_header name a b : eq_ignore_ascii_case (lit "Path") name = false -> same_article a b ->
  get_header_value a name = get_header_value b name /\ has_header a name = has_header b name.
Proof.
  intros Hne [_ E]. unfold get_header_value. rewrite (find_off_path name a Hne), (find_off_path name b Hne), E.
  split; [done|]. unfold has_header.
  assert (Hex : forall c, existsb (is_header name) (headers c) = existsb (is_header name) (off_path c)).
  { intros c. unfold off_path. induction (headers c) as [|kv l IH]; [done|]. cbn [existsb List.filter].
    destruct (is_path kv) eqn:Ep; cbn [negb existsb]; [by rewrite (path_is_not name kv Hne Ep)|by rewrite IH]. }
  by rewrite (Hex a), (Hex b), E.
Qed.

Lemma copy_Forall (P : str * str -> Prop) a site :
  Forall P (headers a) -> P (lit "Path", site) ->
  (forall k v, is_path (k, v) = true -> P (k, v) -> P (k, site ++ lit "!" ++ v)) ->
  Forall P (headers (create_peer_article a site)).
Proof.
  intros Ha Hnew Hpath. unfold create_peer_article. destruct (existsb is_path (headers a)); cbn [headers].
  - induction Ha as [|[k v] l Hkv Hl IH]; [constructor|]. cbn [prefix_path].
    destruct (is_path (k, v)) eqn:Ep; constructor; auto.
  - apply Forall_app. split; [done|]. by constructor.
Qed.

Lemma copy_same a site : site_name_ok site -> same_article (create_peer_article a site) a.
Proof. intros (Hs & Ht & _). by destruct (path_stops_loops a site [] Hs Ht) as (_ & _ & Hb & Hp). Qed.

Lemma copy_path a site : site_name_ok site ->
  path_sites (create_peer_article a site) = site :: path_sites a.
Proof. intros (Hs & Ht & _). by destruct (path_stops_loops a site [] Hs Ht) as (Hp & _). Qed.

Lemma is_path_name k v w : is_path (k, v) = is_path (k, w).
Proof. done. Qed.

Lemma path_header_ok site : site_name_ok site -> header_ok (lit "Path", site) = true.
Proof.
  intros (_ & _ & He & Hf). unfold header_ok. cbn [fst snd]. rewrite He.
  change (is_header (lit "Message-ID") (lit "Path", site)) with false.
  destruct site as [|c site]; [reflexivity|]. by rewrite Hf.
Qed.

Lemma longer_path_ok site k v : site_name_ok site -> is_path (k, v) = true ->
  header_ok (k, v) = true -> header_ok (k, site ++ lit "!" ++ v) = true.
Proof.
  intros (_ & _ & He & Hf) Hp. unfold header_ok. cbn [fst snd].
  rewrite (path_is_not (lit "Message-ID") (k, v) eq_refl Hp).
  rewrite (path_is_not (lit "Message-ID") (k, site ++ lit "!" ++ v) eq_refl Hp).
  rewrite !andb_true_iff. intros [[[[Hk Hn] Hv] _] _]. rewrite !forallb_app, He, Hv. split_and!; try done.
  destruct site as [|c site]; [done|]. cbn. by rewrite Hf.
Qed.

Lemma copy_carried id a site : site_name_ok site -> carried id a -> carried id (create_peer_article a site).
Proof.
  intros Hs Ha. pose proof (copy_same a site Hs) as Hsame. pose proof (same_header (lit "Message-ID") _ _ eq_refl Hsame) as [Hid _].
  pose proof (same_header (lit "Date") _ _ eq_refl Hsame) as [_ Hdate]. split.
  - unfold extract_message_id. rewrite Hid. apply Ha.
  - apply Ha.
  - apply copy_Forall; [apply Ha|by apply path_header_ok|]. intros k v Hp. by apply longer_path_ok.
  - apply copy_Forall; [apply Ha|done|]. intros k v Hp _.
    by rewrite (path_is_not (lit "Message-ID") (k, site ++ lit "!" ++ v) eq_refl Hp).
  - rewrite Hdate. apply Ha.
  - rewrite (proj1 Hsame). apply Ha.
  - pose proof (ca_control _ _ Ha) as Hc. unfold is_control_message in *.
    set (p := fun kv : str * str => _) in *.
    assert (Hall : forall l, existsb p l = false <-> Forall (fun kv => p kv = false) l).
    { induction l as [|kv l IH]; simpl; [by split|]. rewrite orb_false_iff, Forall_cons. by rewrite IH. }
    apply Hall. apply copy_Forall; [by apply Hall|done|]. intros k v Hp _. unfold p. cbn [fst snd].
    assert (eq_ignore_ascii_case k (lit "Control") = false) as ->
      by exact (path_is_not (lit "Control") (k, v) eq_refl Hp).
    done.
Qed.
End Articles.

(** ** The network *)
Record Site (S A : Type) := mkSite {
  si_stores : Stores S A;
  si_tracker : UsageTracker;
  si_config : Config;
  si_queue : ArticleQueue;
}.
Arguments mkSite {S A}.
Arguments si_stores {S A}.
Arguments si_tracker {S A}.
Arguments si_config {S A}.
Arguments si_queue {S A}.

Section Network.
Context {X : Ext} {Net : MilterNet} {S A : Type} `{Storage S} `{AuthProvider A}.
Notation Network := (gmap str (Site S A)).
Implicit Types (n : Network) (s : Site S A).

Definition storage_at s : S := sto_storage (si_stores s).

(** The site that is dialled: a peer's name is its address as well. *)
Definition address (name : str) : str * N :=
  let info := parse_peer_address name 563 in (pi_host info, pi_port info).
Definition dialled_site n (host : str) (port : N) : option str :=
  fst <$> find_first (fun kv => bool_decide (address (fst kv) = (host, port))) (map_to_list n).

(** The sites as the peers that answer. *)
Definition peers_of (clock : nat -> Z) n : PeerNet := {|
  peer_dial := fun _ host port =>
    match dialled_site n host port ≫= (n !!.) with
    | Some s => Ok (as_remote true (si_stores s) (si_tracker s) (si_config s) (si_queue s) clock)
    | None => Err (lit "Connection refused")
    end
|}.

(** A site once it has served a connection. *)
Definition visited (clock : nat -> Z) (sent : str) s : Site S A :=
  let c := snd (serve true (si_stores s) (si_tracker s) (si_config s) (si_queue s) clock Eof sent) in
  mkSite (cx_stores c) (cx_tracker c) (si_config s) (cx_queue c).

Definition dialled (clock : nat -> Z) n (d : Dialled) : Network :=
  match dialled_site n (dl_host d) (dl_port d) with
  | Some y => alter (visited clock (dl_sent d)) y n
  | None => n
  end.

(** Site [x] processes its article [id] for the peer [y]. *)
Definition offers (clock : nat -> Z) (x y id : str) n : option Network :=
  match n !! x, n !! y with
  | Some s, Some _ =>
      match get_article_by_id id (storage_at s) with
      | Ok (Some a) =>
          let '(_, log) := @process_fetched_article (peers_of clock n) (mkPeerRule y [] None)
                             (cfg_site_name (si_config s)) a [] in
          Some (foldl (dialled clock) n log)
      | _ => None
      end
  | _, _ => None
  end.
Definition net_step n n' : Prop := exists clock x y id, offers clock x y id n = Some n'.

Definition holds n (x id : str) (a : Message) : Prop :=
  exists s, n !! x = Some s /\ get_article_by_id id (storage_at s) = Ok (Some a).
End Network.

(** ** Every run of offers *)
Section Copies.
Context {X : Ext} {Net : MilterNet} {S A : Type} `{Storage S} `{!StorageLaws S} `{AuthProvider A}.
Notation Network := (gmap str (Site S A)).
Implicit Types (n : Network) (s : Site S A).

(** Every site is called by its own name, under an address of its own; the articles are
    such as travel. *)
Record well_connected n : Prop := {
  wc_name x s : n !! x = Some s -> cfg_site_name (si_config s) = x /\ site_name_ok x
                  /\ pi_credentials (parse_peer_address x 563) = None;
  wc_address x y : is_Some (n !! x) -> is_Some (n !! y) -> address x = address y -> x = y;
  wc_store x s : n !! x = Some s -> st_wf (storage_at s);
  wc_carried x id a : holds n x id a -> carried id a;
}.

Lemma dialled_found n y s : well_connected n -> n !! y = Some s ->
  dialled_site n (fst (address y)) (snd (address y)) = Some y.
Proof.
  intros Hn Hy. unfold dialled_site. destruct (find_first _ _) as [[z sz]|] eqn:Ef; simpl.
  - apply find_first_Some in Ef as [Hin Hz]. apply list_elem_of_In, elem_of_map_to_list in Hin.
    apply bool_decide_eq_true in Hz. simpl in Hz. f_equal. apply (wc_address _ Hn); [by eexists..|].
    exact Hz.
  - exfalso. apply find_first_None in Ef.
    assert (Ht : existsb (fun kv : str * Site S A => bool_decide (address (fst kv) = (fst (address y), snd (address y))))
                   (map_to_list n) = true).
    { apply existsb_exists. exists (y, s). split; [by apply list_elem_of_In, elem_of_map_to_list|].
      by apply bool_decide_eq_true. }
    rewrite Ht in Ef. done.
Qed.

(** What is sent to a site about an article: the offer, and the article if it is not there. *)
Definition offered_text (id : str) (a : Message) s : str :=
  match get_article_by_id id (storage_at s) with
  | Ok None => ihave_line id ++ article_text a ++ RESP_DOT_CRLF
  | _ => ihave_line id
  end.

Lemma offer_log clock n y s id a : well_connected n -> n !! y = Some s ->
  extract_message_id a = Some id -> arg_ok id = true ->
  snd (@send_article_to_peer (peers_of clock n) y a [])
  = [mkDialled (fst (address y)) (snd (address y)) (offered_text id a s)].
Proof.
  intros Hn Hy Hid Hok. destruct (wc_name _ Hn _ _ Hy) as (_ & _ & Hcred).
  set (r := as_remote true (si_stores s) (si_tracker s) (si_config s) (si_queue s) clock).
  set (g := greeting_text (si_config s)). destruct (greeting_line (si_config s)) as [Hlg Hg]. fold g in Hlg, Hg.
  assert (Hd : @peer_dial (peers_of clock n) 0 (pi_host (parse_peer_address y 563)) (pi_port (parse_peer_address y 563)) = Ok r).
  { simpl. pose proof (dialled_found n y s Hn Hy) as E. unfold address in E. cbn [fst snd] in E. rewrite E. simpl. by rewrite Hy. }
  assert (Hs0 : remote_says r [] = input g) by (cbn [remote_says r as_remote]; by rewrite serve_nothing).
  rewrite (@dialogue_offer (peers_of clock n) r y a id [] g Hid Hcred Hd Hlg Hg Hs0).
  destruct (after_offer a _) as [o c] eqn:Ea. simpl. unfold address. cbn [fst snd]. do 2 f_equal.
  change c with (snd (o, c)). rewrite <- Ea. unfold offered_text.
  set (c1 := mkPeerConnection r (ihave_line id) (length g)).
  destruct (get_article_by_id id (storage_at s)) as [[x|]|err] eqn:Eg.
  - assert (Hs1 : remote_says r (ihave_line id) = input (g ++ RESP_435_NOT_WANTED)).
    { cbn [remote_says r as_remote]. by rewrite (serve_known true (si_stores s) (si_tracker s) (si_config s) (si_queue s) clock Silent id x Hok). }
    rewrite (after_offer_sent a c1 _ _ (read_reply c1 g RESP_435_NOT_WANTED ltac:(by apply response_line_ok) Hs1 eq_refl)).
    done.
  - assert (Hs1 : remote_says r (ihave_line id) = input (g ++ RESP_335_SEND_IT)).
    { cbn [remote_says r as_remote]. by rewrite (serve_offer true (si_stores s) (si_tracker s) (si_config s) (si_queue s) clock id Hok). }
    rewrite (after_offer_sent a c1 _ _ (read_reply c1 g RESP_335_SEND_IT ltac:(by apply response_line_ok) Hs1 eq_refl)).
    done.
  - assert (Hs1 : remote_says r (ihave_line id) = input g).
    { cbn [remote_says r as_remote]. by rewrite (serve_failing true (si_stores s) (si_tracker s) (si_config s) (si_queue s) clock Silent id err Hok). }
    destruct (read_response c1) as [o1 c2] eqn:Er. rewrite (after_offer_sent a c1 _ _ Er).
    unfold read_response in Er. cbn [pn_remote pn_read pn_sent c1] in Er. rewrite Hs1 in Er.
    unfold input in Er. rewrite drop_ge in Er by (by rewrite length_fmap). by injection Er as <- _.
Qed.

(** What the site offered to is left with. *)
Lemma visited_storage clock id a s : carried id a ->
  storage_at (visited clock (offered_text id a s) s) = storage_at s
  \/ (get_article_by_id id (storage_at s) = Ok None
      /\ exists t os, store_article t a (storage_at s) = (os, storage_at (visited clock (offered_text id a s) s))).
Proof.
  intros Ha. pose proof (ca_arg _ _ Ha) as Hok. unfold offered_text, visited, storage_at.
  change (sto_storage (si_stores (mkSite (cx_stores ?c) _ _ _))) with (storage_of c).
  destruct (get_article_by_id id (sto_storage (si_stores s))) as [[x|]|err] eqn:Eg.
  - left. apply serve_declined; [done..|]. by rewrite Eg.
  - assert (Hh : forallb header_ok (headers a) = true).
    { pose proof (ca_headers _ _ Ha) as Hf. rewrite Forall_forall in Hf. apply forallb_forall. intros kv Hin.
      apply Hf. by apply list_elem_of_In. }
    destruct (serve_sent true (si_stores s) (si_tracker s) (si_config s) (si_queue s) clock Eof id a
                ltac:(done) Hok Eg Hh (ca_control _ _ Ha)) as [E|(date & t & os & E)]; [by left|].
    rewrite (complete_carried id a date _ Ha) in E. right. split; [done|]. by exists t, os.
  - left. apply serve_declined; [done..|]. by rewrite Eg.
Qed.

(** An offer changes the other site at most, whose path did not name it; and that by storing
    the copy, when it had no such article. *)
Lemma offer_cases clock x y id n n' : well_connected n -> offers clock x y id n = Some n' ->
  n' = n \/ exists s a sy sy', n !! x = Some s /\ get_article_by_id id (storage_at s) = Ok (Some a)
    /\ should_skip_article a y = false /\ n !! y = Some sy /\ n' = <[y := sy']> n
    /\ si_config sy' = si_config sy
    /\ (storage_at sy' = storage_at sy
        \/ (get_article_by_id id (storage_at sy) = Ok None
            /\ exists t os, store_article t (create_peer_article a x) (storage_at sy) = (os, storage_at sy'))).
Proof.
  intros Hn. unfold offers. destruct (n !! x) as [s|] eqn:Hx; [|done]. destruct (n !! y) as [sy|] eqn:Hy; [|done].
  destruct (get_article_by_id id (storage_at s)) as [[a|]|e] eqn:Ea; [|done..].
  destruct (wc_name _ Hn _ _ Hx) as (Hname & Hsite & _). rewrite Hname.
  assert (Hc : carried id (create_peer_article a x)).
  { apply copy_carried; [done|]. apply (wc_carried _ Hn x). by exists s. }
  unfold process_fetched_article. cbn [pr_sitename]. destruct (should_skip_article a y) eqn:Esk.
  { intros E. left. by injection E as <-. }
  pose proof (offer_log clock n y sy id _ Hn Hy (ca_id _ _ Hc) (ca_arg _ _ Hc)) as Hlog.
  unfold mbind'. destruct (send_article_to_peer y _ []) as [o log]. cbn [snd] in Hlog. subst log.
  intros E. right. exists s, a, sy, (visited clock (offered_text id (create_peer_article a x) sy) sy).
  split_and!; try done.
  - assert (E' : Some (foldl (dialled clock) n [mkDialled (fst (address y)) (snd (address y))
                         (offered_text id (create_peer_article a x) sy)]) = Some n') by by destruct o as [[]|err| |].
    injection E' as <-. simpl. unfold dialled. cbn [dl_host dl_port dl_sent].
    pose proof (dialled_found n y sy Hn Hy) as Ed. cbn [fst snd address] in Ed. rewrite Ed.
    apply map_eq. intros z. destruct (decide (y = z)) as [->|Hne].
    + rewrite lookup_alter_eq, lookup_insert_eq, Hy. done.
    + by rewrite lookup_alter_ne, lookup_insert_ne.
  - by apply visited_storage.
Qed.

Lemma insert_holds n y sy' x id a :
  holds (<[y := sy']> n) x id a -> x <> y /\ holds n x id a \/ x = y /\ get_article_by_id id (storage_at sy') = Ok (Some a).
Proof.
  intros (s & Hs & Ha). apply lookup_insert_Some in Hs as [[<- <-]|[Hne Hs]]; [by right|].
  left. split; [congruence|]. by exists s.
Qed.

(** What an offer adds is the copy of an article of the site that offers it. *)
Lemma step_holds clock x y id n n' z i b : well_connected n -> offers clock x y id n = Some n' ->
  holds n' z i b ->
  holds n z i b
  \/ (z = y /\ i = id /\ (forall c, ~ holds n y id c) /\ exists a, holds n x id a /\ should_skip_article a y = false
        /\ b = create_peer_article a x).
Proof.
  intros Hn Ho Hb. destruct (offer_cases _ _ _ _ _ _ Hn Ho) as [->|(s & a & sy & sy' & Hx & Ha & Hsk & Hy & -> & _ & Hsto)];
    [by left|].
  apply insert_holds in Hb as [[_ Hb]|[-> Hb]]; [by left|].
  destruct Hsto as [E|(Hnone & t & os & E)]; [left; exists sy; by rewrite <- E|].
  destruct (store_adds_only _ _ _ _ _ _ _ (wc_store _ Hn _ _ Hy) E Hb) as [Hold|[-> Hid]]; [left; by exists sy|].
  right. destruct (wc_name _ Hn _ _ Hx) as (_ & Hsite & _).
  assert (Hi : i = id).
  { assert (Hc : carried id (create_peer_article a x)) by (apply copy_carried; [done|]; apply (wc_carried _ Hn x); by exists s).
    pose proof (ca_id _ _ Hc). congruence. }
  split_and!; [done|done| |].
  - intros c (sy2 & Hy2 & Hc). assert (sy2 = sy) as -> by congruence. congruence.
  - exists a. split_and!; [by exists s|done|done].
Qed.

Lemma step_keeps clock x y id n n' z i b : well_connected n -> offers clock x y id n = Some n' ->
  holds n z i b -> holds n' z i b.
Proof.
  intros Hn Ho (sz & Hz & Hb). destruct (offer_cases _ _ _ _ _ _ Hn Ho) as [->|(s & a & sy & sy' & _ & _ & _ & Hy & -> & _ & Hsto)];
    [by exists sz|].
  destruct (decide (z = y)) as [->|Hne]; [|exists sz; by rewrite lookup_insert_ne].
  assert (sz = sy) as -> by congruence. exists sy'. rewrite lookup_insert_eq. split; [done|].
  destruct Hsto as [->|(_ & t & os & E)]; [done|].
  exact (store_keeps_others _ _ _ _ _ _ (wc_store _ Hn _ _ Hy) E _ Hb).
Qed.

Lemma step_connected n n' : net_step n n' -> well_connected n -> well_connected n' /\ dom n' = dom n.
Proof.
  intros (clock & x & y & id & Ho) Hn.
  destruct (offer_cases _ _ _ _ _ _ Hn Ho) as [->|(s & a & sy & sy' & Hx & Ha & Hsk & Hy & E & Hcfg & Hsto)]; [done|].
  assert (Hdom : dom n' = dom n) by (rewrite E, dom_insert_L; apply elem_of_dom_2 in Hy; set_solver).
  split; [|exact Hdom]. split.
  - intros z s'. rewrite E. intros [[<- <-]|[_ Hz]]%lookup_insert_Some; [|by apply (wc_name _ Hn)].
    rewrite Hcfg. by apply (wc_name _ Hn).
  - intros z w Hz Hw. apply (wc_address _ Hn); apply elem_of_dom; rewrite <- Hdom; by apply elem_of_dom.
  - intros z s'. rewrite E. intros [[<- <-]|[_ Hz]]%lookup_insert_Some; [|by apply (wc_store _ Hn z)].
    destruct Hsto as [->|(_ & t & os & Es)]; [by apply (wc_store _ Hn y)|].
    exact (store_keeps_wf _ _ _ _ _ (wc_store _ Hn _ _ Hy) Es).
  - intros z i b Hb. destruct (step_holds _ _ _ _ _ _ _ _ _ Hn Ho Hb) as [Hold|(-> & -> & _ & c & Hc & _ & ->)].
    + exact (wc_carried _ Hn _ _ _ Hold).
    + apply copy_carried; [|exact (wc_carried _ Hn _ _ _ Hc)]. by apply (wc_name _ Hn x s).
Qed.

(** Where a copy comes from: an article of the first site of its route, which is what its path
    has more, newest site first; the sites are different and have the article. *)
Definition traced n0 n (x id : str) (a : Message) : Prop :=
  exists x0 a0 route, holds n0 x0 id a0 /\ same_article a a0
    /\ path_sites a = route ++ path_sites a0
    /\ NoDup (x :: route) /\ last (x :: route) = Some x0
    /\ Forall (fun y => exists b, holds n y id b) route
    /\ (route = [] /\ a = a0 \/ x ∉ path_sites a).

Lemma traced_start n x id a : holds n x id a -> traced n n x id a.
Proof. intros Ha. exists x, a, []. split_and!; try done; [apply NoDup_singleton|by left]. Qed.

Lemma traced_mono n0 n n' x id a : (forall z i b, holds n z i b -> holds n' z i b) ->
  traced n0 n x id a -> traced n0 n' x id a.
Proof.
  intros Hm (x0 & a0 & route & Ho & Hs & Hp & Hd & Hl & Hr & Hx). exists x0, a0, route. split_and!; try done.
  eapply Forall_impl; [exact Hr|]. intros y [b Hb]. exists b. by apply Hm.
Qed.

Lemma traced_copy n0 n x y id a : site_name_ok x -> holds n x id a -> (forall c, ~ holds n y id c) ->
  should_skip_article a y = false -> traced n0 n x id a -> traced n0 n y id (create_peer_article a x).
Proof.
  intros Hsite Ha Hnone Hsk (x0 & a0 & route & Ho & Hs & Hp & Hd & Hl & Hr & Hx).
  assert (Hy : forall z, z ∈ x :: route -> exists b, holds n z id b).
  { intros z [->|Hz]%elem_of_cons; [by exists a|]. rewrite Forall_forall in Hr. by apply Hr. }
  exists x0, a0, (x :: route). split_and!; try done.
  - etrans; [by apply copy_same|done].
  - by rewrite copy_path, Hp.
  - apply NoDup_cons. split; [|done]. intros Hin. destruct (Hy y Hin) as [b Hb]. by apply (Hnone b).
  - apply Forall_forall. exact Hy.
  - right. rewrite copy_path by done. rewrite should_skip_sites in Hsk. intros [->|Hin]%elem_of_cons.
    + exact (Hnone _ Ha).
    + apply not_true_iff_false in Hsk. apply Hsk, existsb_exists. exists y. split; [by apply list_elem_of_In|].
      by apply bool_decide_eq_true.
Qed.

Lemma run_copies n0 n : well_connected n0 -> rtc net_step n0 n ->
  well_connected n /\ dom n = dom n0
  /\ (forall x id a, holds n0 x id a -> holds n x id a)
  /\ (forall x id a, holds n x id a -> traced n0 n x id a).
Proof.
  intros Hok. revert n. apply rtc_ind_r; [split_and!; auto using traced_start|].
  intros n n' _ Hs (Hn & Hdom & Hkeep & Htr). destruct (step_connected _ _ Hs Hn) as [Hn' Hdom'].
  destruct Hs as (clock & x & y & id & Ho).
  assert (Hmono : forall z i b, holds n z i b -> holds n' z i b) by (intros z i b; exact (step_keeps _ _ _ _ _ _ _ _ _ Hn Ho)).
  split_and!; [done|congruence|auto|]. intros z i b Hb.
  destruct (step_holds _ _ _ _ _ _ _ _ _ Hn Ho Hb) as [Hold|(-> & -> & Hnone & a & Ha & Hsk & ->)].
  - apply (traced_mono _ n); auto.
  - apply (traced_mono _ n); [done|]. apply traced_copy; auto. destruct Ha as (s & Hx & _).
    by apply (wc_name _ Hn x s).
Qed.

Lemma route_length n x id a route : holds n x id a -> NoDup (x :: route) ->
  Forall (fun y => exists b, holds n y id b) route -> (length route < size n)%nat.
Proof.
  intros (s & Hx & _) Hd Hr. assert (Hsub : list_to_set (x :: route) ⊆ dom n).
  { intros z Hz. apply elem_of_list_to_set in Hz. apply elem_of_dom. apply elem_of_cons in Hz as [->|Hz]; [by exists s|].
    rewrite Forall_forall in Hr. destruct (Hr z Hz) as (b & sz & Hz' & _). by exists sz. }
  apply subseteq_size in Hsub. rewrite size_dom in Hsub.
  rewrite size_list_to_set in Hsub by done. simpl in Hsub. lia.
Qed.
End Copies.

(** C8: articles in a network of any number of sites that offer them to each other, in any
    order, for ever.  No site loses an article, and every copy is the article of a site it
    started from but for its path.  The path tells the truth: before what it was at the start
    it names, newest first, different sites that have the article, and the last of them is
    where it started; a site is never sent an article whose path names it.  So an article
    makes fewer hops than there are sites. *)
Theorem network_copies {X : Ext} {Net : MilterNet} {S A : Type} `{Storage S} `{!StorageLaws S} `{AuthProvider A}
    (n0 n : gmap str (Site S A)) :
  well_connected n0 -> rtc net_step n0 n ->
  (forall x id a, holds n0 x id a -> holds n x id a)
  /\ forall x id a, holds n x id a ->
       exists x0 a0 route, holds n0 x0 id a0 /\ same_article a a0
         /\ path_sites a = route ++ path_sites a0
         /\ NoDup (x :: route) /\ last (x :: route) = Some x0
         /\ Forall (fun y => exists b, holds n y id b) route
         /\ (route = [] /\ a = a0 \/ x ∉ path_sites a)
         /\ (length route < size n0)%nat.
Proof.
  intros Hok Hr. destruct (run_copies n0 n Hok Hr) as (_ & Hdom & Hkeep & Htr). split; [exact Hkeep|].
  intros x id a Ha. destruct (Htr x id a Ha) as (x0 & a0 & route & Ho & Hs & Hp & Hd & Hl & Hf & Hx).
  exists x0, a0, route. split_and!; try done.
  pose proof (route_length n x id a route Ha Hd Hf) as Hlen.
  by rewrite <- (size_dom n), Hdom, size_dom in Hlen.
Qed.

(** ** Three sites *)
Module ToyNetwork.
Import ToySystem.

Definition travelling : Message :=
  mkMessage [(lit "From", lit "a@b"); (lit "Subject", lit "t"); (lit "Newsgroups", lit "misc.a");
             (lit "Message-ID", lit "<n@x>"); (lit "Date", lit "d"); (lit "Path", lit "mars")] (lit ".dot" ++ crlf).
Definition group_db : Db := @run_storage_ops Toy.ext [OpAddGroup 0 (lit "misc.a") false] empty_db.
Definition far_db : Db := snd (@ss_store_article Toy.ext ns_per_sec travelling group_db).
Definition config_of (name : str) : Config :=
  mkConfig (lit ":119") name [] [] [] [] 600 [] None None None None 1000 1 1 [] [] []
    false false (mkUserLimitsConfig true 0 None None).
Definition site_of (name : str) (db : Db) : Site Db AuthDb :=
  mkSite (mkStores db bob_db) tracker0 (config_of name) (new_queue 10).

(** Only the first site has the article. *)
Definition far : str := lit "far.example".
Definition mid : str := lit "mid.example".
Definition near : str := lit "near.example".
Definition sites : gmap str (Site Db AuthDb) :=
  <[far := site_of far far_db]> (<[mid := site_of mid group_db]> {[near := site_of near group_db]}).

Definition clock : nat -> Z := fun _ => 0%Z.
Definition run (offers' : list (str * str)) : option (gmap str (Site Db AuthDb)) :=
  foldl (fun on xy => n ← on; @offers Toy.ext no_milter Db AuthDb toy_storage toy_auth clock (fst xy) (snd xy) (lit "<n@x>") n)
    (Some sites) offers'.

(** It goes from one to the next and is not sent back. *)
Definition journey : list (str * str) := [(far, mid); (mid, near); (near, far); (far, near)].
Definition path_at (x : str) (n : gmap str (Site Db AuthDb)) : option (list str) :=
  s ← n !! x; match @get_article_by_id Db toy_storage (lit "<n@x>") (sto_storage (si_stores s)) with
              | Ok (Some a) => Some (path_sites a) | _ => None end.

Example journey_ends : (fun n => (fun x => path_at x n) <$> [far; mid; near]) <$> run journey
  = Some [Some [lit "mars"]; Some [far; lit "mars"]; Some [mid; far; lit "mars"]].
Proof. vm_compute. reflexivity. Qed.

Lemma group_db_wf : @db_wf Toy.ext group_db.
Proof. apply (@storage_ops_keep Toy.ext Toy.json_laws), db_wf_empty. Qed.

Lemma sites_lookup x s : sites !! x = Some s ->
  exists db, s = site_of x db /\ x ∈ [far; mid; near] /\ (db = far_db \/ db = group_db).
Proof.
  unfold sites. intros [[<- <-]|[_ [[<- <-]|[_ [<- <-]%lookup_singleton_Some]]%lookup_insert_Some]]%lookup_insert_Some;
    eexists; (split; [reflexivity|]); (split; [set_solver|]); auto.
Qed.

Lemma sites_store x s : sites !! x = Some s -> @st_wf Db toy_storage toy_laws (storage_at s).
Proof.
  intros (db & -> & _ & [->| ->])%sites_lookup; [|exact group_db_wf].
  refine (@store_keeps_wf Db toy_storage toy_laws ns_per_sec travelling group_db _ _ group_db_wf _).
  exact (surjective_pairing (@ss_store_article Toy.ext ns_per_sec travelling group_db)).
Qed.

Lemma travelling_carried : carried (lit "<n@x>") travelling.
Proof.
  split; try (vm_compute; reflexivity); apply Forall_forall; intros kv Hin; apply list_elem_of_In in Hin;
    simpl in Hin; intuition (subst kv; vm_compute; reflexivity).
Qed.

Lemma sites_carried x id a : holds (A := AuthDb) sites x id a -> carried id a.
Proof.
  intros (s & (db & -> & _ & Hdb)%sites_lookup & Ha).
  assert (Hnone : forall i b, @get_article_by_id Db toy_storage i group_db <> Ok (Some b)).
  { intros i b. assert (db_messages group_db = ∅) as Hm by (vm_compute; reflexivity).
    simpl. unfold ss_get_article_by_id. rewrite Hm, lookup_empty. discriminate. }
  destruct Hdb as [->| ->]; [|by apply Hnone in Ha].
  destruct (@store_adds_only Db toy_storage toy_laws ns_per_sec travelling group_db far_db id _ a group_db_wf
              (surjective_pairing (@ss_store_article Toy.ext ns_per_sec travelling group_db)) Ha) as [Hold|[-> Hid]];
    [by apply Hnone in Hold|].
  assert (id = lit "<n@x>") as -> by (vm_compute in Hid; injection Hid as <-; reflexivity).
  exact travelling_carried.
Qed.

Lemma name_ok x : x ∈ [far; mid; near] ->
  site_name_ok x /\ pi_credentials (parse_peer_address x 563) = None.
Proof.
  intros Hx. apply list_elem_of_In in Hx. simpl in Hx. unfold site_name_ok.
  destruct Hx as [<-|[<-|[<-|[]]]]; (split_and!; [by apply absent_check|vm_compute; reflexivity..]).
Qed.

Lemma sites_connected : @well_connected Db AuthDb toy_storage toy_laws sites.
Proof.
  split.
  - intros x s (db & -> & Hx & _)%sites_lookup. split; [reflexivity|]. by apply name_ok.
  - intros x y [s (_ & _ & Hx & _)%sites_lookup] [s' (_ & _ & Hy & _)%sites_lookup].
    apply list_elem_of_In in Hx, Hy. simpl in Hx, Hy.
    intuition (subst; try reflexivity; exfalso; revert H; vm_compute; discriminate).
  - exact sites_store.
  - exact sites_carried.
Qed.

Lemma run_steps js n : run js = Some n -> rtc (@net_step Toy.ext no_milter Db AuthDb toy_storage toy_auth) sites n.
Proof.
  unfold run. generalize sites as n0. induction js as [|[x y] js IH]; intros n0 E; cbn [foldl fst snd mbind option_bind] in E.
  - injection E as <-. apply rtc_refl.
  - destruct (@offers Toy.ext no_milter Db AuthDb toy_storage toy_auth clock x y (lit "<n@x>") n0) as [n1|] eqn:E1; cbn [foldl fst snd mbind option_bind] in E.
    + eapply rtc_l; [by exists clock, x, y, (lit "<n@x>")|]. by apply IH.
    + exfalso. clear -E. induction js as [|j js IH]; [discriminate E|]. by apply IH.
Qed.

Lemma near_has n : run journey = Some n ->
  exists a, @holds Db AuthDb toy_storage n near (lit "<n@x>") a /\ path_sites a = [mid; far; lit "mars"].
Proof.
  intros E. assert (Hp : run journey ≫= path_at near = Some [mid; far; lit "mars"]) by (vm_compute; reflexivity).
  rewrite E in Hp. change (path_at near n = Some [mid; far; lit "mars"]) in Hp. unfold path_at in Hp.
  destruct (n !! near) as [s|] eqn:Es; [|discriminate Hp].
  change (match @get_article_by_id Db toy_storage (lit "<n@x>") (sto_storage (si_stores s)) with
          | Ok (Some a) => Some (path_sites a) | _ => None end = Some [mid; far; lit "mars"]) in Hp.
  destruct (@get_article_by_id Db toy_storage (lit "<n@x>") (sto_storage (si_stores s))) as [[a|]|e] eqn:Ea; [|discriminate Hp..].
  exists a. split; [exists s; split; [exact Es|exact Ea]|]. by injection Hp.
Qed.
End ToyNetwork.

Lemma network_copies_witness :
  match ToyNetwork.run ToyNetwork.journey with
  | Some n => exists a x0 a0 route,
      @holds Db AuthDb ToySystem.toy_storage n ToyNetwork.near (lit "<n@x>") a
      /\ @holds Db AuthDb ToySystem.toy_storage ToyNetwork.sites x0 (lit "<n@x>") a0 /\ same_article a a0
      /\ [ToyNetwork.mid; ToyNetwork.far; lit "mars"] = route ++ path_sites a0 /\ (length route < 3)%nat
  | None => False
  end.
Proof.
  destruct (ToyNetwork.run ToyNetwork.journey) as [n|] eqn:E; [|vm_compute in E; discriminate E].
  destruct (@network_copies Toy.ext no_milter Db AuthDb ToySystem.toy_storage ToySystem.toy_laws ToySystem.toy_auth
              ToyNetwork.sites n ToyNetwork.sites_connected (ToyNetwork.run_steps _ _ E)) as [_ H].
  destruct (ToyNetwork.near_has n E) as (a & Ha & Hpath).
  destruct (H _ _ _ Ha) as (x0 & a0 & route & H0 & Hs & Hr & _ & _ & _ & _ & Hl).
  rewrite Hpath in Hr. exists a, x0, a0, route.
  split; [exact Ha|]. split; [exact H0|]. split; [exact Hs|]. split; [exact Hr|exact Hl].
Defined.
