(* ===== verification/Quota.v ===== *)
(** * Quota: the bandwidth limit when a user's connections run at once
    ([limits/tracker.rs], [handlers/utils.rs])

    The handlers ask [check_bandwidth] before a transfer and call [record_bandwidth] when it
    has gone through; between the two the other connections of the user run.  Here the
    transfers under way are a list, and a step is one call of the tracker by one of the
    connections, at an instant of its own. *)

From stdpp Require Import base numbers list gmap strings relations.
From Stdlib Require Import NArith ZArith Lia.
From S2P Require Import Prelude Text Externals Config Limits Auth SqliteAuth Tracker.
Local Open Scope N_scope.

Section Quota.
Context {A : Type} `{AuthProvider A} (auth : A) (d : UserLimitsConfig) (u : str).
Context (connections_of_u : nat) (largest : N).
Implicit Types t : UsageTracker.

Definition total (l : list N) : N := foldr N.add 0 l.

(** The tracker and the sizes of the transfers of [u] that passed the check.  Others may do
    anything that leaves the limits and what is counted for [u]. *)
Inductive transfer_step : UsageTracker * list N -> UsageTracker * list N -> Prop :=
| transfer_allowed now bytes t t' l :
    check_bandwidth now u bytes auth t = (Ret Allowed, t') ->
    bytes <= largest -> (length l < connections_of_u)%nat ->
    transfer_step (t, l) (t', bytes :: l)
| transfer_refused now bytes t t' o l :
    check_bandwidth now u bytes auth t = (o, t') -> o <> Ret Allowed -> transfer_step (t, l) (t', l)
| transfer_recorded now up bytes t l1 l2 :
    transfer_step (t, l1 ++ bytes :: l2) (record_bandwidth now u bytes up t, l1 ++ l2)
| transfer_given_up bytes t l1 l2 :
    transfer_step (t, l1 ++ bytes :: l2) (t, l1 ++ l2)
| transfer_others t t' l :
    bandwidth t' !! u = bandwidth t !! u -> cache_ok auth t' -> defaults t' = d ->
    transfer_step (t, l) (t', l).

(** What is counted for the user in the current window. *)
Definition counted t : N := match bandwidth t !! u with Some st => used st | None => 0 end.

Definition limits_of_u : UserLimits := stored_or_default auth u d.

Lemma total_app l1 l2 : total (l1 ++ l2) = total l1 + total l2.
Proof. induction l1 as [|x l1 IH]; simpl; [done|]. rewrite IH. lia. Qed.

Lemma total_bound l : Forall (fun b => b <= largest) l -> total l <= N.of_nat (length l) * largest.
Proof. induction 1 as [|b l Hb _ IH]; simpl; [done|]. lia. Qed.

Lemma counted_entry now t : used (bandwidth_entry now u t) = counted t.
Proof. unfold bandwidth_entry, counted. by destruct (bandwidth t !! u). Qed.

Lemma record_counted now bytes up t : counted (record_bandwidth now u bytes up t) <= counted t + bytes.
Proof.
  rewrite <- (counted_entry now t). unfold record_bandwidth, counted at 1. simpl. rewrite lookup_insert_eq.
  unfold used, sat_add. destruct up; simpl; lia.
Qed.

Context (limit : N) (Hlimit : ul_bandwidth_limit limits_of_u = Some limit) (Hmax : limit < u64_max).
Context (Hperiod : period_in_range (ul_bandwidth_period_secs limits_of_u)).

(** The check leaves the limits, starts the window again or keeps what is counted, and lets a
    transfer through exactly if it fits. *)
Lemma check_counted now bytes t : cache_ok auth t -> defaults t = d ->
  exists r t', check_bandwidth now u bytes auth t = (Ret r, t')
    /\ cache_ok auth t' /\ defaults t' = d /\ counted t' <= counted t
    /\ (r = Allowed <-> counted t' + bytes <= limit).
Proof using Hlimit Hmax Hperiod.
  intros Hc Hd. unfold check_bandwidth. destruct (effective_limits_spec auth u t Hc) as (c & -> & Hc').
  rewrite Hd. fold limits_of_u. rewrite Hlimit.
  set (t1 := set_limits_cache c t) in *. rewrite roll_window_in_range by done.
  set (st := if window_expired _ _ _ then _ else _).
  assert (Hst : used st <= counted t).
  { rewrite <- (counted_entry now t). unfold st. by destruct (window_expired _ _ _); simpl; [apply N.le_0_l|]. }
  do 2 eexists. split; [reflexivity|].
  assert (Hcnt : counted (set_bandwidth (<[u := st]> (bandwidth t1)) t1) = used st).
  { unfold counted. simpl. by rewrite lookup_insert_eq. }
  rewrite Hcnt. split_and!; [by eapply cache_ok_ext|done|done|].
  unfold used. rewrite <- within_limit by done. by destruct (_ <? _).
Qed.

(** The transfers under way may together go past the limit, each but the last by its size. *)
Definition quota_ok (s : UsageTracker * list N) : Prop :=
  let '(t, l) := s in
  cache_ok auth t /\ defaults t = d /\ Forall (fun b => b <= largest) l /\ (length l <= connections_of_u)%nat
  /\ counted t + total l <= limit + N.of_nat (connections_of_u - 1) * largest.

Lemma transfer_ok s s' : transfer_step s s' -> quota_ok s -> quota_ok s'.
Proof using Hlimit Hmax Hperiod.
  intros Hs. destruct Hs as [now bytes t t' l E Hb Hl|now bytes t t' o l E Ho|now up bytes t l1 l2|bytes t l1 l2
    |t t' l Hb Hc Hd]; intros (Hcache & Hdef & Hsizes & Hlen & Hsum); simpl.
  - destruct (check_counted now bytes t Hcache Hdef) as (r & t1 & E1 & Hc1 & Hd1 & _ & Hr).
    rewrite E in E1. injection E1 as <- <-. pose proof (proj1 Hr eq_refl) as Hfit.
    pose proof (total_bound l Hsizes). split_and!; [done|done|by constructor|lia|].
    assert (N.of_nat (length l) <= N.of_nat (connections_of_u - 1)) by lia. nia.
  - destruct (check_counted now bytes t Hcache Hdef) as (r & t1 & E1 & Hc1 & Hd1 & Hle & _).
    rewrite E in E1. injection E1 as _ <-. split_and!; [done..|lia].
  - apply Forall_app in Hsizes as [H1 [_ H2]%Forall_cons]. rewrite length_app in *. simpl in Hlen.
    rewrite total_app in *. simpl in Hsum. pose proof (record_counted now bytes up t).
    split_and!; [by eapply cache_ok_ext|done|by apply Forall_app|lia|lia].
  - apply Forall_app in Hsizes as [H1 [_ H2]%Forall_cons]. rewrite length_app in *. simpl in Hlen.
    rewrite total_app in *. simpl in Hsum. split_and!; [done|done|by apply Forall_app|lia|lia].
  - unfold counted in *. rewrite Hb. by split_and!.
Qed.

Lemma transfers_ok s s' : rtc transfer_step s s' -> quota_ok s -> quota_ok s'.
Proof using Hlimit Hmax Hperiod. induction 1; eauto using transfer_ok. Qed.

(** ** The bound is reached *)

(** One after the other the connections pass the check, ... *)
Lemma checks_pass (now : Z) n t : cache_ok auth t -> defaults t = d ->
  ul_bandwidth_period_secs limits_of_u = None -> counted t + largest <= limit -> (n <= connections_of_u)%nat ->
  exists t', rtc transfer_step (t, []) (t', replicate n largest) /\ counted t' = counted t
    /\ cache_ok auth t' /\ defaults t' = d.
Proof using Hlimit Hmax Hperiod.
  intros Hc Hd Hp Hfit. induction n as [|n IH]; intros Hn; [by exists t|].
  destruct IH as (t1 & Hr & Hcnt & Hc1 & Hd1); [lia|].
  destruct (check_counted now largest t1 Hc1 Hd1) as (r & t2 & E & Hc2 & Hd2 & Hle & Hiff).
  assert (Hcnt2 : counted t2 = counted t1).
  { revert E. unfold check_bandwidth. destruct (effective_limits_spec auth u t1 Hc1) as (c & -> & _).
    rewrite Hd1. fold limits_of_u. rewrite Hlimit, Hp. simpl. intros E. injection E as _ <-.
    unfold counted at 1. simpl. rewrite lookup_insert_eq. apply (counted_entry now (set_limits_cache c t1)). }
  assert (r = Allowed) as -> by (apply Hiff; lia).
  exists t2. split_and!; [|congruence|done|done]. eapply rtc_r; [exact Hr|].
  eapply transfer_allowed; [exact E|lia|]. by rewrite length_replicate.
Qed.

(** ... and then all transfers are recorded. *)
Lemma records_add (now : Z) n t : counted t + N.of_nat n * largest <= u64_max ->
  exists t', rtc transfer_step (t, replicate n largest) (t', []) /\ counted t' = counted t + N.of_nat n * largest.
Proof.
  revert t. induction n as [|n IH]; intros t Hb; [exists t; split; [done|lia]|].
  assert (E : counted (record_bandwidth now u largest true t) = counted t + largest).
  { rewrite <- (counted_entry now t). unfold record_bandwidth, counted. simpl. rewrite lookup_insert_eq.
    rewrite <- (counted_entry now t) in Hb. unfold used in *. simpl. rewrite sat_add_exact; lia. }
  destruct (IH (record_bandwidth now u largest true t)) as (t' & Hr & Hc); [lia|].
  exists t'. split; [|lia]. eapply rtc_l; [|exact Hr].
  apply (transfer_recorded now true largest t [] (replicate n largest)).
Qed.

Lemma overrun_reached (now : Z) t : cache_ok auth t -> defaults t = d ->
  ul_bandwidth_period_secs limits_of_u = None -> counted t + largest = limit -> (0 < connections_of_u)%nat ->
  limit + N.of_nat (connections_of_u - 1) * largest <= u64_max ->
  exists t', rtc transfer_step (t, []) (t', [])
    /\ counted t' = limit + N.of_nat (connections_of_u - 1) * largest.
Proof using Hlimit Hmax Hperiod.
  intros Hc Hd Hp Hfit Hk Hb. destruct (checks_pass now connections_of_u t) as (t1 & Hr1 & Hc1 & _); [done..|lia|lia|].
  assert (E : N.of_nat connections_of_u * largest = largest + N.of_nat (connections_of_u - 1) * largest).
  { replace connections_of_u with (S (connections_of_u - 1)) at 1 by lia. lia. }
  destruct (records_add now connections_of_u t1) as (t' & Hr & Hc'); [lia|].
  exists t'. split; [by etrans|]. lia.
Qed.
End Quota.

(** C22: a user with a bandwidth limit and several connections.  However the checks and records
    of at most [k] transfers at once, of at most [largest] bytes each, come one between the
    other, what is counted for the user never goes past the limit by more than [k - 1] such
    transfers; with one connection it never goes past the limit.  Without a period the bound
    is reached: each connection passes the check before any transfer is recorded. *)
Theorem concurrent_transfers {A} `{AuthProvider A} (auth : A) (d : UserLimitsConfig) (u : str)
    (k : nat) (largest limit : N) (now : Z) (t : UsageTracker) :
  let limits := stored_or_default auth u d in
  ul_bandwidth_limit limits = Some limit -> limit < u64_max ->
  period_in_range (ul_bandwidth_period_secs limits) ->
  cache_ok auth t -> defaults t = d -> counted u t <= limit ->
  (forall t' l, rtc (transfer_step auth d u k largest) (t, []) (t', l) ->
     counted u t' <= limit + N.of_nat (k - 1) * largest)
  /\ (ul_bandwidth_period_secs limits = None -> counted u t + largest = limit -> (0 < k)%nat ->
      limit + N.of_nat (k - 1) * largest <= u64_max ->
      exists t', rtc (transfer_step auth d u k largest) (t, []) (t', [])
        /\ counted u t' = limit + N.of_nat (k - 1) * largest).
Proof.
  cbv zeta. intros Hlimit Hmax Hperiod Hc Hd Hle. split.
  - intros t' l Hr. assert (Hok : quota_ok auth d u k largest limit (t, [])).
    { split; [done|]. split; [done|]. split; [constructor|]. split; [apply Nat.le_0_l|]. change (total []) with 0. nia. }
    destruct (transfers_ok auth d u k largest limit Hlimit Hmax Hperiod _ _ Hr Hok) as (_ & _ & _ & _ & Hs). lia.
  - intros Hp Hfit Hk Hb. by apply (overrun_reached auth d u k largest limit Hlimit Hmax Hperiod now).
Qed.

(** Two connections of a user with 100 bytes to spend fetch an article of 60 bytes each. *)
Definition metered : UserLimitsConfig := mkUserLimitsConfig true 5 (Some 100) None.
Lemma concurrent_transfers_witness :
  exists t', rtc (@transfer_step _ (@sqlite_auth Toy.ext true) empty_auth_db metered (lit "eve") 2 60)
               (record_bandwidth 0 (lit "eve") 40 false (new_tracker metered), []) (t', [])
    /\ counted (lit "eve") t' = 160.
Proof.
  refine (proj2 (@concurrent_transfers _ (@sqlite_auth Toy.ext true) empty_auth_db metered (lit "eve") 2 60 100 7
    (record_bandwidth 0 (lit "eve") 40 false (new_tracker metered)) _ _ _ _ _ _) _ _ _ _);
    try (vm_compute; (reflexivity || discriminate || exact I)).
  lia.
Defined.
