(* ===== verification/Awaits.v ===== *)
(** * Awaits: what the tasks wait for, and what they hold meanwhile
    ([handlers/], [queue.rs], [server.rs], [lib.rs], [limits/tracker.rs], [ws.rs])

    Every task of the server is a program that runs from one [await] to the next.  Here a
    task is reduced to those points: the guards of the [RwLock]s it takes and drops, the
    queue it sends to or receives from, and the parties outside the server it waits for.
    The programs are trees: [Either] is a choice the code makes on what it computed, and one
    [Await] stands for a row of waits for the same party.  A guard is dropped where the code
    drops it or where its scope ends, an early return included.  Tasks that take no lock and
    do not touch the queue (the accept loops, the jobs of the peers) are left out, and so is
    a panic, which drops the task with its guards.

    The discipline all programs keep is checked on them: locks are taken in one order and
    dropped in the reverse one, and nothing is held at the queue.  [Waiting.v] runs the
    programs together. *)

From stdpp Require Import base numbers list relations.
From Stdlib Require Import Lia.
From S2P Require Import Prelude.
Local Open Scope nat_scope.

(** ** Programs *)

(** [Arc<RwLock<Config>>], the acceptor of [ConfigManager], [UsageTracker::defaults] and the
    bandwidth state of a user. *)
Inductive Lock : Type :=
| Configuration
| Acceptor
| Defaults
| Usage (u : str).
Inductive Mode : Type := Read | Write.

(** Who is waited for outside the server: the client at the other end, a database, a key
    server, milter or listener's network, and the operator, the clock and the scheduler. *)
Inductive Party : Type := Peer | Database | Network | Host.

Inductive Act : Type :=
| Await (p : Party)
| Acquire (l : Lock) (m : Mode)
| Release (l : Lock)
| Send
| Recv.

Inductive Prog : Type :=
| Stop
| Do (a : Act) (k : Prog)
| Either (p q : Prog).

#[export] Instance Lock_eq_dec : EqDecision Lock.
Proof. solve_decision. Defined.
#[export] Instance Mode_eq_dec : EqDecision Mode.
Proof. solve_decision. Defined.
#[export] Instance Party_eq_dec : EqDecision Party.
Proof. solve_decision. Defined.
#[export] Instance Act_eq_dec : EqDecision Act.
Proof. solve_decision. Defined.
#[export] Instance Prog_eq_dec : EqDecision Prog.
Proof. solve_decision. Defined.

(** An answer written to the client; a guard nothing is awaited under; a wait that may end
    with an error, which [?] passes up. *)
Definition answer (k : Prog) : Prog := Do (Await Peer) k.
Definition guarded (l : Lock) (m : Mode) (k : Prog) : Prog := Do (Acquire l m) (Do (Release l) k).
Definition tries (p : Party) (failed k : Prog) : Prog := Do (Await p) (Either failed k).

(** ** The usage tracker *)

(** From the cache, from the database, or the defaults. *)
Definition effective_limits_awaits (k : Prog) : Prog :=
  Either k (Do (Await Database) (Either k (guarded Defaults Read k))).
Definition check_bandwidth_awaits (u : str) (k : Prog) : Prog :=
  effective_limits_awaits (Either k (guarded (Usage u) Write k)).
Definition record_bandwidth_awaits (u : str) (k : Prog) : Prog := guarded (Usage u) Write k.
Fixpoint persist_awaits (users : list str) (k : Prog) : Prog :=
  match users with
  | [] => k
  | u :: users => guarded (Usage u) Read (Do (Await Database) (persist_awaits users k))
  end.

(** ** The handlers

    [user]: the name of an authenticated user who is no administrator.  [dropped] is what
    an early return does: it drops the guard on the configuration. *)
Definition dropped : Prog := Do (Release Configuration) Stop.

Definition check_rejected_awaits (user : option str) (rejected k : Prog) : Prog :=
  match user with
  | None => k
  | Some u => check_bandwidth_awaits u (Either (answer rejected) k)
  end.
Definition record_usage_awaits (user : option str) (k : Prog) : Prog :=
  match user with None => k | Some u => record_bandwidth_awaits u k end.

(** Validation asks the stores and, for a moderated group, key servers whose keys it stores. *)
Definition validation_awaits (failed k : Prog) : Prog :=
  tries Database failed (Either k (tries Network failed (tries Database failed k))).

Definition post_awaits (user : option str) : Prog :=
  let accept :=
    Do (Acquire Configuration Read)
      (check_rejected_awaits user dropped
         (validation_awaits (answer dropped)
            (Do (Release Configuration)
               (Do Send (record_usage_awaits user (answer Stop)))))) in
  let receive := tries Peer Stop (Either (answer Stop) accept) in
  Either (answer Stop)
    match user with
    | None => receive
    | Some _ => effective_limits_awaits (Either (answer Stop) receive)
    end.

(** The invitation to send the article and the article are one row of waits for the client.
    From the guard on: the same lines in IHAVE and TAKETHIS. *)
Definition take_article_awaits (user : option str) : Prog :=
  Do (Acquire Configuration Read)
    (Either
       (validation_awaits dropped (answer dropped))
       (check_rejected_awaits user dropped
          (validation_awaits (answer dropped)
             (Do (Release Configuration)
                (tries Database (answer Stop)
                   (Do Send (record_usage_awaits user (answer Stop)))))))).

Definition ihave_awaits (user : option str) : Prog :=
  Either (answer Stop)
    (tries Database Stop (Either (answer Stop)
      (tries Peer Stop (Either (answer Stop) (take_article_awaits user))))).
Definition takethis_awaits (user : option str) : Prog :=
  Either (answer Stop)
    (tries Peer Stop (Either (answer Stop)
      (tries Database Stop (Either (answer Stop) (take_article_awaits user))))).

(** ARTICLE, HEAD, BODY and STAT: each article is checked, sent and recorded. *)
Fixpoint send_articles_awaits (user : option str) (articles : nat) : Prog :=
  match articles with
  | 0 => Stop
  | S articles =>
      check_rejected_awaits user Stop
        (tries Peer Stop
           (Either (record_usage_awaits user (send_articles_awaits user articles))
              (send_articles_awaits user articles)))
  end.
Definition retrieval_awaits (user : option str) (articles : nat) : Prog :=
  Either (answer Stop) (tries Database (answer Stop) (send_articles_awaits user articles)).

(** AUTHINFO PASS; the other forms only answer. *)
Definition authinfo_awaits : Prog :=
  Either (answer Stop)
    (tries Database Stop
       (Either (answer Stop)
          (Do (Await Database)
             (Either (answer Stop)
                (effective_limits_awaits
                   (Either (answer Stop) (Do (Await Database) (answer Stop)))))))).

(** Every other command reads the stores and answers. *)
Definition query_awaits : Prog := Either (answer Stop) (tries Database Stop (answer Stop)).

(** [handle_client] reads its settings, greets, and then reads and runs commands. *)
Definition opening_awaits : Prog := guarded Configuration Read (answer Stop).
Definition line_awaits (command : Prog) : Prog := tries Peer Stop command.

(** ** The other tasks *)
Definition worker_awaits : Prog :=
  let store := tries Database Stop (tries Database Stop Stop) in
  let validate :=
    Either store
      (Do (Acquire Configuration Read)
         (validation_awaits dropped (Do (Release Configuration) store))) in
  Do Recv
    (Either validate
       (Do (Acquire Configuration Read)
          (validation_awaits dropped (Either dropped (Do (Release Configuration) validate))))).

Definition retention_awaits : Prog :=
  Do (Acquire Configuration Read)
    (Do (Await Database) (Do (Release Configuration) (Do (Await Host) Stop))).
Definition persistence_awaits (users : list str) : Prog :=
  Do (Await Host) (persist_awaits users Stop).
Definition reload_awaits : Prog :=
  let peers := tries Database Stop (Do (Await Host) Stop) in
  let update := guarded Configuration Write peers in
  Do (Await Host) (Either Stop (Either update (guarded Acceptor Write update))).

(** The listeners, the jobs of the peers and the bridge start one after the other. *)
Definition startup_awaits : Prog :=
  let bridge := guarded Configuration Read Stop in
  let tls :=
    Do (Acquire Configuration Read)
      (Either (Do (Release Configuration) bridge)
         (tries Network dropped
            (guarded Acceptor Write (Do (Release Configuration) bridge)))) in
  Do (Acquire Configuration Read)
    (Do (Await Host) (Do (Release Configuration)
       (guarded Configuration Read (tries Network Stop tls)))).
Definition bridge_awaits : Prog := guarded Configuration Read (Do (Await Network) Stop).

(** ** The tasks and their programs *)
Inductive Kind : Type := Connection | Worker | Retention | Persistence | Reload | Startup | Bridge.

Inductive command_awaits : Prog -> Prop :=
| awaits_post user : command_awaits (post_awaits user)
| awaits_ihave user : command_awaits (ihave_awaits user)
| awaits_takethis user : command_awaits (takethis_awaits user)
| awaits_retrieval user n : command_awaits (retrieval_awaits user n)
| awaits_authinfo : command_awaits authinfo_awaits
| awaits_query : command_awaits query_awaits.

(** A task that has run its program runs one of its kind again. *)
Inductive program : Kind -> Prog -> Prop :=
| program_opening : program Connection opening_awaits
| program_command p : command_awaits p -> program Connection (line_awaits p)
| program_worker : program Worker worker_awaits
| program_retention : program Retention retention_awaits
| program_persistence users : program Persistence (persistence_awaits users)
| program_reload : program Reload reload_awaits
| program_startup : program Startup startup_awaits
| program_bridge : program Bridge bridge_awaits.

(** ** The discipline

    A task asks for a lock only while it holds none that comes at or after it in the order
    configuration, acceptor, defaults, usage; it drops the last lock it got first; at the
    queue and at the end it holds nothing; no worker sends. *)
Definition rank (l : Lock) : nat :=
  match l with Configuration => 0 | Acceptor => 1 | Defaults => 2 | Usage _ => 3 end.

Fixpoint disciplined (held : list Lock) (p : Prog) : bool :=
  match p with
  | Stop => bool_decide (held = [])
  | Either p q => disciplined held p && disciplined held q
  | Do a k =>
      match a with
      | Await _ => disciplined held k
      | Acquire l _ => forallb (fun h => rank h <? rank l) held && disciplined (l :: held) k
      | Release l =>
          match held with
          | h :: held => bool_decide (h = l) && disciplined held k
          | [] => false
          end
      | Send | Recv => bool_decide (held = []) && disciplined [] k
      end
  end.

Fixpoint sends (p : Prog) : bool :=
  match p with
  | Stop => false
  | Either p q => sends p || sends q
  | Do a k => bool_decide (a = Send) || sends k
  end.

Create HintDb awaits.
#[export] Hint Unfold answer tries dropped validation_awaits : awaits.

Section Discipline.
Implicit Types (held : list Lock) (p q k : Prog).

Definition above (l : Lock) held : bool := forallb (fun h => rank h <? rank l) held.

Lemma stop_ok : disciplined [] Stop = true.
Proof. done. Qed.
Lemma either_ok held p q :
  disciplined held p = true -> disciplined held q = true -> disciplined held (Either p q) = true.
Proof. simpl. by intros -> ->. Qed.
Lemma await_ok held x k : disciplined held k = true -> disciplined held (Do (Await x) k) = true.
Proof. done. Qed.
Lemma acquire_ok held l m k :
  above l held = true -> disciplined (l :: held) k = true -> disciplined held (Do (Acquire l m) k) = true.
Proof. simpl. unfold above. by intros -> ->. Qed.
Lemma release_ok held l k : disciplined held k = true -> disciplined (l :: held) (Do (Release l) k) = true.
Proof. simpl. by rewrite bool_decide_true by done. Qed.
Lemma send_ok k : disciplined [] k = true -> disciplined [] (Do Send k) = true.
Proof. done. Qed.
Lemma recv_ok k : disciplined [] k = true -> disciplined [] (Do Recv k) = true.
Proof. done. Qed.
Lemma above_usage u : above (Usage u) [Configuration] = true.
Proof. done. Qed.
End Discipline.
#[export] Hint Resolve stop_ok either_ok await_ok acquire_ok release_ok send_ok recv_ok : awaits.
#[export] Hint Extern 1 (above _ _ = true) => reflexivity : awaits.

(** The pieces keep the discipline with nothing or the configuration held. *)
Definition at_most_configuration (held : list Lock) : Prop := held = [] \/ held = [Configuration].

Section Pieces.
Context (held : list Lock) (Hheld : at_most_configuration held).

Lemma guarded_ok l m k : rank l <> 0 -> disciplined held k = true -> disciplined held (guarded l m k) = true.
Proof using Hheld.
  intros Hl Hk. apply acquire_ok; [|by apply release_ok].
  destruct Hheld as [->| ->]; [done|]. unfold above. simpl. destruct l; [done|done..].
Qed.

Lemma effective_limits_ok k : disciplined held k = true -> disciplined held (effective_limits_awaits k) = true.
Proof using Hheld.
  intros Hk. unfold effective_limits_awaits. auto 10 using guarded_ok with awaits.
Qed.

Lemma check_rejected_ok user r k :
  disciplined held r = true -> disciplined held k = true ->
  disciplined held (check_rejected_awaits user r k) = true.
Proof using Hheld.
  intros Hr Hk. destruct user as [u|]; [|done]. unfold check_rejected_awaits, check_bandwidth_awaits, answer.
  apply effective_limits_ok.
  assert (He : disciplined held (Either (Do (Await Peer) r) k) = true) by auto with awaits.
  apply either_ok; [done|]. by apply guarded_ok.
Qed.

Lemma record_usage_ok user k :
  disciplined held k = true -> disciplined held (record_usage_awaits user k) = true.
Proof using Hheld. destruct user as [u|]; [|done]. by apply guarded_ok. Qed.
End Pieces.

Lemma nothing_held : at_most_configuration [].
Proof. by left. Qed.
Lemma configuration_held : at_most_configuration [Configuration].
Proof. by right. Qed.
#[export] Hint Resolve nothing_held configuration_held check_rejected_ok record_usage_ok effective_limits_ok : awaits.

(** One lemma after the other, by the shape of the program; the pieces before what they are
    made of. *)
Ltac keep_discipline :=
  autounfold with awaits;
  repeat first
    [ assumption | apply stop_ok
    | apply check_rejected_ok; [auto with awaits|..] | apply record_usage_ok; [auto with awaits|..]
    | apply effective_limits_ok; [auto with awaits|..]
    | apply either_ok | apply await_ok | apply send_ok | apply recv_ok | apply release_ok
    | apply acquire_ok; [reflexivity|] ].

Lemma take_article_ok user : disciplined [] (take_article_awaits user) = true.
Proof. unfold take_article_awaits. keep_discipline. Qed.

Lemma command_ok p : command_awaits p -> disciplined [] p = true.
Proof.
  intros [user|user|user|user n| |].
  - unfold post_awaits. destruct user as [u|]; keep_discipline.
  - unfold ihave_awaits. pose proof (take_article_ok user). keep_discipline.
  - unfold takethis_awaits. pose proof (take_article_ok user). keep_discipline.
  - unfold retrieval_awaits. assert (disciplined [] (send_articles_awaits user n) = true).
    { induction n as [|n IH]; [done|]. simpl send_articles_awaits. keep_discipline. }
    keep_discipline.
  - done.
  - done.
Qed.

Lemma program_ok kind p : program kind p -> disciplined [] p = true.
Proof.
  intros [|q Hq| | |users| | |]; [done| |done|done| |done..].
  - unfold line_awaits, tries. auto using command_ok with awaits.
  - apply await_ok. induction users as [|u users IH]; [done|]. apply guarded_ok; auto with awaits.
Qed.

Lemma worker_sends p : program Worker p -> sends p = false.
Proof. by inversion 1. Qed.
