(* ===== verification/Waiting.v ===== *)
(** * Waiting: the tasks of the server together, their locks and the queue
    ([server.rs], [queue.rs], [lib.rs], [handlers/])

    The programs of [Awaits.v] run side by side; a step is one of one task.  The locks are
    those of tokio.  What is relied on is the class [LockPolicy]: which of those that wait
    for a lock are let in, given who holds it; [fair_lock] is what tokio documents.  Nobody
    waits in a circle ([no_deadlock]), but one that waits for its client with a guard in hand
    can hold up all others ([unread_refusal_stalls]). *)

From stdpp Require Import base numbers list relations.
From Stdlib Require Import Lia.
From S2P Require Import Prelude Awaits.
Local Open Scope nat_scope.

(** ** Locks *)

Definition compatible (held : list Mode) (m : Mode) : bool :=
  match m with
  | Read => bool_decide (Write ∉ held)
  | Write => bool_decide (held = [])
  end.

(** Who is let in: one that asks for [m] while the guards [held] are out and [ahead] wait
    longer.  Writers exclude; a free lock is given to the one that waits longest. *)
Class LockPolicy : Type := {
  admits (held ahead : list Mode) (m : Mode) : bool;
  admits_excludes held ahead m : admits held ahead m = true -> compatible held m = true;
  admits_first m : admits [] [] m = true;
}.

(** tokio's lock is fair: those that wait are let in in the order they came. *)
Program Definition fair_lock : LockPolicy := {|
  admits := fun held ahead m => bool_decide (ahead = []) && compatible held m;
|}.
Next Obligation. intros held ahead m. by rewrite andb_true_iff; intros [_ E]. Qed.
Next Obligation. by intros []. Qed.

(** ** The tasks together *)
Record Task := mkTask {
  t_kind : Kind;
  t_held : list (Lock * Mode);
  t_queued : bool;
  t_prog : Prog;
}.
Definition with_prog (p : Prog) (t : Task) : Task := mkTask (t_kind t) (t_held t) false p.

(** The tasks by their number, who waits for each lock, and the length of the queue. *)
Record Tasks := mkTasks {
  s_tasks : list Task;
  s_waiting : Lock -> list (nat * Mode);
  s_queue : nat;
}.

Definition modes_of (l : Lock) (held : list (Lock * Mode)) : list Mode :=
  snd <$> List.filter (fun lm => bool_decide (fst lm = l)) held.
Definition held_modes (l : Lock) (s : Tasks) : list Mode :=
  flat_map (fun t => modes_of l (t_held t)) (s_tasks s).
Definition holds (i : nat) (l : Lock) (s : Tasks) : Prop :=
  exists t, s_tasks s !! i = Some t /\ l ∈ (t_held t).*1.

Definition set_waiting (l : Lock) (w : list (nat * Mode)) (f : Lock -> list (nat * Mode))
  : Lock -> list (nat * Mode) :=
  fun l' => if decide (l' = l) then w else f l'.

Section Steps.
Context `{LockPolicy} (capacity : nat).

(** A step of one task: it starts, chooses, is answered, asks for a lock, gets it, drops
    it, sends or receives; or a task is spawned. *)
Inductive step : nat -> Tasks -> Tasks -> Prop :=
| step_spawn s k :
    step (length (s_tasks s)) s (mkTasks (s_tasks s ++ [mkTask k [] false Stop]) (s_waiting s) (s_queue s))
| step_start i s t p :
    s_tasks s !! i = Some t -> t_prog t = Stop -> program (t_kind t) p ->
    step i s (mkTasks (<[i := with_prog p t]> (s_tasks s)) (s_waiting s) (s_queue s))
| step_choose i s t p q r :
    s_tasks s !! i = Some t -> t_prog t = Either p q -> r = p \/ r = q ->
    step i s (mkTasks (<[i := with_prog r t]> (s_tasks s)) (s_waiting s) (s_queue s))
| step_answered i s t p k :
    s_tasks s !! i = Some t -> t_prog t = Do (Await p) k ->
    step i s (mkTasks (<[i := with_prog k t]> (s_tasks s)) (s_waiting s) (s_queue s))
| step_ask i s t l m k :
    s_tasks s !! i = Some t -> t_prog t = Do (Acquire l m) k -> t_queued t = false ->
    step i s (mkTasks (<[i := mkTask (t_kind t) (t_held t) true (t_prog t)]> (s_tasks s))
                (set_waiting l (s_waiting s l ++ [(i, m)]) (s_waiting s)) (s_queue s))
| step_get i s t l m k ahead behind :
    s_tasks s !! i = Some t -> t_prog t = Do (Acquire l m) k ->
    s_waiting s l = ahead ++ (i, m) :: behind ->
    admits (held_modes l s) ahead.*2 m = true ->
    step i s (mkTasks (<[i := mkTask (t_kind t) ((l, m) :: t_held t) false k]> (s_tasks s))
                (set_waiting l (ahead ++ behind) (s_waiting s)) (s_queue s))
| step_release i s t l m held k :
    s_tasks s !! i = Some t -> t_prog t = Do (Release l) k -> t_held t = (l, m) :: held ->
    step i s (mkTasks (<[i := mkTask (t_kind t) held false k]> (s_tasks s)) (s_waiting s) (s_queue s))
| step_send i s t k :
    s_tasks s !! i = Some t -> t_prog t = Do Send k -> s_queue s < capacity ->
    step i s (mkTasks (<[i := with_prog k t]> (s_tasks s)) (s_waiting s) (S (s_queue s)))
| step_recv i s t k n :
    s_tasks s !! i = Some t -> t_prog t = Do Recv k -> s_queue s = S n ->
    step i s (mkTasks (<[i := with_prog k t]> (s_tasks s)) (s_waiting s) n).

Definition any_step (s s' : Tasks) : Prop := exists i, step i s s'.
Definition step_without (i : nat) (s s' : Tasks) : Prop := exists j, j <> i /\ step j s s'.
Definition start_tasks (kinds : list Kind) : Tasks :=
  mkTasks ((fun k => mkTask k [] false Stop) <$> kinds) (fun _ => []) 0.
Definition reached (kinds : list Kind) (s : Tasks) : Prop := rtc any_step (start_tasks kinds) s.

(** Task [i] waits for what task [j] has, or stands in the same line, or for room that [j]
    makes. *)
Inductive behind (s : Tasks) (i j : nat) : Prop :=
| behind_holder t l m k :
    s_tasks s !! i = Some t -> t_prog t = Do (Acquire l m) k -> holds j l s -> behind s i j
| behind_waiter t l m k m' :
    s_tasks s !! i = Some t -> t_prog t = Do (Acquire l m) k -> (j, m') ∈ s_waiting s l -> behind s i j
| behind_worker t k u :
    s_tasks s !! i = Some t -> t_prog t = Do Send k -> s_queue s = capacity ->
    s_tasks s !! j = Some u -> t_kind u = Worker -> behind s i j.

Definition can_move (i : nat) (s : Tasks) : Prop := exists s', step i s s'.
(** A worker without work. *)
Definition no_work (t : Task) (s : Tasks) : Prop :=
  s_queue s = 0 /\ exists k, t_prog t = Do Recv k.
End Steps.

(** ** What holds in every reachable state *)
Section Safety.
Context `{LockPolicy} (capacity : nat).
Implicit Types s : Tasks.

Definition asks_for (t : Task) (l : Lock) (m : Mode) : Prop :=
  exists k, t_prog t = Do (Acquire l m) k.

Definition task_ok (t : Task) : Prop :=
  disciplined (t_held t).*1 (t_prog t) = true /\ (t_kind t = Worker -> sends (t_prog t) = false).
Definition well s : Prop :=
  (forall i t, s_tasks s !! i = Some t ->
     task_ok t /\ (t_queued t = true -> exists l m, asks_for t l m /\ (i, m) ∈ s_waiting s l))
  /\ (forall l i m, (i, m) ∈ s_waiting s l ->
       exists t, s_tasks s !! i = Some t /\ t_queued t = true /\ asks_for t l m)
  /\ (forall l, NoDup (s_waiting s l).*1)
  /\ s_queue s <= capacity.

Lemma well_start kinds : well (start_tasks kinds).
Proof.
  split_and!; simpl; [|intros l i m []%not_elem_of_nil|intros _; constructor|lia].
  intros i t (k & -> & _)%list_lookup_fmap_Some. simpl. done.
Qed.

(** A task that was not in line moves on. *)
Lemma well_set s i t t' q :
  well s -> s_tasks s !! i = Some t -> (forall l m, ~ asks_for t l m) ->
  task_ok t' -> t_queued t' = false -> q <= capacity ->
  well (mkTasks (<[i := t']> (s_tasks s)) (s_waiting s) q).
Proof.
  intros (Ht & Hw & Hn & _) Hi Hask Hok Hq Hcap. split_and!; simpl; [| |done|done].
  - intros j u [(<- & <- & _)|[_ Hj]]%list_lookup_insert_Some; [|by apply Ht].
    split; [done|]. by rewrite Hq.
  - intros l j m Hin. destruct (Hw l j m Hin) as (u & Hu & Hqu & Hau).
    assert (j <> i) by (intros ->; simplify_eq; by apply (Hask l m)).
    exists u. by rewrite list_lookup_insert_ne.
Qed.

Lemma well_spawn s k :
  well s -> well (mkTasks (s_tasks s ++ [mkTask k [] false Stop]) (s_waiting s) (s_queue s)).
Proof.
  intros (Ht & Hw & Hn & Hc). split_and!; simpl; [| |done|done].
  - intros j u [Hj|[_ Hj]]%lookup_app_Some; [by apply Ht|].
    apply list_lookup_singleton_Some in Hj as [_ <-]. by split.
  - intros l j m Hin. destruct (Hw l j m Hin) as (u & Hu & Hr). exists u.
    split; [|done]. by apply lookup_app_l_Some.
Qed.

Lemma well_ask s i t l m k :
  well s -> s_tasks s !! i = Some t -> t_prog t = Do (Acquire l m) k -> t_queued t = false ->
  well (mkTasks (<[i := mkTask (t_kind t) (t_held t) true (t_prog t)]> (s_tasks s))
          (set_waiting l (s_waiting s l ++ [(i, m)]) (s_waiting s)) (s_queue s)).
Proof.
  intros (Ht & Hw & Hn & Hc) Hi Hp Hq.
  assert (Hno : forall l' m', (i, m') ∉ s_waiting s l').
  { intros l' m' Hin. destruct (Hw l' i m' Hin) as (u & Hu & Hqu & _). congruence. }
  unfold set_waiting. split_and!; simpl; [| | |done].
  - intros j u [(<- & <- & _)|[Hne Hj]]%list_lookup_insert_Some.
    + split; [by apply (Ht i t)|]. intros _. exists l, m. split; [by exists k|].
      rewrite decide_True by done. apply elem_of_app. right. by apply list_elem_of_singleton.
    + destruct (Ht j u Hj) as [Hok Hqj]. split; [done|]. intros E. destruct (Hqj E) as (l' & m' & Ha & Hin).
      exists l', m'. split; [done|]. destruct (decide (l' = l)) as [->|]; [|done].
      apply elem_of_app. by left.
  - intros l' j m' Hin.
    assert ((j, m') ∈ s_waiting s l' \/ (j = i /\ l' = l /\ m' = m)) as [Hin'|(-> & -> & ->)].
    { destruct (decide (l' = l)) as [->|]; [|by left].
      apply elem_of_app in Hin as [?|Hs%list_elem_of_singleton]; [by left|right; naive_solver]. }
    + destruct (Hw l' j m' Hin') as (u & Hu & Hr). exists u. split; [|done].
      rewrite list_lookup_insert_ne; [done|]. intros <-. by apply (Hno l' m').
    + eexists. rewrite list_lookup_insert_eq by (by eapply lookup_lt_Some). split_and!; [done..|]. by exists k.
  - intros l'. destruct (decide (l' = l)) as [->|]; [|done]. rewrite fmap_app. apply NoDup_app.
    split_and!; [done| |apply NoDup_singleton]. intros j Hj Hs. simpl in Hs. apply list_elem_of_singleton in Hs as ->.
    apply list_elem_of_fmap in Hj as ([j' m'] & E & Hin). simpl in E. subst. by apply (Hno l m').
Qed.

Lemma well_get s i t l m k ahead rest :
  well s -> s_tasks s !! i = Some t -> t_prog t = Do (Acquire l m) k ->
  s_waiting s l = ahead ++ (i, m) :: rest ->
  well (mkTasks (<[i := mkTask (t_kind t) ((l, m) :: t_held t) false k]> (s_tasks s))
          (set_waiting l (ahead ++ rest) (s_waiting s)) (s_queue s)).
Proof.
  intros (Ht & Hw & Hn & Hc) Hi Hp El. pose proof (Hn l) as Hnl. rewrite El in Hnl.
  rewrite fmap_app in Hnl. simpl in Hnl.
  assert (Hnot : forall m', (i, m') ∉ ahead ++ rest).
  { intros m' Hin. apply NoDup_app in Hnl as (_ & Ha & Hr). apply NoDup_cons in Hr as [Hr _].
    apply elem_of_app in Hin as [Hin|Hin]; apply (list_elem_of_fmap_2 fst) in Hin; simpl in Hin;
      [apply (Ha i Hin); by left|done]. }
  unfold set_waiting. split_and!; simpl; [| | |done].
  - intros j u [(<- & <- & _)|[Hne Hj]]%list_lookup_insert_Some.
    + split; [|done]. destruct (Ht i t Hi) as [[Hd Hs] _]. rewrite Hp in *. simpl in *.
      apply andb_true_iff in Hd as [_ Hd]. by split.
    + destruct (Ht j u Hj) as [Hok Hqj]. split; [done|]. intros E. destruct (Hqj E) as (l' & m' & Ha & Hin).
      exists l', m'. split; [done|]. destruct (decide (l' = l)) as [->|]; [|done].
      rewrite El in Hin. apply elem_of_app. apply elem_of_app in Hin as [?|[?|?]%elem_of_cons]; [by left| |by right].
      congruence.
  - intros l' j m' Hin.
    assert ((j, m') ∈ s_waiting s l' /\ j <> i) as [Hin' Hne].
    { destruct (decide (l' = l)) as [->|Hl].
      - split; [|intros ->; by apply (Hnot m')]. rewrite El. apply elem_of_app.
        apply elem_of_app in Hin as [?|?]; [by left|right; by right].
      - split; [done|]. intros ->. destruct (Hw l' i m' Hin) as (u & Hu & _ & [k' Ha]). congruence. }
    destruct (Hw l' j m' Hin') as (u & Hu & Hr). exists u. by rewrite list_lookup_insert_ne.
  - intros l'. destruct (decide (l' = l)) as [->|]; [|done]. rewrite fmap_app.
    apply NoDup_app in Hnl as (Hna & Ha & Hr). apply NoDup_cons in Hr as [_ Hr]. apply NoDup_app.
    split_and!; [done| |done]. intros j Hj Hjr. apply (Ha j Hj). by right.
Qed.

Lemma program_task kind p : program kind p -> task_ok (mkTask kind [] false p).
Proof. intros Hp. split; [exact (program_ok _ _ Hp)|]. simpl. intros ->. exact (worker_sends _ Hp). Qed.

Lemma step_well i s s' : step capacity i s s' -> well s -> well s'.
Proof.
  intros Hs Hwell. pose proof Hwell as (Ht & _ & _ & Hc).
  destruct Hs as [s k|i s t p Hi Hp Hk|i s t p q r Hi Hp Hr|i s t p k Hi Hp|i s t l m k Hi Hp Hq
    |i s t l m k ahead rest Hi Hp El Ha|i s t l m held k Hi Hp Eh|i s t k Hi Hp Hq|i s t k n Hi Hp Hq];
    [by apply well_spawn|..];
    destruct (Ht i t Hi) as [[Hd Hsend] _]; rewrite Hp in Hd, Hsend; simpl in Hd, Hsend.
  - apply well_set with t; try done; [by intros l m [k E]; congruence|].
    apply bool_decide_eq_true in Hd. destruct (t_held t) as [|? ?] eqn:Eh; [|done].
    destruct (program_task _ _ Hk). unfold with_prog. rewrite Eh. by split.
  - apply well_set with t; try done; [by intros l m [k E]; congruence|].
    apply andb_true_iff in Hd as [Hd1 Hd2].
    split; [by destruct Hr as [->| ->]|]. intros E. apply orb_false_iff in Hsend as [? ?]; [|done].
    by destruct Hr as [->| ->].
  - apply well_set with t; try done. by intros l m [k' E]; congruence.
  - by apply well_ask with k.
  - by apply well_get with (m := m).
  - apply well_set with t; try done; [by intros l' m' [k' E]; congruence|].
    rewrite Eh in Hd. simpl in Hd. apply andb_true_iff in Hd as [_ Hd]. by split.
  - apply well_set with t; [done|done|by intros l' m' [k' E]; congruence| |done|lia].
    apply andb_true_iff in Hd as [Hh Hd]. apply bool_decide_eq_true in Hh.
    split; [by rewrite <- Hh in Hd|]. intros E. by specialize (Hsend E).
  - apply well_set with t; [done|done|by intros l' m' [k' E]; congruence| |done|lia].
    apply andb_true_iff in Hd as [Hh Hd]. apply bool_decide_eq_true in Hh.
    split; [by rewrite <- Hh in Hd|]. intros E. by specialize (Hsend E).
Qed.

Lemma run_well s s' : rtc (any_step capacity) s s' -> well s -> well s'.
Proof. induction 1 as [|s s1 s2 [i Hi] _ IH]; [done|]. intros Hw. apply IH. by eapply step_well. Qed.

Lemma reached_well kinds s : reached capacity kinds s -> well s.
Proof. intros Hr. exact (run_well _ _ Hr (well_start kinds)). Qed.

(** ** No deadlock *)

(** How many locks and queues can stand between a task and its next step. *)
Definition distance (t : Task) : nat :=
  match t_prog t with
  | Do (Acquire l _) _ => 4 - rank l
  | Do Send _ => 5
  | _ => 0
  end.

(** A task asks for a lock later in the order than any it holds. *)
Lemma holder_asks t l l' m' :
  task_ok t -> l ∈ (t_held t).*1 -> asks_for t l' m' -> rank l < rank l'.
Proof.
  intros [Hd _] Hl [k Hp]. rewrite Hp in Hd. simpl in Hd. apply andb_true_iff in Hd as [Hd _].
  rewrite forallb_forall in Hd. apply Nat.ltb_lt, Hd. by apply list_elem_of_In.
Qed.

Lemma holder_not_at_queue t l a k :
  task_ok t -> l ∈ (t_held t).*1 -> t_prog t = Do a k -> a <> Send /\ a <> Recv.
Proof.
  intros [Hd _] Hl Hp. rewrite Hp in Hd.
  split; intros ->; simpl in Hd; apply andb_true_iff in Hd as [Hd _]; apply bool_decide_eq_true in Hd;
    rewrite Hd in Hl; by apply not_elem_of_nil in Hl.
Qed.

Lemma holder_not_done t l : task_ok t -> l ∈ (t_held t).*1 -> t_prog t <> Stop.
Proof.
  intros [Hd _] Hl Hp. rewrite Hp in Hd. simpl in Hd. apply bool_decide_eq_true in Hd.
  rewrite Hd in Hl. by apply not_elem_of_nil in Hl.
Qed.

Lemma kind_starts k : exists p, program k p.
Proof.
  destruct k; eexists; [apply program_opening|apply program_worker|apply program_retention
    |apply (program_persistence [])|apply program_reload|apply program_startup|apply program_bridge].
Qed.

Lemma held_mode s l m : m ∈ held_modes l s <-> exists i t, s_tasks s !! i = Some t /\ (l, m) ∈ t_held t.
Proof.
  unfold held_modes. rewrite list_elem_of_In, in_flat_map. unfold modes_of. split.
  - intros (t & [i Hi]%list_elem_of_In%list_elem_of_lookup & Hm).
    apply list_elem_of_In, list_elem_of_fmap in Hm as ([l' m'] & -> & Hf).
    apply list_elem_of_In, filter_In in Hf as [Hin Hl]. apply bool_decide_eq_true in Hl. simpl in Hl. subst l'.
    exists i, t. split; [done|]. by apply list_elem_of_In.
  - intros (i & t & Hi & Hin). exists t. split; [apply list_elem_of_In, list_elem_of_lookup; by exists i|].
    apply list_elem_of_In, list_elem_of_fmap. exists (l, m). split; [done|].
    apply list_elem_of_In, filter_In. split; [by apply list_elem_of_In|]. by apply bool_decide_eq_true.
Qed.

Lemma no_holder s l : (forall j, ~ holds j l s) -> held_modes l s = [].
Proof.
  intros Hno. destruct (held_modes l s) as [|m ms] eqn:E; [done|]. exfalso.
  assert (Hm : m ∈ held_modes l s) by (rewrite E; by left).
  apply held_mode in Hm as (i & t & Hi & Hin). apply (Hno i). exists t. split; [done|].
  by apply (list_elem_of_fmap_2 fst) in Hin.
Qed.

Lemma holder_dec s l : (exists j, holds j l s) \/ forall j, ~ holds j l s.
Proof.
  destruct (held_modes l s) as [|m ms] eqn:E.
  - right. intros j (t & Hj & Hl). apply list_elem_of_fmap in Hl as ([l' m] & Hl & Hin). simpl in Hl. subst l'.
    assert (Hm : m ∈ held_modes l s) by (apply held_mode; by exists j, t).
    rewrite E in Hm. by apply not_elem_of_nil in Hm.
  - left. assert (Hm : m ∈ held_modes l s) by (rewrite E; by left).
    apply held_mode in Hm as (i & t & Hi & Hin). exists i, t. split; [done|].
    by apply (list_elem_of_fmap_2 fst) in Hin.
Qed.

(** A free lock is given to the first in line. *)
Lemma first_gets s l i m w :
  well s -> (forall j, ~ holds j l s) -> s_waiting s l = (i, m) :: w -> can_move capacity i s.
Proof.
  intros (_ & Hw & _) Hno El. destruct (Hw l i m) as (t & Hi & _ & k & Hp); [rewrite El; by left|].
  eexists. eapply step_get with (ahead := []); [done..|]. rewrite no_holder by done. apply admits_first.
Qed.

Lemma unblocked s i t :
  well s -> s_tasks s !! i = Some t -> ~ no_work t s ->
  (forall l m, ~ asks_for t l m) -> (forall k, t_prog t = Do Send k -> s_queue s < capacity) ->
  can_move capacity i s.
Proof.
  intros (Ht & _ & _ & _) Hi Hno Hask Hroom. destruct (Ht i t Hi) as [[Hd _] _].
  destruct (t_prog t) as [|[x|l m|l| |] k|p q] eqn:Hp.
  - destruct (kind_starts (t_kind t)) as [p Hk]. eexists. by eapply step_start.
  - eexists. by eapply step_answered.
  - exfalso. by apply (Hask l m); exists k.
  - simpl in Hd. destruct (t_held t) as [|[h m] held] eqn:Eh; [done|]. simpl in Hd.
    apply andb_true_iff in Hd as [Hh _]. apply bool_decide_eq_true in Hh. subst h.
    eexists. by eapply step_release.
  - eexists. eapply step_send; eauto.
  - destruct (s_queue s) as [|n] eqn:Eq; [|eexists; by eapply step_recv].
    exfalso. apply Hno. split; [done|]. by exists k.
  - eexists. eapply step_choose; eauto.
Qed.

Lemma step_kind i s s' j u :
  step capacity i s s' -> s_tasks s !! j = Some u ->
  exists u', s_tasks s' !! j = Some u' /\ t_kind u' = t_kind u.
Proof.
  intros Hs Hj. destruct Hs; simpl; [exists u; split; [by apply lookup_app_l_Some|done]|..];
    destruct (decide (i = j)) as [->|];
    try (exists u; by rewrite list_lookup_insert_ne);
    (eexists; rewrite list_lookup_insert_eq by (by eapply lookup_lt_Some); split; [done|]; simpl; congruence).
Qed.

Lemma run_kind s s' j u :
  rtc (any_step capacity) s s' -> s_tasks s !! j = Some u ->
  exists u', s_tasks s' !! j = Some u' /\ t_kind u' = t_kind u.
Proof.
  intros Hr. revert u. induction Hr as [s|s s1 s2 [i Hi] _ IH]; intros u Hj; [by exists u|].
  destruct (step_kind _ _ _ _ _ Hi Hj) as (u1 & Hu1 & E1). destruct (IH _ Hu1) as (u2 & Hu2 & E2).
  exists u2. split; [done|congruence].
Qed.

Lemma reached_worker kinds s :
  Worker ∈ kinds -> reached capacity kinds s -> exists w u, s_tasks s !! w = Some u /\ t_kind u = Worker.
Proof.
  intros [w Hw]%list_elem_of_lookup Hr.
  destruct (run_kind _ _ w (mkTask Worker [] false Stop) Hr) as (u & Hu & E).
  { simpl. by rewrite list_lookup_fmap, Hw. }
  by exists w, u.
Qed.

(** What stands in the way of a task moves, or has something nearer in its way. *)
Lemma unblocked_behind s w u :
  0 < capacity -> well s -> s_tasks s !! w = Some u -> t_kind u = Worker ->
  forall i t, s_tasks s !! i = Some t -> ~ no_work t s ->
  exists j, rtc (behind capacity s) i j /\ can_move capacity j s.
Proof.
  intros Hcap Hwell Hw Hu i t. pose proof Hwell as (Ht & _ & _ & Hlen).
  remember (distance t) as d eqn:Ed. revert i t Ed.
  induction d as [d IH] using lt_wf_ind. intros i t -> Hi Hno.
  assert (Hnext : forall j t', behind capacity s i j -> s_tasks s !! j = Some t' -> distance t' < distance t ->
    ~ no_work t' s -> exists j, rtc (behind capacity s) i j /\ can_move capacity j s).
  { intros j t' Hb Hj Hd Hno'. destruct (IH _ Hd j t' eq_refl Hj Hno') as (j' & Hr & Hm).
    exists j'. split; [by eapply rtc_l|done]. }
  destruct (t_prog t) as [|[x|l m|l| |] k|p q] eqn:Hp.
  3: { destruct (holder_dec s l) as [[j (t' & Hj & Hl)]|Hfree].
    - destruct (Ht j t' Hj) as [Hok _]. apply (Hnext j t'); [|done| |].
      + eapply behind_holder; [done..|]. by exists t'.
      + unfold distance. rewrite Hp. destruct (t_prog t') as [|[y|l' m'|l'| |] k'|p' q'] eqn:Hp'; try (destruct l; simpl; lia).
        * pose proof (holder_asks t' l l' m' Hok Hl (ex_intro _ k' Hp')). destruct l, l'; simpl in *; lia.
        * by destruct (holder_not_at_queue t' l _ _ Hok Hl Hp').
      + intros (_ & k' & Hp'). by destruct (holder_not_at_queue t' l _ _ Hok Hl Hp').
    - destruct (s_waiting s l) as [|[j mj] rest] eqn:El.
      + exists i. split; [done|]. eexists. eapply step_ask; [done..|].
        destruct (t_queued t) eqn:Eq; [|done]. destruct (proj2 (Ht i t Hi) Eq) as (l' & m' & [k' Ha] & Hin).
        rewrite Hp in Ha. injection Ha as <- <- <-. rewrite El in Hin. by apply not_elem_of_nil in Hin.
      + exists j. split; [|by eapply first_gets]. apply rtc_once.
        eapply behind_waiter; [done..|]. rewrite El. by left. }
  4: { destruct (decide (s_queue s < capacity)) as [Hlt|Hfull].
    - exists i. split; [done|]. eexists. by eapply step_send.
    - apply (Hnext w u); [by eapply behind_worker; [..|lia| |]|done| |intros [E _]; lia].
      destruct (Ht w u Hw) as [[_ Hs] _]. specialize (Hs Hu). unfold distance. rewrite Hp.
      destruct (t_prog u) as [|[y|l' m'|l'| |] k'|p' q'] eqn:Hp'; simpl in *; (lia || done). }
  all: exists i; split; [done|]; apply (unblocked s i t); try done;
    [intros l' m' [k' E]; congruence|intros k' E; congruence].
Qed.
End Safety.

(** ** Runs that can be computed *)
Inductive Choice : Type := Starts (p : Prog) | First | Second | Goes.

Fixpoint split_line (i : nat) (w : list (nat * Mode)) : option (list (nat * Mode) * Mode * list (nat * Mode)) :=
  match w with
  | [] => None
  | (j, m) :: w =>
      if decide (j = i) then Some ([], m, w)
      else match split_line i w with
           | Some (ahead, m', rest) => Some ((j, m) :: ahead, m', rest)
           | None => None
           end
  end.

Section Runs.
Context `{LockPolicy} (capacity : nat).
Implicit Types s : Tasks.

Definition put (i : nat) (t : Task) (w : Lock -> list (nat * Mode)) (q : nat) s : option Tasks :=
  Some (mkTasks (<[i := t]> (s_tasks s)) w q).

Definition turn (i : nat) (c : Choice) s : option Tasks :=
  match s_tasks s !! i with
  | None => None
  | Some t =>
      match t_prog t, c with
      | Stop, Starts p => put i (with_prog p t) (s_waiting s) (s_queue s) s
      | Either p _, First => put i (with_prog p t) (s_waiting s) (s_queue s) s
      | Either _ q, Second => put i (with_prog q t) (s_waiting s) (s_queue s) s
      | Do (Await _) k, Goes => put i (with_prog k t) (s_waiting s) (s_queue s) s
      | Do (Acquire l m) k, Goes =>
          if t_queued t then
            match split_line i (s_waiting s l) with
            | Some (ahead, m', rest) =>
                if decide (m' = m) then
                  if admits (held_modes l s) ahead.*2 m then
                    put i (mkTask (t_kind t) ((l, m) :: t_held t) false k)
                      (set_waiting l (ahead ++ rest) (s_waiting s)) (s_queue s) s
                  else None
                else None
            | None => None
            end
          else put i (mkTask (t_kind t) (t_held t) true (t_prog t))
                 (set_waiting l (s_waiting s l ++ [(i, m)]) (s_waiting s)) (s_queue s) s
      | Do (Release l) k, Goes =>
          match t_held t with
          | (h, _) :: held => if decide (h = l) then put i (mkTask (t_kind t) held false k) (s_waiting s) (s_queue s) s
                              else None
          | [] => None
          end
      | Do Send k, Goes =>
          if decide (s_queue s < capacity) then put i (with_prog k t) (s_waiting s) (S (s_queue s)) s else None
      | Do Recv k, Goes =>
          match s_queue s with S n => put i (with_prog k t) (s_waiting s) n s | 0 => None end
      | _, _ => None
      end
  end.

Fixpoint turns (cs : list (nat * Choice)) s : option Tasks :=
  match cs with
  | [] => Some s
  | (i, c) :: cs => match turn i c s with Some s => turns cs s | None => None end
  end.

(** The programs that are started are programs of some kind of task. *)
Definition starts_ok (kinds : list Kind) (ic : nat * Choice) : Prop :=
  match snd ic with
  | Starts p => exists k, kinds !! fst ic = Some k /\ program k p
  | _ => True
  end.

Lemma split_line_spec i w ahead m rest : split_line i w = Some (ahead, m, rest) -> w = ahead ++ (i, m) :: rest.
Proof.
  revert ahead m rest. induction w as [|[j mj] w IH]; intros ahead m rest; simpl; [done|].
  destruct (decide (j = i)) as [->|]; [by intros [= <- <- <-]|].
  destruct (split_line i w) as [[[a m'] r]|]; [|done]. intros [= <- <- <-]. simpl. f_equal. by apply IH.
Qed.

Lemma turn_step i c s s' :
  (forall t p, s_tasks s !! i = Some t -> c = Starts p -> program (t_kind t) p) ->
  turn i c s = Some s' -> step capacity i s s'.
Proof.
  intros Hc. unfold turn, put. destruct (s_tasks s !! i) as [t|] eqn:Hi; [|done].
  destruct (t_prog t) as [|[x|l m|l| |] k|p q] eqn:Hp; destruct c as [p0| | |]; try done.
  - intros [= <-]. eapply step_start; eauto.
  - intros [= <-]. by eapply step_answered.
  - destruct (t_queued t) eqn:Eq.
    + destruct (split_line i (s_waiting s l)) as [[[ahead m'] rest]|] eqn:El; [|done].
      destruct (decide (m' = m)) as [->|]; [|done]. destruct (admits _ _ _) eqn:Ea; [|done].
      intros [= <-]. eapply step_get; eauto using split_line_spec.
    + intros [= <-]. rewrite <- Hp. by eapply step_ask.
  - destruct (t_held t) as [|[h mh] held] eqn:Eh; [done|]. destruct (decide (h = l)) as [->|]; [|done].
    intros [= <-]. by eapply step_release.
  - destruct (decide (s_queue s < capacity)); [|done]. intros [= <-]. by eapply step_send.
  - destruct (s_queue s) as [|n] eqn:Eq; [done|]. intros [= <-]. by eapply step_recv.
  - intros [= <-]. eapply step_choose; eauto.
  - intros [= <-]. eapply step_choose; eauto.
Qed.

Lemma turn_kinds i c s s' : turn i c s = Some s' -> t_kind <$> s_tasks s' = t_kind <$> s_tasks s.
Proof.
  unfold turn, put. destruct (s_tasks s !! i) as [t|] eqn:Hi; [|done].
  assert (Hk : forall t' w q, t_kind t' = t_kind t ->
    t_kind <$> s_tasks (mkTasks (<[i := t']> (s_tasks s)) w q) = t_kind <$> s_tasks s).
  { intros t' w q E. simpl. rewrite list_fmap_insert, E. apply list_insert_id. by rewrite list_lookup_fmap, Hi. }
  destruct (t_prog t) as [|[x|l m|l| |] k|p q]; destruct c; repeat case_match; try done;
    intros [= <-]; by apply Hk.
Qed.

Lemma turns_run cs s s' :
  Forall (starts_ok (t_kind <$> s_tasks s)) cs -> turns cs s = Some s' -> rtc (any_step capacity) s s'.
Proof.
  revert s. induction cs as [|[i c] cs IH]; intros s Hf; simpl; [by intros [= <-]|].
  destruct (turn i c s) as [s1|] eqn:E; [|done]. intros Hr.
  apply Forall_cons in Hf as [Hi Hf]. eapply rtc_l.
  - exists i. eapply turn_step; [|exact E]. intros t p Ht ->. destruct Hi as (k & Hk & Hp). simpl in Hk.
    rewrite list_lookup_fmap, Ht in Hk. by injection Hk as <-.
  - apply IH; [|done]. by rewrite (turn_kinds _ _ _ _ E).
Qed.

Lemma turns_reached kinds cs s :
  Forall (starts_ok kinds) cs -> turns cs (start_tasks kinds) = Some s -> reached capacity kinds s.
Proof.
  intros Hf. apply turns_run. simpl. rewrite <- list_fmap_compose.
  by rewrite (list_fmap_ext _ id), list_fmap_id by done.
Qed.

Lemma turns_without i cs s s' :
  Forall (starts_ok (t_kind <$> s_tasks s)) cs -> Forall (fun ic => fst ic <> i) cs ->
  turns cs s = Some s' -> rtc (step_without capacity i) s s'.
Proof.
  revert s. induction cs as [|[j c] cs IH]; intros s Hf Hn; simpl; [by intros [= <-]|].
  destruct (turn j c s) as [s1|] eqn:E; [|done]. intros Hr.
  apply Forall_cons in Hf as [Hi Hf]. apply Forall_cons in Hn as [Hj Hn]. eapply rtc_l.
  - exists j. split; [done|]. eapply turn_step; [|exact E]. intros t p Ht ->.
    destruct Hi as (k & Hk & Hp). simpl in Hk. rewrite list_lookup_fmap, Ht in Hk. by injection Hk as <-.
  - apply IH; [|done..]. by rewrite (turn_kinds _ _ _ _ E).
Qed.
End Runs.

(** C12: the tasks never wait for each other in a circle.  With a worker and a queue that
    has room for an article, in every state the server can reach, a task that has not run
    out of work is in line behind a task that can go on: one that holds the lock it waits
    for, or is in line for it, or takes articles off the full queue.  What a task waits for
    in the end is the answer of somebody outside the server. *)
Theorem no_deadlock `{LockPolicy} (capacity : nat) (kinds : list Kind) (s : Tasks) (i : nat) (t : Task) :
  0 < capacity -> Worker ∈ kinds -> reached capacity kinds s ->
  s_tasks s !! i = Some t -> ~ no_work t s ->
  exists j, rtc (behind capacity s) i j /\ can_move capacity j s.
Proof.
  intros Hcap Hkinds Hr Hi Hno. destruct (reached_worker capacity kinds s Hkinds Hr) as (w & u & Hw & Hu).
  exact (unblocked_behind capacity s w u Hcap (reached_well capacity kinds s Hr) Hw Hu i t Hi Hno).
Qed.

(** ** A guard that is not dropped *)
Section Stalled.
Context (capacity : nat) (i r k : nat) (l : Lock) (before : list nat).
Local Existing Instance fair_lock.
Implicit Types s : Tasks.

(** Task [i] has the lock, [r] waits to write and [k] is not ahead of it. *)
Definition held_up (p : Prog) (held : list (Lock * Mode)) s : Prop :=
  holds i l s
  /\ (exists ahead rest, s_waiting s l = ahead ++ (r, Write) :: rest /\ ahead.*1 ⊆ before)
  /\ exists t, s_tasks s !! k = Some t /\ t_prog t = p /\ t_held t = held.

Lemma other_keeps j s s' u :
  step capacity j s s' -> j <> i -> s_tasks s !! i = Some u -> s_tasks s' !! i = Some u.
Proof.
  intros Hs Hne Hi. destruct Hs; simpl; [by apply lookup_app_l_Some|..]; by rewrite list_lookup_insert_ne.
Qed.

(** Nobody passes the writer: only one that was ahead of it is let in. *)
Lemma front_leaves s j m ahead rest ahead' rest' :
  holds i l s -> s_waiting s l = ahead ++ (r, Write) :: rest -> ahead.*1 ⊆ before ->
  s_waiting s l = ahead' ++ (j, m) :: rest' -> admits (held_modes l s) ahead'.*2 m = true ->
  j ∈ before /\ exists ahead1, ahead' ++ rest' = ahead1 ++ (r, Write) :: rest /\ ahead1.*1 ⊆ before.
Proof.
  intros Hh El Hb El' Ha. simpl in Ha. apply andb_true_iff in Ha as [Hfirst Hc].
  apply bool_decide_eq_true, fmap_nil_inv in Hfirst. subst ahead'. simpl in El'. rewrite El in El'.
  destruct ahead as [|[j' m'] ahead]; simpl in El'; injection El' as E1 E2 E3.
  - exfalso. subst m. simpl in Hc. apply bool_decide_eq_true in Hc.
    destruct Hh as (t & Hi & Hl). apply list_elem_of_fmap in Hl as ([l' m] & E & Hin). simpl in E. subst l'.
    assert (Hm : m ∈ held_modes l s) by (apply held_mode; by exists i, t).
    rewrite Hc in Hm. by apply not_elem_of_nil in Hm.
  - subst. simpl in *. split; [apply Hb; by left|]. exists ahead. split; [done|].
    intros x Hx. apply Hb. by right.
Qed.

Lemma held_up_step j m q held s s' :
  step capacity j s s' -> j <> i -> k ∉ before ->
  held_up (Do (Acquire l m) q) held s -> held_up (Do (Acquire l m) q) held s'.
Proof.
  intros Hs Hne Hk (Hh & (ahead & rest & El & Hb) & t & Ht & Hp & Hheld). split_and!.
  { destruct Hh as (u & Hu & Hl). exists u. split; [by eapply other_keeps|done]. }
  - destruct Hs as [| | | |j s u l1 m1 k1 Hj Hpj Hq|j s u l1 m1 k1 ahead1 behind1 Hj Hpj El1 Ha1| | |]; simpl;
      try by exists ahead, rest.
    + unfold set_waiting. destruct (decide (l = l1)) as [->|]; [|by exists ahead, rest].
      exists ahead, (rest ++ [(j, m1)]). split; [|done]. by rewrite El, <- app_assoc.
    + unfold set_waiting. destruct (decide (l = l1)) as [<-|]; [|by exists ahead, rest].
      destruct (front_leaves s j m1 ahead rest ahead1 behind1 Hh El Hb El1 Ha1) as (_ & ahead2 & E2 & Hb2).
      by exists ahead2, rest.
  - destruct (decide (j = k)) as [->|Hjk].
    + destruct Hs as [s k0|k s u p Hj Hpj Hk'|k s u p1 q1 r1 Hj Hpj Hr|k s u p1 k1 Hj Hpj
        |k s u l1 m1 k1 Hj Hpj Hq|k s u l1 m1 k1 ahead1 behind1 Hj Hpj El1 Ha1
        |k s u l1 m1 held1 k1 Hj Hpj Eh|k s u k1 Hj Hpj Hq|k s u k1 n Hj Hpj Hq]; simpl.
      1: exists t; split; [by apply lookup_app_l_Some|done].
      all: simplify_eq; try congruence.
      * eexists. rewrite list_lookup_insert_eq by (by eapply lookup_lt_Some). done.
      * rewrite Hp in Hpj. injection Hpj as <- <- <-.
        by destruct (front_leaves s k m ahead rest ahead1 behind1 Hh El Hb El1 Ha1) as [Hin _].
    + exists t. split; [|done]. destruct Hs; simpl; [by apply lookup_app_l_Some|..]; by rewrite list_lookup_insert_ne.
Qed.
End Stalled.

(** A guard that is not dropped holds up everybody once somebody waits to write.  The lock is
    fair: while task [i] keeps its guard and takes no step, a task that waits for
    that lock, and is not in line before the writer, gets no further, whatever the others do. *)
Lemma guard_stalls (capacity : nat) (s s' : Tasks) (i r k : nat) (l : Lock) (ahead rest : list (nat * Mode))
    (t : Task) (m : Mode) (q : Prog) :
  holds i l s -> s_waiting s l = ahead ++ (r, Write) :: rest ->
  s_tasks s !! k = Some t -> t_prog t = Do (Acquire l m) q -> k ∉ ahead.*1 ->
  rtc (@step_without fair_lock capacity i) s s' ->
  exists t', s_tasks s' !! k = Some t' /\ t_prog t' = t_prog t /\ t_held t' = t_held t.
Proof.
  intros Hh El Hk Hp Hnot Hr.
  assert (Hup : held_up i r k l ahead.*1 (Do (Acquire l m) q) (t_held t) s').
  { assert (Hs : held_up i r k l ahead.*1 (Do (Acquire l m) q) (t_held t) s).
    { split; [done|]. split; [by exists ahead, rest|]. by exists t. }
    clear Hh El Hk. induction Hr as [s|s s1 s2 (j & Hne & Hj) _ IH]; [done|].
    apply IH. by eapply held_up_step. }
  destruct Hup as (_ & _ & t' & Ht' & Hp' & Hh'). exists t'. by rewrite Hp.
Qed.

(** C23: POST, IHAVE and TAKETHIS write their refusal while they hold the guard on the
    configuration.  When the client [i] does not read it and a reload waits for the
    configuration, a client [k] that connects then is not greeted, whatever the others do,
    for as long as [i] does not read: its task does not get past the start of the connection. *)
Theorem unread_refusal_stalls (capacity : nat) (kinds : list Kind) (s s' : Tasks) (i r k : nat) (ti tk : Task) :
  @reached fair_lock capacity kinds s ->
  s_tasks s !! i = Some ti -> t_prog ti = answer dropped ->
  (r, Write) ∈ s_waiting s Configuration ->
  s_tasks s !! k = Some tk -> t_prog tk = opening_awaits -> t_queued tk = false ->
  rtc (@step_without fair_lock capacity i) s s' ->
  exists t', s_tasks s' !! k = Some t' /\ t_prog t' = opening_awaits.
Proof.
  intros Hr Hi Hpi Hw Hk Hpk Hq Hrun.
  destruct (@reached_well fair_lock capacity kinds s Hr) as (Ht & Hline & _ & _).
  assert (Hh : holds i Configuration s).
  { exists ti. split; [exact Hi|]. destruct (Ht i ti Hi) as [[Hd _] _]. rewrite Hpi in Hd. simpl in Hd.
    destruct (t_held ti).*1 as [|h held]; [done|]. apply andb_true_iff in Hd as [Hd _].
    apply bool_decide_eq_true in Hd. subst h. by left. }
  apply list_elem_of_split in Hw as (ahead & rest & El).
  destruct (guard_stalls capacity s s' i r k Configuration ahead rest tk Read (Do (Release Configuration) (answer Stop))
              Hh El Hk Hpk) as (t' & Ht' & Hp' & _); [|exact Hrun|].
  - intros Hin. apply list_elem_of_fmap in Hin as ([k' m] & E & Hin). simpl in E. subst k'.
    destruct (Hline Configuration k m) as (u & Hu & Hqu & _); [rewrite El; apply elem_of_app; by left|].
    congruence.
  - exists t'. split; [exact Ht'|]. by rewrite Hp'.
Qed.

(** ** A client that does not read its refusal

    Task 0 is a connection whose client sent an article with IHAVE that the validation
    refused: it writes 437 while it holds the guard on the configuration.  The operator asks
    for a reload (task 1), and a client connects (task 2). *)
Definition some_tasks : list Kind := [Connection; Reload; Connection; Worker].
Definition to_the_refusal : list (nat * Choice) :=
  [(0, Starts (line_awaits (ihave_awaits None))); (0, Goes); (0, Second); (0, Second); (0, Goes); (0, Second);
   (0, Second); (0, Goes); (0, Second); (0, Second); (0, Goes); (0, Goes); (0, Second); (0, Goes); (0, First);
   (1, Starts reload_awaits); (1, Goes); (1, Second); (1, First); (1, Goes);
   (2, Starts opening_awaits); (3, Starts worker_awaits)].

Definition refusal_written : option Tasks := @turns fair_lock 1 to_the_refusal (start_tasks some_tasks).
Definition refused : Tasks := default (start_tasks []) refusal_written.
(** The others do what they can. *)
Definition later : option Tasks := @turns fair_lock 1 [(2, Goes)] refused.

Lemma runs_started : Forall (starts_ok some_tasks) to_the_refusal.
Proof.
  repeat constructor; cbn; try done; eexists; split; try reflexivity; repeat constructor.
Qed.

Lemma refused_reached : @reached fair_lock 1 some_tasks refused.
Proof.
  apply (@turns_reached fair_lock 1 some_tasks to_the_refusal); [exact runs_started|]. vm_compute. reflexivity.
Qed.

(** The reload is behind the connection, which goes on when its client reads. *)
Lemma no_deadlock_witness :
  @reached fair_lock 1 some_tasks refused
  /\ exists j, rtc (behind 1 refused) 1 j /\ @can_move fair_lock 1 j refused.
Proof.
  split; [exact refused_reached|].
  assert (Hk : exists t, s_tasks refused !! 1 = Some t /\ ~ no_work t refused).
  { eexists. split; [vm_compute; reflexivity|]. intros (_ & k & E). discriminate E. }
  destruct Hk as (t & Ht & Hno).
  refine (@no_deadlock fair_lock 1 some_tasks refused 1 t _ _ refused_reached Ht Hno); [lia|].
  unfold some_tasks. do 3 right. by left.
Defined.

(** The client that connects is not greeted. *)
Lemma unread_refusal_stalls_witness :
  @reached fair_lock 1 some_tasks refused
  /\ exists s' t', later = Some s' /\ s_tasks s' !! 2%nat = Some t' /\ t_prog t' = opening_awaits.
Proof.
  split; [exact refused_reached|].
  assert (Hl : exists s', later = Some s') by (eexists; vm_compute; reflexivity).
  destruct Hl as [s' Hl]. exists s'.
  assert (Hr : rtc (@step_without fair_lock 1 0) refused s').
  { apply (@turns_without fair_lock 1 0 [(2%nat, Goes)]); [repeat constructor|repeat constructor; discriminate|exact Hl]. }
  assert (Hw : (1%nat, Write) ∈ s_waiting refused Configuration) by (vm_compute; left).
  assert (Hi : exists t, s_tasks refused !! 0%nat = Some t /\ t_prog t = answer dropped)
    by (eexists; split; [vm_compute; reflexivity|reflexivity]).
  assert (Hk : exists t, s_tasks refused !! 2%nat = Some t /\ t_prog t = opening_awaits /\ t_queued t = false)
    by (eexists; split; [vm_compute; reflexivity|split; reflexivity]).
  destruct Hi as (ti & Hi & Hpi). destruct Hk as (tk & Hk & Hpk & Hq).
  destruct (unread_refusal_stalls 1 some_tasks refused s' 0 1 2 ti tk refused_reached Hi Hpi Hw Hk Hpk Hq Hr)
    as (t' & Ht' & Hp').
  exists t'. split; [exact Hl|]. split; [exact Ht'|exact Hp'].
Defined.
